(* ===== verification/_CoqProject ===== *)
-Q . S2P
Prelude.v
GoStrings.v
Utf8.v
Regexp.v
Wildcard.v
GoNet.v
Auth.v
Certloader.v
Flags.v
Fdlimit.v
TlsConfig.v
Dialer.v
Fuse.v
Buffers.v
Proxy.v
ConnLog.v
Json.v
Status.v
Signals.v
Main.v
System.v
Lifecycle.v
Sessions.v
EndToEnd.v
