(* ===== verification/Prelude.v ===== *)
(** * Ghostunnel: a verification development

    Ghostunnel is a TLS proxy. In server mode it terminates TLS and forwards
    plain connections to a local backend; in client mode it accepts plain
    connections and forwards them over TLS. This library models the program's
    own Go code ([src/*.go], [src/auth], [src/certloader], [src/proxy],
    [src/wildcard], [src/fdlimit]) and proves what makes it correct.

    ** The parts and the files

    - [Prelude] (this file): the outcome of a Go call (value, error or panic)
      with its monad, tactics, list and counting lemmas, and interleavings: a
      component with several threads is an executable function
      [step : choice -> state -> option state], a schedule is a list of choices,
      and invariants are proved by induction on the steps.
    - [GoStrings], [Utf8], [GoNet]: the parts of [strings], [unicode/utf8],
      [net], [net/url] and [crypto/x509] (its record of a certificate) the code
      uses; strings are byte strings, runes and bytes are integers.
    - [Regexp]: the regular expressions of package [regexp] for the syntax that
      [wildcard] generates: parser, executable matcher, and a relational
      semantics the matcher is proved equivalent to.
    - [Wildcard] ([wildcard/matcher.go]): patterns for URIs.
    - [Auth] ([auth/auth.go]): access control lists and the callbacks of
      [crypto/tls], against the interface [Matcher] that [Wildcard] implements.
    - [Certloader] ([certloader/certigo.go], [keystore.go], [pkcs11_*.go],
      [certstore_*.go]): certificates that can be reloaded, in a state and error
      monad over files, open descriptors, a heap of certificate objects and the
      cached pointer. The interface [Certificate] is the class [CertificateI];
      its promise is the class [CertificateLaws], which the three
      implementations discharge and the theorems on histories use.
    - [Flags] (the flags declared in [main.go] and [unix.go], and their
      variables).
    - [Fdlimit] ([fdlimit]): the limit of open descriptors, on both platforms.
    - [TlsConfig] ([tls.go]): the TLS configuration, the CA bundle and the choice of the certificate, and what
      [crypto/tls] of Go 1.11 makes of the configuration in a full handshake.
    - [Dialer] ([certloader/dialer.go]): dialing with a timeout, an interleaving
      of the caller, the timer and the handshake over a channel.
    - [Fuse] ([fuse] and [copyData] of [proxy/proxy.go]): two connections and
      the two threads that copy between them, each with a buffer of its own.
    - [Buffers] ([bufferPool] of [proxy/proxy.go]): the pool those buffers come
      from, with an explicit memory; it implements private buffers.
    - [Proxy] (the rest of [proxy/proxy.go]): accept loop, handlers, [Shutdown]
      and [Wait] as an interleaving over the quit flag, the listener, the wait
      group and the counters; a forwarding handler holds a pipe of [Fuse]. The
      wait group has a counter, blocked and released callers of [Wait], and
      panics where [sync.WaitGroup] does: on a negative counter, on an [Add] from zero while there
      are waiters, and when it is in use again before a released waiter has run.
    - [Json]: what the program uses of [encoding/json] and of the text of times,
      with a reference reader.
    - [Status] ([status.go]): the status endpoint.
    - [Signals] ([signals.go], [unix.go], [windows.go]): signal handler and
      reload timer, on top of [Certloader] and [Status].
    - [Main] ([main.go]): validation of the flags, logger, metrics reporters,
      addresses, dialers, listeners, [run]: everything above composed as the code
      does, up to a proxy that is ready to accept.
    - [System]: the process from there on, as one interleaving: the end of
      [serverListen] and [clientListen] with [signalHandler] in the middle, the
      channel of signals, [reloadHandler], the forced exit, the threads of
      [Proxy], requests to the status endpoint, and changes of the files.
    - [ConnLog] ([logConnectionMessage] of [proxy/proxy.go]): the lines of the
      connection log, with the texts [package net] gives IP addresses and
      endpoints, and a reader for them.
    - [Lifecycle]: what the process promises: an abstract tunnel it refines, the
      end of every shutdown, its exits, certificates and status answers under
      concurrency; and from [run] to the end.
    - [Sessions]: [System] with the answers of the network to handlers computed
      from the configuration the process was started with: the handshakes of the
      listener ([TlsConfig]) and the dialing threads of each backend ([Dialer]).
    - [EndToEnd]: a process in client mode and one in server mode side by side, with
      the network that connects the backends of the one to the listener of the
      other.

    ** What the theorems show

    - Wildcards: compilation refines a direct reading of the pattern, for every
      pattern and separator that is no special character; the documented forms
      of patterns match what they should, except that a separator at the end of a
      pattern is not optional; errors.
    - Access control: both callbacks characterised exactly; no panics; with the
      wildcard patterns instead of an abstract matcher.
    - Certificates: a reload is all or nothing; hot swapping over any history
      is a register that each reload overwrites with what the files of the moment
      make, with pointers that stay valid; reloading is loading
      anew; the PKCS#11 key is kept; no panics.
    - TLS configuration: exact success and errors, suites, trust anchors, where
      the certificate comes from; whom a client accepts; that a server accepts
      every client.
    - Dialing: soundness of the result and termination in every interleaving.
    - Proxy: faithful forwarding, half-closing, termination (copying threads end or
      wait for a silent peer); bookkeeping of the wait group and the counters;
      [Wait] and [Shutdown]; isolation and clean-up of handlers; the proxy header
      of each connection; no backend without a handshake; no crashes but those
      of a race at the end of the drain.
    - Start-up: flags declared consistently and validated exactly, locality of
      the target, a certificate before listening, reporters, signals, status, its
      JSON read back.
    - The whole process: in every interleaving it refines the tunnel of
      [Lifecycle], in which a connection taken before the shutdown and forwarded
      after the last one had finished can end the drain with a panic; a shutdown
      signal reaches the drain in a bounded number of steps of the main thread, with
      the forced exit armed; every exit status is explained; overlapping reloads keep a certificate that can be offered; the
      status endpoint tells the truth about the process.
    - Sessions: with its handshakes and dialing threads the process takes steps of
      [System] only, so what is proved there applies; a running client only
      ever talks to backends whose peer, in the handshake of that very connection,
      presented certificates that its configuration admits; a running
      server only forwards connections whose TLS handshake succeeded, with a
      complete certificate, to the target of its flags; and what either sends on
      is what the connection's own peer sent, after the proxy header of the
      connection if there is one.
    - Two processes: together they are one tunnel from the client's local peers to
      the service behind the server, whatever either process and the network do.
    - Connection log: the texts of addresses read back, and lines tell
      connections apart.

    Theorems without an identifier describe behaviour that a reader should know
    of (concurrent calls of [Shutdown], connections that [Wait] does not cover,
    files left open, the minimum TLS version, panics on a nil certificate or a
    status socket that cannot be opened, reloads that overlap, a shutdown signal
    that is dropped, a drain that ends in a panic), or support the others.

    ** Conventions and bounds

    Integers are [Z] with their conversions written out ([uint16]); counts of
    steps and lengths are [nat]; the counter and the waiters of the wait group, 32
    bits wide in [sync.WaitGroup], are unbounded (they are at most the number of connections and
    threads). All definitions are total and executable.
    Fuel occurs in three places: the reader of [Json], a reference, has the length
    of its input, which is proved enough for what is written; a numeral of
    [ConnLog] has the number of digits of a 64-bit or 32-bit number, and reads
    back as the number; its search for the longest run of zeros has one unit per
    group, which is proved enough. Elsewhere loops are structural, the regular expression matcher
    terminates because a repetition consumes input, and interleavings are
    described step by step with schedules of any length. Library code outside
    the repository's own is a class of operations with its documented laws
    ([CertLibs], [CertLibsOk], [X509Libs], [X509LibsOk], [ProxyProto]), instantiated by concrete functions in
    the witnesses. What the network answers is part of a schedule or of the
    record [world].

    ** What is not modelled

    Third-party packages under [src/vendor], the metrics reporters themselves (only
    which ones are started), the dialer for HTTP CONNECT proxies and the parsers of
    certificate files (packages under [src/vendor], or not in the repository, as
    the parser of the proxy protocol), the text of log messages other than those of
    the connection log (no decision depends on them), the HTTP server beyond its
    routes and the status answer, cryptography and the parsing of certificates,
    TLS session resumption, and real time (a timer may fire at any moment; that it
    fires at all is not assumed). The return of [Wait] and the end of the process are
    one step, and so are the last check of [WaitGroup.Done] and the release of the
    waiters. Files that cannot be opened are files that do
    not exist. The HTTP server and the reload timer end with the process.

    ** What could be added

    Every function of the program's own packages has its definition here. The
    models could be set in a wider environment: several processes that share one
    port (SO_REUSEPORT), fairness of the scheduler, and resource limits. *)
From stdpp Require Import base list strings gmap.

(** ** Outcomes of Go calls *)

(** A Go call that returns [(value, error)] and may panic. *)
Inductive outcome (E A : Type) : Type :=
  | Ret (a : A)
  | Err (e : E)
  | Panic.
Arguments Ret {E A} a.
Arguments Err {E A} e.
Arguments Panic {E A}.

#[export] Instance outcome_ret {E} : MRet (outcome E) := fun A a => Ret a.
#[export] Instance outcome_bind {E} : MBind (outcome E) := fun A B f m =>
  match m with
  | Ret a => f a
  | Err e => Err e
  | Panic => Panic
  end.
#[export] Instance outcome_fmap {E} : FMap (outcome E) := fun A B f m =>
  match m with
  | Ret a => Ret (f a)
  | Err e => Err e
  | Panic => Panic
  end.

#[export] Instance outcome_eq_dec {E A} `{!EqDecision E, !EqDecision A} :
  EqDecision (outcome E A).
Proof. solve_decision. Defined.

(** The laws the error paths rely on: a sequence succeeds exactly when every
    step succeeds, and stops at the first step that does not. *)
Lemma Ret_inj {E A} (a b : A) : Ret (E := E) a = Ret b -> a = b.
Proof. by intros [= ->]. Qed.

Lemma bind_Ret_inv {E A B} (m : outcome E A) (f : A -> outcome E B) b :
  m ≫= f = Ret b <-> exists a, m = Ret a /\ f a = Ret b.
Proof. destruct m; naive_solver. Qed.

Lemma guard_Ret {E A} (c : bool) (e : E) (m : outcome E A) a :
  (if c then Err e else m) = Ret a <-> c = false /\ m = Ret a.
Proof. by destruct c; split; [| intros [] | intros | intros [] ]. Qed.

Lemma bind_assoc {E A B C} (m : outcome E A) (f : A -> outcome E B)
    (g : B -> outcome E C) :
  (m ≫= f) ≫= g = m ≫= (fun a => f a ≫= g).
Proof. by destruct m. Qed.

(** ** Tactics *)

(** Case analysis on the scrutinee of a [match] or [if] of the goal or of a
    hypothesis, keeping the equation. *)
Ltac case_any :=
  match goal with
  | |- context [match ?x with _ => _ end] => destruct x eqn:?
  | H : context [match ?x with _ => _ end] |- _ => destruct x eqn:?
  end.

(** Boolean hypotheses and goals into propositions. *)
Ltac bool_prop :=
  repeat match goal with
  | H : (_ && _) = true |- _ => apply andb_true_iff in H as [? ?]
  | H : (_ || _) = true |- _ => apply orb_true_iff in H as [?|?]
  | H : (_ && _) = false |- _ => apply andb_false_iff in H as [?|?]
  | H : (_ || _) = false |- _ => apply orb_false_iff in H as [? ?]
  | H : negb _ = true |- _ => apply negb_true_iff in H
  | H : negb _ = false |- _ => apply negb_false_iff in H
  | H : bool_decide _ = true |- _ => apply bool_decide_eq_true in H
  | H : bool_decide _ = false |- _ => apply bool_decide_eq_false in H
  end.

Create HintDb ghost discriminated.

(** ** Lists *)

Lemma existsb_iff {A} (f : A -> bool) (P : A -> Prop) (l : list A) :
  (forall x, f x = true <-> P x) ->
  existsb f l = true <-> exists x, x ∈ l /\ P x.
Proof.
  intros Hf. rewrite existsb_exists. split; intros (x & Hx & Px).
  - exists x. split; [by apply list_elem_of_In | by apply Hf].
  - exists x. split; [by apply list_elem_of_In | by apply Hf].
Qed.

(** Induction on the length of a list, for functions that step over several
    elements at a time. *)
Lemma list_len_ind {A} (P : list A -> Prop) :
  (forall l, (forall k, length k < length l -> P k) -> P l) -> forall l, P l.
Proof.
  intros Hstep l. remember (length l) as n eqn:Hn. revert l Hn.
  induction n as [n IH] using lt_wf_ind. intros l ->.
  apply Hstep. intros k Hk. by eapply IH.
Qed.

Lemma Forall2_in_l {A B} (P : A -> B -> Prop) l k x :
  Forall2 P l k -> x ∈ l -> exists y, y ∈ k /\ P x y.
Proof.
  induction 1 as [|a b l k Hab _ IH]; [by intros ?%elem_of_nil|].
  intros [->|Hx]%elem_of_cons.
  - exists b. split; [left|done].
  - destruct (IH Hx) as (y & ? & ?). exists y. split; [by right|done].
Qed.

Lemma Forall2_in_r {A B} (P : A -> B -> Prop) l k y :
  Forall2 P l k -> y ∈ k -> exists x, x ∈ l /\ P x y.
Proof.
  intros H. apply (Forall2_in_l (fun b a => P a b) k l y). by apply Forall2_flip.
Qed.

(** ** Interleavings *)

(** A component whose threads interleave is an executable function
    [step : choice -> state -> option state]: a choice names a thread, the step
    it takes and what the world answers; [None] means that the step is not
    enabled. *)
Definition steps {S C : Type} (step : C -> S -> option S) : S -> S -> Prop :=
  rtc (fun s s' => exists c, step c s = Some s').

(** A schedule is a list of choices. *)
Fixpoint run {S C : Type} (step : C -> S -> option S) (cs : list C) (s : S) : option S :=
  match cs with
  | [] => Some s
  | c :: rest => s' ← step c s; run step rest s'
  end.

Lemma run_steps {S C : Type} (step : C -> S -> option S) s' :
  forall s, steps step s s' <-> exists cs, run step cs s = Some s'.
Proof.
  intros s. split.
  - induction 1 as [s|s s1 s2 [c Hc] _ [cs IH]]; [by exists []|].
    exists (c :: cs). simpl. by rewrite Hc.
  - intros [cs Hr]. revert s Hr. induction cs as [|c cs IH]; simpl; intros s Hr.
    { injection Hr as ->. constructor. }
    destruct (step c s) as [s1|] eqn:E; [|done]. econstructor; [by exists c|]. by apply IH.
Qed.

(** Invariants by rule induction. *)
Lemma steps_invariant {S C : Type} (step : C -> S -> option S) (I : S -> Prop) s s' :
  (forall c s s', I s -> step c s = Some s' -> I s') -> I s -> steps step s s' -> I s'.
Proof. intros Hs Hi. induction 1 as [|s s1 s2 [c Hc] _ IH]; eauto. Qed.

Lemma steps_r {S C : Type} (step : C -> S -> option S) s s1 s2 c :
  steps step s s1 -> step c s1 = Some s2 -> steps step s s2.
Proof.
  induction 1 as [|s s' s1 Hs _ IH]; intros Hc; [|by econstructor; [exact Hs|apply IH]].
  econstructor; [by exists c|constructor].
Qed.

(** The same for the schedules that respect an assumption on the environment. *)
Lemma run_invariant {S C : Type} (step : C -> S -> option S) (Q : C -> Prop) (I : S -> Prop) cs :
  (forall c s s', Q c -> I s -> step c s = Some s' -> I s') -> Forall Q cs ->
  forall s s', I s -> run step cs s = Some s' -> I s'.
Proof.
  intros Hs. induction 1 as [|c cs Hc _ IH]; simpl; intros s s' Hi Hr; [by injection Hr as <-|].
  destruct (step c s) as [s1|] eqn:E; [|done]. eauto.
Qed.

(** A natural measure that every step decreases bounds every schedule. *)
Lemma run_bounded {S C : Type} (step : C -> S -> option S) (m : S -> nat) cs :
  (forall c s s', step c s = Some s' -> m s' < m s) ->
  forall s s', run step cs s = Some s' -> length cs + m s' <= m s.
Proof.
  intros Hm. induction cs as [|c cs IH]; simpl; intros s s' Hr.
  { injection Hr as ->. lia. }
  destruct (step c s) as [s1|] eqn:E; [|done]. apply IH in Hr. apply Hm in E. lia.
Qed.

(** ** Counting *)

(** The number of elements of a list that satisfy a test, as an integer. *)
Definition countb {A} (f : A -> bool) (l : list A) : Z :=
  foldr (fun x n => (Z.b2z (f x) + n)%Z) 0%Z l.

Lemma countb_app {A} (f : A -> bool) l k : countb f (l ++ k) = (countb f l + countb f k)%Z.
Proof. induction l as [|x l IH]; simpl; [done|]. rewrite IH. lia. Qed.

Lemma countb_insert {A} (f : A -> bool) l i x y : l !! i = Some x ->
  countb f (<[i := y]> l) = (countb f l - Z.b2z (f x) + Z.b2z (f y))%Z.
Proof.
  revert i. induction l as [|z l IH]; intros [|i] H; simpl in *; try done.
  - injection H as ->. lia.
  - rewrite (IH i H). lia.
Qed.

Lemma countb_bounds {A} (f : A -> bool) l : (0 <= countb f l <= Z.of_nat (length l))%Z.
Proof. induction l as [|x l IH]; simpl; [lia|]. destruct (f x); simpl; lia. Qed.

Lemma countb_le {A} (f g : A -> bool) l :
  (forall x, f x = true -> g x = true) -> (countb f l <= countb g l)%Z.
Proof.
  intros H. induction l as [|x l IH]; simpl; [lia|].
  specialize (H x). destruct (f x), (g x); simpl; try lia.
Qed.

Lemma countb_pos {A} (f : A -> bool) l :
  (0 < countb f l)%Z <-> exists i x, l !! i = Some x /\ f x = true.
Proof.
  split.
  - induction l as [|x l IH]; simpl; [lia|]. intros H. destruct (f x) eqn:E.
    + by exists 0, x.
    + destruct IH as (i & y & Hi & Hy); [simpl in H; lia|]. by exists (S i), y.
  - intros (i & x & Hi & Hx). revert i Hi. induction l as [|z l IH]; intros [|i] Hi; simpl in *;
      try done.
    + injection Hi as ->. rewrite Hx. pose proof (countb_bounds f l). simpl. lia.
    + specialize (IH i Hi). destruct (f z); simpl; lia.
Qed.
