(* ===== verification/GoStrings.v ===== *)
(** * Go strings

    A Go string is a sequence of bytes, and so is [string]: a list of 8-bit
    characters. This file holds the view of a string as its byte values and the
    functions of the package [strings] the program calls; [TrimSpace], which
    works on runes, is in [Utf8]. *)
From Stdlib Require Import ZArith Ascii.
From stdpp Require Import base list sets strings.
From S2P Require Import Prelude.
#[local] Open Scope Z_scope.

(** ** Bytes *)

Definition byte_val (c : ascii) : Z := Z.of_N (Ascii.N_of_ascii c).
Definition byte_chr (z : Z) : ascii := Ascii.ascii_of_N (Z.to_N z).

Fixpoint bytes (s : string) : list Z :=
  match s with
  | EmptyString => []
  | String c t => byte_val c :: bytes t
  end.

Fixpoint of_bytes (l : list Z) : string :=
  match l with
  | [] => EmptyString
  | z :: t => String (byte_chr z) (of_bytes t)
  end.

Definition is_byte (z : Z) : Prop := 0 <= z < 256.

Lemma byte_val_range c : is_byte (byte_val c).
Proof.
  unfold is_byte, byte_val. pose proof (Ascii.N_ascii_bounded c). lia.
Qed.

Lemma byte_chr_val c : byte_chr (byte_val c) = c.
Proof. unfold byte_chr, byte_val. by rewrite N2Z.id, Ascii.ascii_N_embedding. Qed.

Lemma byte_val_chr z : is_byte z -> byte_val (byte_chr z) = z.
Proof.
  unfold is_byte, byte_chr, byte_val. intros ?.
  rewrite Ascii.N_ascii_embedding by lia. lia.
Qed.

Lemma byte_val_inj c d : byte_val c = byte_val d -> c = d.
Proof. intros H. by rewrite <- (byte_chr_val c), H, byte_chr_val. Qed.

Lemma bytes_range s : Forall is_byte (bytes s).
Proof. induction s; simpl; constructor; auto using byte_val_range. Qed.

Lemma of_bytes_bytes s : of_bytes (bytes s) = s.
Proof. induction s; simpl; [done|]. by rewrite byte_chr_val, IHs. Qed.

Lemma bytes_of_bytes l : Forall is_byte l -> bytes (of_bytes l) = l.
Proof. induction 1; simpl; [done|]. by rewrite byte_val_chr, IHForall. Qed.

Lemma bytes_inj s t : bytes s = bytes t -> s = t.
Proof. intros H. by rewrite <- (of_bytes_bytes s), H, of_bytes_bytes. Qed.

Lemma str_app_assoc s t u : s +:+ t +:+ u = (s +:+ t) +:+ u.
Proof. induction s as [|c s IH]; [done|]. change (String c (s +:+ t +:+ u) = String c ((s +:+ t) +:+ u)). by rewrite IH. Qed.

Lemma bytes_app s t : bytes (s +:+ t) = bytes s ++ bytes t.
Proof. induction s; simpl; [done|]. by rewrite IHs. Qed.

Lemma of_bytes_app l k : of_bytes (l ++ k) = of_bytes l +:+ of_bytes k.
Proof. induction l; simpl; [done|]. by rewrite IHl. Qed.

#[export] Hint Rewrite bytes_app of_bytes_bytes : ghost.

(** ** Prefixes *)

(** [strings.HasPrefix s p]. *)
Definition HasPrefix (s p : string) : bool := String.prefix p s.

Lemma HasPrefix_spec s p : HasPrefix s p = true <-> exists t, s = p +:+ t.
Proof.
  unfold HasPrefix. revert s. induction p as [|c p IH]; intros s; simpl.
  { split; [eauto|]. by destruct s. }
  destruct s as [|d s]; simpl; [split; [done|intros [t Ht]; discriminate Ht]|].
  destruct (Ascii.ascii_dec c d) as [->|Hcd].
  - rewrite IH. split; intros [t Ht]; exists t; [by rewrite Ht | by injection Ht].
  - split; [done|]. intros [t Ht]. by injection Ht as ->.
Qed.

(** The slice expression [s[n:]]. *)
Fixpoint str_drop (n : nat) (s : string) : string :=
  match n, s with
  | O, _ => s
  | S n, EmptyString => EmptyString
  | S n, String _ t => str_drop n t
  end.

Lemma str_drop_app p t : str_drop (String.length p) (p +:+ t) = t.
Proof. by induction p. Qed.

(** ** Searching *)

(** [strings.Contains s sub]. *)
Fixpoint Contains (s sub : string) : bool :=
  HasPrefix s sub ||
  match s with
  | EmptyString => false
  | String _ t => Contains t sub
  end.

Lemma Contains_spec s sub :
  Contains s sub = true <-> exists a b, s = a +:+ sub +:+ b.
Proof.
  induction s as [|c s IH]; cbn [Contains].
  - rewrite orb_false_r, HasPrefix_spec. split.
    + intros [t Ht]. by exists "", t.
    + intros (a & b & H). destruct a; [eauto|done].
  - rewrite orb_true_iff, HasPrefix_spec, IH. split.
    + intros [[t Ht]|(a & b & ->)]; [by exists "", t | by exists (String c a), b].
    + intros (a & b & H). destruct a as [|d a]; [eauto|]. injection H as -> ->. eauto.
Qed.

(** ** Splitting *)

(** [genSplit s sep 0 (-1)] for a non-empty separator: [skip] counts the bytes
    of an occurrence of [sep] still to be stepped over, [cur] holds the bytes
    of the current field in reverse order. *)
Fixpoint split_from (sep : list Z) (skip : nat) (cur s : list Z) : list (list Z) :=
  match s with
  | [] => [reverse cur]
  | c :: t =>
    match skip with
    | S k => split_from sep k cur t
    | O =>
      if bool_decide (sep `prefix_of` s)
      then reverse cur :: split_from sep (length sep - 1) [] t
      else split_from sep O (c :: cur) t
    end
  end.

(** [strings.Split s sep], for a non-empty [sep]. *)
Definition Split (s sep : string) : list string :=
  map of_bytes (split_from (bytes sep) O [] (bytes s)).

(** Splitting at one symbol, the reference definition. *)
Fixpoint split_on (x : Z) (s : list Z) : list (list Z) :=
  match s with
  | [] => [[]]
  | c :: t =>
    if Z.eq_dec c x then [] :: split_on x t
    else match split_on x t with
         | [] => [[c]]
         | f :: fs => (c :: f) :: fs
         end
  end.

(** [strings.Join], the inverse of splitting. *)
Fixpoint join_on (x : Z) (fs : list (list Z)) : list Z :=
  match fs with
  | [] => []
  | [f] => f
  | f :: gs => f ++ x :: join_on x gs
  end.

Lemma split_on_nonempty x s : split_on x s <> [].
Proof. destruct s as [|c s]; simpl; [done|]. by repeat case_match. Qed.

Lemma split_from_single x cur s :
  split_from [x] O cur s =
  match split_on x s with
  | [] => []
  | f :: fs => (reverse cur ++ f) :: fs
  end.
Proof.
  revert cur. induction s as [|c s IH]; intros cur; cbn [split_from split_on].
  { by rewrite app_nil_r. }
  destruct (Z.eq_dec c x) as [->|Hc].
  - rewrite bool_decide_true by (by exists s). cbn [length Nat.sub].
    rewrite IH, app_nil_r. pose proof (split_on_nonempty x s). by destruct (split_on x s).
  - rewrite bool_decide_false.
    2: { intros [k Hk]. simplify_eq/=. }
    rewrite IH. pose proof (split_on_nonempty x s).
    destruct (split_on x s) as [|f fs]; [done|].
    by rewrite reverse_cons, <- app_assoc.
Qed.

Lemma split_on_join x s : join_on x (split_on x s) = s.
Proof.
  induction s as [|c s IH]; simpl; [done|].
  pose proof (split_on_nonempty x s) as Hne.
  destruct (Z.eq_dec c x) as [->|Hc].
  - destruct (split_on x s); [done|]. simpl. by f_equal.
  - destruct (split_on x s) as [|f [|g fs]]; [done| |]; simpl in *; by f_equal.
Qed.

Lemma split_on_free x s : Forall (fun f => x ∉ f) (split_on x s).
Proof.
  induction s as [|c s IH]; simpl.
  - constructor; [apply not_elem_of_nil|constructor].
  - destruct (Z.eq_dec c x) as [->|Hc].
    + constructor; [apply not_elem_of_nil|done].
    + destruct (split_on x s) as [|f fs]; inversion IH; subst;
        constructor; try set_solver.
Qed.

Lemma split_on_app x a b : x ∉ a ->
  split_on x (a ++ x :: b) = a :: split_on x b.
Proof.
  induction a as [|c a IH]; intros Ha; simpl.
  - by destruct (Z.eq_dec x x).
  - destruct (Z.eq_dec c x) as [->|Hc]; [set_solver|].
    rewrite IH by set_solver. done.
Qed.

Lemma split_on_no x a : x ∉ a -> split_on x a = [a].
Proof.
  induction a as [|c a IH]; intros Ha; simpl; [done|].
  destruct (Z.eq_dec c x) as [->|Hc]; [set_solver|].
  rewrite IH by set_solver. done.
Qed.

(** Joining symbol-free fields and splitting again. *)
Lemma join_on_app x a b : a <> [] -> b <> [] ->
  join_on x (a ++ b) = join_on x a ++ x :: join_on x b.
Proof.
  intros Ha Hb. induction a as [|f a IH]; [done|]. destruct a as [|g a].
  - destruct b; [done|]. reflexivity.
  - change (join_on x ((f :: g :: a) ++ b)) with (f ++ x :: join_on x ((g :: a) ++ b)).
    rewrite IH by done. cbn [join_on]. by rewrite <- app_assoc.
Qed.

Lemma split_on_join_app x fs w : fs <> [] -> Forall (fun f => x ∉ f) fs ->
  split_on x (join_on x fs ++ x :: w) = fs ++ split_on x w.
Proof.
  intros Hne Hf. induction Hf as [|f fs Hf Hfs IH]; [done|]. destruct fs as [|g fs].
  - by apply split_on_app.
  - change (join_on x (f :: g :: fs)) with (f ++ x :: join_on x (g :: fs)).
    rewrite <- app_assoc. cbn [app]. rewrite split_on_app by done. by rewrite IH.
Qed.

Lemma join_on_split x fs : fs <> [] -> Forall (fun f => x ∉ f) fs ->
  split_on x (join_on x fs) = fs.
Proof.
  intros Hne Hf. induction Hf as [|f fs Hf Hfs IH]; [done|]. destruct fs as [|g fs].
  - by apply split_on_no.
  - change (join_on x (f :: g :: fs)) with (f ++ x :: join_on x (g :: fs)).
    rewrite split_on_app by done. by rewrite IH.
Qed.

Lemma elem_of_join x fs c : c <> x -> c ∈ join_on x fs <-> exists f, f ∈ fs /\ c ∈ f.
Proof.
  intros Hc. induction fs as [|f fs IH]; [set_solver|]. destruct fs as [|g fs]; [set_solver|].
  change (join_on x (f :: g :: fs)) with (f ++ x :: join_on x (g :: fs)).
  rewrite elem_of_app, elem_of_cons, IH. set_solver.
Qed.

Lemma split_on_app_gen x a b :
  split_on x (a ++ x :: b) = split_on x a ++ split_on x b.
Proof.
  rewrite <- (split_on_join x a) at 1.
  apply split_on_join_app; [apply split_on_nonempty|apply split_on_free].
Qed.

(** Containing a string of one byte. *)
Lemma Contains_byte s c :
  Contains s (String c "") = true <-> byte_val c ∈ bytes s.
Proof.
  rewrite Contains_spec. split.
  - intros (a & b & ->). rewrite !bytes_app. cbn [bytes]. set_solver.
  - intros (l & k & H)%list_elem_of_split.
    exists (of_bytes l), (of_bytes k). apply bytes_inj.
    assert (Hr := bytes_range s). rewrite H in Hr.
    apply Forall_app in Hr as [Hl Hk]. inversion Hk; subst.
    by rewrite !bytes_app, !bytes_of_bytes, H.
Qed.
