(* ===== verification/Utf8.v ===== *)
(** * UTF-8

    The functions of the package [unicode/utf8] that [regexp], [strings] and
    [bytes.Buffer] rely on: decoding a byte sequence into runes, where every
    byte that starts no valid encoding stands for [RuneError], and encoding a
    rune. Runes are integers. *)
From Stdlib Require Import ZArith Ascii.
From stdpp Require Import base list sets strings.
From S2P Require Import Prelude GoStrings.
#[local] Open Scope Z_scope.

Definition RuneError : Z := 0xFFFD.

Definition between (lo hi b : Z) : bool := (lo <=? b) && (b <=? hi).

(** [utf8.DecodeRune]: the first rune and the number of bytes it takes. The
    ranges of the second byte are those of the table [acceptRanges]. *)
Definition DecodeRune (s : list Z) : Z * nat :=
  match s with
  | [] => (RuneError, 0%nat)
  | b0 :: t =>
    if b0 <? 0x80 then (b0, 1%nat)
    else if b0 <? 0xC2 then (RuneError, 1%nat)
    else if b0 <? 0xE0 then
      match t with
      | b1 :: _ =>
        if between 0x80 0xBF b1
        then ((b0 - 0xC0) * 64 + (b1 - 0x80), 2%nat) else (RuneError, 1%nat)
      | _ => (RuneError, 1%nat)
      end
    else if b0 <? 0xF0 then
      match t with
      | b1 :: b2 :: _ =>
        if between (if b0 =? 0xE0 then 0xA0 else 0x80)
                   (if b0 =? 0xED then 0x9F else 0xBF) b1
           && between 0x80 0xBF b2
        then ((b0 - 0xE0) * 4096 + (b1 - 0x80) * 64 + (b2 - 0x80), 3%nat)
        else (RuneError, 1%nat)
      | _ => (RuneError, 1%nat)
      end
    else if b0 <? 0xF5 then
      match t with
      | b1 :: b2 :: b3 :: _ =>
        if between (if b0 =? 0xF0 then 0x90 else 0x80)
                   (if b0 =? 0xF4 then 0x8F else 0xBF) b1
           && between 0x80 0xBF b2 && between 0x80 0xBF b3
        then ((b0 - 0xF0) * 262144 + (b1 - 0x80) * 4096
              + (b2 - 0x80) * 64 + (b3 - 0x80), 4%nat)
        else (RuneError, 1%nat)
      | _ => (RuneError, 1%nat)
      end
    else (RuneError, 1%nat)
  end.

(** [utf8.EncodeRune], also [string(r)] and [bytes.Buffer.WriteRune]: a value
    that is no Unicode scalar value is written as [RuneError]. *)
Definition EncodeRune (r : Z) : list Z :=
  if between 0 0x7F r then [r]
  else if between 0x80 0x7FF r then [0xC0 + r / 64; 0x80 + r mod 64]
  else if between 0x800 0xD7FF r || between 0xE000 0xFFFF r then
    [0xE0 + r / 4096; 0x80 + (r / 64) mod 64; 0x80 + r mod 64]
  else if between 0x10000 0x10FFFF r then
    [0xF0 + r / 262144; 0x80 + (r / 4096) mod 64; 0x80 + (r / 64) mod 64;
     0x80 + r mod 64]
  else [0xEF; 0xBF; 0xBD].

(** The Unicode scalar values, [utf8.ValidRune]. *)
Definition ValidRune (r : Z) : bool :=
  between 0 0xD7FF r || between 0xE000 0x10FFFF r.

(** The runes of a byte sequence with the bytes each one takes: the loop of
    [for range] and of the regular-expression input. [skip] counts the bytes of
    the current rune still to be stepped over. *)
Fixpoint decode_from (skip : nat) (s : list Z) : list (Z * nat) :=
  match s with
  | [] => []
  | _ :: t =>
    match skip with
    | S k => decode_from k t
    | O => let rn := DecodeRune s in rn :: decode_from (snd rn - 1) t
    end
  end.

Definition decode (s : list Z) : list (Z * nat) := decode_from 0 s.

(** The runes of a Go string. *)
Definition runes (s : string) : list Z := map fst (decode (bytes s)).

(** A rune read from a byte that starts no valid encoding. *)
Definition bad_rune (rn : Z * nat) : bool :=
  bool_decide (rn = (RuneError, 1%nat)).

(** [utf8.ValidString]. *)
Definition ValidString (s : string) : bool :=
  negb (existsb bad_rune (decode (bytes s))).

(** [string(r)] for a rune [r]. *)
Definition string_of_rune (r : Z) : string := of_bytes (EncodeRune r).
Definition encode (rs : list Z) : list Z := flat_map EncodeRune rs.

(** ** Decoding *)

Ltac decode_cases :=
  repeat match goal with
  | |- context [if ?b then _ else _] => destruct b eqn:?
  | |- context [match ?l with [] => _ | _ :: _ => _ end] => destruct l
  end.

Ltac ranges :=
  unfold between in *; bool_prop;
  rewrite ?Z.leb_le, ?Z.leb_gt, ?Z.ltb_lt, ?Z.ltb_ge, ?Z.eqb_eq, ?Z.eqb_neq in *.

Lemma DecodeRune_size b t :
  (1 <= snd (DecodeRune (b :: t)) <= length (b :: t))%nat.
Proof. unfold DecodeRune. decode_cases; simpl; lia. Qed.

(** A byte at or above [0x80] never decodes to a rune below [0x80]. *)
Lemma DecodeRune_high b t : 0x80 <= b -> 0x80 <= fst (DecodeRune (b :: t)).
Proof.
  intros Hb. unfold DecodeRune. destruct (Z.ltb_spec b 0x80); [lia|].
  decode_cases; simpl; unfold RuneError; ranges; lia.
Qed.

Lemma decode_from_drop k s : decode_from k s = decode (drop k s).
Proof.
  revert k. induction s as [|c s IH]; intros k; [by destruct k|].
  destruct k as [|k]; [done|]. simpl. apply IH.
Qed.

Lemma decode_cons b t :
  decode (b :: t) =
  DecodeRune (b :: t) :: decode (drop (snd (DecodeRune (b :: t))) (b :: t)).
Proof.
  unfold decode at 1. cbn [decode_from]. cbv zeta.
  pose proof (DecodeRune_size b t) as Hn.
  destruct (snd (DecodeRune (b :: t))) as [|n] eqn:E; [lia|].
  f_equal. rewrite decode_from_drop. simpl. by rewrite Nat.sub_0_r.
Qed.

Lemma decode_ascii b t : b < 0x80 -> decode (b :: t) = (b, 1%nat) :: decode t.
Proof.
  intros Hb. rewrite decode_cons. unfold DecodeRune.
  destruct (Z.ltb_spec b 0x80); [done|lia].
Qed.

(** Bytes below [0x80] are never part of a longer encoding, so decoding is
    compositional at them. *)
Lemma DecodeRune_app b a c t : c < 0x80 ->
  DecodeRune ((b :: a) ++ c :: t) = DecodeRune (b :: a).
Proof.
  intros Hc. unfold DecodeRune.
  destruct a as [|a1 [|a2 [|a3 a]]]; simpl; decode_cases;
    first [done | ranges; lia].
Qed.

Lemma decode_app_ascii a c t : c < 0x80 ->
  decode (a ++ c :: t) = decode a ++ (c, 1%nat) :: decode t.
Proof.
  intros Hc. induction a as [a IH] using list_len_ind.
  destruct a as [|b a]; [by apply decode_ascii|].
  change ((b :: a) ++ c :: t) with (b :: (a ++ c :: t)).
  rewrite !decode_cons.
  change (b :: (a ++ c :: t)) with ((b :: a) ++ c :: t).
  rewrite DecodeRune_app by done.
  pose proof (DecodeRune_size b a) as Hn.
  rewrite drop_app_le by lia. rewrite <- app_comm_cons. f_equal.
  apply IH. rewrite length_drop. simpl in *. lia.
Qed.

Lemma decode_app_all_ascii a t : Forall (fun b => b < 0x80) a ->
  decode (a ++ t) = map (fun b => (b, 1%nat)) a ++ decode t.
Proof. induction 1; simpl; [done|]. rewrite decode_ascii by done. by rewrite IHForall. Qed.

(** ** Round trips *)

(** Case analysis on the range tests of the goal, dropping the impossible
    branches at once. *)
Ltac range_cases :=
  repeat match goal with
  | |- context [?x <? ?y] => destruct (Z.ltb_spec x y); try lia
  | |- context [?x =? ?y] => destruct (Z.eqb_spec x y); try lia
  | |- context [?x <=? ?y] => destruct (Z.leb_spec x y); try lia
  end.

Lemma decode_encode_rune r s : ValidRune r = true ->
  DecodeRune (EncodeRune r ++ s) = (r, length (EncodeRune r)).
Proof.
  intros Hr. assert (Hv : 0 <= r <= 0xD7FF \/ 0xE000 <= r <= 0x10FFFF).
  { unfold ValidRune in Hr. ranges; lia. }
  clear Hr. unfold EncodeRune, between.
  pose proof (Z.div_mod r 64) as D1. pose proof (Z.mod_pos_bound r 64) as M1.
  pose proof (Z.div_mod (r / 64) 64) as D2. pose proof (Z.mod_pos_bound (r / 64) 64) as M2.
  pose proof (Z.div_mod (r / 4096) 64) as D3. pose proof (Z.mod_pos_bound (r / 4096) 64) as M3.
  assert (E2 : r / 64 / 64 = r / 4096) by (by rewrite Z.div_div).
  assert (E3 : r / 4096 / 64 = r / 262144) by (by rewrite Z.div_div).
  rewrite E2 in D2. rewrite E3 in D3.
  range_cases; cbn [andb orb app DecodeRune length]; unfold between;
    range_cases; cbn [andb orb]; f_equal; lia.
Qed.

Lemma div_mod_plus q m k : 0 <= m < k -> (q * k + m) / k = q /\ (q * k + m) mod k = m.
Proof.
  intros H. split.
  - rewrite Z.div_add_l by lia. rewrite Z.div_small; lia.
  - rewrite Z.add_comm, Z.mod_add by lia. by apply Z.mod_small.
Qed.

Lemma EncodeRune_2 b b1 :
  0xC2 <= b < 0xE0 -> 0x80 <= b1 <= 0xBF ->
  EncodeRune ((b - 0xC0) * 64 + (b1 - 0x80)) = [b; b1].
Proof.
  intros Hb H1. unfold EncodeRune, between.
  destruct (div_mod_plus (b - 192) (b1 - 128) 64) as [-> ->]; [lia|].
  range_cases; cbn [andb orb]. repeat f_equal; lia.
Qed.

Lemma EncodeRune_3 b b1 b2 :
  0xE0 <= b < 0xF0 -> 0x80 <= b1 <= 0xBF -> 0x80 <= b2 <= 0xBF ->
  (b = 0xE0 -> 0xA0 <= b1) -> (b = 0xED -> b1 <= 0x9F) ->
  EncodeRune ((b - 0xE0) * 4096 + (b1 - 0x80) * 64 + (b2 - 0x80)) = [b; b1; b2].
Proof.
  intros Hb H1 H2 Hlo Hhi. set (q := (b - 224) * 64 + (b1 - 128)).
  replace ((b - 224) * 4096 + (b1 - 128) * 64 + (b2 - 128))
    with (q * 64 + (b2 - 128)) by lia.
  destruct (div_mod_plus q (b2 - 128) 64) as [D1 M1]; [lia|].
  destruct (div_mod_plus (b - 224) (b1 - 128) 64) as [D2 M2]; [lia|].
  assert (D3 : (q * 64 + (b2 - 128)) / 4096 = b - 224).
  { rewrite <- D2. change 4096 with (64 * 64). rewrite <- Z.div_div by lia. by rewrite D1. }
  unfold EncodeRune. rewrite D3, D1, M1. fold q in M2. rewrite M2.
  unfold q, between. range_cases; cbn [andb orb]; repeat f_equal; lia.
Qed.

Lemma EncodeRune_4 b b1 b2 b3 :
  0xF0 <= b < 0xF5 -> 0x80 <= b1 <= 0xBF -> 0x80 <= b2 <= 0xBF -> 0x80 <= b3 <= 0xBF ->
  (b = 0xF0 -> 0x90 <= b1) -> (b = 0xF4 -> b1 <= 0x8F) ->
  EncodeRune ((b - 0xF0) * 262144 + (b1 - 0x80) * 4096 + (b2 - 0x80) * 64 + (b3 - 0x80))
  = [b; b1; b2; b3].
Proof.
  intros Hb H1 H2 H3 Hlo Hhi.
  set (q1 := (b - 240) * 64 + (b1 - 128)). set (q := q1 * 64 + (b2 - 128)).
  replace ((b - 240) * 262144 + (b1 - 128) * 4096 + (b2 - 128) * 64 + (b3 - 128))
    with (q * 64 + (b3 - 128)) by lia.
  destruct (div_mod_plus q (b3 - 128) 64) as [D1 M1]; [lia|].
  destruct (div_mod_plus q1 (b2 - 128) 64) as [D2 M2]; [lia|].
  destruct (div_mod_plus (b - 240) (b1 - 128) 64) as [D3 M3]; [lia|].
  assert (D4 : (q * 64 + (b3 - 128)) / 4096 = q1).
  { rewrite <- D2. change 4096 with (64 * 64). rewrite <- Z.div_div by lia. by rewrite D1. }
  assert (D5 : (q * 64 + (b3 - 128)) / 262144 = b - 240).
  { rewrite <- D3. change 262144 with (4096 * 64). rewrite <- Z.div_div by lia. by rewrite D4. }
  unfold EncodeRune. rewrite D5, D4, D1, M1. fold q1 in M3. fold q in M2. rewrite M2, M3.
  unfold q, q1, between. range_cases; cbn [andb orb]; repeat f_equal; lia.
Qed.

(** A rune that is read from a valid encoding is written back as the bytes it
    was read from. *)
Lemma encode_decode_rune b t : is_byte b ->
  bad_rune (DecodeRune (b :: t)) = false ->
  EncodeRune (fst (DecodeRune (b :: t))) = take (snd (DecodeRune (b :: t))) (b :: t).
Proof.
  unfold is_byte. intros Hb Hg. apply bool_decide_eq_false in Hg.
  unfold DecodeRune in *.
  destruct (Z.ltb_spec b 0x80); [cbn; unfold EncodeRune, between; by range_cases|].
  destruct (Z.ltb_spec b 0xC2); [done|].
  destruct (Z.ltb_spec b 0xE0).
  { destruct t as [|b1 t]; [done|]. destruct (between _ _ b1) eqn:E; [|done].
    ranges. by apply EncodeRune_2. }
  destruct (Z.ltb_spec b 0xF0).
  { destruct t as [|b1 [|b2 t]]; try done. case_match eqn:E; [|done].
    revert E. unfold between. range_cases; cbn [andb]; intros; try done;
      apply EncodeRune_3; lia. }
  destruct (Z.ltb_spec b 0xF5); [|done].
  destruct t as [|b1 [|b2 [|b3 t]]]; try done. case_match eqn:E; [|done].
  revert E. unfold between. range_cases; cbn [andb]; intros; try done;
    apply EncodeRune_4; lia.
Qed.

(** Encoding the runes of a valid string gives its bytes back. *)
Lemma encode_runes s : ValidString s = true -> encode (runes s) = bytes s.
Proof.
  unfold ValidString, runes, encode. rewrite negb_true_iff.
  pose proof (bytes_range s) as Hr. revert Hr. generalize (bytes s) as l. clear s.
  intros l. induction l as [l IH] using list_len_ind. intros Hr Hv.
  destruct l as [|b l]; [done|]. rewrite decode_cons in *.
  inversion Hr as [|? ? Hb Hl]; subst. simpl in Hv. apply orb_false_iff in Hv as [Hv1 Hv2].
  pose proof (DecodeRune_size b l) as Hn.
  cbn [map flat_map]. rewrite encode_decode_rune by done.
  rewrite IH; [by rewrite take_drop| |by apply Forall_drop|done].
  rewrite length_drop. lia.
Qed.

(** Decoding is injective on valid strings. *)
Lemma runes_inj s t : ValidString s = true -> ValidString t = true ->
  runes s = runes t -> s = t.
Proof.
  intros Hs Ht H. apply bytes_inj. by rewrite <- (encode_runes s), <- (encode_runes t), H.
Qed.

(** ** Trimming *)

(** [unicode.IsSpace]. *)
Definition IsSpace (r : Z) : bool :=
  between 9 13 r || (r =? 32) || (r =? 0x85) || (r =? 0xA0) || (r =? 0x1680)
  || between 0x2000 0x200A r || (r =? 0x2028) || (r =? 0x2029) || (r =? 0x202F)
  || (r =? 0x205F) || (r =? 0x3000).

(** The runes of a byte sequence, each with its bytes. *)
Fixpoint chunks (ds : list (Z * nat)) (s : list Z) : list (Z * list Z) :=
  match ds with
  | [] => []
  | (r, n) :: ds => (r, take n s) :: chunks ds (drop n s)
  end.

Fixpoint drop_spaces (cs : list (Z * list Z)) : list (Z * list Z) :=
  match cs with
  | (r, b) :: t => if IsSpace r then drop_spaces t else cs
  | [] => []
  end.

(** [strings.TrimSpace]: the runes that are spaces are dropped at both ends. *)
Definition TrimSpace (s : string) : string :=
  of_bytes (concat (map snd
    (reverse (drop_spaces (reverse (drop_spaces (chunks (decode (bytes s)) (bytes s)))))))).

Example TrimSpace_ex : TrimSpace "	 AES  " = "AES".
Proof. reflexivity. Qed.
