(* ===== verification/Regexp.v ===== *)
(** * Regular expressions

    The part of the package [regexp] that the wildcard compiler reaches: the
    syntax (with the flags of [regexp.Compile], [syntax.Perl]) as a one-pass
    stack parser over runes, [QuoteMeta], and unanchored matching of a byte
    sequence. Constructs outside this part (Perl classes and flags, counted
    repetition, ranges and escapes inside a class) end in [Unsupported]: the
    parser says so instead of giving them a meaning. *)
From Stdlib Require Import ZArith Ascii.
From stdpp Require Import base list sets strings.
From S2P Require Import Prelude GoStrings Utf8.
#[local] Open Scope Z_scope.

(** ** Syntax trees *)

Inductive regex : Type :=
  | REmpty                              (* matches the empty string *)
  | RLit (c : Z)                        (* one rune *)
  | RAnyNotNL                           (* [.] without the flag (?s) *)
  | RClass (neg : bool) (cs : list Z)   (* [[...]] and [[^...]] *)
  | RBegin                              (* [^], the beginning of the text *)
  | REnd                                (* [$] without (?m), the end of the text *)
  | RCat (a b : regex)
  | RAlt (a b : regex)
  | RStar (a : regex)
  | RPlus (a : regex)
  | RQuest (a : regex).

#[export] Instance regex_eq_dec : EqDecision regex.
Proof. solve_decision. Defined.

(** [OpConcat] and [OpAlternate] of the operands of a stack, in text order. *)
Definition cat_all (rs : list regex) : regex := foldr RCat REmpty rs.
Fixpoint alt_all (rs : list regex) : regex :=
  match rs with
  | [] => REmpty
  | [r] => r
  | r :: t => RAlt r (alt_all t)
  end.

(** ** Parsing: [regexp/syntax.Parse] *)

Inductive parsed (A : Type) : Type :=
  | Parsed (a : A)
  | SyntaxError
  | Unsupported.
Arguments Parsed {A} a.
Arguments SyntaxError {A}.
Arguments Unsupported {A}.

#[export] Instance parsed_bind : MBind parsed := fun A B f m =>
  match m with
  | Parsed a => f a
  | SyntaxError => SyntaxError
  | Unsupported => Unsupported
  end.
#[export] Instance parsed_ret : MRet parsed := fun A a => Parsed a.

(** Where the parser is within a construct of several runes. *)
Inductive pmode : Type :=
  | Normal
  | Repeated                 (* just read a repetition operator *)
  | RepeatedLazy             (* and its [?] *)
  | Escaped                  (* just read a backslash *)
  | OpenParen                (* just read an opening parenthesis *)
  | ClassOpen                (* just read an opening bracket *)
  | ClassBody (neg first : bool) (acc : list Z).

(** The operand stack: the concatenation being read and the alternatives
    already read of the innermost group, both in reverse order, and those of
    the groups around it. *)
Record pstate : Type := PState {
  p_mode : pmode;
  p_cur : list regex;
  p_alts : list regex;
  p_stack : list (list regex * list regex)
}.

Definition p_init : pstate := PState Normal [] [] [].

Definition push (r : regex) (st : pstate) : pstate :=
  PState Normal (r :: p_cur st) (p_alts st) (p_stack st).
Definition set_mode (m : pmode) (st : pstate) : pstate :=
  PState m (p_cur st) (p_alts st) (p_stack st).

(** [parser.repeat]: the operator applies to the last operand. *)
Definition repeat_top (op : regex -> regex) (st : pstate) : parsed pstate :=
  match p_cur st with
  | [] => SyntaxError
  | r :: cur => Parsed (PState Repeated (op r :: cur) (p_alts st) (p_stack st))
  end.

Definition group (cur alts : list regex) : regex :=
  alt_all (reverse (cat_all (reverse cur) :: alts)).

Definition is_alnum (c : Z) : bool :=
  between 48 57 c || between 65 90 c || between 97 122 c.

(** One rune outside an escape or a class; [rep] says that the last operand
    already carries a repetition operator. *)
Definition parse_plain (rep : bool) (st : pstate) (c : Z) : parsed pstate :=
  if c =? 40 (* ( *) then
    Parsed (PState OpenParen [] [] ((p_cur st, p_alts st) :: p_stack st))
  else if c =? 124 (* | *) then
    Parsed (PState Normal [] (cat_all (reverse (p_cur st)) :: p_alts st) (p_stack st))
  else if c =? 41 (* ) *) then
    match p_stack st with
    | [] => SyntaxError
    | (cur, alts) :: stack =>
      Parsed (PState Normal (group (p_cur st) (p_alts st) :: cur) alts stack)
    end
  else if c =? 94 (* ^ *) then Parsed (push RBegin st)
  else if c =? 36 (* $ *) then Parsed (push REnd st)
  else if c =? 46 (* . *) then Parsed (push RAnyNotNL st)
  else if c =? 91 (* [ *) then Parsed (set_mode ClassOpen st)
  else if c =? 42 (* * *) then if rep then SyntaxError else repeat_top RStar st
  else if c =? 43 (* + *) then if rep then SyntaxError else repeat_top RPlus st
  else if c =? 63 (* ? *) then if rep then SyntaxError else repeat_top RQuest st
  else if c =? 123 (* { *) then Unsupported
  else if c =? 92 (* \ *) then Parsed (set_mode Escaped st)
  else Parsed (push (RLit c) st).

(** One rune inside a class. *)
Definition parse_class (neg first : bool) (acc : list Z) (st : pstate) (c : Z) :
    parsed pstate :=
  if (c =? 93) && negb first then Parsed (push (RClass neg (reverse acc)) st)
  else if (c =? 92) || (c =? 91) || ((c =? 45) && negb first) then Unsupported
  else Parsed (set_mode (ClassBody neg false (c :: acc)) st).

Definition parse_step (st : pstate) (c : Z) : parsed pstate :=
  match p_mode st with
  | Normal => parse_plain false st c
  | Repeated =>
    if c =? 63 then Parsed (set_mode RepeatedLazy st) else parse_plain true st c
  | RepeatedLazy => parse_plain true st c
  | OpenParen => if c =? 63 then Unsupported else parse_plain false st c
  | Escaped =>
    if is_alnum c then Unsupported
    else if c <? 0x80 then Parsed (push (RLit c) st)
    else SyntaxError
  | ClassOpen =>
    if c =? 94 then Parsed (set_mode (ClassBody true true []) st)
    else parse_class false true [] st c
  | ClassBody neg first acc => parse_class neg first acc st c
  end.

Fixpoint parse_runes (cs : list Z) (st : pstate) : parsed pstate :=
  match cs with
  | [] => Parsed st
  | c :: t => st' ← parse_step st c; parse_runes t st'
  end.

Definition parse_finish (st : pstate) : parsed regex :=
  match p_mode st, p_stack st with
  | (Escaped | ClassOpen | ClassBody _ _ _), _ => SyntaxError
  | _, [] => Parsed (group (p_cur st) (p_alts st))
  | _, _ :: _ => SyntaxError
  end.

(** [regexp.Compile]: a text that is not valid UTF-8 is refused. *)
Definition regexp_Compile (text : string) : parsed regex :=
  if ValidString text
  then st ← parse_runes (runes text) p_init; parse_finish st
  else SyntaxError.

(** ** Quoting: [regexp.QuoteMeta] *)

(** The bytes of the set [\.+*?()|[]{}^$]. *)
Definition special (c : Z) : bool :=
  bool_decide (c ∈ [92; 46; 43; 42; 63; 40; 41; 124; 91; 93; 123; 125; 94; 36]).

Definition quote_bytes (s : list Z) : list Z :=
  flat_map (fun c => if special c then [92; c] else [c]) s.
Definition QuoteMeta (s : string) : string := of_bytes (quote_bytes (bytes s)).

(** ** Matching *)

(** A position of the input: whether it is the beginning of the text, and the
    runes after it. *)
Definition pos : Type := bool * list Z.

Definition class_has (neg : bool) (cs : list Z) (c : Z) : bool :=
  xorb neg (bool_decide (c ∈ cs)).

(** [reaches r p q]: the expression matches the text between [p] and [q]. *)
Inductive reaches : regex -> pos -> pos -> Prop :=
  | reach_empty p : reaches REmpty p p
  | reach_lit c b s : reaches (RLit c) (b, c :: s) (false, s)
  | reach_any c b s : c <> 10 -> reaches RAnyNotNL (b, c :: s) (false, s)
  | reach_class neg cs c b s :
      class_has neg cs c = true -> reaches (RClass neg cs) (b, c :: s) (false, s)
  | reach_begin s : reaches RBegin (true, s) (true, s)
  | reach_end b : reaches REnd (b, []) (b, [])
  | reach_cat r1 r2 p q o : reaches r1 p q -> reaches r2 q o -> reaches (RCat r1 r2) p o
  | reach_alt_l r1 r2 p q : reaches r1 p q -> reaches (RAlt r1 r2) p q
  | reach_alt_r r1 r2 p q : reaches r2 p q -> reaches (RAlt r1 r2) p q
  | reach_star_nil r p : reaches (RStar r) p p
  | reach_star_cons r p q o :
      reaches r p q -> reaches (RStar r) q o -> reaches (RStar r) p o
  | reach_plus r p q o :
      reaches r p q -> reaches (RStar r) q o -> reaches (RPlus r) p o
  | reach_quest_none r p : reaches (RQuest r) p p
  | reach_quest_some r p q : reaches r p q -> reaches (RQuest r) p q.

(** The repetition of [f], at most [fuel] rounds that each consume input. *)
Fixpoint star_ends (f : pos -> list pos) (fuel : nat) (p : pos) : list pos :=
  p :: match fuel with
       | O => []
       | S n => flat_map (fun q => if (length (snd q) <? length (snd p))%nat
                                   then star_ends f n q else []) (f p)
       end.

(** All positions a match that starts at [p] can end at. *)
Fixpoint ends (r : regex) (p : pos) : list pos :=
  match r with
  | REmpty => [p]
  | RLit c => match snd p with
              | d :: s => if d =? c then [(false, s)] else []
              | [] => []
              end
  | RAnyNotNL => match snd p with
                 | d :: s => if negb (d =? 10) then [(false, s)] else []
                 | [] => []
                 end
  | RClass neg cs => match snd p with
                     | d :: s => if class_has neg cs d then [(false, s)] else []
                     | [] => []
                     end
  | RBegin => if fst p then [p] else []
  | REnd => match snd p with [] => [p] | _ => [] end
  | RCat a b => flat_map (ends b) (ends a p)
  | RAlt a b => ends a p ++ ends b p
  | RStar a => star_ends (ends a) (length (snd p)) p
  | RPlus a => flat_map (fun q => star_ends (ends a) (length (snd q)) q) (ends a p)
  | RQuest a => p :: ends a p
  end.

(** The positions a match can start at. *)
Fixpoint later_starts (s : list Z) : list pos :=
  (false, s) :: match s with [] => [] | _ :: t => later_starts t end.
Definition starts (s : list Z) : list pos :=
  (true, s) :: match s with [] => [] | _ :: t => later_starts t end.

(** [Regexp.Match] on the bytes of [input]. *)
Definition regexp_Match (r : regex) (input : string) : bool :=
  existsb (fun p => negb (bool_decide (ends r p = []))) (starts (runes input)).

(** ** The matcher computes the relation *)

#[export] Hint Constructors reaches : ghost.

(** A match stays where it is or consumes input. *)
Lemma reaches_progress r p q : reaches r p q ->
  q = p \/ (length (snd q) < length (snd p))%nat.
Proof.
  induction 1; simpl in *; auto; try lia;
    repeat match goal with H : _ \/ _ |- _ => destruct H as [->|?] end; auto; right; lia.
Qed.

Lemma reaches_length r p q : reaches r p q -> (length (snd q) <= length (snd p))%nat.
Proof. intros [->|?]%reaches_progress; lia. Qed.

(** A repetition needs only rounds that consume input. *)
Lemma reaches_star_inv r p o : reaches (RStar r) p o ->
  o = p \/ exists q, reaches r p q /\ (length (snd q) < length (snd p))%nat /\
                     reaches (RStar r) q o.
Proof.
  remember (RStar r) as s eqn:Hs. induction 1; simplify_eq; [auto|].
  destruct (reaches_progress _ _ _ H) as [->|Hlt]; eauto 6.
Qed.

Lemma star_ends_spec r (IH : forall p q, q ∈ ends r p <-> reaches r p q) fuel p o :
  (length (snd p) <= fuel)%nat ->
  o ∈ star_ends (ends r) fuel p <-> reaches (RStar r) p o.
Proof.
  revert p o. induction fuel as [|n IHn]; intros p o Hf; simpl; rewrite elem_of_cons; split.
  - intros [->|Ho]; [constructor|by apply elem_of_nil in Ho].
  - intros [->|(q & _ & ? & _)]%reaches_star_inv; [auto|lia].
  - intros [->|(q & Hq & Ho)%list_elem_of_In%in_flat_map]; [constructor|].
    destruct (Nat.ltb_spec (length (snd q)) (length (snd p))); [|done].
    apply list_elem_of_In, IHn in Ho; [|lia].
    econstructor; [|done]. by apply IH, list_elem_of_In.
  - intros [->|(q & Hq & Hlt & Ho)]%reaches_star_inv; [auto|right].
    apply list_elem_of_In, in_flat_map. exists q. split; [by apply list_elem_of_In, IH|].
    destruct (Nat.ltb_spec (length (snd q)) (length (snd p))); [|lia].
    apply list_elem_of_In, IHn; [lia|done].
Qed.

Lemma elem_of_flat_map {A B} (f : A -> list B) l y :
  y ∈ flat_map f l <-> exists x, x ∈ l /\ y ∈ f x.
Proof. rewrite list_elem_of_In, in_flat_map. by setoid_rewrite list_elem_of_In. Qed.

Lemma one_rune (f : Z -> bool) (l : list Z) (q : pos) :
  q ∈ match l with d :: s => if f d then [(false, s)] else [] | [] => [] end <->
  exists d s, l = d :: s /\ f d = true /\ q = (false, s).
Proof.
  destruct l as [|d l]; simpl.
  { split; [by intros ?%elem_of_nil | by intros (? & ? & ? & _)]. }
  destruct (f d) eqn:E.
  - rewrite list_elem_of_singleton. split; [intros ->; eauto|].
    intros (? & ? & ? & _ & ->). by simplify_eq.
  - split; [by intros ?%elem_of_nil|]. intros (? & ? & ? & ? & _). congruence.
Qed.

Lemma ends_spec r p q : q ∈ ends r p <-> reaches r p q.
Proof.
  revert p q. induction r as [|c| |neg cs| | |a IHa b IHb|a IHa b IHb|a IHa|a IHa|a IHa];
    intros [s l] q; cbn [ends fst snd].
  - rewrite list_elem_of_singleton. split; [intros ->; constructor|by inversion 1].
  - rewrite (one_rune (fun d => d =? c)). split.
    + intros (d & t & -> & ->%Z.eqb_eq & ->). constructor.
    + inversion 1; subst. eexists _, _. by rewrite Z.eqb_refl.
  - rewrite (one_rune (fun d => negb (d =? 10))). split.
    + intros (d & t & -> & Hd%negb_true_iff%Z.eqb_neq & ->). by constructor.
    + inversion 1; subst. eexists _, _. by rewrite negb_true_iff, Z.eqb_neq.
  - rewrite one_rune. split; [intros (d & t & -> & ? & ->); by constructor|].
    inversion 1; subst; eauto.
  - destruct s; rewrite ?list_elem_of_singleton; split; try (by intros ?%elem_of_nil);
      try (by intros ->; constructor); by inversion 1.
  - destruct l; rewrite ?list_elem_of_singleton; split; try (by intros ?%elem_of_nil);
      try (by intros ->; constructor); by inversion 1.
  - rewrite elem_of_flat_map. setoid_rewrite IHa. setoid_rewrite IHb. split.
    + intros (m & ? & ?). econstructor; eauto.
    + inversion 1; subst; eauto.
  - rewrite elem_of_app, IHa, IHb. split; [intros [?|?]; auto with ghost|].
    inversion 1; subst; auto.
  - by apply star_ends_spec.
  - rewrite elem_of_flat_map. setoid_rewrite IHa. split.
    + intros (m & ? & Hm). econstructor; [done|]. by apply star_ends_spec in Hm.
    + inversion 1; subst. eexists. split; [done|]. by apply star_ends_spec.
  - rewrite elem_of_cons, IHa. split; [intros [->|?]; auto with ghost|].
    inversion 1; subst; auto.
Qed.

(** A text matches when some part of it does. *)
Lemma regexp_Match_spec r input :
  regexp_Match r input = true <->
  exists p q, p ∈ starts (runes input) /\ reaches r p q.
Proof.
  unfold regexp_Match. rewrite (existsb_iff _ (fun p => exists q, reaches r p q)).
  { split; [intros (p & ? & q & ?)|intros (p & q & ? & ?)]; eauto. }
  intros p. rewrite negb_true_iff, bool_decide_eq_false. split.
  - intros Hne. destruct (ends r p) as [|q l] eqn:E; [done|].
    exists q. apply ends_spec. rewrite E. left.
  - intros (q & Hq%ends_spec) E. rewrite E in Hq. by apply elem_of_nil in Hq.
Qed.

(** ** Derived rules *)

Lemma reaches_cat_app rs1 rs2 p q :
  reaches (cat_all (rs1 ++ rs2)) p q <->
  exists m, reaches (cat_all rs1) p m /\ reaches (cat_all rs2) m q.
Proof.
  revert p. induction rs1 as [|r rs IH]; intros p; simpl.
  - split; [intros; eexists; split; [constructor|done]|].
    intros (m & Hm & ?). by inversion Hm; subst.
  - split.
    + inversion 1; subst. rewrite IH in *. destruct_and?. naive_solver (eauto with ghost).
    + intros (m & Hm & ?). inversion Hm; subst. econstructor; [done|]. apply IH. eauto.
Qed.

Lemma reaches_lits cs b s q :
  reaches (cat_all (map RLit cs)) (b, s) q <->
  s = cs ++ snd q /\ fst q = (b && bool_decide (cs = [])).
Proof.
  revert b s. induction cs as [|c cs IH]; intros b s; simpl.
  - rewrite andb_true_r. split.
    + by inversion 1.
    + destruct q. simpl. intros [-> ->]. constructor.
  - rewrite andb_false_r. split.
    + inversion 1 as [| | | | | |? ? ? m ? Hc Hr| | | | | | |]; subst.
      inversion Hc; subst. by apply IH in Hr as [-> ->].
    + intros [-> Hq]. econstructor; [constructor|]. apply IH. by rewrite Hq.
Qed.

Lemma reaches_plus_class neg cs b s q :
  reaches (RPlus (RClass neg cs)) (b, s) q <->
  exists w, w <> [] /\ Forall (fun c => class_has neg cs c = true) w /\
            s = w ++ snd q /\ fst q = false.
Proof.
  assert (Hstar : forall b s q, reaches (RStar (RClass neg cs)) (b, s) q <->
    exists w, Forall (fun c => class_has neg cs c = true) w /\ s = w ++ snd q /\
              fst q = (b && bool_decide (w = []))).
  { clear. intros b s q. split.
    - remember (RStar (RClass neg cs)) as r eqn:Hr. remember (b, s) as p eqn:Hp.
      intros H. revert b s Hp. induction H; simplify_eq; intros b s ->.
      + exists []. simpl. by rewrite andb_true_r.
      + inversion H; subst. destruct (IHreaches2 eq_refl _ _ eq_refl) as (w & ? & Hs & Hf).
        exists (c :: w). split_and!; [by constructor|by rewrite Hs|by rewrite Hf, andb_false_r].
    - intros (w & Hw & -> & Hq). revert b q Hq.
      induction Hw as [|c w Hc Hw IH]; intros b [f t] Hq; simpl in *; subst.
      + rewrite andb_true_r. constructor.
      + rewrite andb_false_r. econstructor; [by constructor|]. by apply (IH false (false, t)). }
  split.
  - inversion 1 as [| | | | | | | | | | |? ? m ? Hc Hs| |]; subst.
    inversion Hc; subst. apply Hstar in Hs as (w & ? & -> & Hf).
    exists (c :: w). split_and!; [done|by constructor|done|done].
  - intros (w & Hne & Hw & -> & Hq). destruct Hw as [|c w Hc Hw]; [done|].
    econstructor; [by constructor|]. apply Hstar. exists w. by rewrite Hq.
Qed.

Lemma reaches_any_star b s q :
  reaches (RStar RAnyNotNL) (b, s) q <->
  exists w, 10 ∉ w /\ s = w ++ snd q /\ fst q = (b && bool_decide (w = [])).
Proof.
  split.
  - remember (RStar RAnyNotNL) as r eqn:Hr. remember (b, s) as p eqn:Hp.
    intros H. revert b s Hp. induction H; simplify_eq; intros b s ->.
    + exists []. simpl. rewrite andb_true_r. split_and!; try done. by apply not_elem_of_nil.
    + inversion H; subst. destruct (IHreaches2 eq_refl _ _ eq_refl) as (w & ? & Hs & Hf).
      exists (c :: w). split_and!; [set_solver|by rewrite Hs|by rewrite Hf, andb_false_r].
  - intros (w & Hw & -> & Hq). revert b q Hq.
    induction w as [|c w IH]; intros b [f t] Hq; simpl in *; subst.
    + rewrite andb_true_r. constructor.
    + rewrite andb_false_r. econstructor; [constructor; set_solver|].
      apply (IH ltac:(set_solver) false (false, t)). done.
Qed.

(** ** Quoting yields a literal *)

Lemma special_ascii c : special c = true -> c < 0x80 /\ is_alnum c = false.
Proof.
  unfold special. intros H%bool_decide_eq_true.
  repeat (apply elem_of_cons in H as [->|H]; [done|]). by apply elem_of_nil in H.
Qed.

Lemma parse_runes_cons c t st st' :
  parse_step st c = Parsed st' -> parse_runes (c :: t) st = parse_runes t st'.
Proof. intros H. simpl. by rewrite H. Qed.

Lemma parse_runes_app a b st :
  parse_runes (a ++ b) st = parse_runes a st ≫= parse_runes b.
Proof.
  revert st. induction a as [|c a IH]; intros st; [done|]. simpl.
  destruct (parse_step st c); simpl; auto.
Qed.

Lemma special_neq c k : special c = false -> special k = true -> (c =? k) = false.
Proof. intros Hc Hk. apply Z.eqb_neq. intros ->. congruence. Qed.

Lemma parse_plain_literal rep st c : special c = false ->
  parse_plain rep st c = Parsed (push (RLit c) st).
Proof.
  intros H. unfold parse_plain.
  repeat match goal with |- context [c =? ?k] => rewrite (special_neq c k) by done end.
  done.
Qed.

(** A rune that is no meta character stands for itself, after an operand with
    or without a repetition operator. *)
Lemma parse_literal_rune st c : special c = false ->
  p_mode st = Normal \/ p_mode st = Repeated ->
  parse_step st c = Parsed (push (RLit c) st).
Proof.
  intros H [Hm|Hm]; unfold parse_step; rewrite Hm;
    rewrite ?(special_neq c 63) by done; by apply parse_plain_literal.
Qed.

(** The class of all runes but one. *)
Lemma parse_not_class c st : special c = false -> p_mode st = Normal ->
  parse_runes [91; 94; c; 93] st = Parsed (push (RClass true [c]) st).
Proof.
  destruct st as [m cur alts stack]. simpl p_mode. intros H ->.
  do 2 (erewrite parse_runes_cons by reflexivity).
  erewrite parse_runes_cons.
  2: { unfold parse_step, set_mode. cbn [p_mode]. unfold parse_class.
       rewrite (special_neq c 93), (special_neq c 92), (special_neq c 91) by done.
       cbn -[special]. rewrite andb_false_r. reflexivity. }
  done.
Qed.

Lemma parse_quoted cs cur alts stack :
  parse_runes (quote_bytes cs) (PState Normal cur alts stack) =
  Parsed (PState Normal (reverse (map RLit cs) ++ cur) alts stack).
Proof.
  revert cur. induction cs as [|c cs IH]; intros cur; [done|].
  unfold quote_bytes in *. cbn [flat_map map].
  rewrite parse_runes_app, reverse_cons, <- app_assoc. cbn [app].
  destruct (special c) eqn:E.
  - destruct (special_ascii c E) as [Hlt Hal]. simpl.
    unfold parse_step at 1. cbn [p_mode set_mode p_cur p_alts p_stack].
    rewrite Hal. destruct (Z.ltb_spec c 128); [|lia]. apply IH.
  - cbn [parse_runes]. rewrite parse_literal_rune by auto. apply IH.
Qed.

(** Every byte sequence is a run of bytes at or above [0x80] followed by
    nothing or by a byte below it. *)
Lemma ascii_break (t : list Z) : exists a r,
  t = a ++ r /\ Forall (fun b => 0x80 <= b) a /\
  (r = [] \/ exists c u, r = c :: u /\ c < 0x80).
Proof.
  induction t as [|c t (a & r & -> & Ha & Hr)].
  - exists [], []. auto.
  - destruct (Z.lt_ge_cases c 0x80).
    + exists [], (c :: a ++ r). split_and!; [done|constructor|eauto].
    + exists (c :: a), r. split_and!; [done|by constructor|done].
Qed.

Lemma quote_bytes_app a b : quote_bytes (a ++ b) = quote_bytes a ++ quote_bytes b.
Proof. apply flat_map_app. Qed.

Lemma quote_bytes_high a : Forall (fun b => 0x80 <= b) a -> quote_bytes a = a.
Proof.
  induction 1 as [|c a Hc _ IH]; [done|]. unfold quote_bytes in *. simpl.
  destruct (special c) eqn:E; [apply special_ascii in E; lia|]. simpl. by rewrite IH.
Qed.

Lemma quote_bytes_low c u : c < 0x80 ->
  exists c' u', quote_bytes (c :: u) = c' :: u' /\ c' < 0x80.
Proof. intros Hc. unfold quote_bytes. simpl. destruct (special c); simpl; eexists _, _; split; try done. Qed.

(** Quoting commutes with decoding: the meta characters are single bytes that
    are part of no longer encoding. *)
Lemma decode_quote l :
  decode (quote_bytes l) =
  flat_map (fun rn => if special (fst rn) then [(92, 1%nat); rn] else [rn]) (decode l).
Proof.
  induction l as [l IH] using list_len_ind. destruct l as [|b t]; [done|].
  destruct (Z.lt_ge_cases b 0x80) as [Hb|Hb].
  { rewrite (decode_ascii b t) by done. unfold quote_bytes in *. cbn [flat_map fst].
    destruct (special b); cbn [app]; rewrite !decode_ascii by lia;
      rewrite IH by (simpl; lia); done. }
  destruct (ascii_break t) as (a & r & -> & Ha & Hr).
  assert (HD : forall r', (r' = [] \/ exists c u, r' = c :: u /\ c < 0x80) ->
    decode (b :: a ++ r') =
    DecodeRune (b :: a) :: decode (drop (snd (DecodeRune (b :: a))) (b :: a) ++ r')).
  { intros r' Hr'. rewrite decode_cons. pose proof (DecodeRune_size b a).
    assert (E : DecodeRune (b :: a ++ r') = DecodeRune (b :: a)).
    { destruct Hr' as [->|(c & u & -> & Hc)]; [by rewrite app_nil_r|].
      by apply (DecodeRune_app b a c u). }
    rewrite E. change (b :: a ++ r') with ((b :: a) ++ r'). by rewrite drop_app_le by lia. }
  change (b :: a ++ r) with ((b :: a) ++ r) at 1.
  rewrite quote_bytes_app, quote_bytes_high by (by constructor).
  cbn [app]. rewrite !HD; [|done|].
  2: { destruct Hr as [->|(c & u & -> & Hc)]; [by left|right]. by apply quote_bytes_low. }
  cbn [flat_map]. destruct (special (fst (DecodeRune (b :: a)))) eqn:Es.
  { apply special_ascii in Es. pose proof (DecodeRune_high b a Hb). lia. }
  pose proof (DecodeRune_size b a). cbn [app]. f_equal.
  rewrite <- IH by (rewrite length_app, length_drop; simpl in *; rewrite ?length_app; lia).
  rewrite quote_bytes_app. f_equal. f_equal.
  symmetry. apply quote_bytes_high, Forall_drop. by constructor.
Qed.

Lemma quote_bytes_range l : Forall is_byte l -> Forall is_byte (quote_bytes l).
Proof.
  induction 1 as [|c l Hc _ IH]; [constructor|]. unfold quote_bytes in *. simpl.
  destruct (special c); simpl; repeat (constructor; [try done; unfold is_byte; lia|]); done.
Qed.

Lemma bytes_QuoteMeta s : bytes (QuoteMeta s) = quote_bytes (bytes s).
Proof. apply bytes_of_bytes, quote_bytes_range, bytes_range. Qed.

Lemma fst_decode_quote l :
  map fst (decode (quote_bytes l)) = quote_bytes (map fst (decode l)).
Proof.
  rewrite decode_quote. unfold quote_bytes. generalize (decode l) as ds. intros ds.
  induction ds as [|[r n] ds IH]; [done|]. cbn [flat_map map fst].
  rewrite map_app, IH. by destruct (special r).
Qed.

Lemma bad_decode_quote l :
  existsb bad_rune (decode (quote_bytes l)) = existsb bad_rune (decode l).
Proof.
  rewrite decode_quote. generalize (decode l) as ds. intros ds.
  induction ds as [|[r n] ds IH]; [done|]. cbn [flat_map existsb fst].
  rewrite existsb_app, IH. destruct (special r); simpl; by rewrite ?orb_false_r.
Qed.
