(* ===== verification/Wildcard.v ===== *)
(** * Wildcard patterns: [src/wildcard/matcher.go]

    A pattern is compiled to the text of a regular expression, which the
    package [regexp] compiles and matches. The model follows the code through
    that text; the theorems relate it to a direct reading of patterns as lists
    of segments. *)
From Stdlib Require Import ZArith Ascii.
From stdpp Require Import base list sets strings.
From S2P Require Import Prelude GoStrings Utf8 Regexp.
#[local] Open Scope Z_scope.

Definition defaultSeparator : Z := 47.

(** The package's error values. [errRegexpOutsideModel] is not one of them: it
    marks generated expressions whose syntax [Regexp] does not model (never
    with the separators the theorems are about). *)
Inductive wildcard_error : Type :=
  | errEmptyPattern
  | errInvalidWildcard
  | errInvalidDoubleWildcard
  | errRegexpCompile
  | errRegexpOutsideModel.

#[export] Instance wildcard_error_eq_dec : EqDecision wildcard_error.
Proof. solve_decision. Defined.

(** The interface [Matcher], which [auth] is written against. *)
Class Matcher (M : Type) : Type := Matches : M -> string -> bool.

(** The struct [regexpMatcher]. *)
Record regexpMatcher : Type := RegexpMatcher { rm_pattern : regex }.

(** [regexpMatcher.Matches]. *)
#[export] Instance regexpMatcher_Matches : Matcher regexpMatcher :=
  fun rm input => regexp_Match (rm_pattern rm) input.

(** The loop over the segments, with [i] the index of the first one of
    [segments], [n] the number of all segments and [buf] the buffer so far. *)
Fixpoint write_segments (separator : Z) (n i : nat) (segments : list string)
    (buf : string) : outcome wildcard_error string :=
  match segments with
  | [] => Ret buf
  | segment :: rest =>
    let next (buf : string) :=
      let buf := buf +:+ string_of_rune separator in
      let buf := if (i =? n - 1)%nat then buf +:+ "?$" else buf in
      write_segments separator n (S i) rest buf in
    if String.eqb segment "*" then
      next (buf +:+ "[^" +:+ string_of_rune separator +:+ "]+")
    else if String.eqb segment "**" then
      if negb (i =? n - 1)%nat then Err errInvalidDoubleWildcard
      else Ret (buf +:+ "?(|" +:+ string_of_rune separator +:+ ".*)$")
    else if Contains segment "*" then Err errInvalidWildcard
    else next (buf +:+ QuoteMeta segment)
  end.

(** The generated text: the code up to [regexp.Compile]. *)
Definition regex_text (pattern : string) (separator : Z) :
    outcome wildcard_error string :=
  let segments := Split pattern (string_of_rune separator) in
  write_segments separator (length segments) 0 segments "^".

Definition CompileWithSeparator (pattern : string) (separator : Z) :
    outcome wildcard_error regexpMatcher :=
  if String.eqb pattern "" then Err errEmptyPattern
  else
    text ← regex_text pattern separator;
    match regexp_Compile text with
    | Parsed compiled => Ret (RegexpMatcher compiled)
    | SyntaxError => Err errRegexpCompile
    | Unsupported => Err errRegexpOutsideModel
    end.

Definition Compile (pattern : string) : outcome wildcard_error regexpMatcher :=
  CompileWithSeparator pattern defaultSeparator.

(** The loop of [CompileList], with [ms] the matchers so far. *)
Fixpoint compile_list_from (patterns : list string) (ms : list regexpMatcher) :
    outcome wildcard_error (list regexpMatcher) :=
  match patterns with
  | [] => Ret ms
  | pattern :: rest => m ← Compile pattern; compile_list_from rest (ms ++ [m])
  end.

Definition CompileList (patterns : list string) :
    outcome wildcard_error (list regexpMatcher) :=
  compile_list_from patterns [].

(** [MustCompile] panics where [Compile] returns an error. *)
Definition MustCompile (pattern : string) : outcome wildcard_error regexpMatcher :=
  match CompileWithSeparator pattern defaultSeparator with
  | Err _ => Panic
  | r => r
  end.

Definition matches_of (pattern input : string) : option bool :=
  match Compile pattern with
  | Ret m => Some (Matches m input)
  | _ => None
  end.

Example matches_ex1 : matches_of "spiffe://foo/*/bar/**" "spiffe://foo/baz/bar/spam" = Some true.
Proof. vm_compute. reflexivity. Qed.
Example matches_ex2 : matches_of "spiffe://foo/*/bar" "spiffe://foo//bar" = Some false.
Proof. vm_compute. reflexivity. Qed.
Example matches_ex3 : matches_of ".+" "invalid" = Some false.
Proof. vm_compute. reflexivity. Qed.
Example matches_ex4 : matches_of "spiffe://*/*/*" "spiffe://foo/a/b/" = Some true.
Proof. vm_compute. reflexivity. Qed.

(** ** The reference reading of patterns *)

(** A segment of a pattern: the wildcard, or the runes of a literal. *)
Inductive item : Type :=
  | AnySegment
  | Literal (cs : list Z).

(** The segments of a pattern, and whether it ends in the double wildcard;
    or the error of the first segment that is not well formed. *)
Fixpoint read_segments (segments : list string) :
    outcome wildcard_error (list item * bool) :=
  match segments with
  | [] => Ret ([], false)
  | segment :: rest =>
    if String.eqb segment "*" then
      '(its, dbl) ← read_segments rest; Ret (AnySegment :: its, dbl)
    else if String.eqb segment "**" then
      if bool_decide (rest = []) then Ret ([], true) else Err errInvalidDoubleWildcard
    else if Contains segment "*" then Err errInvalidWildcard
    else '(its, dbl) ← read_segments rest; Ret (Literal (runes segment) :: its, dbl)
  end.

Definition read_pattern (pattern : string) (separator : Z) :
    outcome wildcard_error (list item * bool) :=
  if String.eqb pattern "" then Err errEmptyPattern
  else
    rd ← read_segments (Split pattern (string_of_rune separator));
    if ValidString pattern then Ret rd else Err errRegexpCompile.

Definition item_matches (it : item) (seg : list Z) : bool :=
  match it with
  | AnySegment => negb (bool_decide (seg = []))
  | Literal cs => bool_decide (seg = cs)
  end.

Fixpoint items_match (its : list item) (segs : list (list Z)) : bool :=
  match its, segs with
  | [], [] => true
  | it :: its, seg :: segs => item_matches it seg && items_match its segs
  | _, _ => false
  end.

Definition no_newline (seg : list Z) : bool := bool_decide (10 ∉ seg).

(** What a pattern matches, on the segments of the input: segment by segment,
    with an optional empty segment at the end; a double wildcard also matches
    any further segments without a line feed, and alone it matches anything. *)
Definition reading_matches (rd : list item * bool) (segs : list (list Z)) : bool :=
  let '(its, dbl) := rd in
  if dbl then
    bool_decide (its = []) ||
    items_match its (take (length its) segs) && forallb no_newline (drop (length its) segs)
  else items_match its segs || items_match (its ++ [Literal []]) segs.

(** The segments of an input, as runes. *)
Definition segments_of (separator : Z) (input : string) : list (list Z) :=
  map runes (Split input (string_of_rune separator)).

(** The separators the theorems cover: single bytes that are no meta character
    and not the line feed. The default separator is one. *)
Definition plain_separator (c : Z) : bool :=
  between 0 0x7F c && negb (special c) && negb (c =? 10).

(** ** Splitting commutes with decoding *)

Section Separator.
Context (sep : Z) (Hsep : plain_separator sep = true).

Lemma sep_range : 0 <= sep < 0x80.
Proof. unfold plain_separator in Hsep. ranges. lia. Qed.

Lemma sep_plain : special sep = false.
Proof. unfold plain_separator in Hsep. by bool_prop. Qed.

Lemma sep_not_newline : sep <> 10.
Proof. unfold plain_separator in Hsep. by ranges. Qed.

Lemma EncodeRune_sep : EncodeRune sep = [sep].
Proof. pose proof sep_range. unfold EncodeRune, between. by range_cases. Qed.

Lemma bytes_sep : bytes (string_of_rune sep) = [sep].
Proof.
  unfold string_of_rune. rewrite EncodeRune_sep. apply bytes_of_bytes.
  pose proof sep_range. constructor; [unfold is_byte; lia|done].
Qed.

Lemma Split_sep s : Split s (string_of_rune sep) = map of_bytes (split_on sep (bytes s)).
Proof.
  unfold Split. rewrite bytes_sep, split_from_single. f_equal.
  pose proof (split_on_nonempty sep (bytes s)). by destruct (split_on sep (bytes s)).
Qed.

Lemma Split_nonempty s : Split s (string_of_rune sep) <> [].
Proof.
  rewrite Split_sep. intros H%map_eq_nil. by apply split_on_nonempty in H.
Qed.

Lemma sep_not_in_decode f : sep ∉ f -> sep ∉ map fst (decode f).
Proof.
  pose proof sep_range. induction f as [f IH] using list_len_ind. intros Hf.
  destruct f as [|b f]; [apply not_elem_of_nil|].
  rewrite decode_cons. cbn [map]. apply not_elem_of_cons. split.
  - destruct (Z.lt_ge_cases b 0x80) as [Hb|Hb].
    + unfold DecodeRune. destruct (Z.ltb_spec b 0x80); [|lia]. simpl. set_solver.
    + pose proof (DecodeRune_high b f Hb). lia.
  - pose proof (DecodeRune_size b f). apply IH.
    + rewrite length_drop. simpl in *. lia.
    + intros Hin. apply Hf. rewrite <- (take_drop (snd (DecodeRune (b :: f))) (b :: f)).
      apply elem_of_app. by right.
Qed.

Lemma split_on_decode l :
  split_on sep (map fst (decode l)) = map (fun f => map fst (decode f)) (split_on sep l).
Proof.
  pose proof sep_range. rewrite <- (split_on_join sep l) at 1.
  pose proof (split_on_free sep l) as Hfree. pose proof (split_on_nonempty sep l) as Hne.
  induction Hfree as [|f fs Hf Hfs IH]; [done|]. clear Hne.
  destruct fs as [|g fs]; cbn [map].
  - cbn [join_on]. by rewrite split_on_no by (by apply sep_not_in_decode).
  - cbn [join_on]. rewrite decode_app_ascii by lia. rewrite map_app. cbn [map fst].
    rewrite split_on_app by (by apply sep_not_in_decode). f_equal. by apply IH.
Qed.

Lemma split_on_bytes s f : f ∈ split_on sep (bytes s) -> Forall is_byte f.
Proof.
  pose proof (bytes_range s) as Hr. rewrite <- (split_on_join sep (bytes s)) in Hr.
  revert Hr. generalize (split_on sep (bytes s)) as fs. intros fs.
  induction fs as [|g fs IH]; intros Hr Hf; [by apply elem_of_nil in Hf|].
  destruct fs as [|h fs].
  - by apply list_elem_of_singleton in Hf as ->.
  - apply Forall_app in Hr as [Hg Hr]. inversion Hr; subst.
    apply elem_of_cons in Hf as [->|Hf]; auto.
Qed.

Lemma segments_of_runes s : segments_of sep s = split_on sep (runes s).
Proof.
  unfold segments_of, runes. rewrite split_on_decode, Split_sep, map_map.
  apply map_ext_in. intros f Hf. f_equal. f_equal.
  apply bytes_of_bytes, split_on_bytes with s. by apply list_elem_of_In.
Qed.

(** ** The generated text parses as intended *)

Definition item_rx (it : item) : list regex :=
  match it with
  | AnySegment => [RPlus (RClass true [sep])]
  | Literal cs => map RLit cs
  end.

(** The operands of the segments, each followed by the separator. *)
Definition body_rx (its : list item) : list regex :=
  flat_map (fun it => item_rx it ++ [RLit sep]) its.

(** The operands after the last separator, which is optional. *)
Definition tail_rx (dbl : bool) : list regex :=
  if dbl then [RAlt REmpty (cat_all [RLit sep; RStar RAnyNotNL]); REnd] else [REnd].

Definition pattern_rx (rd : list item * bool) : regex :=
  match reverse (RBegin :: body_rx (fst rd)) with
  | [] => REmpty
  | top :: rest => cat_all (reverse rest ++ RQuest top :: tail_rx (snd rd))
  end.

(** The state of the parser after the text in the buffer, which always ends in
    a byte below [0x80]. *)
Definition buffer_state (buf : string) (cur : list regex) (bad : bool) : Prop :=
  (exists b c, bytes buf = b ++ [c] /\ c < 0x80) /\
  parse_runes (runes buf) p_init = Parsed (PState Normal cur [] []) /\
  existsb bad_rune (decode (bytes buf)) = bad.

Lemma buffer_decode_app buf x cur bad : buffer_state buf cur bad ->
  decode (bytes (buf +:+ x)) = decode (bytes buf) ++ decode (bytes x).
Proof.
  intros ((b & c & Hb & Hc) & _). rewrite bytes_app, Hb, <- app_assoc. cbn [app].
  rewrite !decode_app_ascii by done. by rewrite <- app_assoc.
Qed.

Lemma buffer_parse_app buf x cur bad : buffer_state buf cur bad ->
  parse_runes (runes (buf +:+ x)) p_init =
    parse_runes (runes x) (PState Normal cur [] []) /\
  existsb bad_rune (decode (bytes (buf +:+ x))) =
    bad || existsb bad_rune (decode (bytes x)).
Proof.
  intros H. unfold runes. rewrite (buffer_decode_app _ _ _ _ H).
  destruct H as (_ & Hp & Hb). split.
  - rewrite map_app, parse_runes_app. unfold runes in Hp. by rewrite Hp.
  - by rewrite existsb_app, Hb.
Qed.

Lemma buffer_append buf x cur cur' bad bad' :
  buffer_state buf cur bad ->
  parse_runes (runes x) (PState Normal cur [] []) = Parsed (PState Normal cur' [] []) ->
  bad' = bad || existsb bad_rune (decode (bytes x)) ->
  (exists b c, bytes x = b ++ [c] /\ c < 0x80) ->
  buffer_state (buf +:+ x) cur' bad'.
Proof.
  intros H Hp -> (b & c & Hx & Hc). destruct (buffer_parse_app _ x _ _ H) as [Hp' Hb'].
  split_and!; [|by rewrite Hp'|done].
  exists (bytes buf ++ b), c. by rewrite bytes_app, Hx, app_assoc.
Qed.

Lemma runes_ascii x : Forall (fun b => b < 0x80) (bytes x) ->
  runes x = bytes x /\ existsb bad_rune (decode (bytes x)) = false.
Proof.
  intros H. unfold runes. pose proof (decode_app_all_ascii (bytes x) [] H) as E.
  rewrite app_nil_r in E. rewrite E, app_nil_r, map_map, map_id. split; [done|].
  clear E. induction H as [|b l Hb _ IH]; [done|]. simpl. rewrite IH, orb_false_r.
  apply bool_decide_eq_false. intros [= ->]. done.
Qed.

(** What the loop writes for a wildcard and for a literal segment. *)
Lemma buffer_star buf cur bad : buffer_state buf cur bad ->
  buffer_state ((buf +:+ "[^" +:+ string_of_rune sep +:+ "]+") +:+ string_of_rune sep)
    (reverse (item_rx AnySegment ++ [RLit sep]) ++ cur) bad.
Proof.
  intros H. rewrite <- !str_app_assoc.
  set (x := "[^" +:+ string_of_rune sep +:+ "]+" +:+ string_of_rune sep).
  assert (Hx : bytes x = [91; 94; sep; 93; 43; sep])
    by (unfold x; by rewrite !bytes_app, bytes_sep).
  pose proof sep_range. pose proof sep_plain as Hs.
  destruct (runes_ascii x) as [Hr Hb].
  { rewrite Hx. repeat (constructor; [lia|]). constructor. }
  eapply buffer_append; [done| | |].
  - rewrite Hr, Hx. change [91; 94; sep; 93; 43; sep] with ([91; 94; sep; 93] ++ [43; sep]).
    rewrite parse_runes_app, parse_not_class by done.
    cbn [mbind parsed_bind]. erewrite parse_runes_cons by reflexivity.
    erewrite parse_runes_cons by (apply parse_literal_rune; auto). done.
  - by rewrite Hb, orb_false_r.
  - rewrite Hx. exists [91; 94; sep; 93; 43], sep. split; [done|lia].
Qed.

Lemma buffer_literal buf segment cur bad : buffer_state buf cur bad ->
  buffer_state ((buf +:+ QuoteMeta segment) +:+ string_of_rune sep)
    (reverse (item_rx (Literal (runes segment)) ++ [RLit sep]) ++ cur)
    (bad || negb (ValidString segment)).
Proof.
  intros H. rewrite <- !str_app_assoc.
  assert (Hx : bytes (QuoteMeta segment +:+ string_of_rune sep)
               = quote_bytes (bytes segment) ++ [sep])
    by (by rewrite bytes_app, bytes_QuoteMeta, bytes_sep).
  pose proof sep_range.
  assert (Hd : decode (bytes (QuoteMeta segment +:+ string_of_rune sep)) =
               decode (quote_bytes (bytes segment)) ++ [(sep, 1%nat)]).
  { rewrite Hx. by rewrite decode_app_ascii by lia. }
  eapply buffer_append; [done| | |].
  - unfold runes at 1. rewrite Hd, map_app, fst_decode_quote, parse_runes_app, parse_quoted.
    cbn [mbind parsed_bind map].
    erewrite parse_runes_cons by (apply parse_literal_rune; auto using sep_plain).
    cbn [item_rx]. rewrite reverse_app, <- app_assoc. done.
  - unfold ValidString. rewrite negb_involutive, Hd, existsb_app, bad_decode_quote.
    assert (Hg : bad_rune (sep, 1%nat) = false).
    { apply bool_decide_eq_false. intros [= ->]. unfold RuneError in *. lia. }
    cbn [existsb]. by rewrite Hg, !orb_false_r.
  - rewrite Hx. exists (quote_bytes (bytes segment)), sep. split; [done|lia].
Qed.

(** The end of the text: the last operand becomes optional. *)
Lemma compile_tail buf top cur bad (dbl : bool) : buffer_state buf (top :: cur) bad ->
  regexp_Compile (buf +:+ (if dbl then "?(|" +:+ string_of_rune sep +:+ ".*)$" else "?$")) =
  if bad then SyntaxError
  else Parsed (cat_all (reverse cur ++ RQuest top :: tail_rx dbl)).
Proof.
  intros H. set (x := if dbl then _ else _). pose proof sep_range.
  assert (Hx : bytes x = if dbl then [63; 40; 124; sep; 46; 42; 41; 36] else [63; 36]).
  { unfold x. destruct dbl; [|done]. by rewrite !bytes_app, bytes_sep. }
  destruct (runes_ascii x) as [Hr Hb].
  { rewrite Hx. destruct dbl; repeat (constructor; [lia|]); constructor. }
  destruct (buffer_parse_app buf x _ _ H) as [Hp Hv].
  unfold regexp_Compile, ValidString. rewrite Hv, Hb, orb_false_r.
  destruct bad; [done|]. cbn [negb]. rewrite Hp, Hr, Hx.
  assert (Hg : forall cur tl, group (reverse tl ++ cur) [] = cat_all (reverse cur ++ tl)).
  { intros cur' tl. unfold group. by rewrite reverse_app, reverse_involutive. }
  destruct dbl.
  - do 3 (erewrite parse_runes_cons by reflexivity).
    erewrite parse_runes_cons by (apply parse_literal_rune; auto using sep_plain).
    do 4 (erewrite parse_runes_cons by reflexivity).
    cbn [parse_runes mbind parsed_bind]. unfold parse_finish. simpl p_mode. simpl p_stack.
    f_equal. apply (Hg cur (RQuest top :: tail_rx true)).
  - do 2 (erewrite parse_runes_cons by reflexivity).
    cbn [parse_runes mbind parsed_bind]. unfold parse_finish. simpl p_mode. simpl p_stack.
    f_equal. apply (Hg cur (RQuest top :: tail_rx false)).
Qed.

Definition pattern_stack (its : list item) : list regex := reverse (RBegin :: body_rx its).

Lemma pattern_stack_snoc its it :
  pattern_stack (its ++ [it]) = reverse (item_rx it ++ [RLit sep]) ++ pattern_stack its.
Proof.
  unfold pattern_stack, body_rx. rewrite flat_map_app. cbn [flat_map].
  rewrite app_nil_r, app_comm_cons, reverse_app. done.
Qed.

Lemma pattern_stack_cons its : exists top cur, pattern_stack its = top :: cur /\
  forall dbl, pattern_rx (its, dbl) = cat_all (reverse cur ++ RQuest top :: tail_rx dbl).
Proof.
  unfold pattern_rx, pattern_stack. cbn [fst snd].
  destruct (reverse (RBegin :: body_rx its)) as [|top cur] eqn:E; [|eauto].
  apply (f_equal length) in E. rewrite length_reverse in E. done.
Qed.

(** What the loop makes of the remaining segments. *)
Definition segments_outcome (its0 : list item) (bad : bool) (segs : list string)
    (rd : outcome wildcard_error (list item * bool)) (w : outcome wildcard_error string) : Prop :=
  match rd with
  | Err e => w = Err e
  | Panic => False
  | Ret (its, dbl) => exists text, w = Ret text /\
      regexp_Compile text =
        if bad || existsb (fun s => negb (ValidString s)) segs then SyntaxError
        else Parsed (pattern_rx (its0 ++ its, dbl))
  end.

(** One step of the loop, after the segment and its separator are written. *)
Lemma write_next rest n i its0 it buf bad :
  n = (S i + length rest)%nat ->
  buffer_state buf (pattern_stack (its0 ++ [it])) bad ->
  (rest <> [] -> segments_outcome (its0 ++ [it]) bad rest (read_segments rest)
                   (write_segments sep n (S i) rest buf)) ->
  segments_outcome its0 bad rest ('(its, dbl) ← read_segments rest; Ret (it :: its, dbl))
    (write_segments sep n (S i) rest (if (i =? n - 1)%nat then buf +:+ "?$" else buf)).
Proof.
  intros Hn Hbuf IH. destruct rest as [|segment rest].
  - simpl in Hn. replace (i =? n - 1)%nat with true by (symmetry; apply Nat.eqb_eq; lia).
    exists (buf +:+ "?$"). split; [done|].
    destruct (pattern_stack_cons (its0 ++ [it])) as (top & cur & Hst & Hrx).
    rewrite Hst in Hbuf. rewrite (compile_tail _ _ _ _ false Hbuf).
    cbn [existsb]. by rewrite orb_false_r, Hrx.
  - simpl in Hn. replace (i =? n - 1)%nat with false by (symmetry; apply Nat.eqb_neq; lia).
    specialize (IH ltac:(done)). unfold segments_outcome in *.
    destruct (read_segments (segment :: rest)) as [[its dbl]|e|]; [|done..].
    destruct IH as (text & Hw & Hc). exists text. by rewrite <- app_assoc in Hc.
Qed.

Lemma write_segments_spec segs : forall i n its0 buf bad,
  n = (i + length segs)%nat -> segs <> [] ->
  buffer_state buf (pattern_stack its0) bad ->
  segments_outcome its0 bad segs (read_segments segs) (write_segments sep n i segs buf).
Proof.
  induction segs as [|segment rest IH]; intros i n its0 buf bad Hn Hne Hbuf; [done|].
  clear Hne. simpl in Hn. cbn [write_segments read_segments].
  destruct (String.eqb_spec segment "*") as [->|_].
  { apply buffer_star in Hbuf. rewrite <- pattern_stack_snoc in Hbuf.
    eapply (write_next rest n i its0 AnySegment); [lia|done|].
    intros Hr. apply IH; [lia|done..]. }
  destruct (String.eqb_spec segment "**") as [->|_].
  { destruct (decide (rest = [])) as [->|Hr].
    - rewrite bool_decide_true by done. simpl in Hn.
      replace (i =? n - 1)%nat with true by (symmetry; apply Nat.eqb_eq; lia).
      eexists. split; [done|].
      destruct (pattern_stack_cons its0) as (top & cur & Hst & Hrx).
      rewrite Hst in Hbuf. rewrite (compile_tail _ _ _ _ true Hbuf), app_nil_r, Hrx.
      by destruct bad.
    - rewrite bool_decide_false by done.
      assert (length rest <> 0%nat) by (by destruct rest).
      replace (i =? n - 1)%nat with false by (symmetry; apply Nat.eqb_neq; lia). done. }
  destruct (Contains segment "*"); [done|].
  apply (buffer_literal _ segment) in Hbuf. rewrite <- pattern_stack_snoc in Hbuf.
  pose proof (write_next rest n i its0 (Literal (runes segment)) _ _ ltac:(lia) Hbuf) as Hnx.
  unfold segments_outcome in *. cbn [existsb]. rewrite orb_assoc. apply Hnx.
  intros Hr. by apply IH; [lia|..].
Qed.

Lemma bad_join fs : fs <> [] ->
  existsb bad_rune (decode (join_on sep fs)) =
  existsb (fun f => existsb bad_rune (decode f)) fs.
Proof.
  pose proof sep_range. induction fs as [|f [|g fs] IH]; intros Hne; [done| |].
  - cbn. by rewrite orb_false_r.
  - change (join_on sep (f :: g :: fs)) with (f ++ sep :: join_on sep (g :: fs)).
    rewrite decode_app_ascii by lia. rewrite existsb_app. cbn [existsb]. f_equal.
    rewrite IH by done. cbn [existsb].
    assert (Hg : bad_rune (sep, 1%nat) = false).
    { apply bool_decide_eq_false. intros [= ->]. unfold RuneError in *. lia. }
    by rewrite Hg.
Qed.

Lemma valid_segments pattern :
  existsb (fun s => negb (ValidString s)) (Split pattern (string_of_rune sep)) =
  negb (ValidString pattern).
Proof.
  rewrite Split_sep. unfold ValidString at 2. rewrite negb_involutive.
  rewrite <- (split_on_join sep (bytes pattern)) at 2.
  rewrite bad_join by apply split_on_nonempty.
  assert (Hb : forall f, f ∈ split_on sep (bytes pattern) -> Forall is_byte f)
    by apply split_on_bytes.
  induction (split_on sep (bytes pattern)) as [|f fs IH]; [done|]. cbn [map existsb].
  rewrite IH by (intros; apply Hb; by right). f_equal.
  unfold ValidString. rewrite negb_involutive, bytes_of_bytes by (apply Hb; by left). done.
Qed.

(** Compiling a pattern gives the expression of its reading, or the error of
    its reading. *)
Lemma CompileWithSeparator_reads pattern :
  CompileWithSeparator pattern sep =
  (rd ← read_pattern pattern sep; Ret (RegexpMatcher (pattern_rx rd))).
Proof.
  unfold CompileWithSeparator, read_pattern, regex_text.
  destruct (String.eqb pattern ""); [done|].
  pose proof (write_segments_spec (Split pattern (string_of_rune sep)) 0
    (length (Split pattern (string_of_rune sep))) [] "^" false eq_refl
    (Split_nonempty pattern)) as Hw.
  assert (H0 : buffer_state "^" (pattern_stack []) false).
  { split_and!; [|done..]. by exists [], 94. }
  specialize (Hw H0). unfold segments_outcome in Hw.
  destruct (read_segments _) as [[its dbl]|e|]; [|by rewrite Hw|done].
  destruct Hw as (text & -> & Hc). cbn [mbind outcome_bind]. rewrite Hc.
  cbn [orb]. rewrite valid_segments. by destruct (ValidString pattern).
Qed.

(** ** What the expression matches *)

(** The operands match exactly the pairs of [P]: the runes before and after
    the match, whatever the position in the text. *)
Definition denotes (rs : list regex) (P : list Z -> list Z -> Prop) : Prop :=
  forall b s t, (exists b', reaches (cat_all rs) (b, s) (b', t)) <-> P s t.

Lemma denotes_app r1 r2 P1 P2 : denotes r1 P1 -> denotes r2 P2 ->
  denotes (r1 ++ r2) (fun s t => exists m, P1 s m /\ P2 m t).
Proof.
  intros H1 H2 b s t. setoid_rewrite reaches_cat_app. split.
  - intros (b' & [b1 m] & Hm & Ht). exists m. split; [apply (H1 b) | apply (H2 b1)]; eauto.
  - intros (m & [b1 Hm]%(H1 b) & [b2 Ht]%(H2 b1)). eauto.
Qed.

Lemma denotes_nil : denotes [] (fun s t => s = t).
Proof.
  intros b s t. split; [intros [b' H]; by inversion H|]. intros ->. exists b. constructor.
Qed.

Lemma reaches_one r p q : reaches (cat_all [r]) p q <-> reaches r p q.
Proof.
  split; [|intros; econstructor; [done|constructor]].
  inversion 1 as [| | | | | |? ? ? ? ? Ha Hb| | | | | | |]; subst. by inversion Hb; subst.
Qed.

(** The segment [w] of an input matches the segment [it] of a pattern. *)
Definition item_ok (it : item) (w : list Z) : Prop := item_matches it w = true /\ sep ∉ w.

Definition item_free (it : item) : Prop :=
  match it with AnySegment => True | Literal cs => sep ∉ cs end.

Lemma class_has_sep c : class_has true [sep] c = true <-> c <> sep.
Proof.
  unfold class_has. case_bool_decide; simpl; set_solver.
Qed.

Lemma denotes_item it : item_free it ->
  denotes (item_rx it) (fun s t => exists w, s = w ++ t /\ item_ok it w).
Proof.
  intros Hfree b s t. destruct it as [|cs]; cbn [item_rx].
  - setoid_rewrite reaches_one. setoid_rewrite reaches_plus_class.
    assert (Hok : forall w, item_ok AnySegment w <-> w <> [] /\ sep ∉ w).
    { intros w. unfold item_ok. cbn [item_matches]. by rewrite negb_true_iff, bool_decide_eq_false. }
    setoid_rewrite Hok. split.
    + intros (b' & w & Hne & Hw & -> & _). exists w. split_and!; [done..|].
      intros Hin. rewrite Forall_forall in Hw. by apply Hw, class_has_sep in Hin.
    + intros (w & -> & Hne & Hw). exists false, w. split_and!; try done.
      apply Forall_forall. intros c Hc. apply class_has_sep. set_solver.
  - setoid_rewrite reaches_lits. unfold item_ok. cbn [item_matches].
    setoid_rewrite bool_decide_eq_true. naive_solver.
Qed.

Lemma denotes_sep : denotes [RLit sep] (fun s t => s = sep :: t).
Proof.
  intros b s t. setoid_rewrite reaches_one. split; [intros [b' H]; by inversion H|].
  intros ->. exists false. constructor.
Qed.

Lemma denotes_optional_sep : denotes [RQuest (RLit sep)] (fun s t => s = t \/ s = sep :: t).
Proof.
  intros b s t. setoid_rewrite reaches_one. split.
  - intros [b' H]. inversion H as [| | | | | | | | | | | | |? ? ? Hl]; subst; [by left|].
    inversion Hl; subst. by right.
  - intros [->| ->]; eexists; [apply reach_quest_none | apply reach_quest_some; constructor].
Qed.

Lemma denotes_tail dbl : denotes (tail_rx dbl)
  (fun s t => t = [] /\ (s = [] \/ dbl = true /\ exists w, s = sep :: w /\ 10 ∉ w)).
Proof.
  assert (Hend : denotes [REnd] (fun s t => t = [] /\ s = [])).
  { intros b s t. setoid_rewrite reaches_one. split; [intros [b' H]; by inversion H|].
    intros [-> ->]. exists b. constructor. }
  assert (Halt : denotes [RAlt REmpty (cat_all [RLit sep; RStar RAnyNotNL])]
    (fun s t => s = t \/ exists w, s = sep :: w ++ t /\ 10 ∉ w)).
  { intros b s t. setoid_rewrite reaches_one. split.
    - intros [b' H]. inversion H as [| | | | | | |? ? ? ? Ha|? ? ? ? Ha| | | | |]; subst.
      + inversion Ha; subst. by left.
      + inversion Ha as [| | | | | |? ? ? m ? Hl Hs| | | | | | |]; subst.
        inversion Hl; subst. apply reaches_one, reaches_any_star in Hs as (w & ? & -> & _).
        right. eauto.
    - intros [->|(w & -> & Hw)].
      + exists b. apply reach_alt_l. constructor.
      + eexists. apply reach_alt_r. econstructor; [constructor|].
        apply reaches_one, reaches_any_star. by exists w. }
  destruct dbl; unfold tail_rx; intros b s t.
  - rewrite (denotes_app [_] [_] _ _ Halt Hend b s t). split.
    + intros (m & [->|(w & -> & Hw)] & -> & ->); [auto|]. rewrite app_nil_r. eauto 6.
    + intros [-> [->|(_ & w & -> & Hw)]]; exists []; [auto|]. split; [right|done].
      exists w. by rewrite app_nil_r.
  - rewrite (Hend b s t). naive_solver.
Qed.

Lemma denotes_body its : Forall item_free its ->
  denotes (body_rx its) (fun s t => exists ws, Forall2 item_ok its ws /\
    s = concat (map (fun w => w ++ [sep]) ws) ++ t).
Proof.
  induction 1 as [|it its Hit _ IH]; intros b s t; cbn [body_rx flat_map].
  - rewrite (denotes_nil b s t). split.
    + intros ->. by exists [].
    + by intros (ws & H & ->); inversion H.
  - rewrite (denotes_app _ _ _ _ (denotes_app _ _ _ _ (denotes_item it Hit) denotes_sep) IH b s t).
    split.
    + intros (m & (n & (w & -> & Hw) & ->) & ws & Hws & ->).
      exists (w :: ws). split; [by constructor|]. cbn [map concat]. by rewrite <- !app_assoc.
    + intros (ws & Hws & ->). inversion Hws as [|? w ? ws' Hw Hws']; subst.
      exists (concat (map (fun w => w ++ [sep]) ws') ++ t). split; [|eauto].
      eexists. split; [|done]. exists w. split; [|done]. cbn [map concat].
      by rewrite <- !app_assoc.
Qed.

Lemma concat_join ws w :
  concat (map (fun w => w ++ [sep]) ws) ++ w = join_on sep (ws ++ [w]).
Proof.
  induction ws as [|v ws IH]; [done|]. cbn [map concat app].
  rewrite <- !app_assoc, IH. cbn [app join_on]. by destruct (ws ++ [w]) eqn:E; [destruct ws|].
Qed.

Lemma pattern_rx_snoc its it dbl :
  pattern_rx (its ++ [it], dbl) =
  cat_all (RBegin :: (body_rx its ++ item_rx it) ++ [RQuest (RLit sep)] ++ tail_rx dbl).
Proof.
  unfold pattern_rx. cbn [fst snd].
  change (reverse (RBegin :: body_rx (its ++ [it]))) with (pattern_stack (its ++ [it])).
  rewrite pattern_stack_snoc, reverse_app, reverse_singleton. cbn [app].
  rewrite reverse_app, reverse_involutive. unfold pattern_stack.
  rewrite reverse_involutive. cbn [app]. by rewrite <- app_assoc.
Qed.

Lemma starts_true s s' : (true, s') ∈ starts s -> s' = s.
Proof.
  unfold starts. intros [[= ->]|H]%elem_of_cons; [done|]. exfalso.
  destruct s as [|c s]; [by apply elem_of_nil in H|].
  induction s as [|d s IH]; cbn [later_starts] in H.
  - by apply list_elem_of_singleton in H.
  - apply elem_of_cons in H as [?|H]; [done|]. by apply IH.
Qed.

(** A match is anchored at the beginning, and its parts follow the segments. *)
Lemma pattern_match_pieces its it dbl input : Forall item_free (its ++ [it]) ->
  regexp_Match (pattern_rx (its ++ [it], dbl)) input = true <->
  exists ws, Forall2 item_ok (its ++ [it]) ws /\
    (runes input = join_on sep ws \/
     exists u, runes input = join_on sep ws ++ sep :: u /\
               (u = [] \/ dbl = true /\ 10 ∉ u)).
Proof.
  intros [Hits Hit]%Forall_app. rewrite Forall_singleton in Hit.
  pose proof (denotes_app _ _ _ _ (denotes_app _ _ _ _ (denotes_body its Hits) (denotes_item it Hit))
    (denotes_app _ _ _ _ denotes_optional_sep (denotes_tail dbl))) as Hden.
  rewrite regexp_Match_spec, pattern_rx_snoc. split.
  - intros ([b s] & [b' t] & Hst & H).
    inversion H as [| | | | | |? ? ? m ? Hb Hr| | | | | | |]; subst. inversion Hb; subst.
    apply starts_true in Hst as ->.
    destruct (proj1 (Hden true (runes input) t) (ex_intro _ _ Hr))
      as (m & (n & (ws & Hws & ->) & w & -> & Hw) & o & Ho & -> & Ht).
    exists (ws ++ [w]). split; [by apply Forall2_app; [|constructor]|].
    rewrite app_assoc, concat_join.
    destruct Ho as [->| ->], Ht as [->|(? & u & -> & Hu)]; rewrite ?app_nil_r; auto; right.
    + eauto.
    + eauto.
    + eexists. split; [done|]. right. split; [done|]. pose proof sep_not_newline. set_solver.
  - intros (ws & Hws & Hin). apply Forall2_app_inv_l in Hws as (ws' & k & Hws & Hk & ->).
    inversion Hk as [|? w ? ? Hw Hn]; subst. inversion Hn; subst.
    enough (exists b', reaches (cat_all ((body_rx its ++ item_rx it) ++ [RQuest (RLit sep)] ++ tail_rx dbl))
      (true, runes input) (b', [])) as (b' & Hr).
    { exists (true, runes input), (b', []). split; [left|]. econstructor; [constructor|done]. }
    apply Hden. rewrite <- concat_join in Hin.
    destruct Hin as [Hin|(u & Hin & Hu)].
    + exists []. split; [|exists []; auto]. exists w. split; [eauto|].
      exists w. by rewrite app_nil_r.
    + rewrite <- app_assoc in Hin. exists (sep :: u).
      split; [exists (w ++ sep :: u); split; eauto|].
      destruct Hu as [->|[-> Hu]]; [exists []; auto|].
      exists (sep :: u). split; [by left|]. split; [done|right]. eauto.
Qed.

Lemma items_match_Forall2 its ws :
  items_match its ws = true <-> Forall2 (fun it w => item_matches it w = true) its ws.
Proof.
  revert ws. induction its as [|it its IH]; intros [|w ws]; simpl.
  - split; [constructor|done].
  - split; [done|by inversion 1].
  - split; [done|by inversion 1].
  - rewrite andb_true_iff, IH. split; [intros []; by constructor|by inversion 1].
Qed.

Lemma Forall2_item_ok its ws :
  Forall2 item_ok its ws <-> items_match its ws = true /\ Forall (fun w => sep ∉ w) ws.
Proof.
  rewrite items_match_Forall2. split.
  - induction 1 as [|it w its ws [? ?] _ [? ?]]; split; by constructor.
  - intros [H Hf]. induction H; [constructor|]. inversion Hf; subst. constructor; [done|auto].
Qed.

(** The matches of a pattern with a first segment, on the input's segments. *)
Lemma segments_no_newline u : u = [] \/ 10 ∉ u ->
  forallb (fun f => bool_decide (10 ∉ f)) (split_on sep u) = true.
Proof.
  intros Hu. apply forallb_forall. intros f Hin%list_elem_of_In.
  apply bool_decide_eq_true. intros H10. destruct Hu as [->|Hu].
  { apply list_elem_of_singleton in Hin as ->. by apply elem_of_nil in H10. }
  apply Hu. rewrite <- (split_on_join sep u). apply elem_of_join; [|eauto].
  intros E. by apply sep_not_newline.
Qed.

Lemma pattern_match_segments its it dbl input : Forall item_free (its ++ [it]) ->
  regexp_Match (pattern_rx (its ++ [it], dbl)) input =
  reading_matches (its ++ [it], dbl) (split_on sep (runes input)).
Proof.
  intros Hfree. apply eq_true_iff_eq. rewrite pattern_match_pieces by done.
  set (jts := its ++ [it]). assert (Hj : jts <> []) by (unfold jts; by destruct its).
  set (s := runes input). pose proof (split_on_free sep s) as Hsf.
  assert (Hlen : forall ws, Forall2 item_ok jts ws -> length ws = length jts /\ ws <> []).
  { intros ws H%Forall2_length. split; [done|]. intros ->. by destruct jts. }
  unfold reading_matches. rewrite (bool_decide_false (jts = [])) by done. cbn [orb].
  setoid_rewrite Forall2_item_ok in Hlen. setoid_rewrite Forall2_item_ok.
  destruct dbl; [rewrite andb_true_iff | rewrite orb_true_iff]; split.
  - intros (ws & [Hm Hf] & Hs). destruct (Hlen ws (conj Hm Hf)) as [Hl Hne].
    rewrite <- Hl. destruct Hs as [->|(u & -> & Hu)].
    + rewrite join_on_split by done. by rewrite firstn_all, drop_all.
    + rewrite split_on_join_app by done. rewrite take_app_length, drop_app_length.
      split; [done|]. apply segments_no_newline. by destruct Hu as [->|[_ Hu]]; [left|right].
  - intros [Hm Hn]. set (n := length jts) in *.
    assert (Hfs := take_drop n (split_on sep s)).
    rewrite <- Hfs in Hsf. apply Forall_app in Hsf as [Hf1 Hf2].
    exists (take n (split_on sep s)). split; [done|].
    destruct (Hlen _ (conj Hm Hf1)) as [_ Hne].
    destruct (decide (drop n (split_on sep s) = [])) as [E|E].
    + left. rewrite E, app_nil_r in Hfs. by rewrite Hfs, split_on_join.
    + right. exists (join_on sep (drop n (split_on sep s))).
      rewrite <- join_on_app, Hfs, split_on_join by done. split; [done|right]. split; [done|].
      rewrite elem_of_join by (intros E'; by apply sep_not_newline). intros (f & Hf & H10).
      rewrite forallb_forall in Hn. apply list_elem_of_In, Hn, bool_decide_eq_true in Hf. done.
  - intros (ws & [Hm Hf] & Hs). destruct (Hlen ws (conj Hm Hf)) as [Hl Hne].
    destruct Hs as [->|(u & -> & [->|[? _]])]; [|right|done].
    + left. by rewrite join_on_split.
    + rewrite split_on_join_app by done. apply items_match_Forall2, Forall2_app.
      * by apply items_match_Forall2.
      * by constructor.
  - intros [Hm|Hm].
    + exists (split_on sep s). by rewrite split_on_join; auto.
    + apply items_match_Forall2, Forall2_app_inv_l in Hm as (ws & k & Hm & Hk & E).
      inversion Hk as [|? w ? ? Hw Hn]; subst. inversion Hn; subst.
      apply bool_decide_eq_true in Hw as ->. rewrite E in Hsf.
      apply Forall_app in Hsf as [Hf _]. apply items_match_Forall2 in Hm.
      destruct (Hlen _ (conj Hm Hf)) as [_ Hne]. exists ws. split; [done|right].
      exists []. split; [|by left]. by rewrite <- (split_on_join sep s), E, join_on_app.
Qed.

Lemma starts_end s : exists b, (b, []) ∈ starts s.
Proof.
  destruct s as [|c s]; [exists true; left|]. exists false. unfold starts. right.
  induction s as [|d s IH]; cbn [later_starts]; [left|by right].
Qed.

(** The double wildcard alone makes the anchor optional, and so matches at the
    end of any input. *)
Lemma pattern_match_anything input : regexp_Match (pattern_rx ([], true)) input = true.
Proof.
  apply regexp_Match_spec. destruct (starts_end (runes input)) as [b Hb].
  exists (b, []), (b, []). split; [done|].
  change (pattern_rx ([], true)) with
    (cat_all [RQuest RBegin; RAlt REmpty (cat_all [RLit sep; RStar RAnyNotNL]); REnd]).
  cbn [cat_all foldr]. repeat (econstructor; [by auto with ghost|]). constructor.
Qed.

Lemma read_segments_free segs its dbl :
  Forall (fun s => sep ∉ runes s) segs -> segs <> [] ->
  read_segments segs = Ret (its, dbl) ->
  Forall item_free its /\ (its <> [] \/ dbl = true).
Proof.
  intros Hf Hne. revert its dbl.
  induction Hf as [|segment rest Hs Hr IH]; intros its dbl; [done|]. cbn [read_segments].
  assert (Hrest : forall its dbl, read_segments rest = Ret (its, dbl) -> Forall item_free its).
  { destruct rest; [intros ? ? [= <- <-]; constructor|]. intros ? ? E. by eapply IH. }
  repeat case_match; intros E; try done; simplify_eq.
  1, 3: apply bind_Ret_inv in E as ([its' dbl'] & E & ?); simplify_eq;
    split; [constructor; [done|by eapply Hrest]|by left].
  split; [constructor|by right].
Qed.

Lemma runes_of_segments s : map runes (Split s (string_of_rune sep)) = split_on sep (runes s).
Proof. apply segments_of_runes. Qed.

Lemma read_pattern_free pattern its dbl : read_pattern pattern sep = Ret (its, dbl) ->
  Forall item_free its /\ (its <> [] \/ dbl = true).
Proof.
  unfold read_pattern. case_match; [done|]. intros (rd & Hrd & Hv)%bind_Ret_inv.
  destruct (ValidString pattern); simplify_eq.
  eapply read_segments_free; [|apply Split_nonempty|done].
  apply (Forall_map runes (fun w => sep ∉ w)). rewrite runes_of_segments. apply split_on_free.
Qed.

(** The generated expression matches what the reading of the pattern says. *)
Lemma pattern_rx_matches pattern rd input : read_pattern pattern sep = Ret rd ->
  regexp_Match (pattern_rx rd) input = reading_matches rd (segments_of sep input).
Proof.
  destruct rd as [its dbl]. intros [Hfree Hne]%read_pattern_free.
  rewrite segments_of_runes. destruct its as [|it its _] using rev_ind.
  - destruct Hne as [?| ->]; [done|]. by rewrite pattern_match_anything.
  - by apply pattern_match_segments.
Qed.

Lemma CompileWithSeparator_matches pattern m : CompileWithSeparator pattern sep = Ret m ->
  exists rd, read_pattern pattern sep = Ret rd /\
    forall input, Matches m input = reading_matches rd (segments_of sep input).
Proof.
  rewrite CompileWithSeparator_reads. intros (rd & Hrd & [= <-])%bind_Ret_inv.
  exists rd. split; [done|]. intros input. by eapply pattern_rx_matches.
Qed.
End Separator.

(** ** The package's promises *)

Lemma default_plain : plain_separator defaultSeparator = true.
Proof. reflexivity. Qed.

Lemma read_segments_no_panic segs : read_segments segs <> Panic.
Proof.
  induction segs as [|segment rest IH]; cbn [read_segments]; [done|].
  repeat case_match; try done; destruct (read_segments rest) as [[]| |]; done.
Qed.

Lemma read_pattern_no_panic pattern separator : read_pattern pattern separator <> Panic.
Proof.
  unfold read_pattern. case_match; [done|].
  pose proof (read_segments_no_panic (Split pattern (string_of_rune separator))).
  destruct (read_segments _); [|done..]. cbn. by destruct (ValidString pattern).
Qed.

(** C1. Compiling a pattern with a plain separator either fails with the error
    of the reference reading of the pattern (empty pattern, misplaced wildcard,
    invalid UTF-8), or gives a matcher that accepts exactly the inputs whose
    segments match the pattern segment by segment. The text, the regular
    expression and its matching that the code goes through add nothing. (A
    separator at the end of an input is optional in this reading, but one at the
    end of a pattern is not: its last segment is empty and has to be matched, so
    that the pattern "test://foo/bar/" rejects "test://foo/bar", although the
    package comment calls the two strings equivalent.) *)
Theorem compile_refines_reading (pattern : string) (separator : Z)
    (Hsep : plain_separator separator = true) :
  match read_pattern pattern separator with
  | Ret rd => exists m, CompileWithSeparator pattern separator = Ret m /\
      forall input, Matches m input = reading_matches rd (segments_of separator input)
  | Err e => CompileWithSeparator pattern separator = Err e
  | Panic => False
  end.
Proof.
  pose proof (CompileWithSeparator_reads separator Hsep pattern) as HC.
  destruct (read_pattern pattern separator) as [rd|e|] eqn:E; [|done|].
  - eexists. split; [done|]. intros input. by eapply pattern_rx_matches.
  - by apply read_pattern_no_panic in E.
Qed.

Lemma compile_refines_reading_witness :
  plain_separator 47 = true /\
  exists m, CompileWithSeparator "spiffe://foo/*/bar/**" 47 = Ret m /\
    forall input, Matches m input =
      reading_matches ([Literal (runes "spiffe:"); Literal []; Literal (runes "foo");
                        AnySegment; Literal (runes "bar")], true) (segments_of 47 input).
Proof.
  split; [reflexivity|].
  exact (compile_refines_reading "spiffe://foo/*/bar/**" 47 eq_refl).
Defined.

(** Patterns without the character [*]. *)
Lemma segment_no_star pattern sep segment : plain_separator sep = true ->
  Contains pattern "*" = false -> segment ∈ Split pattern (string_of_rune sep) ->
  Contains segment "*" = false.
Proof.
  intros Hsep Hp Hs. apply not_true_iff_false. intros Hc. apply not_true_iff_false in Hp.
  apply Hp. apply Contains_byte. apply Contains_byte in Hc.
  rewrite (Split_sep sep Hsep) in Hs.
  apply list_elem_of_In, in_map_iff in Hs as (f & <- & Hf%list_elem_of_In).
  rewrite bytes_of_bytes in Hc by (by eapply split_on_bytes).
  rewrite <- (split_on_join sep (bytes pattern)). apply elem_of_join; [|eauto].
  intros E. rewrite <- E in Hsep. done.
Qed.

Lemma read_segments_literal segs (dbl : bool) :
  (forall s, s ∈ segs -> Contains s "*" = false) ->
  read_segments (segs ++ if dbl then ["**"] else []) =
  Ret (map (fun s => Literal (runes s)) segs, dbl).
Proof.
  intros H. induction segs as [|s segs IH]; [by destruct dbl|].
  cbn [app read_segments map]. pose proof (H s ltac:(by left)) as Hs.
  destruct (String.eqb_spec s "*") as [->|_]; [done|].
  destruct (String.eqb_spec s "**") as [->|_]; [done|].
  rewrite Hs, IH by (intros; apply H; by right). done.
Qed.

Lemma literal_items_match ps ws :
  items_match (map (fun s => Literal (runes s)) ps) ws = true <-> ws = map runes ps.
Proof.
  revert ws. induction ps as [|p ps IH]; intros [|w ws]; simpl; try done.
  rewrite andb_true_iff, IH, bool_decide_eq_true. naive_solver.
Qed.

Lemma split_on_inj x s t : split_on x s = split_on x t -> s = t.
Proof. intros H. by rewrite <- (split_on_join x s), H, split_on_join. Qed.

Lemma runes_slash s : runes (s +:+ "/") = runes s ++ [47].
Proof. unfold runes. rewrite bytes_app. cbn. rewrite decode_app_ascii by done. by rewrite map_app. Qed.

Lemma ValidString_slash s : ValidString (s +:+ "/") = ValidString s.
Proof.
  unfold ValidString. rewrite bytes_app. cbn. rewrite decode_app_ascii by done.
  rewrite existsb_app. cbn. by rewrite orb_false_r.
Qed.

Lemma split_slash l : split_on 47 (l ++ [47]) = split_on 47 l ++ [[]].
Proof. by rewrite (split_on_app_gen 47 l []). Qed.

(** The reading of a pattern without wildcards, alone or before [/**]. *)
Lemma read_literal_pattern pattern : pattern <> "" ->
  Contains pattern "*" = false -> ValidString pattern = true ->
  read_pattern pattern 47 =
    Ret (map (fun s => Literal (runes s)) (Split pattern (string_of_rune 47)), false).
Proof.
  intros Hne Hs Hv. unfold read_pattern.
  destruct (String.eqb_spec pattern "") as [->|_]; [done|].
  pose proof (read_segments_literal (Split pattern (string_of_rune 47)) false) as E.
  rewrite app_nil_r in E. rewrite E, Hv; [done|].
  intros s. by apply segment_no_star.
Qed.

Lemma read_tree_pattern prefix :
  Contains prefix "*" = false -> ValidString prefix = true ->
  read_pattern (prefix +:+ "/**") 47 =
    Ret (map (fun s => Literal (runes s)) (Split prefix (string_of_rune 47)), true).
Proof.
  intros Hs Hv. unfold read_pattern.
  destruct (String.eqb_spec (prefix +:+ "/**") "") as [E|_]; [by destruct prefix|].
  assert (HS : Split (prefix +:+ "/**") (string_of_rune 47) =
               Split prefix (string_of_rune 47) ++ ["**"]).
  { rewrite !(Split_sep 47 eq_refl), bytes_app. cbn [bytes].
    change (bytes prefix ++ _) with (bytes prefix ++ 47 :: [42; 42]).
    by rewrite split_on_app_gen, map_app. }
  assert (HV : ValidString (prefix +:+ "/**") = true).
  { revert Hv. unfold ValidString. rewrite bytes_app.
    change (bytes "/**") with [47; 42; 42]. rewrite decode_app_ascii by done.
    rewrite existsb_app. cbn. by rewrite orb_false_r. }
  rewrite HS, HV, (read_segments_literal _ true); [done|].
  intros s. by apply segment_no_star.
Qed.

(** A pattern without wildcards matches exactly itself, with or without a
    separator at the end: no character of it acts as a meta character of the
    regular expression it is compiled to. *)
Theorem literal_pattern_exact (pattern input : string)
    (Hne : pattern <> "") (Hstar : Contains pattern "*" = false)
    (Hvp : ValidString pattern = true) (Hvi : ValidString input = true) :
  exists m, Compile pattern = Ret m /\
    (Matches m input = true <-> input = pattern \/ input = pattern +:+ "/").
Proof.
  pose proof (CompileWithSeparator_reads 47 eq_refl pattern) as HC.
  pose proof (read_literal_pattern pattern Hne Hstar Hvp) as HR. rewrite HR in HC.
  eexists. split; [exact HC|].
  change (Matches _ input) with (regexp_Match (pattern_rx 47
    (map (fun s => Literal (runes s)) (Split pattern (string_of_rune 47)), false)) input).
  rewrite (pattern_rx_matches 47 eq_refl pattern _ input HR).
  unfold reading_matches. rewrite orb_true_iff.
  replace [Literal []] with (map (fun s => Literal (runes s)) [""]) by done.
  rewrite <- map_app, !literal_items_match, map_app.
  rewrite (segments_of_runes 47 eq_refl), !(runes_of_segments 47 eq_refl).
  change (map runes [""]) with [[] : list Z]. rewrite <- split_slash, <- runes_slash.
  split; intros [H|H]; auto.
  - left. apply runes_inj; auto. by eapply split_on_inj.
  - right. apply runes_inj; [done|by rewrite ValidString_slash|]. by eapply split_on_inj.
  - left. by rewrite H.
  - right. by rewrite H.
Qed.

Lemma literal_pattern_exact_witness :
  exists m, Compile "a.b/(c)" = Ret m /\
    (Matches m "a.b/(c)/" = true <-> "a.b/(c)/" = "a.b/(c)" \/ "a.b/(c)/" = "a.b/(c)" +:+ "/").
Proof.
  exact (literal_pattern_exact "a.b/(c)" "a.b/(c)/" ltac:(discriminate) eq_refl eq_refl eq_refl).
Defined.

(** C36. A literal prefix followed by the double wildcard matches the prefix and
    everything below it, and nothing beside it: the prefix has to end at the
    end of the input or at a separator. What follows must not contain a line
    feed, which the expression's [.] does not match. *)
Theorem tree_pattern_matches (prefix input : string)
    (Hstar : Contains prefix "*" = false) (Hv : ValidString prefix = true) :
  exists m, Compile (prefix +:+ "/**") = Ret m /\
    (Matches m input = true <->
     runes input = runes prefix \/
     exists u, runes input = runes prefix ++ 47 :: u /\ 10 ∉ u).
Proof.
  pose proof (CompileWithSeparator_reads 47 eq_refl (prefix +:+ "/**")) as HC.
  pose proof (read_tree_pattern prefix Hstar Hv) as HR. rewrite HR in HC.
  eexists. split; [exact HC|].
  pose proof (read_pattern_free 47 eq_refl _ _ _ HR) as [Hfree _].
  set (its := map _ _) in *.
  assert (Hne : its <> []).
  { intros E%map_eq_nil. by apply (Split_nonempty 47 eq_refl) in E. }
  change (Matches _ input) with (regexp_Match (pattern_rx 47 (its, true)) input).
  destruct (exists_last Hne) as (its' & it & Eits). rewrite Eits in *.
  rewrite pattern_match_pieces, <- Eits by done.
  assert (Hws : forall ws, Forall2 (item_ok 47) its ws <-> ws = split_on 47 (runes prefix)).
  { intros ws. rewrite Forall2_item_ok. unfold its.
    rewrite literal_items_match, (runes_of_segments 47 eq_refl).
    split; [by intros []|]. intros ->. split; [done|apply split_on_free]. }
  setoid_rewrite Hws. split.
  - intros (ws & -> & H). rewrite split_on_join in H. destruct H as [H|(u & H & Hu)]; [auto|].
    right. exists u. split; [done|]. destruct Hu as [->|[_ Hu]]; [apply not_elem_of_nil|done].
  - intros H. eexists. split; [done|]. rewrite split_on_join. naive_solver.
Qed.

Lemma tree_pattern_matches_witness :
  exists m, Compile ("spiffe://host/svc" +:+ "/**") = Ret m /\
    (Matches m "spiffe://host/svc/a/b" = true <->
     runes "spiffe://host/svc/a/b" = runes "spiffe://host/svc" \/
     exists u, runes "spiffe://host/svc/a/b" = runes "spiffe://host/svc" ++ 47 :: u /\ 10 ∉ u).
Proof.
  exact (tree_pattern_matches "spiffe://host/svc" "spiffe://host/svc/a/b" eq_refl eq_refl).
Defined.

Lemma items_match_length its ws : items_match its ws = true -> length ws = length its.
Proof. rewrite items_match_Forall2. intros H%Forall2_length. done. Qed.

Lemma items_match_snoc its it ws w :
  items_match (its ++ [it]) (ws ++ [w]) = items_match its ws && item_matches it w.
Proof.
  apply eq_true_iff_eq. rewrite andb_true_iff, !items_match_Forall2. split.
  - intros H. assert (length its = length ws).
    { apply Forall2_length in H. rewrite !length_app in H. simpl in H. lia. }
    apply Forall2_app_inv in H as [H1 H2]; [|done]. by inversion H2.
  - intros []. apply Forall2_app; [done|by constructor].
Qed.

(** At the level of readings, a trailing empty segment changes nothing. *)
Lemma reading_trailing its it dbl segs seg :
  it <> Literal [] -> (seg = [] -> segs = []) ->
  reading_matches (its ++ [it], dbl) (segs ++ [seg] ++ [[]]) =
  reading_matches (its ++ [it], dbl) (segs ++ [seg]).
Proof.
  intros Hit Hseg. assert (Hno : item_matches it [] = false) by (by destruct it as [|[|]]).
  unfold reading_matches. rewrite app_assoc. destruct dbl.
  - f_equal. destruct (le_lt_dec (length (its ++ [it])) (length (segs ++ [seg]))) as [Hl|Hl].
    + rewrite take_app_le, drop_app_le by done. by rewrite forallb_app, andb_true_r.
    + assert (Hf : forall k, items_match (its ++ [it]) (take k (segs ++ [seg])) = false).
      { intros k. apply not_true_iff_false. intros H%items_match_length.
        rewrite length_take in H. lia. }
      rewrite Hf. cbn [andb]. rewrite take_ge by (rewrite length_app; simpl; lia).
      by rewrite items_match_snoc, Hno, andb_false_r.
  - rewrite !items_match_snoc, Hno, andb_false_r. cbn [orb].
    change (item_matches (Literal []) []) with true. rewrite andb_true_r.
    assert (Hz : items_match (its ++ [it]) segs && item_matches (Literal []) seg = false).
    { apply andb_false_iff. destruct (decide (seg = [])) as [E|E].
      - left. rewrite (Hseg E). by destruct its.
      - right. by apply bool_decide_eq_false. }
    by rewrite Hz, orb_false_r.
Qed.

(** An input of several segments whose last one is empty ends in a separator. *)
Lemma last_segment_empty input segs : segs <> [] ->
  split_on 47 (runes input) = segs ++ [[]] -> exists s, input = s +:+ "/".
Proof.
  intros Hne E. rewrite <- (segments_of_runes 47 eq_refl) in E. unfold segments_of in E.
  rewrite (Split_sep 47 eq_refl) in E.
  pose proof (split_on_bytes 47 input) as Hb. pose proof (split_on_join 47 (bytes input)) as Hj.
  destruct (exists_last (split_on_nonempty 47 (bytes input))) as (fs & f & Ef).
  rewrite Ef in *. rewrite !map_app in E. cbn [map] in E.
  apply app_inj_tail in E as [E1 E2].
  assert (f = []) as ->.
  { unfold runes in E2. rewrite bytes_of_bytes in E2 by (apply Hb, elem_of_app; right; left).
    destruct f as [|b f]; [done|]. by rewrite decode_cons in E2. }
  assert (fs <> []) by (intros ->; by subst segs).
  exists (of_bytes (join_on 47 fs)). rewrite <- (of_bytes_bytes input), <- Hj.
  rewrite join_on_app by done. by rewrite of_bytes_app.
Qed.

(** An input and the same input with a separator at the end are equivalent,
    for every pattern whose last segment before a double wildcard is not empty
    (the pattern does not itself end in a separator). *)
Theorem trailing_separator_optional (pattern input : string) its it dbl m
    (Hrd : read_pattern pattern defaultSeparator = Ret (its ++ [it], dbl))
    (Hit : it <> Literal [])
    (Hm : Compile pattern = Ret m)
    (Hin : forall s, input <> s +:+ "/") :
  Matches m (input +:+ "/") = Matches m input.
Proof.
  apply (CompileWithSeparator_matches 47 eq_refl) in Hm as (rd & Hrd' & Hm).
  unfold defaultSeparator in Hrd. rewrite Hrd in Hrd'. injection Hrd' as <-.
  rewrite !Hm, !(segments_of_runes 47 eq_refl), runes_slash, split_slash.
  destruct (exists_last (split_on_nonempty 47 (runes input))) as (segs & seg & E).
  rewrite E, <- app_assoc. apply reading_trailing; [done|]. intros ->.
  destruct (decide (segs = [])) as [|Hsegs]; [done|]. exfalso.
  destruct (last_segment_empty input segs Hsegs E) as [s Hs]. by apply (Hin s).
Qed.

(** Without that condition it is not: a pattern that ends in a separator asks for it,
    although the package comment treats "test://foo/bar" and "test://foo/bar/" as
    equivalent; the pattern without it accepts both. *)
Example pattern_trailing_separator_required :
  (exists m, Compile "test://foo/bar/" = Ret m /\
     Matches m "test://foo/bar/" = true /\ Matches m "test://foo/bar" = false) /\
  (exists m, Compile "test://foo/bar" = Ret m /\
     Matches m "test://foo/bar/" = true /\ Matches m "test://foo/bar" = true).
Proof.
  split; (eexists; split; [vm_compute; reflexivity|]); split; vm_compute; reflexivity.
Qed.

Lemma Compile_no_panic p : Compile p <> Panic.
Proof.
  unfold Compile. rewrite (CompileWithSeparator_reads 47 eq_refl).
  pose proof (read_pattern_no_panic p 47). by destruct (read_pattern p 47).
Qed.

(** The loop of [CompileList], with the patterns already compiled. *)
Lemma compile_list_from_spec patterns pre ms :
  Forall2 (fun p m => Compile p = Ret m) pre ms ->
  match compile_list_from patterns ms with
  | Ret ms' => Forall2 (fun p m => Compile p = Ret m) (pre ++ patterns) ms'
  | Err e => exists pre' p post ms', pre ++ patterns = pre' ++ p :: post /\
      Forall2 (fun p m => Compile p = Ret m) pre' ms' /\ Compile p = Err e
  | Panic => False
  end.
Proof.
  revert pre ms. induction patterns as [|p ps IH]; intros pre ms Hms; cbn [compile_list_from].
  { by rewrite app_nil_r. }
  destruct (Compile p) as [m|e|] eqn:E; cbn [mbind outcome_bind].
  - specialize (IH (pre ++ [p]) (ms ++ [m])). rewrite <- app_assoc in IH. apply IH.
    apply Forall2_app; [done|by constructor].
  - by exists pre, p, ps, ms.
  - by apply Compile_no_panic in E.
Qed.

Lemma CompileList_Forall2 patterns ms : CompileList patterns = Ret ms ->
  Forall2 (fun p m => Compile p = Ret m) patterns ms.
Proof.
  pose proof (compile_list_from_spec patterns [] [] ltac:(constructor)) as H.
  unfold CompileList. intros E. by rewrite E in H.
Qed.

(** [CompileList] compiles every pattern, in order, or returns the error of
    the first pattern that does not compile. *)
Theorem CompileList_all_or_first_error (patterns : list string) :
  match CompileList patterns with
  | Ret ms => Forall2 (fun p m => Compile p = Ret m) patterns ms
  | Err e => exists pre p post ms, patterns = pre ++ p :: post /\
      Forall2 (fun p m => Compile p = Ret m) pre ms /\ Compile p = Err e
  | Panic => False
  end.
Proof. apply (compile_list_from_spec patterns [] []). constructor. Qed.
