(* ===== verification/GoNet.v ===== *)
(** * Network data of the Go standard library

    [net.IP] with its equality, [net/url.URL] with its textual form, and the
    fields of [crypto/x509.Certificate] the program reads. Byte sequences are
    lists of integers, texts are strings. *)
From Stdlib Require Import ZArith Ascii.
From stdpp Require Import base list sets strings.
From S2P Require Import Prelude GoStrings Utf8.
#[local] Open Scope Z_scope.

(** ** IP addresses *)

Definition IP : Type := list Z.

Definition v4InV6Prefix : list Z := [0; 0; 0; 0; 0; 0; 0; 0; 0; 0; 0xFF; 0xFF].

(** [net.IP.Equal]: an IPv4 address and the same address in IPv6 form are equal. *)
Definition IP_Equal (ip x : IP) : bool :=
  if (length ip =? length x)%nat then bool_decide (ip = x)
  else if (length ip =? 4)%nat && (length x =? 16)%nat then
    bool_decide (take 12 x = v4InV6Prefix) && bool_decide (ip = drop 12 x)
  else if (length ip =? 16)%nat && (length x =? 4)%nat then
    bool_decide (take 12 ip = v4InV6Prefix) && bool_decide (drop 12 ip = x)
  else false.

(** [net.IP.To16]: the 16-byte form. *)
Definition IP_To16 (ip : IP) : IP :=
  if (length ip =? 4)%nat then v4InV6Prefix ++ ip else ip.

Definition valid_IP (ip : IP) : bool := (length ip =? 4)%nat || (length ip =? 16)%nat.

Lemma mapped_iff (a b : IP) : length a = 4%nat ->
  (take 12 b = v4InV6Prefix /\ a = drop 12 b) <-> v4InV6Prefix ++ a = b.
Proof.
  intros Ha. split.
  - intros [H1 ->]. by rewrite <- H1, take_drop.
  - intros <-. split; [by rewrite take_app_length'|by rewrite drop_app_length'].
Qed.

(** On addresses of the two lengths, equality is equality of 16-byte forms. *)
Lemma IP_Equal_To16 (a b : IP) : valid_IP a = true -> valid_IP b = true ->
  IP_Equal a b = true <-> IP_To16 a = IP_To16 b.
Proof.
  unfold valid_IP, IP_Equal, IP_To16. rewrite !orb_true_iff, !Nat.eqb_eq.
  intros [Ha|Ha] [Hb|Hb]; rewrite Ha, Hb; cbn [Nat.eqb andb].
  - rewrite bool_decide_eq_true. split; [by intros ->|apply app_inv_head].
  - rewrite andb_true_iff, !bool_decide_eq_true. by apply mapped_iff.
  - rewrite andb_true_iff, !bool_decide_eq_true.
    split; [intros [? <-]; symmetry; apply mapped_iff; [|done]; rewrite length_drop; lia|].
    intros ->. by apply mapped_iff.
  - by rewrite bool_decide_eq_true.
Qed.

(** ** URLs *)

(** [url.Userinfo]: the user name and the password, if one is set. *)
Record Userinfo : Type := { ui_username : string; ui_password : option string }.

(** [url.URL]. *)
Record URL : Type := {
  u_Scheme : string;
  u_Opaque : string;
  u_User : option Userinfo;
  u_Host : string;
  u_Path : string;
  u_RawPath : string;
  u_ForceQuery : bool;
  u_RawQuery : string;
  u_Fragment : string
}.

Inductive encoding : Type := encodePath | encodeHost | encodeUserPassword | encodeFragment.

Definition is_alphanum (c : Z) : bool :=
  between 65 90 c || between 97 122 c || between 48 57 c.

Definition in_bytes (c : Z) (set : string) : bool := bool_decide (c ∈ bytes set).

(** [url.shouldEscape], for the modes [URL.String] uses. 34 is the quotation
    mark, which the host set contains besides the characters written out. *)
Definition shouldEscape (c : Z) (mode : encoding) : bool :=
  if is_alphanum c then false
  else if match mode with
          | encodeHost => in_bytes c "!$&'()*+,;=:[]<>" || (c =? 34)
          | _ => false
          end then false
  else if in_bytes c "-_.~" then false
  else if in_bytes c "$&+,/:;=?@" then
    match mode with
    | encodePath => c =? 63
    | encodeUserPassword => in_bytes c "@/?:"
    | encodeFragment => false
    | encodeHost => true
    end
  else match mode with
       | encodeFragment => negb (in_bytes c "!()*")
       | _ => true
       end.

Definition upperhex (d : Z) : Z := if d <? 10 then 48 + d else 55 + d.

(** [url.escape]. *)
Definition url_escape (s : string) (mode : encoding) : string :=
  of_bytes (flat_map (fun c =>
    if shouldEscape c mode then [37; upperhex (c / 16); upperhex (c mod 16)] else [c])
    (bytes s)).

Definition unhex (c : Z) : option Z :=
  if between 48 57 c then Some (c - 48)
  else if between 97 102 c then Some (c - 87)
  else if between 65 70 c then Some (c - 55)
  else None.

(** [url.unescape s encodePath]. *)
Fixpoint unescape_path (s : list Z) : option (list Z) :=
  match s with
  | [] => Some []
  | c :: t =>
    if c =? 37 then
      match t with
      | h :: l :: t' =>
        a ← unhex h; b ← unhex l; r ← unescape_path t'; Some (a * 16 + b :: r)
      | _ => None
      end
    else r ← unescape_path t; Some (c :: r)
  end.

(** [url.validEncodedPath]. *)
Definition validEncodedPath (s : string) : bool :=
  forallb (fun c => in_bytes c "!$&'()*+,;=:@[]%" || negb (shouldEscape c encodePath)) (bytes s).

(** [URL.EscapedPath]. *)
Definition EscapedPath (u : URL) : string :=
  if negb (String.eqb (u_RawPath u) "") && validEncodedPath (u_RawPath u)
     && bool_decide (unescape_path (bytes (u_RawPath u)) = Some (bytes (u_Path u)))
  then u_RawPath u
  else if String.eqb (u_Path u) "*" then "*"
  else url_escape (u_Path u) encodePath.

(** [Userinfo.String]. *)
Definition Userinfo_String (ui : Userinfo) : string :=
  url_escape (ui_username ui) encodeUserPassword +:+
  match ui_password ui with
  | Some p => ":" +:+ url_escape p encodeUserPassword
  | None => ""
  end.

(** A colon before the first slash. *)
Definition colon_in_first_segment (path : string) : bool :=
  match split_on 47 (bytes path) with
  | f :: _ => bool_decide (58 ∈ f)
  | [] => false
  end.

(** [URL.String]. *)
Definition URL_String (u : URL) : string :=
  let has (s : string) := negb (String.eqb s "") in
  let user := match u_User u with Some _ => true | None => false end in
  let scheme := if has (u_Scheme u) then u_Scheme u +:+ ":" else "" in
  let hier :=
    if has (u_Opaque u) then scheme +:+ u_Opaque u
    else
      let authority :=
        if has (u_Scheme u) || has (u_Host u) || user then
          (if has (u_Host u) || has (u_Path u) || user then "//" else "") +:+
          (match u_User u with Some ui => Userinfo_String ui +:+ "@" | None => "" end) +:+
          (if has (u_Host u) then url_escape (u_Host u) encodeHost else "")
        else "" in
      let path := EscapedPath u in
      let slash := if has path && negb (HasPrefix path "/") && has (u_Host u) then "/" else "" in
      let buf := scheme +:+ authority +:+ slash in
      let dot := if String.eqb buf "" && colon_in_first_segment path then "./" else "" in
      buf +:+ dot +:+ path in
  hier
  +:+ (if u_ForceQuery u || has (u_RawQuery u) then "?" +:+ u_RawQuery u else "")
  +:+ (if has (u_Fragment u) then "#" +:+ url_escape (u_Fragment u) encodeFragment else "").

(** A URL of the form scheme://host/path. *)
Definition simple_url (scheme host path : string) : URL :=
  {| u_Scheme := scheme; u_Opaque := ""; u_User := None; u_Host := host; u_Path := path;
     u_RawPath := ""; u_ForceQuery := false; u_RawQuery := ""; u_Fragment := "" |}.

Example URL_String_ex :
  URL_String (simple_url "spiffe" "ghostunnel" "/client 1") = "spiffe://ghostunnel/client%201".
Proof. reflexivity. Qed.

(** ** Certificates *)

(** The fields of [x509.Certificate] (and of its subject) the program reads;
    [PublicKey] is the encoded key. *)
Record Name : Type := { CommonName : string; OrganizationalUnit : list string }.

Record Certificate : Type := {
  Raw : string;
  Subject : Name;
  DNSNames : list string;
  IPAddresses : list IP;
  URIs : list URL;
  PublicKey : string
}.

(** ** Host and port *)

Fixpoint byteIndex (c : Z) (l : list Z) : option nat :=
  match l with
  | [] => None
  | x :: t => if x =? c then Some 0%nat else S <$> byteIndex c t
  end.

Fixpoint lastIndex (c : Z) (l : list Z) : option nat :=
  match l with
  | [] => None
  | x :: t =>
    match lastIndex c t with
    | Some i => Some (S i)
    | None => if x =? c then Some 0%nat else None
    end
  end.

Definition AddrError (addr why : string) : string :=
  if String.eqb addr "" then why else "address " +:+ addr +:+ ": " +:+ why.

(** [net.SplitHostPort]: the host and the port. *)
Definition SplitHostPort (hostport : string) : outcome string (string * string) :=
  let l := bytes hostport in
  let fail why := Err (AddrError hostport why) in
  match lastIndex 58 l with
  | None => fail "missing port in address"
  | Some i =>
    let finish (host : list Z) (j k : nat) :=
      if byteIndex 91 (drop j l) then fail "unexpected '[' in address"
      else if byteIndex 93 (drop k l) then fail "unexpected ']' in address"
      else Ret (of_bytes host, of_bytes (drop (S i) l)) in
    if bool_decide (head l = Some 91) then
      match byteIndex 93 l with
      | None => fail "missing ']' in address"
      | Some e =>
        if Nat.eqb (S e) (length l) then fail "missing port in address"
        else if Nat.eqb (S e) i then finish (take (e - 1) (drop 1 l)) 1%nat (S e)
        else if bool_decide (l !! S e = Some 58) then fail "too many colons in address"
        else fail "missing port in address"
      end
    else
      let host := take i l in
      if byteIndex 58 host then fail "too many colons in address"
      else finish host 0%nat 0%nat
  end.

Example SplitHostPort_ex : SplitHostPort "[::1]:443" = Ret ("::1", "443").
Proof. reflexivity. Qed.

Lemma byteIndex_None c l : byteIndex c l = None <-> c ∉ l.
Proof.
  induction l as [|x l IH]; simpl; [split; [intros _ []%elem_of_nil|done]|].
  rewrite not_elem_of_cons. destruct (Z.eqb_spec x c) as [->|Hne]; [split; [done|by intros [[] _]]|].
  rewrite <- IH. destruct (byteIndex c l); simpl; naive_solver.
Qed.

Lemma lastIndex_ge c a b i : lastIndex c (a ++ c :: b) = Some i -> (length a <= i)%nat.
Proof.
  revert i. induction a as [|x a IH]; intros i; simpl; [lia|].
  destruct (lastIndex c (a ++ c :: b)) as [j|] eqn:E.
  - intros [= <-]. specialize (IH j eq_refl). lia.
  - exfalso. clear -E. induction a as [|y a IH]; simpl in E.
    + rewrite Z.eqb_refl in E. by destruct (lastIndex c b).
    + destruct (lastIndex c (a ++ c :: b)); [done|auto].
Qed.

(** The host of an address that starts with a name and a colon is that name. *)
Lemma SplitHostPort_name name rest host port :
  58 ∉ bytes name -> head (bytes name) <> Some 91 -> name <> "" ->
  SplitHostPort (name +:+ ":" +:+ rest) = Ret (host, port) -> host = name.
Proof.
  intros Hc Hh Hne. unfold SplitHostPort. rewrite !bytes_app. change (bytes ":") with [58].
  set (l := bytes name ++ [58] ++ bytes rest).
  destruct (lastIndex 58 l) as [i|] eqn:E; [|done].
  assert (Hhd : head l = head (bytes name)).
  { unfold l. destruct name; [done|]. done. }
  rewrite Hhd. rewrite bool_decide_eq_false_2 by done.
  destruct (byteIndex 58 (take i l)) eqn:Eb; [done|]. apply byteIndex_None in Eb.
  pose proof (lastIndex_ge _ _ _ _ E) as Hge.
  assert (Hi : i = length (bytes name)).
  { destruct (decide (i = length (bytes name))) as [|Hn]; [done|]. exfalso. apply Eb.
    unfold l. rewrite take_app. rewrite elem_of_app. right.
    replace (i - length (bytes name))%nat with (S (i - length (bytes name) - 1)) by lia.
    simpl. by left. }
  repeat case_match; try done. intros [= <- _]. unfold l. rewrite Hi, take_app_length.
  apply of_bytes_bytes.
Qed.
