(* ===== verification/Auth.v ===== *)
(** * Access control: [src/auth/auth.go]

    The access control list and the two callbacks [crypto/tls] runs on the
    verified chains of a peer. The list is generic in the type of its URI
    matchers, which it uses through the interface [Matcher]; the last section
    instantiates it with the compiled wildcard patterns. *)
From Stdlib Require Import ZArith.
From stdpp Require Import base list sets strings.
From S2P Require Import Prelude GoStrings Utf8 GoNet Regexp Wildcard.

(** The struct [ACL]; the field [Logger] is never read. *)
Record ACL (M : Type) : Type := {
  AllowAll : bool;
  AllowedCNs : list string;
  AllowedOUs : list string;
  AllowedDNSs : list string;
  AllowedIPs : list IP;
  AllowedURIs : list M
}.
Arguments AllowAll {M} _.
Arguments AllowedCNs {M} _.
Arguments AllowedOUs {M} _.
Arguments AllowedDNSs {M} _.
Arguments AllowedIPs {M} _.
Arguments AllowedURIs {M} _.

Definition errUnauthorized : string :=
  "unauthorized: invalid principal, or principal not allowed".

Fixpoint contains (set : list string) (item : string) : bool :=
  match set with
  | [] => false
  | c :: rest => if String.eqb c item then true else contains rest item
  end.

Fixpoint intersects (left right : list string) : bool :=
  match left with
  | [] => false
  | item :: rest => if contains right item then true else intersects rest right
  end.

(** The inner loop of [intersectsIP], for one address of the left list. *)
Fixpoint anyEqualIP (l : IP) (right : list IP) : bool :=
  match right with
  | [] => false
  | r :: rest => if IP_Equal r l then true else anyEqualIP l rest
  end.

Fixpoint intersectsIP (left right : list IP) : bool :=
  match left with
  | [] => false
  | l :: rest => if anyEqualIP l right then true else intersectsIP rest right
  end.

Section ACL.
Context {M : Type} `{Matcher M}.
Implicit Types a : ACL M.

(** The inner loop of [intersectsURI], for one matcher of the left list. *)
Fixpoint anyMatchesURI (l : M) (right : list URL) : bool :=
  match right with
  | [] => false
  | r :: rest => if Matches l (URL_String r) then true else anyMatchesURI l rest
  end.

Fixpoint intersectsURI (left : list M) (right : list URL) : bool :=
  match left with
  | [] => false
  | l :: rest => if anyMatchesURI l right then true else intersectsURI rest right
  end.

(** [ACL.VerifyPeerCertificateServer]. Indexing an empty chain panics. *)
Definition VerifyPeerCertificateServer (a : ACL M) (rawCerts : list string)
    (verifiedChains : list (list Certificate)) : outcome string unit :=
  match verifiedChains with
  | [] => Err errUnauthorized
  | chain :: _ =>
    if AllowAll a then Ret ()
    else match chain with
    | [] => Panic
    | cert :: _ =>
      if contains (AllowedCNs a) (CommonName (Subject cert)) then Ret ()
      else if intersects (AllowedOUs a) (OrganizationalUnit (Subject cert)) then Ret ()
      else if intersects (AllowedDNSs a) (DNSNames cert) then Ret ()
      else if intersectsIP (AllowedIPs a) (IPAddresses cert) then Ret ()
      else if intersectsURI (AllowedURIs a) (URIs cert) then Ret ()
      else Err errUnauthorized
    end
  end.

(** [ACL.VerifyPeerCertificateClient]. *)
Definition VerifyPeerCertificateClient (a : ACL M) (rawCerts : list string)
    (verifiedChains : list (list Certificate)) : outcome string unit :=
  match verifiedChains with
  | [] => Err errUnauthorized
  | chain :: _ =>
    if (length (AllowedCNs a) =? 0) && (length (AllowedOUs a) =? 0)
       && (length (AllowedDNSs a) =? 0) && (length (AllowedURIs a) =? 0)
       && (length (AllowedIPs a) =? 0) then Ret ()
    else match chain with
    | [] => Panic
    | cert :: _ =>
      if contains (AllowedCNs a) (CommonName (Subject cert)) then Ret ()
      else if intersects (AllowedOUs a) (OrganizationalUnit (Subject cert)) then Ret ()
      else if intersects (AllowedDNSs a) (DNSNames cert) then Ret ()
      else if intersectsIP (AllowedIPs a) (IPAddresses cert) then Ret ()
      else if intersectsURI (AllowedURIs a) (URIs cert) then Ret ()
      else Err errUnauthorized
    end
  end.

(** ** The loops *)

Lemma contains_spec set item : contains set item = true <-> item ∈ set.
Proof.
  assert (contains set item = existsb (fun c => String.eqb c item) set) as ->.
  { induction set as [|c set IH]; simpl; [done|]. by rewrite IH. }
  rewrite (existsb_iff _ (fun c => c = item)); [|intros; apply String.eqb_eq].
  split; [by intros (c & ? & ->)|eauto].
Qed.

Lemma intersects_spec left right :
  intersects left right = true <-> exists x, x ∈ left /\ x ∈ right.
Proof.
  assert (intersects left right = existsb (contains right) left) as ->.
  { induction left as [|c left IH]; simpl; [done|]. by rewrite IH. }
  apply existsb_iff. intros x. apply contains_spec.
Qed.

Lemma intersectsIP_spec left right :
  intersectsIP left right = true <->
  exists l, l ∈ left /\ exists r, r ∈ right /\ IP_Equal r l = true.
Proof.
  assert (intersectsIP left right = existsb (fun l => existsb (fun r => IP_Equal r l) right) left)
    as ->.
  { assert (Hin : forall l, anyEqualIP l right = existsb (fun r => IP_Equal r l) right).
    { intros l. induction right as [|r right IH]; simpl; [done|]. by rewrite IH. }
    induction left as [|l left IH]; simpl; [done|]. by rewrite IH, Hin. }
  apply existsb_iff. intros l. by apply existsb_iff.
Qed.

Lemma intersectsURI_spec left right :
  intersectsURI left right = true <->
  exists l, l ∈ left /\ exists r, r ∈ right /\ Matches l (URL_String r) = true.
Proof.
  assert (intersectsURI left right =
    existsb (fun l => existsb (fun r => Matches l (URL_String r)) right) left) as ->.
  { assert (Hin : forall l, anyMatchesURI l right = existsb (fun r => Matches l (URL_String r)) right).
    { intros l. induction right as [|r right IH]; simpl; [done|]. by rewrite IH. }
    induction left as [|l left IH]; simpl; [done|]. by rewrite IH, Hin. }
  apply existsb_iff. intros l. by apply existsb_iff.
Qed.

(** ** The specification *)

(** The certificate carries an attribute the list allows. *)
Definition attribute_allowed a (cert : Certificate) : Prop :=
  CommonName (Subject cert) ∈ AllowedCNs a \/
  (exists ou, ou ∈ AllowedOUs a /\ ou ∈ OrganizationalUnit (Subject cert)) \/
  (exists dns, dns ∈ AllowedDNSs a /\ dns ∈ DNSNames cert) \/
  (exists ip, ip ∈ AllowedIPs a /\
     exists ip', ip' ∈ IPAddresses cert /\ IP_Equal ip' ip = true) \/
  (exists m, m ∈ AllowedURIs a /\
     exists uri, uri ∈ URIs cert /\ Matches m (URL_String uri) = true).

(** No attribute is listed. *)
Definition no_attributes a : Prop :=
  AllowedCNs a = [] /\ AllowedOUs a = [] /\ AllowedDNSs a = [] /\
  AllowedURIs a = [] /\ AllowedIPs a = [].

(** The checks of the attributes, which the two callbacks share. *)
Definition check_attributes a (cert : Certificate) : bool :=
  contains (AllowedCNs a) (CommonName (Subject cert))
  || intersects (AllowedOUs a) (OrganizationalUnit (Subject cert))
  || intersects (AllowedDNSs a) (DNSNames cert)
  || intersectsIP (AllowedIPs a) (IPAddresses cert)
  || intersectsURI (AllowedURIs a) (URIs cert).

Lemma check_attributes_spec a cert :
  check_attributes a cert = true <-> attribute_allowed a cert.
Proof.
  unfold check_attributes, attribute_allowed.
  rewrite !orb_true_iff, contains_spec, !intersects_spec, intersectsIP_spec, intersectsURI_spec.
  tauto.
Qed.

Lemma no_attributes_spec a :
  (length (AllowedCNs a) =? 0) && (length (AllowedOUs a) =? 0)
  && (length (AllowedDNSs a) =? 0) && (length (AllowedURIs a) =? 0)
  && (length (AllowedIPs a) =? 0) = true <-> no_attributes a.
Proof.
  unfold no_attributes. rewrite !andb_true_iff, !Nat.eqb_eq, !length_zero_iff_nil. tauto.
Qed.

(** Both callbacks, with the checks folded. *)
Lemma server_unfold a raw chain chains :
  VerifyPeerCertificateServer a raw (chain :: chains) =
  if AllowAll a then Ret ()
  else match chain with
       | [] => Panic
       | cert :: _ => if check_attributes a cert then Ret () else Err errUnauthorized
       end.
Proof.
  unfold VerifyPeerCertificateServer, check_attributes.
  destruct (AllowAll a), chain as [|cert chain]; try done. by repeat case_match.
Qed.

Lemma client_unfold a raw chain chains :
  VerifyPeerCertificateClient a raw (chain :: chains) =
  if (length (AllowedCNs a) =? 0) && (length (AllowedOUs a) =? 0)
     && (length (AllowedDNSs a) =? 0) && (length (AllowedURIs a) =? 0)
     && (length (AllowedIPs a) =? 0) then Ret ()
  else match chain with
       | [] => Panic
       | cert :: _ => if check_attributes a cert then Ret () else Err errUnauthorized
       end.
Proof.
  unfold VerifyPeerCertificateClient, check_attributes.
  destruct (_ && _), chain as [|cert chain]; try done. by repeat case_match.
Qed.

(** ** The callbacks implement the specification *)

(** C7. A server accepts a client exactly when [crypto/tls] verified some chain
    and either every principal is allowed or the leaf of the first chain
    carries an allowed attribute. In particular a list that allows nothing
    accepts nobody. *)
Theorem server_access_iff (a : ACL M) raw chains :
  VerifyPeerCertificateServer a raw chains = Ret () <->
  exists chain rest, chains = chain :: rest /\
    (AllowAll a = true \/ exists cert more, chain = cert :: more /\ attribute_allowed a cert).
Proof.
  destruct chains as [|chain chains].
  { split; [done|by intros (? & ? & ? & _)]. }
  rewrite server_unfold. setoid_rewrite <- check_attributes_spec. split.
  - destruct (AllowAll a) eqn:Ha; [by eauto|]. destruct chain as [|cert chain]; [done|].
    destruct (check_attributes a cert) eqn:Hc; [|done]. eauto 10.
  - intros (? & ? & [= <- <-] & [->|(cert & more & -> & Hc)]); [done|].
    rewrite Hc. by destruct (AllowAll a).
Qed.

(** C8. A client accepts a server exactly when [crypto/tls] verified some chain
    (which includes the host name) and either no attribute is listed or the
    leaf of the first chain carries a listed one. *)
Theorem client_access_iff (a : ACL M) raw chains :
  VerifyPeerCertificateClient a raw chains = Ret () <->
  exists chain rest, chains = chain :: rest /\
    (no_attributes a \/ exists cert more, chain = cert :: more /\ attribute_allowed a cert).
Proof.
  destruct chains as [|chain chains].
  { split; [done|by intros (? & ? & ? & _)]. }
  rewrite client_unfold. setoid_rewrite <- check_attributes_spec.
  setoid_rewrite <- no_attributes_spec. split.
  - destruct (_ && _) eqn:Ha; [by eauto|]. destruct chain as [|cert chain]; [done|].
    destruct (check_attributes a cert) eqn:Hc; [|done]. eauto 10.
  - intros (? & ? & [= <- <-] & [->|(cert & more & -> & Hc)]); [done|].
    rewrite Hc. by destruct (_ && _).
Qed.

(** On the chains [crypto/tls] hands over, none of which is empty, neither
    callback panics: each one accepts or returns the one error of the package. *)
Theorem verify_never_panics (a : ACL M) raw chains
    (Hchains : Forall (fun chain => chain <> []) chains) :
  (VerifyPeerCertificateServer a raw chains = Ret () \/
   VerifyPeerCertificateServer a raw chains = Err errUnauthorized) /\
  (VerifyPeerCertificateClient a raw chains = Ret () \/
   VerifyPeerCertificateClient a raw chains = Err errUnauthorized).
Proof.
  destruct Hchains as [|chain chains Hne _]; [by auto|].
  rewrite server_unfold, client_unfold. destruct chain as [|cert chain]; [done|].
  destruct (AllowAll a), (_ && _), (check_attributes a cert); auto.
Qed.

(** The list without the option [AllowAll], which the client callback ignores. *)
Definition restrict (a : ACL M) : ACL M :=
  {| AllowAll := false; AllowedCNs := AllowedCNs a; AllowedOUs := AllowedOUs a;
     AllowedDNSs := AllowedDNSs a; AllowedIPs := AllowedIPs a; AllowedURIs := AllowedURIs a |}.

(** As soon as one attribute is listed, the two callbacks decide alike: the
    client callback is the server callback without [AllowAll]. They differ only
    on the list that names no attribute, where the server refuses everybody and
    the client accepts every verified server. *)
Theorem client_agrees_with_server (a : ACL M) raw chains
    (Ha : ~ no_attributes a) :
  VerifyPeerCertificateClient a raw chains =
  VerifyPeerCertificateServer (restrict a) raw chains.
Proof.
  destruct chains as [|chain chains]; [done|]. rewrite server_unfold, client_unfold.
  destruct (_ && _) eqn:E; [by apply no_attributes_spec in E|].
  by destruct chain.
Qed.

(** ** Order and repetition of the entries do not matter *)

(** [a] allows no more than [b]. *)
Definition acl_le (a b : ACL M) : Prop :=
  (AllowAll a = true -> AllowAll b = true) /\
  AllowedCNs a ⊆ AllowedCNs b /\ AllowedOUs a ⊆ AllowedOUs b /\
  AllowedDNSs a ⊆ AllowedDNSs b /\ AllowedIPs a ⊆ AllowedIPs b /\
  AllowedURIs a ⊆ AllowedURIs b.

Lemma attribute_allowed_mono a b cert : acl_le a b ->
  attribute_allowed a cert -> attribute_allowed b cert.
Proof.
  intros (_ & Hcn & Hou & Hdns & Hip & Huri). unfold attribute_allowed. intros HA.
  destruct HA as [HA|[(x & ? & ?)|[(x & ? & ?)|[(x & ? & ?)|(x & ? & ?)]]]].
  - left. by apply Hcn.
  - right; left. eauto.
  - right; right; left. eauto.
  - right; right; right; left. eauto.
  - right; right; right; right. eauto.
Qed.

(** Lists with the same entries, in any order and multiplicity. *)
Definition acl_equiv (a b : ACL M) : Prop := acl_le a b /\ acl_le b a.

#[export] Instance acl_equiv_equivalence : Equivalence acl_equiv.
Proof.
  unfold acl_equiv, acl_le. split.
  - intros a. by split_and!.
  - intros a b. tauto.
  - intros a b c (?&?) (?&?). destruct_and!. split_and!; auto; by etrans.
Qed.

Lemma server_access_mono a b raw chains : acl_le a b ->
  VerifyPeerCertificateServer a raw chains = Ret () ->
  VerifyPeerCertificateServer b raw chains = Ret ().
Proof.
  intros Hle. destruct chains as [|chain chains]; [done|]. rewrite !server_unfold.
  destruct (AllowAll a) eqn:Ea; [by rewrite (proj1 Hle Ea)|].
  destruct (AllowAll b), chain as [|cert chain]; try done.
  destruct (check_attributes a cert) eqn:E; [|done]. intros _.
  apply check_attributes_spec, (attribute_allowed_mono a b cert Hle),
    check_attributes_spec in E. by rewrite E.
Qed.

#[export] Instance attribute_allowed_proper :
  Proper (acl_equiv ==> eq ==> iff) attribute_allowed.
Proof. intros a b [H1 H2] c ? <-. split; by apply attribute_allowed_mono. Qed.

(** Adding entries to a list never takes access away from a client, and two
    lists with the same entries, in any order and with any repetition, give the
    same answers. *)
Theorem server_access_monotone (a b : ACL M) raw chains
    (Hle : acl_le a b) :
  (VerifyPeerCertificateServer a raw chains = Ret () ->
   VerifyPeerCertificateServer b raw chains = Ret ()) /\
  (acl_le b a -> VerifyPeerCertificateServer a raw chains =
                 VerifyPeerCertificateServer b raw chains).
Proof.
  split; [by apply server_access_mono|]. intros Hge.
  destruct chains as [|chain chains]; [done|]. rewrite !server_unfold.
  assert (AllowAll a = AllowAll b) as ->.
  { apply eq_true_iff_eq. split; [apply Hle|apply Hge]. }
  destruct (AllowAll b), chain as [|cert chain]; try done.
  assert (check_attributes a cert = check_attributes b cert) as ->; [|done].
  apply eq_true_iff_eq. rewrite !check_attributes_spec.
  by apply attribute_allowed_proper.
Qed.
End ACL.

(** ** With compiled wildcard patterns *)

Definition uri_acl (ms : list regexpMatcher) : ACL regexpMatcher :=
  {| AllowAll := false; AllowedCNs := []; AllowedOUs := []; AllowedDNSs := [];
     AllowedIPs := []; AllowedURIs := ms |}.

(** C35. A server that lists only URI patterns, compiled by [CompileList],
    accepts exactly the clients one of whose URI names matches, by its segments,
    the reading of one of the patterns. (As in that reading, a separator at the end
    of a URI name is optional and one at the end of a pattern is not: the pattern
    "spiffe://a/b/" does not admit "spiffe://a/b".) *)
Theorem uri_patterns_access (patterns : list string) ms raw cert more rest
    (Hms : CompileList patterns = Ret ms) :
  VerifyPeerCertificateServer (uri_acl ms) raw ((cert :: more) :: rest) = Ret () <->
  exists p rd uri, p ∈ patterns /\ read_pattern p defaultSeparator = Ret rd /\
    uri ∈ URIs cert /\
    reading_matches rd (segments_of defaultSeparator (URL_String uri)) = true.
Proof.
  pose proof (CompileList_Forall2 patterns ms Hms) as HF.
  rewrite server_unfold. cbn [uri_acl AllowAll].
  assert (Hc : check_attributes (uri_acl ms) cert = true <->
    exists m, m ∈ ms /\ exists uri, uri ∈ URIs cert /\ Matches m (URL_String uri) = true).
  { unfold check_attributes. cbn [uri_acl AllowedCNs AllowedOUs AllowedDNSs AllowedIPs
      AllowedURIs contains intersects intersectsIP orb]. apply intersectsURI_spec. }
  transitivity (check_attributes (uri_acl ms) cert = true).
  { by destruct (check_attributes (uri_acl ms) cert). }
  rewrite Hc. split.
  - intros (m & Hm & uri & Hu & Hmatch).
    destruct (Forall2_in_r _ _ _ _ HF Hm) as (p & Hp & Hcomp).
    apply (CompileWithSeparator_matches 47 eq_refl) in Hcomp as (rd & Hrd & Hall).
    exists p, rd, uri. split_and!; try done. by rewrite <- Hall.
  - intros (p & rd & uri & Hp & Hrd & Hu & Hmatch).
    destruct (Forall2_in_l _ _ _ _ HF Hp) as (m & Hm & Hcomp).
    apply (CompileWithSeparator_matches 47 eq_refl) in Hcomp as (rd' & Hrd' & Hall).
    exists m. split; [done|]. exists uri. split; [done|]. rewrite Hall.
    unfold defaultSeparator in Hrd. rewrite Hrd in Hrd'. by injection Hrd' as <-.
Qed.

(** ** Concrete instances *)

(** The certificate of the package's tests. *)
Definition gopher : Certificate :=
  {| Raw := "";
     Subject := {| CommonName := "gopher"; OrganizationalUnit := ["triangle"; "circle"] |};
     DNSNames := ["circle"];
     IPAddresses := [v4InV6Prefix ++ [192; 168; 99; 100]%Z];
     URIs := [simple_url "scheme" "valid" "/path"];
     PublicKey := "" |}.

Definition cn_acl (cns : list string) : ACL regexpMatcher :=
  {| AllowAll := false; AllowedCNs := cns; AllowedOUs := []; AllowedDNSs := [];
     AllowedIPs := []; AllowedURIs := [] |}.

Lemma verify_never_panics_witness :
  (VerifyPeerCertificateServer (cn_acl ["test"]) [] [[gopher]] = Ret () \/
   VerifyPeerCertificateServer (cn_acl ["test"]) [] [[gopher]] = Err errUnauthorized) /\
  (VerifyPeerCertificateClient (cn_acl ["test"]) [] [[gopher]] = Ret () \/
   VerifyPeerCertificateClient (cn_acl ["test"]) [] [[gopher]] = Err errUnauthorized).
Proof.
  apply (verify_never_panics (cn_acl ["test"]) [] [[gopher]]).
  constructor; [discriminate|constructor].
Defined.

Lemma server_access_monotone_witness :
  VerifyPeerCertificateServer (cn_acl ["gopher"]) [] [[gopher]] = Ret () /\
  VerifyPeerCertificateServer (cn_acl ["test"; "gopher"]) [] [[gopher]] = Ret ().
Proof.
  split; [reflexivity|].
  refine (proj1 (server_access_monotone (cn_acl ["gopher"]) (cn_acl ["test"; "gopher"])
    [] [[gopher]] _) eq_refl).
  split_and!; [discriminate| |reflexivity..]. intros x Hx. by right.
Defined.

Lemma uri_patterns_access_witness :
  exists ms, CompileList ["scheme://*/path"] = Ret ms /\
    (VerifyPeerCertificateServer (uri_acl ms) [] [[gopher]] = Ret () <->
     exists p rd uri, p ∈ ["scheme://*/path"] /\ read_pattern p defaultSeparator = Ret rd /\
       uri ∈ URIs gopher /\
       reading_matches rd (segments_of defaultSeparator (URL_String uri)) = true).
Proof.
  eexists. split; [vm_compute; reflexivity|].
  refine (uri_patterns_access ["scheme://*/path"] _ [] gopher [] [] _).
  vm_compute. reflexivity.
Defined.

Example gopher_allowed_by_ip :
  intersectsIP [[192; 168; 99; 100]%Z] (IPAddresses gopher) = true.
Proof. reflexivity. Qed.
