(* ===== verification/Certloader.v ===== *)
(** * Reloadable certificates: [src/certloader]

    The readers of [certigo.go], the three implementations of the interface
    [Certificate] ([keystore.go], [pkcs11_enabled.go], [certstore_enabled.go])
    and the stubs of the builds without PKCS#11 and keychain support. The
    cryptographic and third-party libraries the package calls are the class
    [CertLibs]; the cached pointer, the heap it points into, the files and the
    descriptors opened on them are the state of a small state-and-error monad. *)
From Stdlib Require Import ZArith.
From stdpp Require Import base list sets strings gmap.
From S2P Require Import Prelude GoStrings GoNet.

(** ** Libraries *)

(** What the package calls of [encoding/pem], [crypto/tls], [crypto/x509],
    [certigo/lib] and [pkcs11key]. The readers of [certigo] pass what they find
    to a callback and then return an error or nil: here the list of the
    callback's arguments and that error. *)
Class CertLibs : Type := {
  pem_block : Type;
  tls_key : Type;
  (* certigo.ReadAsPEMFromFiles, by name, content, format and password *)
  ReadAsPEM : string -> string -> string -> string -> list pem_block * option string;
  (* certigo.ReadAsX509FromFiles with the format PEM, by name and content *)
  ReadAsX509 : string -> string -> list (Certificate + string) * option string;
  EncodeToMemory : pem_block -> string;
  (* tls.X509KeyPair: the chain in DER form and the private key *)
  X509KeyPair : string -> string -> outcome string (list string * tls_key);
  ParseCertificate : string -> outcome string Certificate;
  (* pkcs11key.New, by module, token label, PIN and public key *)
  pkcs11key_New : string -> string -> string -> string -> outcome string tls_key
}.

(** The documented behaviour of [tls.X509KeyPair] and the parsers: they return
    errors instead of panicking, and a key pair has at least one certificate. *)
Class CertLibsOk `(CertLibs) : Prop := {
  X509KeyPair_nonempty a b chain key : X509KeyPair a b = Ret (chain, key) -> chain <> [];
  X509KeyPair_no_panic a b : X509KeyPair a b <> Panic;
  ParseCertificate_no_panic der : ParseCertificate der <> Panic;
  pkcs11key_New_no_panic m t p k : pkcs11key_New m t p k <> Panic
}.

Section Certloader.
Context `{L : CertLibs}.

(** ** State *)

(** [tls.Certificate]: the fields the package sets. *)
Record tls_certificate : Type := {
  tc_Certificate : list string;
  tc_PrivateKey : tls_key;
  tc_Leaf : option Certificate
}.

(** An identity of the keychain: what [CertificateChain] and [Signer] return;
    [None] is an error, which the caller does not look at. *)
Record identity : Type := {
  id_CertificateChain : option (list Certificate);
  id_Signer : option tls_key
}.

(** What one certificate object can see and change: the files, the keychain
    ([certstore.Open] followed by [Store.Identities]), the descriptors opened
    and not closed, the heap of [tls.Certificate] objects and the cached
    pointer, an index into the heap or nil. *)
Record state : Type := State {
  files : gmap string string;
  keychain : outcome string (list identity);
  open_files : list string;
  heap : list tls_certificate;
  cached : option nat
}.

Definition SE (A : Type) : Type := state -> outcome string A * state.

#[export] Instance SE_ret : MRet SE := fun A a s => (Ret a, s).
#[export] Instance SE_bind : MBind SE := fun A B f m s =>
  match m s with
  | (Ret a, s') => f a s'
  | (Err e, s') => (Err e, s')
  | (Panic, s') => (Panic, s')
  end.

(** A call that touches no state. *)
Definition lift {A} (o : outcome string A) : SE A := fun s => (o, s).

(** [os.Open]: the content stands for the handle. A file that cannot be opened is
    one that does not exist. *)
Definition os_Open (path : string) : SE string := fun s =>
  match files s !! path with
  | None => (Err ("open " +:+ path +:+ ": no such file or directory"), s)
  | Some content =>
    (Ret content, State (files s) (keychain s) (path :: open_files s) (heap s) (cached s))
  end.

(** [atomic.StorePointer(&c.cached, &cert)] for a certificate just built. *)
Definition StorePointer (cert : tls_certificate) : SE unit := fun s =>
  (Ret (), State (files s) (keychain s) (open_files s) (heap s ++ [cert])
             (Some (length (heap s)))).

(** [atomic.LoadPointer(&c.cached)]. *)
Definition LoadPointer : SE (option nat) := fun s => (Ret (cached s), s).

(** Dereferencing; a nil pointer panics. *)
Definition deref (p : option nat) : SE tls_certificate := fun s =>
  match p ≫= fun i => heap s !! i with
  | Some cert => (Ret cert, s)
  | None => (Panic, s)
  end.

(** The first element of a slice; an empty slice panics. *)
Definition first {A} (l : list A) : SE A :=
  match l with x :: _ => mret x | [] => lift Panic end.

(** ** Reading files: [certigo.go] *)

Definition readPEM (path password format : string) : SE (list pem_block) :=
  content ← os_Open path;
  let '(pemBlocks, err) := ReadAsPEM path content format password in
  match err with
  | Some e => lift (Err ("error reading file '" +:+ path +:+ "': " +:+ e))
  | None =>
    if length pemBlocks =? 0
    then lift (Err ("error reading file '" +:+ path +:+ "', no certificates found"))
    else mret pemBlocks
  end.

(** The callback of [readX509]: errors and certificates are collected apart. *)
Fixpoint collect (found : list (Certificate + string)) : list Certificate * list string :=
  match found with
  | [] => ([], [])
  | inl cert :: rest => let '(out, errs) := collect rest in (cert :: out, errs)
  | inr err :: rest => let '(out, errs) := collect rest in (out, err :: errs)
  end.

Definition readX509 (path : string) : SE (list Certificate) :=
  content ← os_Open path;
  let '(found, err) := ReadAsX509 path content in
  let '(out, errs) := collect found in
  if match err with Some _ => true | None => false end || negb (length errs =? 0)
  then lift (Err ("error reading file '" +:+ path +:+ "'"))
  else if length out =? 0
  then lift (Err ("no certificates found in file '" +:+ path +:+ "'"))
  else mret out.

(** ** Keystores and PEM files: [keystore.go] *)

(** The fields of [keystoreCertificate] besides the cached pointer. *)
Record keystoreCertificate : Type := {
  keystorePaths : list string;
  keystorePassword : string;
  format : string
}.

(** The loop that collects the blocks of all files. *)
Fixpoint read_all (paths : list string) (password format : string)
    (pemBlocks : list pem_block) : SE (list pem_block) :=
  match paths with
  | [] => mret pemBlocks
  | path :: rest =>
    blocks ← readPEM path password format;
    read_all rest password format (pemBlocks ++ blocks)
  end.

(** The loop that concatenates their encodings. *)
Fixpoint encode_all (pemBlocks : list pem_block) (pemBytes : string) : string :=
  match pemBlocks with
  | [] => pemBytes
  | block :: rest => encode_all rest (pemBytes +:+ EncodeToMemory block)
  end.

Definition keystore_Reload (c : keystoreCertificate) : SE unit :=
  pemBlocks ← read_all (keystorePaths c) (keystorePassword c) (format c) [];
  let pemBytes := encode_all pemBlocks "" in
  certAndKey ← lift (X509KeyPair pemBytes pemBytes);
  der ← first (fst certAndKey);
  leaf ← lift (ParseCertificate der);
  StorePointer {| tc_Certificate := fst certAndKey; tc_PrivateKey := snd certAndKey;
                  tc_Leaf := Some leaf |}.

Definition CertificateFromPEMFiles (certificatePath keyPath : string) :
    SE keystoreCertificate :=
  let c := {| keystorePaths := [certificatePath; keyPath]; keystorePassword := "";
              format := "PEM" |} in
  keystore_Reload c;; mret c.

Definition CertificateFromKeystore (keystorePath keystorePassword : string) :
    SE keystoreCertificate :=
  let c := {| keystorePaths := [keystorePath]; keystorePassword := keystorePassword;
              format := "" |} in
  keystore_Reload c;; mret c.

(** [GetCertificate] and [GetClientCertificate] have the same body in the three
    implementations: the cached pointer and no error. *)
Definition keystore_GetCertificate (c : keystoreCertificate) : SE (option nat) := LoadPointer.
Definition keystore_GetClientCertificate (c : keystoreCertificate) : SE (option nat) :=
  LoadPointer.

(** ** PKCS#11: [pkcs11_enabled.go] and [pkcs11_disabled.go] *)

Record pkcs11Certificate : Type := {
  certificatePath : string;
  modulePath : string;
  tokenLabel : string;
  pin : string
}.

Definition pkcs11_GetCertificate (c : pkcs11Certificate) : SE (option nat) := LoadPointer.
Definition pkcs11_GetClientCertificate (c : pkcs11Certificate) : SE (option nat) := LoadPointer.

(** The key is read from the module only while nothing is cached. *)
Definition pkcs11_key (c : pkcs11Certificate) (leaf : Certificate) : SE tls_key :=
  p ← LoadPointer;
  match p with
  | Some _ =>
    q ← pkcs11_GetCertificate c;
    old ← deref q;
    mret (tc_PrivateKey old)
  | None => lift (pkcs11key_New (modulePath c) (tokenLabel c) (pin c) (PublicKey leaf))
  end.

Definition pkcs11_Reload (c : pkcs11Certificate) : SE unit :=
  certs ← readX509 (certificatePath c);
  leaf ← first certs;
  key ← pkcs11_key c leaf;
  StorePointer {| tc_Certificate := map Raw certs; tc_PrivateKey := key; tc_Leaf := Some leaf |}.

(** The two files that define [CertificateFromPKCS11Module] and [SupportsPKCS11]. *)
Definition enabled_CertificateFromPKCS11Module
    (certificatePath modulePath tokenLabel pin : string) : SE pkcs11Certificate :=
  let c := {| certificatePath := certificatePath; modulePath := modulePath;
              tokenLabel := tokenLabel; pin := pin |} in
  pkcs11_Reload c;; mret c.
Definition enabled_SupportsPKCS11 : bool := true.

Definition disabled_CertificateFromPKCS11Module
    (certificatePath modulePath tokenLabel pin : string) : SE pkcs11Certificate :=
  lift (Err "not supported").
Definition disabled_SupportsPKCS11 : bool := false.

(** The build constraint [cgo] selects one of them. *)
Definition CertificateFromPKCS11Module (cgo : bool) :
    string -> string -> string -> string -> SE pkcs11Certificate :=
  if cgo then enabled_CertificateFromPKCS11Module else disabled_CertificateFromPKCS11Module.
Definition SupportsPKCS11 (cgo : bool) : bool :=
  if cgo then enabled_SupportsPKCS11 else disabled_SupportsPKCS11.

(** ** Keychain: [certstore_enabled.go] and [certstore_disabled.go] *)

Record certstoreCertificate : Type := { commonName : string }.

Definition serializeChain (chain : list Certificate) : list string := map Raw chain.

(** The loop over the identities: the first one that can be read and carries
    the common name. *)
Fixpoint find_identity (name : string) (ids : list identity) : SE (option tls_certificate) :=
  match ids with
  | [] => mret None
  | i :: rest =>
    match id_CertificateChain i with
    | Some chain =>
      match id_Signer i with
      | Some signer =>
        leaf ← first chain;
        if String.eqb (CommonName (Subject leaf)) name
        then mret (Some {| tc_Certificate := serializeChain chain; tc_PrivateKey := signer;
                           tc_Leaf := None |})
        else find_identity name rest
      | None => find_identity name rest
      end
    | None => find_identity name rest
    end
  end.

Definition certstore_Reload (c : certstoreCertificate) : SE unit := fun s =>
  match keychain s with
  | Ret ids =>
    (found ← find_identity (commonName c) ids;
     match found with
     | Some cert => StorePointer cert
     | None => lift (Err ("unable to find identity with common name '" +:+ commonName c
                          +:+ "' in keychain"))
     end) s
  | Err e => (Err e, s)
  | Panic => (Panic, s)
  end.

(** The two files that define [CertificateFromKeychainIdentity] and
    [SupportsKeychain]. *)
Definition enabled_CertificateFromKeychainIdentity (name : string) : SE certstoreCertificate :=
  let c := {| commonName := name |} in
  certstore_Reload c;; mret c.
Definition enabled_SupportsKeychain : bool := true.

Definition disabled_CertificateFromKeychainIdentity (name : string) : SE certstoreCertificate :=
  lift (Err "not supported").
Definition disabled_SupportsKeychain : bool := false.

(** The build tag [certstore] selects one of them. *)
Definition CertificateFromKeychainIdentity (certstore : bool) :
    string -> SE certstoreCertificate :=
  if certstore then enabled_CertificateFromKeychainIdentity
  else disabled_CertificateFromKeychainIdentity.
Definition SupportsKeychain (certstore : bool) : bool :=
  if certstore then enabled_SupportsKeychain else disabled_SupportsKeychain.

Definition certstore_GetCertificate (c : certstoreCertificate) : SE (option nat) := LoadPointer.
Definition certstore_GetClientCertificate (c : certstoreCertificate) : SE (option nat) :=
  LoadPointer.

(** ** The interface [Certificate] *)

Class CertificateI (C : Type) : Type := {
  Reload : C -> SE unit;
  GetCertificate : C -> SE (option nat);
  GetClientCertificate : C -> SE (option nat)
}.

#[export] Instance keystore_I : CertificateI keystoreCertificate :=
  {| Reload := keystore_Reload; GetCertificate := keystore_GetCertificate;
     GetClientCertificate := keystore_GetClientCertificate |}.
#[export] Instance pkcs11_I : CertificateI pkcs11Certificate :=
  {| Reload := pkcs11_Reload; GetCertificate := pkcs11_GetCertificate;
     GetClientCertificate := pkcs11_GetClientCertificate |}.
#[export] Instance certstore_I : CertificateI certstoreCertificate :=
  {| Reload := certstore_Reload; GetCertificate := certstore_GetCertificate;
     GetClientCertificate := certstore_GetClientCertificate |}.

(** A value of the interface: one of the three implementations, with the
    methods of its dynamic type. *)
Inductive certificate : Type :=
  | Keystore (c : keystoreCertificate)
  | PKCS11 (c : pkcs11Certificate)
  | Certstore (c : certstoreCertificate).

#[export] Instance certificate_I : CertificateI certificate :=
  {| Reload c := match c with
                 | Keystore k => Reload k | PKCS11 k => Reload k | Certstore k => Reload k end;
     GetCertificate c := match c with
                 | Keystore k => GetCertificate k | PKCS11 k => GetCertificate k
                 | Certstore k => GetCertificate k end;
     GetClientCertificate c := match c with
                 | Keystore k => GetClientCertificate k | PKCS11 k => GetClientCertificate k
                 | Certstore k => GetClientCertificate k end |}.

(** What the interface promises to its callers ("if reloading failed, the old
    state is kept"; the callbacks return the current certificate): a reload
    leaves the environment and every existing object alone; it allocates and
    publishes one new object when it returns nil, and nothing otherwise. *)
Definition publishes (s : state) (r : outcome string unit) (s' : state) : Prop :=
  match r with
  | Ret _ => (exists cert, heap s' = heap s ++ [cert]) /\ cached s' = Some (length (heap s))
  | _ => heap s' = heap s /\ cached s' = cached s
  end.

Definition same_env (s s' : state) : Prop :=
  files s' = files s /\ keychain s' = keychain s.

Class CertificateLaws (C : Type) `{CertificateI C} : Prop := {
  reload_env c s : same_env s (Reload c s).2;
  reload_publishes c s : publishes s (Reload c s).1 (Reload c s).2;
  get_cached c s : GetCertificate c s = (Ret (cached s), s);
  get_client_cached c s : GetClientCertificate c s = (Ret (cached s), s)
}.

(** *** The readers leave the cache alone *)

(** A computation that changes at most the list of open descriptors. *)
Definition quiet {A} (m : SE A) : Prop := forall s,
  same_env s (m s).2 /\ heap (m s).2 = heap s /\ cached (m s).2 = cached s.

Lemma quiet_ret {A} (a : A) : quiet (mret a).
Proof. by intros s. Qed.

Lemma quiet_lift {A} (o : outcome string A) : quiet (lift o).
Proof. by intros s. Qed.

Lemma quiet_bind {A B} (m : SE A) (f : A -> SE B) :
  quiet m -> (forall a, quiet (f a)) -> quiet (m ≫= f).
Proof.
  intros Hm Hf s. unfold mbind, SE_bind. specialize (Hm s).
  destruct (m s) as [[a|e|] s']; simpl in *; [|done|done].
  destruct (Hf a s') as ([? ?] & ? & ?), Hm as ([? ?] & ? & ?).
  repeat split; congruence.
Qed.

Lemma quiet_Open path : quiet (os_Open path).
Proof. intros s. unfold os_Open. by destruct (files s !! path). Qed.

Lemma quiet_Load : quiet LoadPointer.
Proof. by intros s. Qed.

Lemma quiet_deref p : quiet (deref p).
Proof. intros s. unfold deref. by case_any. Qed.

Lemma quiet_first {A} (l : list A) : quiet (first l).
Proof. by destruct l. Qed.

#[local] Hint Resolve quiet_ret quiet_lift quiet_bind quiet_Open quiet_Load quiet_deref
  quiet_first : ghost.

Lemma quiet_readPEM path password fmt : quiet (readPEM path password fmt).
Proof.
  apply quiet_bind; [auto with ghost|]. intros content.
  destruct (ReadAsPEM _ _ _ _) as [blocks [e|]]; [auto with ghost|].
  case_any; auto with ghost.
Qed.

Lemma quiet_readX509 path : quiet (readX509 path).
Proof.
  apply quiet_bind; [auto with ghost|]. intros content.
  destruct (ReadAsX509 _ _) as [found err]. destruct (collect found) as [out errs].
  repeat (case_any; auto with ghost).
Qed.

Lemma quiet_read_all paths password fmt acc : quiet (read_all paths password fmt acc).
Proof.
  revert acc. induction paths as [|p ps IH]; intros acc; simpl; [auto with ghost|].
  apply quiet_bind; [apply quiet_readPEM|auto].
Qed.

Lemma quiet_find_identity name ids : quiet (find_identity name ids).
Proof.
  induction ids as [|i ids IH]; simpl; [auto with ghost|].
  destruct (id_CertificateChain i); [|done]. destruct (id_Signer i); [|done].
  apply quiet_bind; [auto with ghost|]. intros leaf. case_any; auto with ghost.
Qed.

Lemma quiet_pkcs11_key c leaf : quiet (pkcs11_key c leaf).
Proof.
  apply quiet_bind; [auto with ghost|]. intros [p|]; [|auto with ghost].
  apply quiet_bind; [exact quiet_Load|]. auto with ghost.
Qed.

#[local] Hint Resolve quiet_readPEM quiet_readX509 quiet_read_all quiet_find_identity
  quiet_pkcs11_key : ghost.

(** A reload is a quiet computation that ends by publishing its result. *)
Definition transactional (m : SE unit) : Prop := forall s,
  same_env s (m s).2 /\ publishes s (m s).1 (m s).2.

Lemma transactional_Store cert : transactional (StorePointer cert).
Proof. intros s. repeat split. by exists cert. Qed.

Lemma transactional_Err e : transactional (lift (Err e)).
Proof. by intros s. Qed.

Lemma transactional_bind {A} (m : SE A) (f : A -> SE unit) :
  quiet m -> (forall a, transactional (f a)) -> transactional (m ≫= f).
Proof.
  intros Hm Hf s. unfold mbind, SE_bind. specialize (Hm s).
  destruct (m s) as [[a|e|] s']; simpl in *; [|intuition|intuition].
  destruct (Hf a s') as ([? ?] & Hp), Hm as ([? ?] & Hh & Hc).
  split; [split; congruence|]. unfold publishes in *.
  case_any; rewrite Hh in Hp; [done| |]; by rewrite Hc in Hp.
Qed.

Lemma transactional_keystore c : transactional (keystore_Reload c).
Proof.
  apply transactional_bind; [auto with ghost|]. intros blocks.
  repeat (apply transactional_bind; [auto with ghost|]; intros ?).
  apply transactional_Store.
Qed.

Lemma transactional_pkcs11 c : transactional (pkcs11_Reload c).
Proof.
  repeat (apply transactional_bind; [auto with ghost|]; intros ?).
  apply transactional_Store.
Qed.

Lemma transactional_certstore c : transactional (certstore_Reload c).
Proof.
  intros s. unfold certstore_Reload. destruct (keychain s) as [ids|e|]; [|done|done].
  apply transactional_bind; [auto with ghost|].
  intros [cert|]; [apply transactional_Store|apply transactional_Err].
Qed.

#[export] Instance keystore_laws : CertificateLaws keystoreCertificate.
Proof. split; try done; intros; apply transactional_keystore. Qed.
#[export] Instance pkcs11_laws : CertificateLaws pkcs11Certificate.
Proof. split; try done; intros; apply transactional_pkcs11. Qed.
#[export] Instance certstore_laws : CertificateLaws certstoreCertificate.
Proof. split; try done; intros; apply transactional_certstore. Qed.
#[export] Instance certificate_laws : CertificateLaws certificate.
Proof.
  split; intros [c|c|c] s; simpl; try done;
    [apply keystore_laws|apply pkcs11_laws|apply certstore_laws
    |apply keystore_laws|apply pkcs11_laws|apply certstore_laws].
Qed.

(** ** Histories *)

(** The certificate that a connection accepted now is offered. *)
Definition current (s : state) : option tls_certificate :=
  cached s ≫= fun i => heap s !! i.

(** The cached pointer is nil or points to an object. *)
Definition wf (s : state) : Prop := forall i, cached s = Some i -> i < length (heap s).

(** What happens to a certificate object: the files and the keychain change
    under it, it is reloaded, and the two callbacks of [crypto/tls] run. *)
Inductive event : Type :=
  | Environment (fs : gmap string string) (k : outcome string (list identity))
  | Reloads
  | AsksServer
  | AsksClient.

(** What is seen of it: the outcome of a reload with the certificate it
    published, and the pointer a callback handed out with its object then. *)
Inductive observation : Type :=
  | Reloaded (r : outcome string (option tls_certificate))
  | Served (p : option nat) (cert : option tls_certificate).

(** The outcome of a reload together with the certificate served after it. *)
Definition published {A} (r : outcome string A * state) : outcome string (option tls_certificate) :=
  (fun _ => current r.2) <$> r.1.

Definition handed_out (r : outcome string (option nat) * state) : observation :=
  let p := match r.1 with Ret p => p | _ => None end in
  Served p (p ≫= fun i => heap r.2 !! i).

Definition happen `{CertificateI C} (c : C) (e : event) (s : state) :
    list observation * state :=
  match e with
  | Environment fs k => ([], State fs k (open_files s) (heap s) (cached s))
  | Reloads => let r := Reload c s in ([Reloaded (published r)], r.2)
  | AsksServer => let r := GetCertificate c s in ([handed_out r], r.2)
  | AsksClient => let r := GetClientCertificate c s in ([handed_out r], r.2)
  end.

Fixpoint history `{CertificateI C} (c : C) (evs : list event) (s : state) :
    list observation * state :=
  match evs with
  | [] => ([], s)
  | e :: rest =>
    let '(o, s1) := happen c e s in
    let '(os, s2) := history c rest s1 in (o ++ os, s2)
  end.

(** A pointer that was handed out still points to the object it pointed to. *)
Definition still_valid (s : state) (o : observation) : Prop :=
  match o with
  | Served p cert => (p ≫= fun i => heap s !! i) = cert
  | Reloaded _ => True
  end.

Definition not_nil (o : observation) : Prop :=
  match o with Served p _ => is_Some p | Reloaded _ => True end.

(** *** Lemmas against the interface *)

Section Client.
Context {C : Type} `{CertificateLaws C}.

Lemma reload_current (c : C) s s' :
  Reload c s = (Ret (), s') -> is_Some (current s') /\ wf s'.
Proof.
  intros E. pose proof (reload_publishes c s) as P. rewrite E in P. simpl in P.
  destruct P as [[cert Hh] Hc]. unfold current, wf. rewrite Hh, Hc. simpl.
  rewrite list_lookup_middle by done. split; [done|].
  intros i [= <-]. rewrite length_app. simpl. lia.
Qed.

Lemma reload_failed (c : C) s r s' :
  Reload c s = (r, s') -> r <> Ret () -> heap s' = heap s /\ cached s' = cached s.
Proof.
  intros E Hr. pose proof (reload_publishes c s) as P. rewrite E in P.
  destruct r as [[]|e|]; [done|done|done].
Qed.

Lemma happen_heap (c : C) e s : exists l, heap (happen c e s).2 = heap s ++ l.
Proof.
  destruct e; simpl; [exists []; by rewrite app_nil_r| | | ].
  - pose proof (reload_publishes c s) as P. destruct (Reload c s) as [[[]|e|] s']; simpl in *.
    + destruct P as [[cert ->] _]. by exists [cert].
    + destruct P as [-> _]. exists []. by rewrite app_nil_r.
    + destruct P as [-> _]. exists []. by rewrite app_nil_r.
  - rewrite get_cached. exists []. by rewrite app_nil_r.
  - rewrite get_client_cached. exists []. by rewrite app_nil_r.
Qed.

Lemma happen_wf (c : C) e s : wf s -> wf (happen c e s).2.
Proof.
  intros Hw. destruct e; simpl; [done| | | ].
  - destruct (Reload c s) as [r s'] eqn:E. simpl.
    destruct r as [[]|e|]; [by apply (reload_current c s)| |];
      destruct (reload_failed _ _ _ _ E) as [Hh Hc]; try done; unfold wf in *;
      by rewrite Hh, Hc.
  - by rewrite get_cached.
  - by rewrite get_client_cached.
Qed.

Lemma happen_loaded (c : C) e s :
  is_Some (cached s) -> is_Some (cached (happen c e s).2) /\ Forall not_nil (happen c e s).1.
Proof.
  intros Hs. destruct e; simpl; [done| | | ].
  - destruct (Reload c s) as [r s'] eqn:E. simpl. split; [|by repeat constructor].
    destruct r as [[]|e|]; [|destruct (reload_failed _ _ _ _ E) as [_ ->]; done..].
    pose proof (reload_publishes c s) as P. rewrite E in P. simpl in P.
    destruct P as [_ ->]. done.
  - rewrite get_cached. simpl. split; [done|by constructor].
  - rewrite get_client_cached. simpl. split; [done|by constructor].
Qed.

Lemma happen_still_valid (c : C) e s :
  Forall (still_valid (happen c e s).2) (happen c e s).1.
Proof.
  destruct e; simpl; [constructor| | | ].
  - destruct (Reload c s) as [r s']. by repeat constructor.
  - rewrite get_cached. by repeat constructor.
  - rewrite get_client_cached. by repeat constructor.
Qed.

Lemma history_heap (c : C) evs s : exists l, heap (history c evs s).2 = heap s ++ l.
Proof.
  revert s. induction evs as [|e evs IH]; intros s; simpl; [exists []; by rewrite app_nil_r|].
  pose proof (happen_heap c e s) as [l1 H1]. destruct (happen c e s) as [o s1]. simpl in *.
  destruct (IH s1) as [l2 H2]. destruct (history c evs s1) as [os s2]. simpl in *.
  exists (l1 ++ l2). by rewrite H2, H1, app_assoc.
Qed.

(** Objects are never changed: what a pointer designates only grows. *)
Lemma still_valid_later s s' l o :
  heap s' = heap s ++ l -> (match o with Served p cert => is_Some p -> is_Some cert | _ => True end) ->
  still_valid s o -> still_valid s' o.
Proof.
  intros Hh. destruct o as [|[i|] cert]; simpl; [done| |done].
  intros Hsome Hv. rewrite Hh. destruct (Hsome ltac:(eauto)) as [x ->].
  by apply lookup_app_l_Some.
Qed.

Lemma happen_served (c : C) e s : wf s ->
  Forall (fun o => match o with Served p cert => is_Some p -> is_Some cert | _ => True end)
    (happen c e s).1.
Proof.
  intros Hw. destruct e; simpl; [constructor| | | ].
  - destruct (Reload c s) as [r s']. by repeat constructor.
  - rewrite get_cached. constructor; [|done]. intros [i E]. simpl in E. rewrite E. simpl.
    apply lookup_lt_is_Some_2. by apply Hw.
  - rewrite get_client_cached. constructor; [|done]. intros [i E]. simpl in E. rewrite E. simpl.
    apply lookup_lt_is_Some_2. by apply Hw.
Qed.

Lemma history_still_valid (c : C) evs s :
  wf s -> Forall (still_valid (history c evs s).2) (history c evs s).1.
Proof.
  revert s. induction evs as [|e evs IH]; intros s Hw; simpl; [constructor|].
  pose proof (happen_served c e s Hw) as Hsv.
  pose proof (happen_still_valid c e s) as Hv. pose proof (happen_wf c e s Hw) as Hw1.
  destruct (happen c e s) as [o s1]. simpl in *.
  pose proof (history_heap c evs s1) as [l Hl]. specialize (IH s1 Hw1).
  destruct (history c evs s1) as [os s2]. simpl in *.
  apply Forall_app. split; [|done].
  rewrite Forall_forall in *. intros x Hx. eapply still_valid_later; [exact Hl|exact (Hsv x Hx)|exact (Hv x Hx)].
Qed.

Lemma history_not_nil (c : C) evs s :
  is_Some (cached s) -> Forall not_nil (history c evs s).1.
Proof.
  revert s. induction evs as [|e evs IH]; intros s Hs; simpl; [constructor|].
  pose proof (happen_loaded c e s Hs) as [Hs1 Ho]. destruct (happen c e s) as [o s1].
  specialize (IH s1 Hs1). destruct (history c evs s1) as [os s2]. simpl in *.
  by apply Forall_app.
Qed.
End Client.

(** ** Reloading is loading *)

(** A computation whose result depends on nothing but the files. *)
Definition by_files {A} (m : SE A) : Prop := forall s1 s2,
  files s1 = files s2 -> (m s1).1 = (m s2).1.

Lemma by_files_ret {A} (a : A) : by_files (mret a).
Proof. done. Qed.

Lemma by_files_lift {A} (o : outcome string A) : by_files (lift o).
Proof. done. Qed.

Lemma by_files_bind {A B} (m : SE A) (f : A -> SE B) :
  quiet m -> by_files m -> (forall a, by_files (f a)) -> by_files (m ≫= f).
Proof.
  intros Hq Hm Hf s1 s2 E. specialize (Hm s1 s2 E).
  destruct (Hq s1) as [[F1 _] _], (Hq s2) as [[F2 _] _]. unfold mbind, SE_bind.
  destruct (m s1) as [r1 s1'], (m s2) as [r2 s2']. simpl in *. subst r2.
  destruct r1 as [a|e|]; [|done|done]. apply Hf. congruence.
Qed.

Lemma by_files_Open path : by_files (os_Open path).
Proof. intros s1 s2 E. unfold os_Open. rewrite E. by destruct (files s2 !! path). Qed.

Lemma by_files_first {A} (l : list A) : by_files (first l).
Proof. by destruct l. Qed.

#[local] Hint Resolve by_files_ret by_files_lift by_files_Open by_files_first : ghost.

Lemma by_files_readPEM path password fmt : by_files (readPEM path password fmt).
Proof.
  apply by_files_bind; [auto with ghost..|]. intros content.
  destruct (ReadAsPEM _ _ _ _) as [blocks [e|]]; [auto with ghost|].
  case_any; auto with ghost.
Qed.

Lemma by_files_read_all paths password fmt acc : by_files (read_all paths password fmt acc).
Proof.
  revert acc. induction paths as [|p ps IH]; intros acc; simpl; [auto with ghost|].
  apply by_files_bind; [auto with ghost|apply by_files_readPEM|auto].
Qed.

(** The certificate a keystore reload builds, before it is published. *)
Definition keystore_build (c : keystoreCertificate) : SE tls_certificate :=
  pemBlocks ← read_all (keystorePaths c) (keystorePassword c) (format c) [];
  let pemBytes := encode_all pemBlocks "" in
  certAndKey ← lift (X509KeyPair pemBytes pemBytes);
  der ← first (fst certAndKey);
  leaf ← lift (ParseCertificate der);
  mret {| tc_Certificate := fst certAndKey; tc_PrivateKey := snd certAndKey;
          tc_Leaf := Some leaf |}.

Lemma SE_bind_assoc {A B D} (m : SE A) (f : A -> SE B) (g : B -> SE D) s :
  ((m ≫= f) ≫= g) s = (m ≫= (fun a => f a ≫= g)) s.
Proof. unfold mbind, SE_bind. destruct (m s) as [[a|e|] s']; [|done|done]. done. Qed.

Lemma SE_bind_ext {A B} (m : SE A) (f g : A -> SE B) s :
  (forall a s, f a s = g a s) -> (m ≫= f) s = (m ≫= g) s.
Proof. intros E. unfold mbind, SE_bind. destruct (m s) as [[a|e|] s']; auto. Qed.

Lemma keystore_Reload_build c s :
  keystore_Reload c s = (keystore_build c ≫= StorePointer) s.
Proof.
  unfold keystore_Reload, keystore_build.
  do 4 (rewrite SE_bind_assoc; apply SE_bind_ext; intros ? ?). done.
Qed.

Lemma keystore_build_by_files c : by_files (keystore_build c).
Proof.
  unfold keystore_build. apply by_files_bind; [auto with ghost|apply by_files_read_all|].
  intros ?. repeat (apply by_files_bind; [auto with ghost..|]; intros ?). auto with ghost.
Qed.

Lemma keystore_build_quiet c : quiet (keystore_build c).
Proof.
  unfold keystore_build. apply quiet_bind; [auto with ghost|]. intros ?.
  repeat (apply quiet_bind; [auto with ghost..|]; intros ?). auto with ghost.
Qed.

Lemma current_after_Store cert s : current (StorePointer cert s).2 = Some cert.
Proof. unfold current. simpl. by apply list_lookup_middle. Qed.

Lemma keystore_published c s :
  published (keystore_Reload c s) = Some <$> (keystore_build c s).1.
Proof.
  rewrite keystore_Reload_build. unfold mbind, SE_bind, published.
  destruct (keystore_build c s) as [[cert|e|] s']; simpl; [|done|done].
  f_equal. apply (current_after_Store cert s').
Qed.

(** The certificates the other two implementations build before publishing. *)
Definition pkcs11_build (c : pkcs11Certificate) : SE tls_certificate :=
  certs ← readX509 (certificatePath c);
  leaf ← first certs;
  key ← pkcs11_key c leaf;
  mret {| tc_Certificate := map Raw certs; tc_PrivateKey := key; tc_Leaf := Some leaf |}.

Definition certstore_build (c : certstoreCertificate) : SE tls_certificate := fun s =>
  match keychain s with
  | Ret ids =>
    (found ← find_identity (commonName c) ids;
     match found with
     | Some cert => mret cert
     | None => lift (Err ("unable to find identity with common name '" +:+ commonName c
                          +:+ "' in keychain"))
     end) s
  | Err e => (Err e, s)
  | Panic => (Panic, s)
  end.

Definition certificate_build (c : certificate) : SE tls_certificate :=
  match c with
  | Keystore k => keystore_build k
  | PKCS11 k => pkcs11_build k
  | Certstore k => certstore_build k
  end.

(** A reload builds a certificate and then publishes it. *)
Lemma Reload_build (c : certificate) s :
  Reload c s = (certificate_build c ≫= StorePointer) s.
Proof.
  destruct c as [c|c|c]; simpl.
  - apply keystore_Reload_build.
  - unfold pkcs11_Reload, pkcs11_build.
    do 3 (rewrite SE_bind_assoc; apply SE_bind_ext; intros ? ?). done.
  - unfold certstore_Reload, certstore_build, mbind, SE_bind.
    destruct (keychain s) as [ids|e|]; [|done|done].
    by destruct (find_identity (commonName c) ids s) as [[[cert|]|e|] s'].
Qed.

Lemma certificate_build_quiet (c : certificate) : quiet (certificate_build c).
Proof.
  destruct c as [c|c|c]; simpl.
  - apply keystore_build_quiet.
  - unfold pkcs11_build. repeat (apply quiet_bind; [auto with ghost|]; intros ?). auto with ghost.
  - intros s. unfold certstore_build. destruct (keychain s) as [ids|e|]; [|done|done].
    apply quiet_bind; [auto with ghost|]. intros [cert|]; auto with ghost.
Qed.

(** *** What a reload publishes *)

Lemma by_files_readX509 path : by_files (readX509 path).
Proof.
  apply by_files_bind; [auto with ghost..|]. intros content.
  destruct (ReadAsX509 _ _) as [found err]. destruct (collect found) as [out errs].
  repeat (case_any; auto with ghost).
Qed.

Lemma by_files_find_identity name ids : by_files (find_identity name ids).
Proof.
  induction ids as [|i ids IH]; simpl; [auto with ghost|].
  destruct (id_CertificateChain i); [|done]. destruct (id_Signer i); [|done].
  apply by_files_bind; [auto with ghost..|]. intros leaf. case_any; auto with ghost.
Qed.

(** What a certificate is loaded from: the files and the keychain of the moment, and
    for PKCS#11 the private key of the certificate that was loaded before, if
    there is one. *)
Definition load (c : certificate) (cur : option tls_certificate) (fs : gmap string string)
    (k : outcome string (list identity)) : outcome string tls_certificate :=
  let unloaded := State fs k [] [] None in
  match c with
  | Keystore c => (keystore_build c unloaded).1
  | PKCS11 c =>
    certs ← (readX509 (certificatePath c) unloaded).1;
    match certs with
    | leaf :: _ =>
      key ← match cur with
            | Some old => Ret (tc_PrivateKey old)
            | None => pkcs11key_New (modulePath c) (tokenLabel c) (pin c) (PublicKey leaf)
            end;
      Ret {| tc_Certificate := map Raw certs; tc_PrivateKey := key; tc_Leaf := Some leaf |}
    | [] => Panic
    end
  | Certstore c =>
    ids ← k;
    found ← (find_identity (commonName c) ids unloaded).1;
    match found with
    | Some cert => Ret cert
    | None => Err ("unable to find identity with common name '" +:+ commonName c +:+ "' in keychain")
    end
  end.

Lemma pkcs11_key_load c leaf s : wf s ->
  (pkcs11_key c leaf s).1 = match current s with
                            | Some old => Ret (tc_PrivateKey old)
                            | None => pkcs11key_New (modulePath c) (tokenLabel c) (pin c) (PublicKey leaf)
                            end.
Proof.
  intros Hw. unfold pkcs11_key, current, mbind, SE_bind, LoadPointer. simpl.
  destruct (cached s) as [i|] eqn:E; [|done]. unfold pkcs11_GetCertificate, LoadPointer, deref. simpl.
  rewrite E. simpl. destruct (lookup_lt_is_Some_2 _ _ (Hw i E)) as [old Ho]. by rewrite Ho.
Qed.

Lemma build_load (c : certificate) s : wf s ->
  (certificate_build c s).1 = load c (current s) (files s) (keychain s).
Proof.
  intros Hw. destruct c as [c|c|c]; simpl.
  - by apply keystore_build_by_files.
  - pose proof (quiet_readX509 (certificatePath c) s) as (_ & Eh & Ec).
    rewrite <- (by_files_readX509 (certificatePath c) s) by done.
    unfold pkcs11_build, mbind at 1, SE_bind.
    destruct (readX509 (certificatePath c) s) as [[[|leaf rest]|e|] s1]; simpl in *; [done| |done|done].
    assert (current s1 = current s) as Ecur by (unfold current; by rewrite Ec, Eh).
    assert (wf s1) as Hw1 by (unfold wf; by rewrite Ec, Eh).
    pose proof (pkcs11_key_load c leaf s1 Hw1) as Hk. rewrite Ecur in Hk. rewrite <- Hk.
    unfold mbind, SE_bind, mret, SE_ret. by destruct (pkcs11_key c leaf s1) as [[key|e|] s2].
  - unfold certstore_build. destruct (keychain s) as [ids|e|]; [|done|done]. simpl.
    rewrite <- (by_files_find_identity (commonName c) ids s) by done. unfold mbind at 1, SE_bind.
    by destruct (find_identity (commonName c) ids s) as [[[cert|]|e|] s1].
Qed.

(** The certificate a reload publishes, and the one served after it. *)
Lemma reload_loads (c : certificate) s : wf s ->
  let r := load c (current s) (files s) (keychain s) in
  published (Reload c s) = Some <$> r /\
  current (Reload c s).2 = match r with Ret cert => Some cert | _ => current s end.
Proof.
  intros Hw r. unfold r. rewrite <- (build_load c s Hw), Reload_build.
  destruct (certificate_build_quiet c s) as (_ & Eh & Ec). unfold mbind, SE_bind, published.
  destruct (certificate_build c s) as [[cert|e|] s1]; simpl in *.
  - split; [f_equal|]; apply (current_after_Store cert s1).
  - split; [done|]. unfold current. by rewrite Eh, Ec.
  - split; [done|]. unfold current. by rewrite Eh, Ec.
Qed.

(** The specification of a history, without pointers and objects: a register that a
    reload overwrites with what it has loaded, or keeps if loading failed, and
    that the callbacks read. *)
Inductive sight : Type :=
  | Loaded (r : outcome string (option tls_certificate))
  | Offered (cert : option tls_certificate).

Definition seen (o : observation) : sight :=
  match o with Reloaded r => Loaded r | Served _ cert => Offered cert end.

Fixpoint register (c : certificate) (evs : list event) (cur : option tls_certificate)
    (fs : gmap string string) (k : outcome string (list identity)) : list sight :=
  match evs with
  | [] => []
  | Environment fs k :: rest => register c rest cur fs k
  | Reloads :: rest =>
    let r := load c cur fs k in
    Loaded (Some <$> r)
      :: register c rest (match r with Ret cert => Some cert | _ => cur end) fs k
  | AsksServer :: rest | AsksClient :: rest => Offered cur :: register c rest cur fs k
  end.

Lemma history_register (c : certificate) evs s : wf s ->
  map seen (history c evs s).1 = register c evs (current s) (files s) (keychain s).
Proof.
  revert s. induction evs as [|e evs IH]; intros s Hw; simpl; [done|].
  pose proof (happen_wf c e s Hw) as Hw1. specialize (IH (happen c e s).2 Hw1).
  assert (Hgoal : forall o cur fs k, (happen c e s).1 = o -> current (happen c e s).2 = cur ->
    files (happen c e s).2 = fs -> keychain (happen c e s).2 = k ->
    map seen (let '(o, s1) := happen c e s in let '(os, s2) := history c evs s1 in (o ++ os, s2)).1
    = map seen o ++ register c evs cur fs k).
  { intros o cur fs k <- <- <- <-. rewrite <- IH. destruct (happen c e s) as [o s1]. simpl.
    destruct (history c evs s1) as [os s2]. simpl. by rewrite map_app. }
  destruct e as [fs k| | | ].
  - by apply (Hgoal [] (current s) fs k).
  - destruct (reload_loads c s Hw) as [Hp Hc]. destruct (reload_env c s) as [Ef Ek].
    rewrite (Hgoal [Reloaded (published (Reload c s))] _ (files s) (keychain s) eq_refl Hc Ef Ek).
    cbn [map seen app]. by rewrite Hp.
  - pose proof (get_cached c s) as E. rewrite (Hgoal [Served (cached s) (current s)] (current s) (files s) (keychain s));
      [done|simpl in *; by rewrite E..].
  - pose proof (get_client_cached c s) as E. rewrite (Hgoal [Served (cached s) (current s)] (current s) (files s) (keychain s));
      [done|simpl in *; by rewrite E..].
Qed.

Lemma published_then {A} (m : SE unit) (a : A) s :
  published ((m;; mret a) s) = published (m s).
Proof. unfold mbind, SE_bind, published. by destruct (m s) as [[[]|e|] s']. Qed.

(** *** PKCS#11 *)

Lemma pkcs11_Reload_cached c s i old :
  cached s = Some i -> heap s !! i = Some old ->
  pkcs11_Reload c s =
  (certs ← readX509 (certificatePath c);
   leaf ← first certs;
   StorePointer {| tc_Certificate := map Raw certs; tc_PrivateKey := tc_PrivateKey old;
                   tc_Leaf := Some leaf |}) s.
Proof.
  intros Hc Hh. unfold pkcs11_Reload, mbind, SE_bind.
  destruct (quiet_readX509 (certificatePath c) s) as (_ & H2 & H3).
  destruct (readX509 (certificatePath c) s) as [[certs|e|] s1]; [|done|done]. simpl in *.
  destruct certs as [|leaf certs]; [done|]. simpl.
  unfold pkcs11_key, mbind, SE_bind, LoadPointer. simpl. rewrite H3, Hc.
  unfold pkcs11_GetCertificate, LoadPointer, deref. simpl. rewrite H3, Hc, H2. simpl. by rewrite Hh.
Qed.

Lemma readX509_nonempty path s certs s' : readX509 path s = (Ret certs, s') -> certs <> [].
Proof.
  unfold readX509, mbind, SE_bind. destruct (os_Open path s) as [[content|e|] s1]; [|done|done].
  destruct (ReadAsX509 path content) as [found err], (collect found) as [out errs].
  case_any; [done|]. destruct out; simpl; [done|]. by intros [= <- <-].
Qed.

Lemma readX509_no_panic path s : (readX509 path s).1 <> Panic.
Proof.
  unfold readX509, mbind, SE_bind, os_Open. destruct (files s !! path) as [content|]; [|done].
  destruct (ReadAsX509 path content) as [found err], (collect found) as [out errs].
  by repeat case_any.
Qed.

(** ** No panics, complete certificates *)

Lemma readPEM_no_panic path password fmt s : (readPEM path password fmt s).1 <> Panic.
Proof.
  unfold readPEM, mbind, SE_bind, os_Open. destruct (files s !! path) as [content|]; [|done].
  destruct (ReadAsPEM _ _ _ _) as [blocks [e|]]; [done|]. by case_any.
Qed.

Lemma read_all_no_panic paths password fmt acc s :
  (read_all paths password fmt acc s).1 <> Panic.
Proof.
  revert acc s. induction paths as [|p ps IH]; intros acc s; simpl; [done|].
  unfold mbind, SE_bind. pose proof (readPEM_no_panic p password fmt s) as Hp.
  destruct (readPEM p password fmt s) as [[b|e|] s1]; auto.
Qed.

(** Every identity of the keychain has a leaf certificate, and reading the
    keychain returns. *)
Definition identities_ok (k : outcome string (list identity)) : Prop :=
  match k with
  | Ret ids => Forall (fun i => id_CertificateChain i <> Some []) ids
  | Err _ => True
  | Panic => False
  end.
Definition keychain_ok (s : state) : Prop := identities_ok (keychain s).

(** A certificate that [crypto/tls] can offer. *)
Definition complete (cert : tls_certificate) : Prop := tc_Certificate cert <> [].

(** The postcondition of a computation that must not panic. *)
Definition ensures {A} (m : SE A) (s : state) (Q : A -> state -> Prop) : Prop :=
  match m s with (Ret a, s') => Q a s' | (Err _, _) => True | (Panic, _) => False end.

Lemma ensures_bind {A B} (m : SE A) (f : A -> SE B) s R Q :
  ensures m s R -> (forall a s', R a s' -> ensures (f a) s' Q) -> ensures (m ≫= f) s Q.
Proof.
  unfold ensures, mbind, SE_bind. intros Hm Hf. destruct (m s) as [[a|e|] s']; [|done|done].
  by apply Hf.
Qed.

Lemma ensures_quiet {A} (m : SE A) s (R : A -> Prop) :
  quiet m -> ensures m s (fun a _ => R a) ->
  ensures m s (fun a s' => R a /\ heap s' = heap s /\ cached s' = cached s).
Proof.
  intros Hq. unfold ensures. destruct (Hq s) as (_ & H2 & H3).
  by destruct (m s) as [[a|e|] s'].
Qed.

Definition ends_complete (_ : unit) (s : state) : Prop := exists cert,
  current s = Some cert /\ complete cert.

Lemma Store_complete cert s : complete cert -> ensures (StorePointer cert) s ends_complete.
Proof. intros Hc. exists cert. split; [apply (current_after_Store cert s)|done]. Qed.

Lemma find_identity_ok name ids s :
  Forall (fun i => id_CertificateChain i <> Some []) ids ->
  ensures (find_identity name ids) s (fun r _ => forall cert, r = Some cert -> complete cert).
Proof.
  induction 1 as [|i ids Hi _ IH]; simpl; [done|].
  destruct (id_CertificateChain i) as [[|leaf chain]|]; [done| |done].
  destruct (id_Signer i); [|done]. unfold ensures, mbind, SE_bind. simpl.
  destruct (String.eqb _ _); [|exact IH]. simpl. by intros cert [= <-].
Qed.

Lemma keystore_Reload_ok `{!CertLibsOk L} c s : ensures (keystore_Reload c) s ends_complete.
Proof.
  unfold keystore_Reload. apply ensures_bind with (R := fun _ _ => True).
  { unfold ensures. pose proof (read_all_no_panic (keystorePaths c) (keystorePassword c) (format c)
      [] s). by destruct (read_all _ _ _ _ s) as [[b|e|] s1]. }
  intros blocks s1 _. apply ensures_bind with (R := fun ck _ => fst ck <> []).
  { unfold ensures, lift. pose proof (X509KeyPair_no_panic (encode_all blocks "") (encode_all blocks "")).
    destruct (X509KeyPair _ _) as [[chain key]|e|] eqn:E; [|done|done].
    by eapply X509KeyPair_nonempty. }
  intros [chain key] s2 Hne. simpl in *.
  apply ensures_bind with (R := fun _ _ => True); [by destruct chain|].
  intros der s3 _. apply ensures_bind with (R := fun _ _ => True).
  { unfold ensures, lift. pose proof (ParseCertificate_no_panic der). by case_any. }
  intros leaf s4 _. by apply Store_complete.
Qed.

Lemma pkcs11_Reload_ok `{!CertLibsOk L} c s :
  wf s -> ensures (pkcs11_Reload c) s ends_complete.
Proof.
  intros Hw. unfold pkcs11_Reload. eapply ensures_bind.
  { apply (ensures_quiet _ _ (fun certs => certs <> [])); [apply quiet_readX509|].
    unfold ensures. pose proof (readX509_no_panic (certificatePath c) s).
    destruct (readX509 _ s) as [[b|e|] s1] eqn:E; [|done|done]. by eapply readX509_nonempty. }
  simpl. intros [|leaf certs] s1 (Hne & Hh & Hc); [done|].
  apply ensures_bind with (R := fun _ s' => s' = s1); [done|]. intros l s2 ->.
  apply ensures_bind with (R := fun _ _ => True); [|intros k s3 _; by apply Store_complete].
  unfold pkcs11_key, ensures, mbind, SE_bind, LoadPointer, pkcs11_GetCertificate, deref, lift.
  simpl. rewrite Hc. destruct (cached s) as [i|] eqn:E.
  - destruct (lookup_lt_is_Some_2 (heap s) i) as [x Hx]; [by apply Hw|].
    cbn [mbind option_bind]. by rewrite Hc, Hh; cbn [mbind option_bind]; rewrite Hx.
  - pose proof (pkcs11key_New_no_panic (modulePath c) (tokenLabel c) (pin c) (PublicKey l)).
    by destruct (pkcs11key_New _ _ _ _).
Qed.

Lemma certstore_Reload_ok c s : keychain_ok s -> ensures (certstore_Reload c) s ends_complete.
Proof.
  unfold keychain_ok, identities_ok, ensures, certstore_Reload. destruct (keychain s) as [ids|e|]; [|done|done].
  intros Hids.
  apply (ensures_bind (find_identity (commonName c) ids)
    (fun found => match found with
     | Some cert => StorePointer cert
     | None => lift (Err ("unable to find identity with common name '" +:+ commonName c
                          +:+ "' in keychain"))
     end) s _ ends_complete (find_identity_ok (commonName c) ids s Hids)).
  intros [cert|] s' Hc; [|done]. apply Store_complete. auto.
Qed.

(** Every implementation: a reload does not panic, and what it builds can be
    offered. *)
Lemma Reload_ok `{!CertLibsOk L} (c : certificate) s :
  wf s -> keychain_ok s -> ensures (Reload c) s ends_complete.
Proof.
  intros Hw Hk. destruct c as [c|c|c]; simpl.
  - apply keystore_Reload_ok.
  - by apply pkcs11_Reload_ok.
  - by apply certstore_Reload_ok.
Qed.

Lemma certificate_build_ok `{!CertLibsOk L} (c : certificate) s :
  wf s -> keychain_ok s -> ensures (certificate_build c) s (fun cert _ => complete cert).
Proof.
  intros Hw Hk. pose proof (Reload_ok c s Hw Hk) as H. unfold ensures in *.
  rewrite Reload_build in H. unfold mbind, SE_bind in H.
  destruct (certificate_build c s) as [[cert|e|] s']; [|done|done].
  destruct H as (cert' & Hc & Hok). pose proof (current_after_Store cert s') as Hs.
  simpl in Hs. rewrite Hs in Hc. by injection Hc as <-.
Qed.

(** *** Descriptors *)

Lemma readPEM_opens path password fmt s blocks s' :
  readPEM path password fmt s = (Ret blocks, s') -> open_files s' = path :: open_files s.
Proof.
  unfold readPEM, mbind, SE_bind, os_Open. destruct (files s !! path) as [content|]; [|done].
  destruct (ReadAsPEM _ _ _ _) as [bs [e|]]; [done|]. case_any; [done|]. by intros [= <- <-].
Qed.

Lemma read_all_opens paths password fmt acc s blocks s' :
  read_all paths password fmt acc s = (Ret blocks, s') ->
  open_files s' = reverse paths ++ open_files s.
Proof.
  revert acc s. induction paths as [|p ps IH]; intros acc s; simpl; [by intros [= <- <-]|].
  unfold mbind, SE_bind. destruct (readPEM p password fmt s) as [[b|e|] s1] eqn:E; [|done|done].
  intros E'. rewrite (IH _ _ E'), (readPEM_opens _ _ _ _ _ _ E), reverse_cons.
  by rewrite <- app_assoc.
Qed.

(** ** Claims *)

(** A reload is all or nothing, whatever the implementation and whatever
    is cached: when [Reload] returns nil, one new certificate object has been
    allocated and the pointer designates it; when it returns an error (or
    panics), the pointer and every object are what they were, so
    [GetCertificate] and [GetClientCertificate] go on returning the old
    certificate. Files and keychain are not written. *)
Theorem reload_all_or_nothing (c : certificate) (s : state) :
  let '(r, s') := Reload c s in
  same_env s s' /\
  GetCertificate c s' = (Ret (cached s'), s') /\
  GetClientCertificate c s' = (Ret (cached s'), s') /\
  match r with
  | Ret _ => exists cert, heap s' = heap s ++ [cert] /\ cached s' = Some (length (heap s))
  | _ => heap s' = heap s /\ cached s' = cached s
  end.
Proof.
  pose proof (reload_env c s) as He. pose proof (reload_publishes c s) as Hp.
  destruct (Reload c s) as [r s']. cbn [fst snd] in He, Hp.
  split; [done|]. split; [apply (get_cached c)|]. split; [apply (get_client_cached c)|].
  destruct r; simpl in Hp; [|done|done]. destruct Hp as [[cert ?] ?]. by exists cert.
Qed.

(** C9. Hot swapping. Over any history of file changes, keychain changes,
    reloads and callbacks, and for each of the three implementations: what is seen
    is what a register shows that a reload overwrites with exactly the certificate
    that the files and the keychain of that moment make (with PKCS#11 and a
    certificate already loaded: with the key that one had), that it keeps if
    loading fails, returning the error, and that the callbacks read; a pointer
    handed out at any time (a connection in its handshake holds it) designates
    the same, unchanged certificate at the end; and once a certificate is
    loaded no callback ever hands out nil. *)
Theorem hot_swap (c : certificate) (evs : list event) (s : state) :
  wf s ->
  let '(os, s') := history c evs s in
  map seen os = register c evs (current s) (files s) (keychain s) /\
  Forall (still_valid s') os /\
  (is_Some (cached s) -> Forall not_nil os).
Proof.
  intros Hw. pose proof (history_register c evs s Hw) as Hr.
  pose proof (history_still_valid c evs s Hw) as Hv.
  pose proof (history_not_nil c evs s) as Hn.
  destruct (history c evs s) as [os s']. auto.
Qed.

(** C22. Reloading a certificate made from PEM files or from a keystore is
    loading it anew: in any state, with anything cached, [Reload] has the
    outcome, the error message and the certificate that the constructor has in
    a process that starts with the same files. *)
Theorem reload_is_fresh_load (certificatePath keyPath password : string) (s : state)
    (k : outcome string (list identity)) :
  let fresh := State (files s) k [] [] None in
  published (Reload {| keystorePaths := [certificatePath; keyPath]; keystorePassword := "";
                       format := "PEM" |} s)
    = published (CertificateFromPEMFiles certificatePath keyPath fresh) /\
  published (Reload {| keystorePaths := [certificatePath]; keystorePassword := password;
                       format := "" |} s)
    = published (CertificateFromKeystore certificatePath password fresh).
Proof.
  intros fresh. unfold CertificateFromPEMFiles, CertificateFromKeystore.
  rewrite !published_then. simpl. rewrite !keystore_published.
  split; f_equal; by apply keystore_build_by_files.
Qed.

(** C23. The private key of a PKCS#11 certificate is read once. When a
    certificate is cached, a reload depends on the certificate file alone: it
    fails with the error of reading that file, or it publishes the chain found
    there with the file's first certificate as the leaf and the private key of
    the certificate that was cached, whatever the module would answer now. *)
Theorem pkcs11_reload_keeps_key (c : pkcs11Certificate) (s : state) (old : tls_certificate) :
  current s = Some old ->
  match readX509 (certificatePath c) s with
  | (Ret certs, _) => exists leaf rest, certs = leaf :: rest /\
      published (Reload c s) = Ret (Some {| tc_Certificate := map Raw certs;
                                            tc_PrivateKey := tc_PrivateKey old;
                                            tc_Leaf := Some leaf |})
  | (Err e, _) => published (Reload c s) = Err e /\ current (Reload c s).2 = Some old
  | (Panic, _) => False
  end.
Proof.
  intros Hcur. assert (exists i, cached s = Some i /\ heap s !! i = Some old) as (i & Hc & Hh).
  { unfold current in Hcur. destruct (cached s) as [i|]; [by exists i|done]. }
  pose proof (readX509_no_panic (certificatePath c) s) as Hnp.
  pose proof (quiet_readX509 (certificatePath c) s) as (_ & H2 & H3). simpl.
  rewrite (pkcs11_Reload_cached c s i old Hc Hh). unfold mbind, SE_bind, published.
  destruct (readX509 (certificatePath c) s) as [[certs|e|] s1] eqn:E; [| |done].
  - destruct certs as [|leaf rest]; [by apply readX509_nonempty in E|].
    exists leaf, rest. split; [done|]. simpl. f_equal.
    apply (current_after_Store _ s1).
  - simpl in *. split; [done|]. unfold current. by rewrite H2, H3.
Qed.

(** With libraries that return errors instead of panicking and give at
    least one certificate per key pair, and a keychain whose identities have a
    leaf, no implementation's [Reload] panics (the indexings [certs[0]],
    [chain[0]] and [Certificate[0]] are in range, the cached pointer is
    dereferenced only when it is not nil), and what a successful reload serves
    has a certificate chain to offer. *)
Theorem reload_never_panics `{!CertLibsOk L} (c : certificate) (s : state) :
  wf s -> keychain_ok s ->
  match Reload c s with
  | (Ret _, s') => exists cert, current s' = Some cert /\ complete cert
  | (Err _, _) => True
  | (Panic, _) => False
  end.
Proof.
  intros Hw Hk. destruct c as [c|c|c];
    [apply (keystore_Reload_ok c s)|apply (pkcs11_Reload_ok c s Hw)
    |apply (certstore_Reload_ok c s Hk)].
Qed.

(** [readPEM] opens each file and closes none: a successful reload of a
    keystore or of a pair of PEM files leaves one more open descriptor per
    path, newest first, on every reload. *)
Theorem reload_leaves_files_open (c : keystoreCertificate) (s s' : state) :
  Reload c s = (Ret (), s') ->
  open_files s' = reverse (keystorePaths c) ++ open_files s.
Proof.
  simpl. unfold keystore_Reload, mbind, SE_bind.
  destruct (read_all _ _ _ _ s) as [[blocks|e|] s1] eqn:E; [|done|done]. simpl.
  destruct (X509KeyPair _ _) as [[[|der chain] key]|e|]; [done| |done|done]. simpl.
  destruct (ParseCertificate der) as [leaf|e|]; [|done|done]. unfold StorePointer.
  intros [= <-]. simpl. by apply read_all_opens in E.
Qed.
End Certloader.

(** ** Witnesses *)

(** Libraries small enough to evaluate: a file holds one block, the block is
    its own encoding, and a key pair is a chain of one certificate that carries
    its encoding as its key. *)
Definition toy_certificate (der : string) : Certificate :=
  {| Raw := der; Subject := {| CommonName := der; OrganizationalUnit := [] |};
     DNSNames := []; IPAddresses := []; URIs := []; PublicKey := der |}.

Definition toy : CertLibs := {|
  pem_block := string;
  tls_key := string;
  ReadAsPEM _ content _ _ :=
    if String.eqb content "" then ([], Some "unable to guess file type") else ([content], None);
  ReadAsX509 _ content :=
    if String.eqb content "" then ([], None) else ([inl (toy_certificate content)], None);
  EncodeToMemory b := b;
  X509KeyPair a b := if String.eqb a "" then Err "no PEM data" else Ret ([a], b);
  ParseCertificate der := Ret (toy_certificate der);
  pkcs11key_New m _ _ k := Ret (m +:+ ":" +:+ k)
|}.

#[export] Instance toy_ok : CertLibsOk toy.
Proof.
  split; simpl; intros; try done; [|by case_any].
  revert H. case_any; [done|]. by intros [= <- <-].
Qed.

Definition toy_state (content : string) : @state toy :=
  @State toy {["server.pem" := content]} (Ret []) []
    [@Build_tls_certificate toy ["old"] "key" None] (Some 0).

Definition toy_keystore : keystoreCertificate :=
  {| keystorePaths := ["server.pem"]; keystorePassword := ""; format := "" |}.

Definition toy_pkcs11 : pkcs11Certificate :=
  {| certificatePath := "server.pem"; modulePath := "mod"; tokenLabel := "t"; pin := "1" |}.

Definition fresh_certificate : @tls_certificate toy :=
  @Build_tls_certificate toy ["new"] "new" (Some (toy_certificate "new")).

(** A history: served, reloaded from a new file, served again, the file
    is emptied, a reload fails, and the certificate is still served. *)
Lemma hot_swap_witness :
  exists os s',
  @history toy certificate _ (Keystore toy_keystore)
    [AsksServer; Reloads; AsksClient; Environment ∅ (Ret []); Reloads; AsksServer]
    (toy_state "new") = (os, s') /\ length os = 5 /\
  map seen os = [Offered (Some (@Build_tls_certificate toy ["old"] "key" None));
                 Loaded (Ret (Some fresh_certificate)); Offered (Some fresh_certificate);
                 Loaded (Err "open server.pem: no such file or directory");
                 Offered (Some fresh_certificate)] /\
  Forall (still_valid s') os /\ Forall not_nil os.
Proof.
  pose proof (@hot_swap toy (Keystore toy_keystore)
    [AsksServer; Reloads; AsksClient; Environment ∅ (Ret []); Reloads; AsksServer]
    (toy_state "new")) as H.
  destruct (@history toy certificate _ _ _ _) as [os s'] eqn:E.
  exists os, s'. split; [done|]. split; [by vm_compute in E; injection E as <- _|].
  destruct H as (Hr & Hv & Hn); [intros i [= <-]; simpl; lia|].
  split; [rewrite Hr; vm_compute; reflexivity|]. split; [exact Hv|apply Hn; by eexists].
Defined.

Lemma pkcs11_reload_keeps_key_witness :
  published (Reload toy_pkcs11 (toy_state "new")) =
  Ret (Some (@Build_tls_certificate toy ["new"] "key" (Some (toy_certificate "new")))).
Proof.
  pose proof (@pkcs11_reload_keeps_key toy toy_pkcs11 (toy_state "new")
    (@Build_tls_certificate toy ["old"] "key" None) eq_refl) as H.
  vm_compute in H. destruct H as (leaf & rest & [= <- <-] & H). exact H.
Defined.

Lemma reload_never_panics_witness :
  match Reload (PKCS11 toy_pkcs11) (toy_state "new") with
  | (Ret _, s') => exists cert, current s' = Some cert /\ complete cert
  | _ => False
  end.
Proof.
  pose proof (@reload_never_panics toy toy_ok (PKCS11 toy_pkcs11) (toy_state "new")) as H.
  destruct (Reload _ _) as [r s'] eqn:E.
  assert (r = Ret ()) as -> by (vm_compute in E; by injection E as <- _).
  apply H; [intros i [= <-]; simpl; lia|constructor].
Defined.

Lemma reload_leaves_files_open_witness :
  open_files (Reload toy_keystore (Reload toy_keystore (toy_state "new")).2).2
    = ["server.pem"; "server.pem"].
Proof.
  rewrite (@reload_leaves_files_open toy toy_keystore (Reload toy_keystore (toy_state "new")).2);
    [|vm_compute; reflexivity].
  rewrite (@reload_leaves_files_open toy toy_keystore (toy_state "new")); [|vm_compute; reflexivity].
  reflexivity.
Defined.
