(* ===== verification/Flags.v ===== *)
(** * Command line: the flag variables of [src/main.go]

    The values the flag variables point to after parsing (the parser itself,
    [kingpin], is not part of the repository). The keychain and PKCS#11 flags
    exist only in builds that support them. The second half is the table of the
    flags as they are declared, with the aliases kept for older command lines. *)
From Stdlib Require Import ZArith.
From stdpp Require Import base list strings gmap.
From S2P Require Import Prelude GoStrings GoNet Certloader.

(** Durations are in nanoseconds; TCP addresses are in their printed form. *)
Record Flags : Type := {
  keychainIdentity : option string;
  pkcs11Module : option string;
  pkcs11TokenLabel : option string;
  pkcs11PIN : option string;

  serverListenAddress : string;
  serverForwardAddress : string;
  serverProxyProtocol : bool;
  serverUnsafeTarget : bool;
  serverAllowAll : bool;
  serverAllowedCNs : list string;
  serverAllowedOUs : list string;
  serverAllowedDNSs : list string;
  serverAllowedIPs : list IP;
  serverAllowedURIs : list string;
  serverDisableAuth : bool;

  clientListenAddress : string;
  clientForwardAddress : string;
  clientUnsafeListen : bool;
  clientServerName : string;
  clientConnectProxy : option URL;
  clientAllowedCNs : list string;
  clientAllowedOUs : list string;
  clientAllowedDNSs : list string;
  clientAllowedIPs : list IP;
  clientAllowedURIs : list string;
  clientDisableAuth : bool;

  keystorePath : string;
  keystorePass : string;
  caBundlePath : string;
  enabledCipherSuites : string;

  timedReload : Z;
  shutdownTimeout : Z;
  timeoutDuration : Z;

  metricsGraphite : option string;
  metricsURL : string;
  metricsPrefix : string;
  metricsInterval : Z;

  statusAddress : string;
  enableProf : bool;
  fdLimit : Z;
  syslogFlag : bool
}.

(** The build constraints that select a file of [certloader]. *)
Record build : Type := { cgo : bool; certstore : bool }.

(** The optional flags as [init] leaves them: nil when the build does not
    support the feature, a pointer to the parsed value otherwise. *)
Definition init_keychainIdentity (b : build) (parsed : string) : option string :=
  if SupportsKeychain (certstore b) then Some parsed else None.
Definition init_pkcs11 (b : build) (parsed : string) : option string :=
  if SupportsPKCS11 (cgo b) then Some parsed else None.

(** The flags a build can have. *)
Definition flags_of_build (b : build) (f : Flags) : Prop :=
  (exists p, keychainIdentity f = init_keychainIdentity b p) /\
  (exists p, pkcs11Module f = init_pkcs11 b p) /\
  (exists p, pkcs11TokenLabel f = init_pkcs11 b p) /\
  (exists p, pkcs11PIN f = init_pkcs11 b p).

(** A string flag: nil and the empty string both mean that it was not given. *)
Definition flag_set (p : option string) : bool :=
  match p with Some s => negb (String.eqb s "") | None => false end.

(** ** The declarations *)

(** A flag belongs to the application or to one of its two commands. *)
Inductive scope : Type := App | Server | Client.

#[export] Instance scope_eq_dec : EqDecision scope.
Proof. solve_decision. Defined.

(** How the values of a flag are kept: the last one, or all of them in order. *)
Inductive arity : Type := Once | Repeated.

#[export] Instance arity_eq_dec : EqDecision arity.
Proof. solve_decision. Defined.

(** A declaration: its scope, its long name, the variable it sets, whether it
    repeats, is hidden from the help text, is required, and its default. *)
Record flag : Type := Flag {
  fl_scope : scope;
  fl_name : string;
  fl_target : string;
  fl_arity : arity;
  fl_hidden : bool;
  fl_required : bool;
  fl_default : option string
}.

(** The declarations in the order of the code. *)
Definition main_flags : list flag := [
  Flag Server "listen" "serverListenAddress" Once false true None;
  Flag Server "target" "serverForwardAddress" Once false true None;
  Flag Server "proxy-protocol" "serverProxyProtocol" Once false false None;
  Flag Server "unsafe-target" "serverUnsafeTarget" Once false false None;
  Flag Server "allow-all" "serverAllowAll" Once false false None;
  Flag Server "allow-cn" "serverAllowedCNs" Repeated false false None;
  Flag Server "allow-ou" "serverAllowedOUs" Repeated false false None;
  Flag Server "allow-dns" "serverAllowedDNSs" Repeated false false None;
  Flag Server "allow-ip" "serverAllowedIPs" Repeated true false None;
  Flag Server "allow-uri" "serverAllowedURIs" Repeated false false None;
  Flag Server "disable-authentication" "serverDisableAuth" Once false false (Some "false");

  Flag Client "listen" "clientListenAddress" Once false true None;
  Flag Client "target" "clientForwardAddress" Once false true None;
  Flag Client "unsafe-listen" "clientUnsafeListen" Once false false None;
  Flag Client "override-server-name" "clientServerName" Once false false None;
  Flag Client "connect-proxy" "clientConnectProxy" Once false false None;
  Flag Client "verify-cn" "clientAllowedCNs" Repeated false false None;
  Flag Client "verify-ou" "clientAllowedOUs" Repeated false false None;
  Flag Client "verify-dns" "clientAllowedDNSs" Repeated false false None;
  Flag Client "verify-ip" "clientAllowedIPs" Repeated true false None;
  Flag Client "verify-uri" "clientAllowedURIs" Repeated false false None;
  Flag Client "disable-authentication" "clientDisableAuth" Once false false (Some "false");

  Flag App "keystore" "keystorePath" Once false false None;
  Flag App "storepass" "keystorePass" Once false false None;
  Flag App "cacert" "caBundlePath" Once false false None;
  Flag App "cipher-suites" "enabledCipherSuites" Once false false (Some "AES,CHACHA");
  Flag App "timed-reload" "timedReload" Once false false None;
  Flag App "shutdown-timeout" "shutdownTimeout" Once false false (Some "5m");
  Flag App "connect-timeout" "timeoutDuration" Once false false (Some "10s");
  Flag App "metrics-graphite" "metricsGraphite" Once false false None;
  Flag App "metrics-url" "metricsURL" Once false false None;
  Flag App "metrics-prefix" "metricsPrefix" Once false false (Some "ghostunnel");
  Flag App "metrics-interval" "metricsInterval" Once false false (Some "30s");
  Flag App "status" "statusAddress" Once false false None;
  Flag App "enable-pprof" "enableProf" Once false false None;
  Flag App "fdlimit" "fdLimit" Once false false (Some "0")].

(** What [init] adds: the optional flags of the build, and the aliases. *)
Definition init_flags (b : build) : list flag :=
  (if SupportsKeychain (certstore b)
   then [Flag App "keychain-identity" "keychainIdentity" Once false false None] else [])
  ++ (if SupportsPKCS11 (cgo b)
      then [Flag App "pkcs11-module" "pkcs11Module" Once false false None;
            Flag App "pkcs11-token-label" "pkcs11TokenLabel" Once false false None;
            Flag App "pkcs11-pin" "pkcs11PIN" Once false false None] else [])
  ++ [Flag Server "allow-dns-san" "serverAllowedDNSs" Repeated true false None;
      Flag Server "allow-ip-san" "serverAllowedIPs" Repeated true false None;
      Flag Server "allow-uri-san" "serverAllowedURIs" Repeated true false None;
      Flag Client "verify-dns-san" "clientAllowedDNSs" Repeated true false None;
      Flag Client "verify-ip-san" "clientAllowedIPs" Repeated true false None;
      Flag Client "verify-uri-san" "clientAllowedURIs" Repeated true false None].

(** The flag of [unix.go]. *)
Definition unix_flags (unix : bool) : list flag :=
  if unix then [Flag App "syslog" "syslogFlag" Once false false None] else [].

Definition all_flags (b : build) (unix : bool) : list flag :=
  main_flags ++ unix_flags unix ++ init_flags b.

(** The flags that can be used with a command: its own and the application's. *)
Definition flags_of (command : scope) (fs : list flag) : list flag :=
  filter (fun fl => fl_scope fl = App \/ fl_scope fl = command) fs.

Definition find_flag (fs : list flag) (name : string) : option flag :=
  head (filter (fun fl => fl_name fl = name) fs).

(** The values a variable that repeats gets from a command line (names and
    values in order): every flag that sets the variable appends to it. *)
Definition collected (fs : list flag) (args : list (string * string)) (target : string) :
    list string :=
  flat_map (fun arg =>
    match find_flag fs (fst arg) with
    | Some fl => if String.eqb (fl_target fl) target then [snd arg] else []
    | None => []
    end) args.

(** The names of today for the names of older command lines. *)
Definition current_name (name : string) : string :=
  if String.eqb name "allow-dns-san" then "allow-dns"
  else if String.eqb name "allow-ip-san" then "allow-ip"
  else if String.eqb name "allow-uri-san" then "allow-uri"
  else if String.eqb name "verify-dns-san" then "verify-dns"
  else if String.eqb name "verify-ip-san" then "verify-ip"
  else if String.eqb name "verify-uri-san" then "verify-uri"
  else name.

(** A table the command line parser accepts: no two flags of a command (its own
    and the application's) share a name, and flags that share a variable agree
    on their scope and arity and repeat. *)
Definition table_ok (fs : list flag) : bool :=
  forallb (fun c => bool_decide (NoDup (map fl_name (flags_of c fs)))) [App; Server; Client] &&
  forallb (fun x => forallb (fun y =>
    negb (String.eqb (fl_target x) (fl_target y)) || String.eqb (fl_name x) (fl_name y) ||
    (bool_decide (fl_scope x = fl_scope y) && bool_decide (fl_arity x = Repeated) &&
     bool_decide (fl_arity y = Repeated))) fs) fs.

Lemma all_flags_ok b unix : table_ok (all_flags b unix) = true.
Proof. destruct b as [[] []], unix; vm_compute; reflexivity. Qed.

(** In every build, the old name and the new name of a flag set the same
    variable of the same command. *)
Lemma alias_target b unix command name :
  command <> App -> is_Some (find_flag (flags_of command (all_flags b unix)) name) ->
  fl_target <$> find_flag (flags_of command (all_flags b unix)) (current_name name)
  = fl_target <$> find_flag (flags_of command (all_flags b unix)) name.
Proof.
  intros Hc Hs. unfold current_name.
  repeat match goal with |- context [String.eqb name ?n] => destruct (String.eqb_spec name n) as [->|_] end;
    [..|done]; destruct command; try done; destruct b as [[] []], unix;
    (vm_compute; reflexivity) || (vm_compute in Hs; by destruct Hs).
Qed.

(** C32. The flags are declared consistently in every build and on every platform:
    no two flags that can be given together share a name, a variable set by
    several flags is a list of one command, and a command line that uses the
    older names of the access control flags gives every variable the same
    values as one that uses the current names. *)
Theorem flags_declared_consistently (b : build) (unix : bool) (command : scope)
    (args : list (string * string)) (target : string) :
  command <> App ->
  Forall (fun arg => is_Some (find_flag (flags_of command (all_flags b unix)) (fst arg))) args ->
  table_ok (all_flags b unix) = true /\
  collected (flags_of command (all_flags b unix))
    (map (fun arg => (current_name (fst arg), snd arg)) args) target
  = collected (flags_of command (all_flags b unix)) args target.
Proof.
  intros Hc Ha. split; [apply all_flags_ok|].
  induction Ha as [|[n v] args Hn _ IH]; [done|]. unfold collected in *.
  cbn [map flat_map fst snd]. rewrite IH. f_equal. cbn [fst] in Hn.
  pose proof (alias_target b unix command n Hc Hn) as E. destruct Hn as [fl Hn]. rewrite Hn in *.
  destruct (find_flag _ (current_name n)) as [fl'|]; [|done]. injection E as ->. done.
Qed.

(** ** Witness *)

Lemma flags_declared_consistently_witness :
  collected (flags_of Server (all_flags {| cgo := true; certstore := false |} true))
    [("allow-dns", "a"); ("allow-dns-san", "b")] "serverAllowedDNSs" = ["a"; "b"].
Proof.
  transitivity (collected (flags_of Server (all_flags {| cgo := true; certstore := false |} true))
    [("allow-dns", "a"); ("allow-dns", "b")] "serverAllowedDNSs"); [symmetry|vm_compute; reflexivity].
  refine (proj2 (flags_declared_consistently {| cgo := true; certstore := false |} true Server
    [("allow-dns", "a"); ("allow-dns-san", "b")] "serverAllowedDNSs" _ _)).
  - discriminate.
  - repeat constructor; vm_compute; eexists; reflexivity.
Defined.
