(* ===== verification/Fdlimit.v ===== *)
(** * Descriptor limits: [src/fdlimit]

    The package on UNIX systems ([fdlimit_unix.go], over the two system calls) and
    on Windows ([fdlimit_windows.go], a constant). *)
From Stdlib Require Import ZArith.
From stdpp Require Import base list strings.
From S2P Require Import Prelude GoStrings.

Local Open Scope Z_scope.

(** [syscall.Rlimit]: two 64-bit unsigned numbers. *)
Record Rlimit : Type := { Cur : Z; Max : Z }.

(** The conversion [int(n)] of a 64-bit unsigned number: two's complement. *)
Definition int_of_uint64 (n : Z) : Z := if n <? 2 ^ 63 then n else n - 2 ^ 64.

(** What the operating system does with the limit of a process: setting it
    returns an error and the limit afterwards, reading it an error or the
    limit. *)
Class RlimitCalls : Type := {
  Setrlimit : Rlimit -> Rlimit -> option string * Rlimit;
  Getrlimit : Rlimit -> outcome string Rlimit
}.

(** The documented behaviour: a successful call puts the new limit in force, a
    failed one changes nothing, and reading returns the limit in force. *)
Class RlimitCallsOk `(RlimitCalls) : Prop := {
  Setrlimit_ok old new s : Setrlimit old new = (None, s) -> s = new;
  Setrlimit_failed old new e s : Setrlimit old new = (Some e, s) -> s = old;
  Getrlimit_ok l : Getrlimit l = Ret l
}.

Section Unix.
Context `{R : RlimitCalls}.

(** The limit of the process is the argument [l]. *)
Definition unix_Raise (max : Z) (l : Rlimit) : option string * Rlimit :=
  let limit := {| Cur := max; Max := max |} in
  match Setrlimit l limit with
  | (Some err, l') => (Some err, l')
  | (None, l') => (None, l')
  end.

Definition unix_Current (l : Rlimit) : outcome string Z :=
  limit ← Getrlimit l; Ret (int_of_uint64 (Cur limit)).

Definition unix_Maximum (l : Rlimit) : outcome string Z :=
  limit ← Getrlimit l; Ret (int_of_uint64 (Max limit)).
End Unix.

Definition windows_Raise (max : Z) : option string :=
  if 16384 <? max then Some "file descriptor limit (16384) reached" else None.

Definition windows_Current : outcome string Z := Ret 16384.

Definition windows_Maximum : outcome string Z := windows_Current.

(** ** Claims *)

Section Claims.
Context `{R : RlimitCalls} `{!RlimitCallsOk R}.

(** Raising the limit and reading it back: after [Raise] succeeded, [Current]
    and [Maximum] return the number that was asked for when it fits a signed
    64-bit integer (and a negative number otherwise: an unlimited hard limit
    reads as -1); after it failed they return what they returned before. *)
Theorem raise_then_read (max : Z) (l l' : Rlimit) (err : option string) :
  0 <= max < 2 ^ 64 -> unix_Raise max l = (err, l') ->
  match err with
  | None => unix_Maximum l' = unix_Current l' /\
      (max < 2 ^ 63 -> unix_Current l' = Ret max) /\
      (2 ^ 63 <= max -> exists n, unix_Current l' = Ret n /\ - 2 ^ 63 <= n < 0)
  | Some _ => unix_Current l' = unix_Current l /\ unix_Maximum l' = unix_Maximum l
  end.
Proof.
  intros Hm Hr. unfold unix_Raise in Hr. destruct (Setrlimit l _) as [[e|] s] eqn:E; simplify_eq.
  - by rewrite (Setrlimit_failed _ _ _ _ E).
  - apply Setrlimit_ok in E as ->. unfold unix_Maximum, unix_Current. rewrite !Getrlimit_ok.
    cbn [mbind outcome_bind Cur Max]. unfold int_of_uint64. split; [done|].
    destruct (Z.ltb_spec max (2 ^ 63)); split; intros; try lia; [done|].
    eexists. split; [reflexivity|]. lia.
Qed.
End Claims.

(** ** Witness *)

(** A kernel on which a process without privileges may lower its hard limit and
    move the soft one below it. *)
Definition posix : RlimitCalls := {|
  Setrlimit old new :=
    if Max new <? Cur new then (Some "invalid argument", old)
    else if Max old <? Max new then (Some "operation not permitted", old)
    else (None, new);
  Getrlimit l := Ret l
|}.

#[export] Instance posix_ok : RlimitCallsOk posix.
Proof. split; simpl; intros; repeat case_match; simplify_eq; done. Qed.

Lemma raise_then_read_witness :
  unix_Current (R := posix) (unix_Raise (R := posix) 4096 {| Cur := 1024; Max := 8192 |}).2 = Ret 4096.
Proof.
  refine (proj1 (proj2 (raise_then_read (R := posix) 4096 {| Cur := 1024; Max := 8192 |}
    _ None _ eq_refl)) _); lia.
Defined.
