(* ===== verification/TlsConfig.v ===== *)
(** * TLS configuration: [src/tls.go]

    Loading the certificate and the CA bundle the flags name, building the
    [tls.Config], and what [crypto/tls] (Go 1.11) makes of such a configuration
    in a full handshake: the protocol version and the authentication of the
    peer. *)
From Stdlib Require Import ZArith.
From stdpp Require Import base list sets strings gmap.
From S2P Require Import Prelude GoStrings Utf8 GoNet Certloader Flags.

Local Open Scope Z_scope.

(** ** Cipher suites *)

(** The constants of [crypto/tls], 16-bit identifiers. *)
Definition TLS_RSA_WITH_3DES_EDE_CBC_SHA : Z := 0x000a.
Definition TLS_RSA_WITH_AES_128_CBC_SHA : Z := 0x002f.
Definition TLS_RSA_WITH_AES_256_CBC_SHA : Z := 0x0035.
Definition TLS_RSA_WITH_AES_128_CBC_SHA256 : Z := 0x003c.
Definition TLS_RSA_WITH_AES_128_GCM_SHA256 : Z := 0x009c.
Definition TLS_RSA_WITH_AES_256_GCM_SHA384 : Z := 0x009d.
Definition TLS_ECDHE_ECDSA_WITH_AES_128_CBC_SHA : Z := 0xc009.
Definition TLS_ECDHE_ECDSA_WITH_AES_256_CBC_SHA : Z := 0xc00a.
Definition TLS_ECDHE_RSA_WITH_3DES_EDE_CBC_SHA : Z := 0xc012.
Definition TLS_ECDHE_RSA_WITH_AES_128_CBC_SHA : Z := 0xc013.
Definition TLS_ECDHE_RSA_WITH_AES_256_CBC_SHA : Z := 0xc014.
Definition TLS_ECDHE_ECDSA_WITH_AES_128_CBC_SHA256 : Z := 0xc023.
Definition TLS_ECDHE_RSA_WITH_AES_128_CBC_SHA256 : Z := 0xc027.
Definition TLS_ECDHE_ECDSA_WITH_AES_128_GCM_SHA256 : Z := 0xc02b.
Definition TLS_ECDHE_ECDSA_WITH_AES_256_GCM_SHA384 : Z := 0xc02c.
Definition TLS_ECDHE_RSA_WITH_AES_128_GCM_SHA256 : Z := 0xc02f.
Definition TLS_ECDHE_RSA_WITH_AES_256_GCM_SHA384 : Z := 0xc030.
Definition TLS_ECDHE_RSA_WITH_CHACHA20_POLY1305 : Z := 0xcca8.
Definition TLS_ECDHE_ECDSA_WITH_CHACHA20_POLY1305 : Z := 0xcca9.

Definition VersionTLS10 : Z := 0x0301.
Definition VersionTLS12 : Z := 0x0303.

Definition CurveP256 : Z := 23.
Definition CurveP384 : Z := 24.
Definition CurveP521 : Z := 25.
Definition X25519 : Z := 29.

Definition cipherSuites : gmap string (list Z) := list_to_map [
  ("AES", [TLS_ECDHE_ECDSA_WITH_AES_128_GCM_SHA256;
           TLS_ECDHE_RSA_WITH_AES_128_GCM_SHA256;
           TLS_ECDHE_ECDSA_WITH_AES_256_GCM_SHA384;
           TLS_ECDHE_RSA_WITH_AES_256_GCM_SHA384]);
  ("CHACHA", [TLS_ECDHE_ECDSA_WITH_CHACHA20_POLY1305;
              TLS_ECDHE_RSA_WITH_CHACHA20_POLY1305]);
  ("CBC", [TLS_ECDHE_ECDSA_WITH_AES_128_CBC_SHA256;
           TLS_ECDHE_RSA_WITH_AES_128_CBC_SHA256;
           TLS_ECDHE_ECDSA_WITH_AES_128_CBC_SHA;
           TLS_ECDHE_RSA_WITH_AES_128_CBC_SHA;
           TLS_ECDHE_ECDSA_WITH_AES_256_CBC_SHA;
           TLS_ECDHE_RSA_WITH_AES_256_CBC_SHA;
           TLS_ECDHE_RSA_WITH_3DES_EDE_CBC_SHA]);
  ("RSA", [TLS_RSA_WITH_AES_128_GCM_SHA256;
           TLS_RSA_WITH_AES_256_GCM_SHA384;
           TLS_RSA_WITH_AES_128_CBC_SHA256;
           TLS_RSA_WITH_AES_128_CBC_SHA;
           TLS_RSA_WITH_AES_256_CBC_SHA;
           TLS_RSA_WITH_3DES_EDE_CBC_SHA])].

(** ** Libraries *)

(** [x509.CertPool]: certificates without duplicates. *)
Definition CertPool : Type := list Certificate.

Definition AddCert (pool : CertPool) (cert : Certificate) : CertPool :=
  if existsb (fun c => String.eqb (Raw c) (Raw cert)) pool then pool else pool ++ [cert].

Inductive ExtKeyUsage : Type := ExtKeyUsageClientAuth | ExtKeyUsageServerAuth.

(** What is used of [crypto/x509]: the certificates of PEM data, the trust
    store of the system, and path validation of a chain as presented by the
    peer, for a usage and (if given) a host name. *)
Class X509Libs : Type := {
  pem_certificates : string -> list Certificate;
  SystemCertPool : outcome string CertPool;
  x509_Verify : CertPool -> ExtKeyUsage -> option string -> list Certificate ->
                outcome string (list (list Certificate))
}.

(** Path validation returns, and the chains it returns start with the leaf. *)
Class X509LibsOk `(X509Libs) : Prop := {
  x509_Verify_ok pool usage name certs :
    match x509_Verify pool usage name certs with
    | Ret chains => Forall (fun chain => chain <> []) chains
    | Err _ => True
    | Panic => False
    end
}.

(** ** The configuration *)

Inductive ClientAuthType : Type :=
  | NoClientCert
  | RequestClientCert
  | RequireAnyClientCert
  | VerifyClientCertIfGiven
  | RequireAndVerifyClientCert.

#[export] Instance ClientAuthType_eq_dec : EqDecision ClientAuthType.
Proof. solve_decision. Defined.

(** [tls.Config]: the fields the program sets. A callback bound to a
    certificate object is that object; nil is [None]. *)
Record Config : Type := {
  RootCAs : CertPool;
  ClientCAs : CertPool;
  PreferServerCipherSuites : bool;
  ClientAuth : ClientAuthType;
  MinVersion : Z;
  CipherSuites : list Z;
  CurvePreferences : list Z;
  ServerName : string;
  cfg_GetCertificate : option certificate;
  cfg_GetClientCertificate : option certificate;
  VerifyPeerCertificate : option (list string -> list (list Certificate) -> outcome string unit)
}.

Definition set_ServerName (name : string) (c : Config) : Config :=
  {| RootCAs := RootCAs c; ClientCAs := ClientCAs c;
     PreferServerCipherSuites := PreferServerCipherSuites c; ClientAuth := ClientAuth c;
     MinVersion := MinVersion c; CipherSuites := CipherSuites c;
     CurvePreferences := CurvePreferences c; ServerName := name;
     cfg_GetCertificate := cfg_GetCertificate c;
     cfg_GetClientCertificate := cfg_GetClientCertificate c;
     VerifyPeerCertificate := VerifyPeerCertificate c |}.
Definition set_ClientAuth (a : ClientAuthType) (c : Config) : Config :=
  {| RootCAs := RootCAs c; ClientCAs := ClientCAs c;
     PreferServerCipherSuites := PreferServerCipherSuites c; ClientAuth := a;
     MinVersion := MinVersion c; CipherSuites := CipherSuites c;
     CurvePreferences := CurvePreferences c; ServerName := ServerName c;
     cfg_GetCertificate := cfg_GetCertificate c;
     cfg_GetClientCertificate := cfg_GetClientCertificate c;
     VerifyPeerCertificate := VerifyPeerCertificate c |}.
Definition set_GetCertificate (o : option certificate) (c : Config) : Config :=
  {| RootCAs := RootCAs c; ClientCAs := ClientCAs c;
     PreferServerCipherSuites := PreferServerCipherSuites c; ClientAuth := ClientAuth c;
     MinVersion := MinVersion c; CipherSuites := CipherSuites c;
     CurvePreferences := CurvePreferences c; ServerName := ServerName c;
     cfg_GetCertificate := o;
     cfg_GetClientCertificate := cfg_GetClientCertificate c;
     VerifyPeerCertificate := VerifyPeerCertificate c |}.
Definition set_GetClientCertificate (o : option certificate) (c : Config) : Config :=
  {| RootCAs := RootCAs c; ClientCAs := ClientCAs c;
     PreferServerCipherSuites := PreferServerCipherSuites c; ClientAuth := ClientAuth c;
     MinVersion := MinVersion c; CipherSuites := CipherSuites c;
     CurvePreferences := CurvePreferences c; ServerName := ServerName c;
     cfg_GetCertificate := cfg_GetCertificate c;
     cfg_GetClientCertificate := o;
     VerifyPeerCertificate := VerifyPeerCertificate c |}.
Definition set_VerifyPeerCertificate
    (v : list string -> list (list Certificate) -> outcome string unit) (c : Config) : Config :=
  {| RootCAs := RootCAs c; ClientCAs := ClientCAs c;
     PreferServerCipherSuites := PreferServerCipherSuites c; ClientAuth := ClientAuth c;
     MinVersion := MinVersion c; CipherSuites := CipherSuites c;
     CurvePreferences := CurvePreferences c; ServerName := ServerName c;
     cfg_GetCertificate := cfg_GetCertificate c;
     cfg_GetClientCertificate := cfg_GetClientCertificate c;
     VerifyPeerCertificate := Some v |}.

Section Tls.
Context `{L : CertLibs} `{X : X509Libs}.

(** ** Certificates *)

Definition hasPKCS11 (f : Flags) : bool := flag_set (pkcs11Module f).

Definition hasKeychainIdentity (f : Flags) : bool := flag_set (keychainIdentity f).

(** Dereferencing a flag; nil panics. *)
Definition flag_deref (p : option string) : outcome string string :=
  match p with Some s => Ret s | None => Panic end.

Definition buildCertificateFromPKCS11 (b : build) (f : Flags) (certificatePath : string) :
    SE certificate :=
  m ← lift (flag_deref (pkcs11Module f));
  t ← lift (flag_deref (pkcs11TokenLabel f));
  p ← lift (flag_deref (pkcs11PIN f));
  c ← CertificateFromPKCS11Module (cgo b) certificatePath m t p;
  mret (PKCS11 c).

Definition buildCertificateFromCertstore (b : build) (f : Flags) : SE certificate :=
  name ← lift (flag_deref (keychainIdentity f));
  c ← CertificateFromKeychainIdentity (certstore b) name;
  mret (Certstore c).

(** [None] is the nil interface. *)
Definition buildCertificate (b : build) (f : Flags) (keystorePath keystorePass : string) :
    SE (option certificate) :=
  if hasPKCS11 f then c ← buildCertificateFromPKCS11 b f keystorePath; mret (Some c)
  else if hasKeychainIdentity f then c ← buildCertificateFromCertstore b f; mret (Some c)
  else if negb (String.eqb keystorePath "") then
    c ← CertificateFromKeystore keystorePath keystorePass; mret (Some (Keystore c))
  else mret None.

(** ** The CA bundle *)

(** [CertPool.AppendCertsFromPEM]: the pool and whether a certificate was found. *)
Definition AppendCertsFromPEM (pool : CertPool) (pem : string) : CertPool * bool :=
  let certs := pem_certificates pem in
  (foldl AddCert pool certs, negb (Nat.eqb (length certs) 0)).

(** [ioutil.ReadFile]. *)
Definition ReadFile (fs : gmap string string) (path : string) : outcome string string :=
  match fs !! path with
  | Some content => Ret content
  | None => Err ("open " +:+ path +:+ ": no such file or directory")
  end.

Definition caBundle (fs : gmap string string) (caBundlePath : string) : outcome string CertPool :=
  if String.eqb caBundlePath "" then SystemCertPool
  else
    caBundleBytes ← ReadFile fs caBundlePath;
    let '(bundle, ok) := AppendCertsFromPEM [] caBundleBytes in
    if negb ok then Err "unable to read certificates from CA bundle" else Ret bundle.

(** The loop over the names of the cipher suites. *)
Fixpoint select_suites (names : list string) (suites : list Z) : outcome string (list Z) :=
  match names with
  | [] => Ret suites
  | suite :: rest =>
    match cipherSuites !! TrimSpace suite with
    | None => Err ("invalid cipher suite '" +:+ suite +:+ "' selected")
    | Some ciphers => select_suites rest (suites ++ ciphers)
    end
  end.

Definition buildConfig (fs : gmap string string) (enabledCipherSuites caBundlePath : string) :
    outcome string Config :=
  ca ← caBundle fs caBundlePath;
  suites ← select_suites (Split enabledCipherSuites ",") [];
  Ret {| RootCAs := ca;
         ClientCAs := ca;
         PreferServerCipherSuites := true;
         ClientAuth := NoClientCert;
         MinVersion := VersionTLS10;
         CipherSuites := suites;
         CurvePreferences := [X25519; CurveP256; CurveP384; CurveP521];
         ServerName := "";
         cfg_GetCertificate := None;
         cfg_GetClientCertificate := None;
         VerifyPeerCertificate := None |}.

(** ** What [crypto/tls] does with a configuration *)

(** [Config.mutualVersion] with the default maximum, TLS 1.2: the version of the
    connection, for the highest version the client offers. *)
Definition mutualVersion (c : Config) (vers : Z) : option Z :=
  if vers <? MinVersion c then None else Some (Z.min vers VersionTLS12).

Definition auth_level (a : ClientAuthType) : nat :=
  match a with
  | NoClientCert => 0
  | RequestClientCert => 1
  | RequireAnyClientCert => 2
  | VerifyClientCertIfGiven => 3
  | RequireAndVerifyClientCert => 4
  end.

Definition call_VerifyPeerCertificate (c : Config) (certs : list Certificate)
    (chains : list (list Certificate)) : outcome string unit :=
  match VerifyPeerCertificate c with
  | Some verify => verify (map Raw certs) chains
  | None => Ret ()
  end.

(** The server's side of a full handshake: [certs] is what the client answers to
    a certificate request, possibly nothing. *)
Definition server_authenticates (c : Config) (certs : list Certificate) : outcome string unit :=
  let level := auth_level (ClientAuth c) in
  if (level <? auth_level RequestClientCert)%nat then Ret ()
  else if Nat.eqb (length certs) 0 &&
          (bool_decide (ClientAuth c = RequireAnyClientCert)
           || bool_decide (ClientAuth c = RequireAndVerifyClientCert))
  then Err "tls: client didn't provide a certificate"
  else if (auth_level VerifyClientCertIfGiven <=? level)%nat && negb (Nat.eqb (length certs) 0)
  then
    chains ← x509_Verify (ClientCAs c) ExtKeyUsageClientAuth None certs;
    call_VerifyPeerCertificate c certs chains
  else call_VerifyPeerCertificate c certs [].

(** The client's side of a full handshake; it refuses a configuration without a name
    to verify (the program never sets [InsecureSkipVerify]). *)
Definition client_authenticates (c : Config) (certs : list Certificate) : outcome string unit :=
  if String.eqb (ServerName c) ""
  then Err "tls: either ServerName or InsecureSkipVerify must be specified in the tls.Config"
  else
    chains ← x509_Verify (RootCAs c) ExtKeyUsageServerAuth (Some (ServerName c)) certs;
    call_VerifyPeerCertificate c certs chains.
End Tls.

(** ** Lemmas *)

Definition known_suite (name : string) : Prop := is_Some (cipherSuites !! TrimSpace name).

#[export] Instance known_suite_dec name : Decision (known_suite name).
Proof. unfold known_suite. apply _. Defined.

Definition suites_of (name : string) : list Z := default [] (cipherSuites !! TrimSpace name).

(** The loop selects the suites of every name in order, or names the first
    unknown one. *)
Lemma select_suites_spec names acc :
  match select_suites names acc with
  | Ret suites => Forall known_suite names /\ suites = acc ++ concat (map suites_of names)
  | Err m => exists pre bad post, names = pre ++ bad :: post /\ Forall known_suite pre /\
      ~ known_suite bad /\ m = "invalid cipher suite '" +:+ bad +:+ "' selected"
  | Panic => False
  end.
Proof.
  revert acc. induction names as [|n names IH]; intros acc; simpl.
  { split; [constructor|by rewrite app_nil_r]. }
  destruct (cipherSuites !! TrimSpace n) as [cs|] eqn:E.
  - specialize (IH (acc ++ cs)). assert (known_suite n) by (unfold known_suite; rewrite E; eauto).
    unfold suites_of at 1. rewrite E. simpl.
    destruct (select_suites names (acc ++ cs)) as [suites|m|]; [| |done].
    + destruct IH as [? ->]. split; [by constructor|]. by rewrite app_assoc.
    + destruct IH as (pre & bad & post & -> & ? & ? & ->).
      exists (n :: pre), bad, post. by repeat split; [constructor|..].
  - exists [], n, names. repeat split; [constructor|].
    unfold known_suite. rewrite E. by intros [? ?].
Qed.

(** Suites with an ephemeral key exchange and authenticated encryption. *)
Definition modern_suites : list Z := [
  TLS_ECDHE_ECDSA_WITH_AES_128_GCM_SHA256; TLS_ECDHE_RSA_WITH_AES_128_GCM_SHA256;
  TLS_ECDHE_ECDSA_WITH_AES_256_GCM_SHA384; TLS_ECDHE_RSA_WITH_AES_256_GCM_SHA384;
  TLS_ECDHE_ECDSA_WITH_CHACHA20_POLY1305; TLS_ECDHE_RSA_WITH_CHACHA20_POLY1305].

Lemma cipherSuites_cases name ciphers : cipherSuites !! name = Some ciphers ->
  name = "AES" \/ name = "CHACHA" \/ name = "CBC" \/ name = "RSA".
Proof.
  intros H. apply elem_of_list_to_map_2 in H.
  rewrite !elem_of_cons in H. destruct H as [[= -> _]|[[= -> _]|[[= -> _]|[[= -> _]|H]]]]; auto.
  by apply elem_of_nil in H.
Qed.

Lemma suites_of_weak name s : s ∈ suites_of name -> s ∉ modern_suites ->
  TrimSpace name = "CBC" \/ TrimSpace name = "RSA".
Proof.
  unfold suites_of. destruct (cipherSuites !! TrimSpace name) as [cs|] eqn:E;
    [|by intros ?%elem_of_nil].
  destruct (cipherSuites_cases _ _ E) as [Hn|[Hn|[Hn|Hn]]]; [| |auto|auto];
    rewrite Hn in E; vm_compute in E; injection E as <-; simpl; intros Hs Hm;
    exfalso; apply Hm; clear -Hs; unfold modern_suites; set_solver.
Qed.

Lemma elem_of_AddCert pool cert x :
  x ∈ AddCert pool cert -> x ∈ pool \/ x = cert.
Proof.
  unfold AddCert. case_any; [auto|]. rewrite elem_of_app, list_elem_of_singleton. auto.
Qed.

Lemma AddCert_keeps pool cert x : x ∈ pool -> x ∈ AddCert pool cert.
Proof. unfold AddCert. case_any; [done|]. rewrite elem_of_app. auto. Qed.

Lemma AddCert_has pool cert : exists x, x ∈ AddCert pool cert /\ Raw x = Raw cert.
Proof.
  unfold AddCert. case_any.
  - apply existsb_exists in Heqb as (x & Hx & Hr). exists x.
    split; [by apply list_elem_of_In|by apply String.eqb_eq].
  - exists cert. rewrite elem_of_app, list_elem_of_singleton. auto.
Qed.

Lemma AddCerts_sub certs : forall pool x, x ∈ foldl AddCert pool certs -> x ∈ pool \/ x ∈ certs.
Proof.
  induction certs as [|c certs IH]; intros pool x; simpl; [auto|].
  intros [Hx|Hx]%IH; [|rewrite elem_of_cons; auto].
  apply elem_of_AddCert in Hx as [?| ->]; rewrite elem_of_cons; auto.
Qed.

Lemma AddCerts_keeps certs : forall pool x, x ∈ pool -> x ∈ foldl AddCert pool certs.
Proof.
  induction certs as [|c certs IH]; intros pool x Hx; simpl; [done|].
  apply IH. by apply AddCert_keeps.
Qed.

Lemma AddCerts_has certs : forall pool c, c ∈ certs ->
  exists x, x ∈ foldl AddCert pool certs /\ Raw x = Raw c.
Proof.
  induction certs as [|d certs IH]; intros pool c; simpl; [by intros ?%elem_of_nil|].
  intros [->|Hc]%elem_of_cons; [|auto].
  destruct (AddCert_has pool d) as (x & Hx & ?). exists x. split; [|done].
  by apply AddCerts_keeps.
Qed.

Section Claims.
Context `{L : CertLibs} `{X : X509Libs}.

Lemma buildConfig_Ret fs suites path c : buildConfig fs suites path = Ret c ->
  exists ca cs, caBundle fs path = Ret ca /\ select_suites (Split suites ",") [] = Ret cs /\
  c = {| RootCAs := ca; ClientCAs := ca; PreferServerCipherSuites := true;
         ClientAuth := NoClientCert; MinVersion := VersionTLS10; CipherSuites := cs;
         CurvePreferences := [X25519; CurveP256; CurveP384; CurveP521]; ServerName := "";
         cfg_GetCertificate := None; cfg_GetClientCertificate := None;
         VerifyPeerCertificate := None |}.
Proof.
  unfold buildConfig. rewrite bind_Ret_inv. intros (ca & Hca & H).
  rewrite bind_Ret_inv in H. destruct H as (cs & Hcs & [= <-]). by exists ca, cs.
Qed.

(** ** Claims *)

(** [buildConfig] succeeds exactly when the CA bundle loads and every name
    of the comma separated list (spaces around it trimmed) is a known group of
    cipher suites. The suites are those of the groups in the order given, the
    same pool verifies servers and clients, and an error is the error of the
    bundle or names the first unknown group. *)
Theorem buildConfig_spec fs suites path :
  match buildConfig fs suites path with
  | Ret c => caBundle fs path = Ret (RootCAs c) /\ ClientCAs c = RootCAs c /\
      Forall known_suite (Split suites ",") /\
      CipherSuites c = concat (map suites_of (Split suites ","))
  | Err m => caBundle fs path = Err m \/
      exists pool pre bad post, caBundle fs path = Ret pool /\
        Split suites "," = pre ++ bad :: post /\ Forall known_suite pre /\ ~ known_suite bad /\
        m = "invalid cipher suite '" +:+ bad +:+ "' selected"
  | Panic => caBundle fs path = Panic
  end.
Proof.
  unfold buildConfig. destruct (caBundle fs path) as [pool|m|]; cbn [mbind outcome_bind]; [|auto|done].
  pose proof (select_suites_spec (Split suites ",") []) as H.
  destruct (select_suites _ _) as [cs|m|]; cbn [mbind outcome_bind]; [| |done].
  - destruct H as [Hk ->]. by repeat split.
  - right. destruct H as (pre & bad & post & ?). by exists pool, pre, bad, post.
Qed.

(** C34. A cipher suite without forward secrecy or without authenticated
    encryption is enabled only if the list names the group CBC or RSA; the
    default list enables exactly the six modern suites, AES before ChaCha20,
    ECDSA before RSA and AES-128 before AES-256. *)
Theorem weak_suites_are_opt_in fs suites path c :
  buildConfig fs suites path = Ret c ->
  (forall s, s ∈ CipherSuites c -> s ∉ modern_suites ->
     exists name, name ∈ Split suites "," /\ (TrimSpace name = "CBC" \/ TrimSpace name = "RSA")) /\
  (suites = "AES,CHACHA" -> CipherSuites c = modern_suites).
Proof.
  intros (ca & cs & _ & Hcs & ->)%buildConfig_Ret. simpl.
  pose proof (select_suites_spec (Split suites ",") []) as H. rewrite Hcs in H.
  destruct H as [_ ->]. split.
  - intros s Hs Hm. simpl in Hs. apply list_elem_of_In, in_concat in Hs as (l & Hl & Hs).
    apply in_map_iff in Hl as (name & <- & Hname). exists name.
    split; [by apply list_elem_of_In|].
    eapply suites_of_weak; [by apply list_elem_of_In|done].
  - intros ->. vm_compute. reflexivity.
Qed.

(** A configured CA bundle is the only source of trust: when a path is
    given, the pool is non-empty, holds certificates of that file only (the
    system's trust store is not consulted), and holds each of them (up to
    copies). *)
Theorem ca_bundle_is_the_trust_anchor fs path pool :
  path <> "" -> caBundle fs path = Ret pool ->
  exists content, fs !! path = Some content /\ pem_certificates content <> [] /\
  (forall x, x ∈ pool -> x ∈ pem_certificates content) /\
  (forall c, c ∈ pem_certificates content -> exists x, x ∈ pool /\ Raw x = Raw c).
Proof.
  intros Hp. unfold caBundle. destruct (String.eqb_spec path "") as [|_]; [done|].
  unfold ReadFile. destruct (fs !! path) as [content|]; cbn [mbind outcome_bind]; [|done].
  unfold AppendCertsFromPEM. destruct (pem_certificates content) as [|c0 certs] eqn:E; [done|].
  cbn [length Nat.eqb negb]. intros [= <-]. exists content. split; [done|]. rewrite E.
  split; [done|]. split; [|exact (AddCerts_has (c0 :: certs) [])].
  intros x Hx. destruct (AddCerts_sub (c0 :: certs) [] x Hx) as [Hx'|Hx']; [by apply elem_of_nil in Hx'|done].
Qed.

(** Every configuration the program builds accepts clients that offer
    nothing newer than TLS 1.0 and then speaks TLS 1.0 to them, and it refuses
    only what is older. *)
Theorem minimum_version_is_tls10 fs suites path c vers :
  buildConfig fs suites path = Ret c ->
  mutualVersion c VersionTLS10 = Some VersionTLS10 /\
  (mutualVersion c vers = None <-> vers < VersionTLS10) /\
  (forall v, mutualVersion c vers = Some v -> v <= vers /\ VersionTLS10 <= v <= VersionTLS12).
Proof.
  intros (ca & cs & _ & _ & ->)%buildConfig_Ret. unfold mutualVersion, VersionTLS10, VersionTLS12.
  simpl. split; [done|]. destruct (Z.ltb_spec vers 0x0301); (split; [done + (split; [done|lia])|]).
  - done.
  - intros v [= <-]. lia.
Qed.

(** [buildCertificate] takes the certificate from the PKCS#11 module if one
    is named, else from the keychain if an identity is named, else from the
    keystore if a path is given; what it returns is loaded. It returns nil
    without an error, and without touching anything, exactly when none of the
    three is given. *)
Theorem buildCertificate_source b f path pass (s : state) :
  match buildCertificate b f path pass s with
  | (Ret (Some c), s') => is_Some (current s') /\
      match c with
      | PKCS11 _ => hasPKCS11 f = true
      | Certstore _ => hasPKCS11 f = false /\ hasKeychainIdentity f = true
      | Keystore _ => hasPKCS11 f = false /\ hasKeychainIdentity f = false /\ path <> ""
      end
  | (Ret None, s') => s' = s /\ hasPKCS11 f = false /\ hasKeychainIdentity f = false /\ path = ""
  | _ => hasPKCS11 f = true \/ hasKeychainIdentity f = true \/ path <> ""
  end.
Proof.
  unfold buildCertificate. destruct (hasPKCS11 f); [|destruct (hasKeychainIdentity f)].
  - unfold buildCertificateFromPKCS11, CertificateFromPKCS11Module,
      enabled_CertificateFromPKCS11Module, mbind, SE_bind, lift.
    destruct (pkcs11Module f), (pkcs11TokenLabel f), (pkcs11PIN f); simpl; auto.
    destruct (cgo b); simpl; [|auto].
    match goal with |- context [pkcs11_Reload ?c s] =>
      destruct (pkcs11_Reload c s) as [[[]|e|] s'] eqn:E; simpl; auto;
      split; [by apply (reload_current c s s')|done] end.
  - unfold buildCertificateFromCertstore, CertificateFromKeychainIdentity,
      enabled_CertificateFromKeychainIdentity, mbind, SE_bind, lift.
    destruct (keychainIdentity f); simpl; [|auto]. destruct (certstore b); simpl; [|auto].
    match goal with |- context [certstore_Reload ?c s] =>
      destruct (certstore_Reload c s) as [[[]|e|] s'] eqn:E; simpl; auto;
      split; [by apply (reload_current c s s')|done] end.
  - destruct (String.eqb_spec path "") as [->|Hp]; simpl; [done|].
    unfold CertificateFromKeystore, mbind, SE_bind.
    match goal with |- context [keystore_Reload ?c s] =>
      destruct (keystore_Reload c s) as [[[]|e|] s'] eqn:E; simpl; auto;
      split; [by apply (reload_current c s s')|done] end.
Qed.
End Claims.

(** ** Witnesses *)

(** A trust store of one certificate; any chain verifies as it is presented if
    its last certificate is in the pool and its first names the host. *)
Definition toy_x509 : X509Libs := {|
  pem_certificates pem := if String.eqb pem "" then [] else [toy_certificate pem];
  SystemCertPool := Ret [toy_certificate "system"];
  x509_Verify pool _ name certs :=
    match certs, last certs with
    | leaf :: _, Some root =>
      if existsb (fun c => String.eqb (Raw c) (Raw root)) pool &&
         match name with Some n => String.eqb (CommonName (Subject leaf)) n | None => true end
      then Ret [certs] else Err "x509: certificate signed by unknown authority"
    | _, _ => Err "x509: no certificate"
    end
|}.

#[export] Instance toy_x509_ok : X509LibsOk toy_x509.
Proof.
  split. intros pool usage name certs. simpl. destruct certs as [|leaf rest]; [done|].
  destruct (last _); [|done]. destruct (_ && _); [|done]. by repeat constructor.
Qed.

Definition toy_files : gmap string string := {["ca.pem" := "root"]}.

Lemma weak_suites_are_opt_in_witness :
  exists c, buildConfig (X := toy_x509) toy_files "AES,CHACHA" "ca.pem" = Ret c /\
  CipherSuites c = modern_suites.
Proof.
  eexists. split; [vm_compute; reflexivity|].
  refine (proj2 (weak_suites_are_opt_in (X := toy_x509) toy_files "AES,CHACHA" "ca.pem" _ _) eq_refl).
  vm_compute. reflexivity.
Defined.

Lemma ca_bundle_is_the_trust_anchor_witness :
  exists x, x ∈ [toy_certificate "root"] /\ Raw x = "root".
Proof.
  destruct (ca_bundle_is_the_trust_anchor (X := toy_x509) toy_files "ca.pem"
    [toy_certificate "root"]) as (content & Hc & _ & _ & Hall);
    [done|vm_compute; reflexivity|].
  vm_compute in Hc. injection Hc as <-. apply (Hall (toy_certificate "root")). by left.
Defined.

Lemma minimum_version_is_tls10_witness :
  exists c, buildConfig (X := toy_x509) toy_files "AES" "" = Ret c /\
  mutualVersion c VersionTLS10 = Some VersionTLS10.
Proof.
  eexists. split; [vm_compute; reflexivity|].
  refine (proj1 (minimum_version_is_tls10 (X := toy_x509) toy_files "AES" "" _ 0 _)).
  vm_compute. reflexivity.
Defined.
