(* ===== verification/Dialer.v ===== *)
(** * Dialing with a timeout: [src/certloader/dialer.go]

    [dialWithDialer] runs three threads that meet at a channel of capacity two:
    the caller, the timer and the handshake. They are modelled as an
    interleaving; what the dialer and the handshake answer, and when, is part of
    the schedule. *)
From Stdlib Require Import ZArith.
From stdpp Require Import base list strings gmap.
From S2P Require Import Prelude GoStrings GoNet Certloader Flags TlsConfig.

(** ** The dialer object *)

(** [D] is the type of the underlying dialers ([net.Dialer], an HTTP tunnel). *)
Record mtlsDialer (D : Type) : Type := {
  d_cert : option certificate;
  d_config : Config;
  d_timeout : Z;
  d_dialer : D
}.
Arguments d_cert {D} _.
Arguments d_config {D} _.
Arguments d_timeout {D} _.
Arguments d_dialer {D} _.

(** The configuration is passed by pointer: the dialer and the caller see the
    callback that is filled in here. *)
Definition DialerWithCertificate {D} (cert : option certificate) (config : Config) (timeout : Z)
    (dialer : D) : mtlsDialer D :=
  let config' :=
    match cert, cfg_GetClientCertificate config with
    | Some c, None => set_GetClientCertificate (Some c) config
    | _, _ => config
    end in
  {| d_cert := cert; d_config := config'; d_timeout := timeout; d_dialer := dialer |}.

(** ** The threads of [dialWithDialer] *)

(** The errors: the dialer's, the timer's and the handshake's. *)
Inductive dial_error : Type :=
  | DialError (e : string)
  | timeoutError
  | HandshakeError (e : string).

Definition Error (e : dial_error) : string :=
  match e with
  | DialError e => e
  | timeoutError => "tls: DialWithDialer timed out"
  | HandshakeError e => e
  end.

(** [timeoutError.Timeout] and [timeoutError.Temporary]. *)
Definition timeoutError_Timeout : bool := true.
Definition timeoutError_Temporary : bool := true.

Inductive caller : Type :=
  | Dialing                            (* in [dialer.Dial] *)
  | Receiving                          (* at [err = <-errChannel] *)
  | Returned (r : option dial_error).  (* [None]: the connection and a nil error *)

Inductive handshake : Type := NotStarted | Handshaking | Finished (r : option dial_error).

Inductive raw_conn : Type := NoConn | Open | Closed.

Record dialing : Type := Build_dialing {
  pc : caller;
  timer : bool;                        (* still to fire *)
  hs : handshake;
  errChannel : list (option dial_error);
  raw : raw_conn
}.

Definition capacity : nat := 2.

(** The channel is made and the timer is armed before the dialer is called. *)
Definition dial_start : dialing := Build_dialing Dialing true NotStarted [] NoConn.

(** One step of one thread. *)
Inductive dial_choice : Type :=
  | DialReturns (r : option string)    (* an error, or [None] for a connection *)
  | TimerFires
  | HandshakeReturns (r : option string)
  | CallerReceives.

Definition dial_step (c : dial_choice) (s : dialing) : option dialing :=
  match c with
  | DialReturns r =>
    match pc s, r with
    | Dialing, Some e =>
      Some (Build_dialing (Returned (Some (DialError e))) (timer s) (hs s) (errChannel s) (raw s))
    | Dialing, None => Some (Build_dialing Receiving (timer s) Handshaking (errChannel s) Open)
    | _, _ => None
    end
  | TimerFires =>
    if timer s && (length (errChannel s) <? capacity)
    then Some (Build_dialing (pc s) false (hs s) (errChannel s ++ [Some timeoutError]) (raw s))
    else None
  | HandshakeReturns r =>
    match hs s with
    | Handshaking =>
      let r := HandshakeError <$> r in
      if length (errChannel s) <? capacity
      then Some (Build_dialing (pc s) (timer s) (Finished r) (errChannel s ++ [r]) (raw s))
      else None
    | _ => None
    end
  | CallerReceives =>
    match pc s, errChannel s with
    | Receiving, Some e :: rest =>
      Some (Build_dialing (Returned (Some e)) (timer s) (hs s) rest Closed)
    | Receiving, None :: rest =>
      Some (Build_dialing (Returned None) (timer s) (hs s) rest (raw s))
    | _, _ => None
    end
  end.

(** The result as [mtlsDialer.Dial] returns it: the [*tls.Conn] is converted to
    the interface [net.Conn], so that after an error the interface holds a nil
    pointer and is not nil itself. *)
Inductive net_Conn : Type := NilInterface | TlsPointer (valid : bool).

Definition Dial_result (r : option dial_error) : net_Conn * option dial_error :=
  match r with
  | None => (TlsPointer true, None)
  | Some e => (TlsPointer false, Some e)
  end.

(** ** Invariant *)

(** Messages still to come, and what is in the channel. *)
Definition pending (s : dialing) : nat :=
  (if timer s then 1 else 0) + match hs s with Finished _ => 0 | _ => 1 end.

Definition sent (s : dialing) (m : option dial_error) : Prop :=
  (m = Some timeoutError /\ timer s = false) \/ hs s = Finished m.

Record dial_inv (s : dialing) : Prop := {
  inv_room : length (errChannel s) + pending s <= capacity;
  inv_sent : Forall (sent s) (errChannel s);
  inv_caller :
    match pc s with
    | Dialing => hs s = NotStarted /\ raw s = NoConn
    | Receiving => hs s <> NotStarted /\ raw s = Open /\
        length (errChannel s) + pending s = capacity
    | Returned None => hs s = Finished None /\ raw s = Open
    | Returned (Some (DialError e)) => hs s = NotStarted /\ raw s = NoConn
    | Returned (Some e) => sent s (Some e) /\ raw s = Closed
    end;
  inv_dialing : pc s = Dialing -> length (errChannel s) + pending s = capacity;
  inv_hs : forall r, hs s = Finished r -> exists h, r = HandshakeError <$> h
}.

Lemma dial_inv_start : dial_inv dial_start.
Proof. by split; [vm_compute; lia|constructor| | |]. Qed.

(** What was sent stays sent. *)
Lemma sent_mono s s' m :
  (timer s = false -> timer s' = false) -> (forall r, hs s = Finished r -> hs s' = Finished r) ->
  sent s m -> sent s' m.
Proof. intros Ht Hh [[-> ?]|?]; [left|right]; auto. Qed.

Lemma dial_inv_dial r s s' : dial_inv s -> dial_step (DialReturns r) s = Some s' -> dial_inv s'.
Proof.
  intros [Hr Hs Hc Hd Hh]. unfold pending in *. simpl.
  destruct (pc s) eqn:E; [|done|done]. destruct Hc as [Eh Er]. rewrite Eh in *.
  destruct r as [e|]; intros [= <-]; split; unfold pending; simpl; rewrite ?Eh; auto; try done;
    (eapply Forall_impl; [exact Hs|]; intros m; apply sent_mono; simpl; [done|by rewrite Eh]).
Qed.

Lemma dial_inv_timer s s' : dial_inv s -> dial_step TimerFires s = Some s' -> dial_inv s'.
Proof.
  intros [Hr Hs Hc Hd Hh]. simpl. destruct (timer s) eqn:E; [|done]. simpl.
  case_any; [|done]. intros [= <-].
  assert (Hmono : forall m, sent s m ->
    sent (Build_dialing (pc s) false (hs s) (errChannel s ++ [Some timeoutError]) (raw s)) m)
    by (intros m; apply sent_mono; simpl; auto).
  unfold pending in *. rewrite E in *.
  split; unfold pending; simpl; rewrite ?length_app; simpl; [lia| | | |done].
  - apply Forall_app. split; [by eapply Forall_impl|]. constructor; [by left|constructor].
  - destruct (pc s) as [| |[[]|]]; naive_solver lia.
  - intros Hp. specialize (Hd Hp). lia.
Qed.

Lemma dial_inv_handshake r s s' :
  dial_inv s -> dial_step (HandshakeReturns r) s = Some s' -> dial_inv s'.
Proof.
  intros [Hr Hs Hc Hd Hh]. simpl. destruct (hs s) eqn:E; [done| |done].
  case_any; [|done]. intros [= <-]. set (m := HandshakeError <$> r).
  assert (Hmono : forall m', sent s m' ->
    sent (Build_dialing (pc s) (timer s) (Finished m) (errChannel s ++ [m]) (raw s)) m')
    by (intros m'; apply sent_mono; simpl; [auto|by rewrite E]).
  unfold pending in *. rewrite E in *.
  split; unfold pending; simpl; rewrite ?length_app; simpl; [lia| | | |].
  - apply Forall_app. split; [by eapply Forall_impl|]. constructor; [by right|constructor].
  - destruct (pc s) as [| |[[]|]]; naive_solver lia.
  - intros Hp. specialize (Hd Hp). lia.
  - intros r' [= <-]. by exists r.
Qed.

Lemma dial_inv_receive s s' : dial_inv s -> dial_step CallerReceives s = Some s' -> dial_inv s'.
Proof.
  intros [Hr Hs Hc Hd Hh]. simpl. destruct (pc s) eqn:E; [done| |done].
  destruct Hc as (H1 & H2 & H3). destruct (errChannel s) as [|m rest] eqn:Ec; [done|].
  apply Forall_cons in Hs as [Hm Hs]. simpl in *.
  assert (Hmono : forall p c x m', sent s m' -> sent (Build_dialing p (timer s) (hs s) c x) m')
    by (intros p c x m'; apply sent_mono; auto).
  destruct m as [e|]; intros [= <-]; split; unfold pending in *; simpl; try done; try lia;
    try (eapply Forall_impl; [exact Hs|]; intros m'; apply Hmono).
  - destruct e; [|split; [by apply Hmono|done]..]. exfalso.
    destruct Hm as [[[=] _]|Hf]. by destruct (Hh _ Hf) as [[h|] [=]].
  - destruct Hm as [[[=] _]|Hf]. done.
Qed.

Lemma dial_inv_steps s : steps dial_step dial_start s -> dial_inv s.
Proof.
  apply steps_invariant; [|exact dial_inv_start].
  intros [r| |r|] s1 s2; eauto using dial_inv_dial, dial_inv_timer, dial_inv_handshake,
    dial_inv_receive.
Qed.

(** ** Termination *)

Definition dial_measure (s : dialing) : nat :=
  pending s + match pc s with Dialing => 2 | Receiving => 1 | Returned _ => 0 end.

Lemma dial_step_measure c s s' : dial_step c s = Some s' ->
  (pc s = Dialing -> hs s = NotStarted) -> dial_measure s' < dial_measure s.
Proof.
  unfold dial_measure, pending. intros H Hn. destruct c as [r| |r|]; simpl in H.
  - destruct (pc s), r; try done; injection H as <-; simpl; rewrite Hn by done;
      destruct (timer s); lia.
  - destruct (timer s); [|done]. simpl in H. destruct (_ <? _); [|done]. injection H as <-. simpl.
    destruct (hs s), (pc s); lia.
  - destruct (hs s); try done. destruct (_ <? _); [|done]. injection H as <-. simpl.
    destruct (timer s), (pc s); lia.
  - destruct (pc s), (errChannel s) as [|[e|] rest]; try done; injection H as <-; simpl;
      destruct (timer s), (hs s); lia.
Qed.

(** ** Claims *)

(** C24. What [dialWithDialer] returns, in every interleaving of the caller, the
    timer and the handshake. A nil error means that the handshake finished
    without an error and the connection is open. After an error no connection
    is left open: either the dialer returned that error and there never was
    one, or it was closed and the error is the timer's (which has fired) or the
    one the handshake returned. *)
Theorem dial_result_sound (s : dialing) (r : option dial_error) :
  steps dial_step dial_start s -> pc s = Returned r ->
  match r with
  | None => hs s = Finished None /\ raw s = Open
  | Some (DialError e) => raw s = NoConn
  | Some timeoutError => timer s = false /\ raw s = Closed
  | Some (HandshakeError e) => hs s = Finished (Some (HandshakeError e)) /\ raw s = Closed
  end.
Proof.
  intros Hs Hp. destruct (dial_inv_steps s Hs) as [_ _ Hc _ Hh]. rewrite Hp in Hc.
  destruct r as [[e| |e]|]; [by destruct Hc| | |done];
    destruct Hc as [[[[=] ?]|Hf] ?]; try done. by destruct (Hh _ Hf) as [[h|] [=]].
Qed.

(** C25. [dialWithDialer] neither hangs nor leaks a thread. In every reachable
    state the timer can send as soon as it fires and the handshake as soon as
    it returns (the channel has room for both, even when nobody receives any
    more); once the dialer has answered the caller can return within two more
    steps although the handshake never answers; and every schedule has at most
    four steps. *)
Theorem dial_never_blocks (cs : list dial_choice) (s : dialing) :
  run dial_step cs dial_start = Some s ->
  length cs <= 4 /\
  (timer s = true -> is_Some (dial_step TimerFires s)) /\
  (hs s = Handshaking -> forall r, is_Some (dial_step (HandshakeReturns r) s)) /\
  (pc s = Receiving -> exists waiting s' r, run dial_step waiting s = Some s' /\
     pc s' = Returned r /\ (waiting = [CallerReceives] \/ waiting = [TimerFires; CallerReceives])).
Proof.
  intros Hr. assert (Hs : dial_inv s) by (apply dial_inv_steps, run_steps; eauto).
  destruct Hs as [Hroom _ Hc _ _]. unfold pending, capacity in *. split; [|split; [|split]].
  - assert (Hm : forall cs s s', dial_inv s -> run dial_step cs s = Some s' ->
      length cs + dial_measure s' <= dial_measure s).
    { clear. induction cs as [|c cs IH]; simpl; intros s s' Hi Hr; [injection Hr as ->; lia|].
      destruct (dial_step c s) as [s1|] eqn:E; [|done].
      assert (dial_inv s1) as Hi1.
      { destruct c; eauto using dial_inv_dial, dial_inv_timer, dial_inv_handshake,
          dial_inv_receive. }
      apply IH in Hr; [|done]. apply dial_step_measure in E; [lia|].
      intros Hp. destruct Hi as [_ _ Hc _ _]. rewrite Hp in Hc. by destruct Hc. }
    specialize (Hm _ _ _ dial_inv_start Hr). unfold dial_measure, pending in Hm. simpl in Hm. lia.
  - intros Ht. simpl. rewrite Ht in *. simpl in *.
    destruct (Nat.ltb_spec (length (errChannel s)) capacity); [done|]. unfold capacity in *. lia.
  - intros Hh r. simpl. rewrite Hh in *.
    destruct (Nat.ltb_spec (length (errChannel s)) capacity); [done|]. unfold capacity in *. lia.
  - intros Hp. rewrite Hp in Hc. destruct Hc as (Hh & Hraw & Hlen).
    destruct (errChannel s) as [|m rest] eqn:Ec.
    + assert (timer s = true) as Ht by (destruct (timer s), (hs s); simpl in Hlen; lia || done).
      exists [TimerFires; CallerReceives]. eexists _, _. simpl. rewrite Ht, Ec. simpl.
      rewrite Hp. simpl. split; [reflexivity|]. split; [reflexivity|by right].
    + exists [CallerReceives]. simpl. rewrite Hp, Ec.
      destruct m; eexists _, _; (split; [reflexivity|split; [reflexivity|by left]]).
Qed.

Lemma first_message_kept c s s' m :
  (pc s = Receiving /\ exists l, errChannel s = m :: l) \/ pc s = Returned m ->
  dial_step c s = Some s' ->
  (pc s' = Receiving /\ exists l, errChannel s' = m :: l) \/ pc s' = Returned m.
Proof.
  intros H Hstep. destruct c as [r| |r|]; simpl in Hstep.
  - destruct H as [[H _]|H]; rewrite H in Hstep; by destruct r.
  - destruct (timer s && _); [|done]. injection Hstep as <-. simpl.
    destruct H as [[? [l ->]]|?]; [left|by right]. split; [done|]. simpl. eauto.
  - destruct (hs s); try done. case_any; [|done]. injection Hstep as <-. simpl.
    destruct H as [[? [l ->]]|?]; [left|by right]. split; [done|]. simpl. eauto.
  - destruct H as [[Hp [l Hl]]|Hp]; rewrite Hp in Hstep; [|done]. rewrite Hl in Hstep.
    destruct m as [e|]; injection Hstep as <-; by right.
Qed.

(** The first message decides. Once the dialer has answered, whatever was
    sent first is what the caller returns: if the timer fired before the
    handshake finished (even while the dialer was still busy), the result is
    the timeout error although the handshake succeeds afterwards. *)
Theorem first_message_decides (s s' : dialing) (m r : option dial_error)
    (l : list (option dial_error)) :
  pc s = Receiving -> errChannel s = m :: l ->
  steps dial_step s s' -> pc s' = Returned r -> r = m.
Proof.
  intros Hp Hl Hs Hr.
  assert ((pc s' = Receiving /\ exists l, errChannel s' = m :: l) \/ pc s' = Returned m) as H.
  { apply (steps_invariant dial_step (fun s => (pc s = Receiving /\ exists l, errChannel s = m :: l)
      \/ pc s = Returned m) s s'); [|left; eauto|done].
    intros c s1 s2 H1 H2. by eapply first_message_kept. }
  destruct H as [[H _]|H]; congruence.
Qed.

(** ** Witnesses *)

(** The timer fires while the dialer is busy; the handshake then succeeds. *)
Definition late_timeout : list dial_choice :=
  [TimerFires; DialReturns None; HandshakeReturns None; CallerReceives].

Lemma dial_result_sound_witness :
  exists s, run dial_step late_timeout dial_start = Some s /\
  pc s = Returned (Some timeoutError) /\ timer s = false /\ raw s = Closed.
Proof.
  eexists. split; [reflexivity|]. split; [reflexivity|].
  apply (dial_result_sound _ (Some timeoutError)); [|reflexivity].
  apply run_steps. exists late_timeout. reflexivity.
Defined.

Lemma dial_never_blocks_witness :
  exists s, run dial_step [DialReturns None] dial_start = Some s /\
  is_Some (dial_step TimerFires s) /\ pc s = Receiving.
Proof.
  eexists. split; [reflexivity|]. split; [|reflexivity].
  refine (proj1 (proj2 (dial_never_blocks [DialReturns None] _ _)) _); reflexivity.
Defined.

Lemma first_message_decides_witness :
  exists s s' r, run dial_step [TimerFires; DialReturns None] dial_start = Some s /\
  run dial_step [HandshakeReturns None; CallerReceives] s = Some s' /\
  pc s' = Returned r /\ r = Some timeoutError.
Proof.
  destruct (run dial_step [TimerFires; DialReturns None] dial_start) as [s|] eqn:E; [|done].
  destruct (run dial_step [HandshakeReturns None; CallerReceives] s) as [s'|] eqn:E'.
  - exists s, s', (Some timeoutError). split; [done|]. split; [done|].
    injection E as <-. injection E' as <-. split; [done|].
    refine (first_message_decides
      (Build_dialing Receiving false Handshaking [Some timeoutError] Open)
      (Build_dialing (Returned (Some timeoutError)) false (Finished None) [None] Closed)
      (Some timeoutError) (Some timeoutError) [] eq_refl eq_refl _ eq_refl).
    apply run_steps. exists [HandshakeReturns None; CallerReceives]. reflexivity.
  - injection E as <-. discriminate E'.
Defined.
