(* ===== verification/Fuse.v ===== *)
(** * Forwarding: [fuse] and [copyData] of [src/proxy/proxy.go]

    Two connections and the two threads that copy between them. A thread reads
    into its buffer, writes the buffer, and after the end of its source or an
    error closes its source and its destination as their dynamic types ask. The
    peers, the two threads and the failures of the network interleave freely.
    A thread that has nothing to read, or whose destination does not take what it
    writes, is blocked: it then goes on only if the network fails ([prompt] tells
    these steps apart). [io.CopyBuffer] lets a TCP destination read from its source itself, with a
    smaller buffer of its own or none: what happens to the two streams is then
    also among the steps below. *)
From Stdlib Require Import ZArith.
From stdpp Require Import base list strings.
From S2P Require Import Prelude.

(** ** Connections *)

(** The dynamic types [copyData] distinguishes. *)
Inductive kind : Type := TCPConn | UnixConn | TLSConn | OtherConn.

#[export] Instance kind_eq_dec : EqDecision kind.
Proof. solve_decision. Defined.

(** [arrived]: all bytes the peer has sent so far; [taken]: how many of them
    were read here; [peer_done]: the peer has ended its stream; [outbox]: all
    bytes written here. *)
Record conn : Type := Conn {
  c_kind : kind;
  arrived : list Z;
  taken : nat;
  peer_done : bool;
  outbox : list Z;
  rd_open : bool;
  wr_open : bool;
  fd_open : bool;
  linger0 : bool
}.

Definition new_conn (k : kind) (written : list Z) : conn :=
  Conn k [] 0 false written true true true false.

Definition CloseRead (c : conn) : conn :=
  Conn (c_kind c) (arrived c) (taken c) (peer_done c) (outbox c) false (wr_open c) (fd_open c)
    (linger0 c).
Definition CloseWrite (c : conn) : conn :=
  Conn (c_kind c) (arrived c) (taken c) (peer_done c) (outbox c) (rd_open c) false (fd_open c)
    (linger0 c).
Definition Close (c : conn) : conn :=
  Conn (c_kind c) (arrived c) (taken c) (peer_done c) (outbox c) false false false (linger0 c).
Definition SetLinger0 (c : conn) : conn :=
  Conn (c_kind c) (arrived c) (taken c) (peer_done c) (outbox c) (rd_open c) (wr_open c)
    (fd_open c) true.
Definition take_bytes (n : nat) (c : conn) : conn :=
  Conn (c_kind c) (arrived c) (taken c + n) (peer_done c) (outbox c) (rd_open c) (wr_open c)
    (fd_open c) (linger0 c).
Definition put_bytes (b : list Z) (c : conn) : conn :=
  Conn (c_kind c) (arrived c) (taken c) (peer_done c) (outbox c ++ b) (rd_open c) (wr_open c)
    (fd_open c) (linger0 c).
Definition peer_sends (b : list Z) (c : conn) : conn :=
  Conn (c_kind c) (arrived c ++ b) (taken c) (peer_done c) (outbox c) (rd_open c) (wr_open c)
    (fd_open c) (linger0 c).
Definition peer_ends (c : conn) : conn :=
  Conn (c_kind c) (arrived c) (taken c) true (outbox c) (rd_open c) (wr_open c) (fd_open c)
    (linger0 c).

Definition unread (c : conn) : list Z := drop (taken c) (arrived c).

(** The first switch of [copyData]: what is done to the source. *)
Definition close_src (c : conn) : conn :=
  match c_kind c with
  | TCPConn => CloseRead (SetLinger0 c)
  | UnixConn => CloseRead c
  | _ => Close c
  end.

(** The second switch: what is done to the destination. *)
Definition close_dst (c : conn) : conn :=
  match c_kind c with
  | TCPConn => CloseWrite (SetLinger0 c)
  | TLSConn => CloseWrite c
  | UnixConn => CloseWrite c
  | OtherConn => Close c
  end.

(** ** One copying thread *)

(** The size of a buffer of [bufferPool]. *)
Definition bufferSize : nat := Z.to_nat (Z.shiftl 1 16).

(** [err] is whether [io.CopyBuffer] returned an error. *)
Inductive copier : Type :=
  | Reading
  | Writing (buf : list Z)
  | ClosingSrc (err : bool)
  | ClosingDst (err : bool)
  | CopierDone (err : bool).

(** The steps: a read of at least one and at most a buffer of bytes, the end of
    the source, a failing read; a write of the whole buffer or one that fails
    after [k] bytes; the two switches. A read or a write may fail at any time (the
    peer resets the connection); a read that finds nothing blocks until then. *)
Inductive copy_choice : Type :=
  | ReadSome (n : nat)
  | ReadEOF
  | ReadFails
  | WriteAll
  | WriteFails (k : nat)
  | ClosesSrc
  | ClosesDst.

Definition copy_step (c : copy_choice) (t : copier) (src dst : conn) :
    option (copier * conn * conn) :=
  match t, c with
  | Reading, ReadSome n =>
    if rd_open src && (1 <=? n) && (n <=? bufferSize) && (n <=? length (unread src))
    then Some (Writing (take n (unread src)), take_bytes n src, dst) else None
  | Reading, ReadEOF =>
    if rd_open src && peer_done src && (length (unread src) =? 0)
    then Some (ClosingSrc false, src, dst) else None
  | Reading, ReadFails => Some (ClosingSrc true, src, dst)
  | Writing buf, WriteAll =>
    if wr_open dst then Some (Reading, src, put_bytes buf dst) else None
  | Writing buf, WriteFails k =>
    if (k =? 0) || (wr_open dst && (k <=? length buf))
    then Some (ClosingSrc true, src, put_bytes (take k buf) dst) else None
  | ClosingSrc err, ClosesSrc => Some (ClosingDst err, close_src src, dst)
  | ClosingDst err, ClosesDst => Some (CopierDone err, src, close_dst dst)
  | _, _ => None
  end.

(** ** The pipe *)

(** [up] is [copyData(backend, client)], [down] is [copyData(client, backend)]. *)
Record pipe : Type := Pipe {
  client : conn;
  backend : conn;
  up : copier;
  down : copier
}.

(** [fuse] starts both threads. *)
Definition fuse (client backend : conn) : pipe := Pipe client backend Reading Reading.

Inductive pipe_choice : Type :=
  | Up (c : copy_choice)
  | Down (c : copy_choice)
  | ClientSends (b : list Z)
  | ClientEnds
  | BackendSends (b : list Z)
  | BackendEnds.

Definition pipe_step (c : pipe_choice) (p : pipe) : option pipe :=
  match c with
  | Up c =>
    r ← copy_step c (up p) (client p) (backend p);
    Some (Pipe r.1.2 r.2 r.1.1 (down p))
  | Down c =>
    r ← copy_step c (down p) (backend p) (client p);
    Some (Pipe r.2 r.1.2 (up p) r.1.1)
  | ClientSends b =>
    if peer_done (client p) then None
    else Some (Pipe (peer_sends b (client p)) (backend p) (up p) (down p))
  | ClientEnds => Some (Pipe (peer_ends (client p)) (backend p) (up p) (down p))
  | BackendSends b =>
    if peer_done (backend p) then None
    else Some (Pipe (client p) (peer_sends b (backend p)) (up p) (down p))
  | BackendEnds => Some (Pipe (client p) (peer_ends (backend p)) (up p) (down p))
  end.

(** [wg.Wait] returns: both threads have run their deferred [wg.Done]. *)
Definition fuse_returns (p : pipe) : bool :=
  match up p, down p with CopierDone _, CopierDone _ => true | _, _ => false end.

(** ** What a thread guarantees *)

(** The thread's part of the stream: [h] was in the destination's outbox before
    the thread started. *)
Definition stream_inv (h : list Z) (t : copier) (src dst : conn) : Prop :=
  taken src <= length (arrived src) /\
  match t with
  | Reading => outbox dst = h ++ take (taken src) (arrived src)
  | Writing buf => outbox dst ++ buf = h ++ take (taken src) (arrived src)
  | ClosingSrc false | ClosingDst false | CopierDone false =>
      outbox dst = h ++ arrived src /\ peer_done src = true
  | _ => outbox dst `prefix_of` h ++ arrived src
  end.

Lemma take_unread n src :
  take (taken src) (arrived src) ++ take n (unread src) = take (taken src + n) (arrived src).
Proof. unfold unread. apply take_take_drop. Qed.

Lemma unread_nil src : taken src <= length (arrived src) -> length (unread src) = 0 ->
  take (taken src) (arrived src) = arrived src.
Proof. unfold unread. rewrite length_drop. intros. apply take_ge. lia. Qed.

Lemma take_prefix_app (h l : list Z) n : h ++ take n l `prefix_of` h ++ l.
Proof. apply prefix_app. by exists (drop n l); rewrite take_drop. Qed.

(** A thread keeps its own stream. *)
Lemma copy_step_stream h c t src dst t' src' dst' :
  copy_step c t src dst = Some (t', src', dst') ->
  stream_inv h t src dst -> stream_inv h t' src' dst'.
Proof.
  intros Hs [Hle Hi]. unfold copy_step in Hs.
  destruct t as [|buf|err|err|err], c; try done.
  - case_any; [|done]. injection Hs as <- <- <-. bool_prop.
    apply Nat.leb_le in H0. unfold unread in H0. rewrite length_drop in H0. split; simpl; [lia|].
    rewrite Hi, <- app_assoc. f_equal. apply take_unread.
  - case_any; [|done]. injection Hs as <- <- <-. bool_prop. apply Nat.eqb_eq in H0.
    split; [done|]. split; [|done]. rewrite Hi. f_equal. by apply unread_nil.
  - injection Hs as <- <- <-. split; [done|]. rewrite Hi. apply take_prefix_app.
  - case_any; [|done]. injection Hs as <- <- <-. split; [done|]. simpl. by rewrite Hi.
  - case_any; [|done]. injection Hs as <- <- <-. split; [done|]. simpl.
    transitivity (outbox dst ++ buf); [|rewrite Hi; apply take_prefix_app].
    apply prefix_app. by exists (drop k buf); rewrite take_drop.
  - injection Hs as <- <- <-. unfold close_src. split; [by destruct (c_kind src)|].
    by destruct err, (c_kind src).
  - injection Hs as <- <- <-. unfold close_dst. split; [done|].
    by destruct err, (c_kind dst).
Qed.

(** What else may happen to the two ends of a thread: the reverse thread writes
    to the source and reads from the destination, the peers send and end. *)
Lemma stream_inv_frame h t src dst src' dst' b :
  stream_inv h t src dst -> outbox dst' = outbox dst -> taken src' = taken src ->
  arrived src' = arrived src ++ b -> (peer_done src = true -> b = [] /\ peer_done src' = true) ->
  stream_inv h t src' dst'.
Proof.
  intros [Hle Hi] Ho Ht Ha Hp. unfold stream_inv. rewrite Ht, Ha, Ho, length_app.
  split; [lia|].
  assert (Htk : take (taken src) (arrived src ++ b) = take (taken src) (arrived src)).
  { rewrite take_app. replace (taken src - length (arrived src)) with 0 by lia.
    by rewrite app_nil_r. }
  assert (Hpre : outbox dst `prefix_of` h ++ arrived src ->
                 outbox dst `prefix_of` h ++ arrived src ++ b).
  { intros H. etransitivity; [exact H|]. rewrite app_assoc. by eexists. }
  destruct t as [|buf|[]|[]|[]]; rewrite ?Htk; auto;
    destruct Hi as [Hi Hd]; destruct (Hp Hd) as [-> ?]; by rewrite app_nil_r.
Qed.

(** The effect of a step on the two connections, as the reverse thread sees it. *)
Lemma copy_step_frame c t src dst t' src' dst' :
  copy_step c t src dst = Some (t', src', dst') ->
  outbox src' = outbox src /\ peer_done src' = peer_done src /\ arrived src' = arrived src /\
  taken dst' = taken dst /\ peer_done dst' = peer_done dst /\ arrived dst' = arrived dst /\
  c_kind src' = c_kind src /\ c_kind dst' = c_kind dst.
Proof.
  intros Hs. unfold copy_step in Hs.
  destruct t, c; try done; repeat (case_any; try done); injection Hs as <- <- <-; simpl;
    unfold close_src, close_dst; try done; by case_any.
Qed.

(** ** Invariants of the pipe *)

(** Both streams; [h] was written to the backend before (the proxy header). *)
Definition streams_inv (h : list Z) (p : pipe) : Prop :=
  stream_inv h (up p) (client p) (backend p) /\ stream_inv [] (down p) (backend p) (client p).

Lemma streams_inv_step h c p p' :
  streams_inv h p -> pipe_step c p = Some p' -> streams_inv h p'.
Proof.
  intros [Hu Hd] Hs. destruct c as [c|c|b| |b| ]; simpl in Hs.
  - destruct (copy_step c _ _ _) as [[[t src] dst]|] eqn:E; [|done]. injection Hs as <-.
    split; [by eapply copy_step_stream|]. apply copy_step_frame in E.
    destruct E as (? & ? & ? & ? & ? & ? & _). simpl.
    eapply (stream_inv_frame _ _ _ _ _ _ []); [done..|by rewrite app_nil_r|]. intuition congruence.
  - destruct (copy_step c _ _ _) as [[[t src] dst]|] eqn:E; [|done]. injection Hs as <-.
    split; [|by eapply copy_step_stream]. apply copy_step_frame in E.
    destruct E as (? & ? & ? & ? & ? & ? & _). simpl.
    eapply (stream_inv_frame _ _ _ _ _ _ []); [done..|by rewrite app_nil_r|]. intuition congruence.
  - destruct (peer_done (client p)) eqn:E; [done|]. injection Hs as <-. split.
    + apply (stream_inv_frame _ _ _ _ _ _ b Hu); simpl; try done. by rewrite E.
    + apply (stream_inv_frame _ _ _ _ _ _ [] Hd); simpl; auto. by rewrite app_nil_r.
  - injection Hs as <-. split; [apply (stream_inv_frame _ _ _ _ _ _ [] Hu)
      |apply (stream_inv_frame _ _ _ _ _ _ [] Hd)]; simpl; rewrite ?app_nil_r; auto.
  - destruct (peer_done (backend p)) eqn:E; [done|]. injection Hs as <-. split.
    + apply (stream_inv_frame _ _ _ _ _ _ [] Hu); simpl; auto. by rewrite app_nil_r.
    + apply (stream_inv_frame _ _ _ _ _ _ b Hd); simpl; try done. by rewrite E.
  - injection Hs as <-. split; [apply (stream_inv_frame _ _ _ _ _ _ [] Hu)
      |apply (stream_inv_frame _ _ _ _ _ _ [] Hd)]; simpl; rewrite ?app_nil_r; auto.
Qed.

(** Which of its two closing switches a thread has passed. *)
Definition past_src (t : copier) : bool :=
  match t with ClosingDst _ | CopierDone _ => true | _ => false end.
Definition past_dst (t : copier) : bool :=
  match t with CopierDone _ => true | _ => false end.

(** The kinds [copyData] closes altogether when they are the source, and when
    they are the destination. *)
Definition src_closes (k : kind) : bool :=
  match k with TLSConn | OtherConn => true | _ => false end.
Definition dst_closes (k : kind) : bool :=
  match k with OtherConn => true | _ => false end.

(** What is open of a connection is determined by the progress of the thread it
    is the source of ([ts]) and of the thread it is the destination of ([td]). *)
Definition flags_inv (c : conn) (ts td : copier) : Prop :=
  rd_open c = negb (past_src ts || (dst_closes (c_kind c) && past_dst td)) /\
  wr_open c = negb (past_dst td || (src_closes (c_kind c) && past_src ts)) /\
  fd_open c = negb ((src_closes (c_kind c) && past_src ts) || (dst_closes (c_kind c) && past_dst td)).

Definition open_inv (p : pipe) : Prop :=
  flags_inv (client p) (up p) (down p) /\ flags_inv (backend p) (down p) (up p).

Lemma copy_step_flags c t src dst t' src' dst' r :
  copy_step c t src dst = Some (t', src', dst') ->
  flags_inv src t r -> flags_inv dst r t -> flags_inv src' t' r /\ flags_inv dst' r t'.
Proof.
  intros Hs Hsrc Hdst. unfold copy_step in Hs.
  destruct t, c; try done; try (case_any; [|done]); injection Hs as <- <- <-; try done.
  - unfold flags_inv, close_src in *. destruct Hsrc as (H1 & H2 & H3).
    split; [|done]. destruct (c_kind src) eqn:Ek; simpl in *; rewrite ?Ek, ?H1, ?H2, ?H3; simpl;
      by destruct r.
  - unfold flags_inv, close_dst in *. destruct Hdst as (H1 & H2 & H3).
    split; [done|]. destruct (c_kind dst) eqn:Ek; simpl in *; rewrite ?Ek, ?H1, ?H2, ?H3; simpl;
      by destruct r.
Qed.

Lemma open_inv_step c p p' : open_inv p -> pipe_step c p = Some p' -> open_inv p'.
Proof.
  intros [Hc Hb] Hs. destruct c as [c|c|b| |b| ]; simpl in Hs;
    try (case_any; [done|]); try (injection Hs as <-; by split).
  - destruct (copy_step c _ _ _) as [[[t src] dst]|] eqn:E; [|done]. injection Hs as <-.
    by destruct (copy_step_flags _ _ _ _ _ _ _ (down p) E Hc Hb).
  - destruct (copy_step c _ _ _) as [[[t src] dst]|] eqn:E; [|done]. injection Hs as <-.
    by destruct (copy_step_flags _ _ _ _ _ _ _ (up p) E Hb Hc).
Qed.

(** Kinds never change. *)
Lemma kinds_step c p p' : pipe_step c p = Some p' ->
  c_kind (client p') = c_kind (client p) /\ c_kind (backend p') = c_kind (backend p).
Proof.
  intros Hs. destruct c as [c|c|b| |b| ]; simpl in Hs;
    try (case_any; [done|]); try (injection Hs as <-; by split).
  - destruct (copy_step c _ _ _) as [[[t src] dst]|] eqn:E; [|done]. injection Hs as <-.
    apply copy_step_frame in E. by destruct E as (_ & _ & _ & _ & _ & _ & ? & ?).
  - destruct (copy_step c _ _ _) as [[[t src] dst]|] eqn:E; [|done]. injection Hs as <-.
    apply copy_step_frame in E. by destruct E as (_ & _ & _ & _ & _ & _ & ? & ?).
Qed.

(** A pipe between two fresh connections. *)
Definition fuse_start (kc kb : kind) (h : list Z) : pipe := fuse (new_conn kc []) (new_conn kb h).

Lemma fuse_start_inv kc kb h : streams_inv h (fuse_start kc kb h) /\ open_inv (fuse_start kc kb h).
Proof.
  split; [|by destruct kc, kb]. split; (split; [simpl; lia|]); simpl; [by rewrite app_nil_r|done].
Qed.

Lemma pipe_invs kc kb h p : steps pipe_step (fuse_start kc kb h) p ->
  streams_inv h p /\ open_inv p /\ c_kind (client p) = kc /\ c_kind (backend p) = kb.
Proof.
  apply (steps_invariant pipe_step (fun p => streams_inv h p /\ open_inv p /\
    c_kind (client p) = kc /\ c_kind (backend p) = kb)).
  - intros c p1 p2 (H1 & H2 & <- & <-) Hs. destruct (kinds_step _ _ _ Hs) as [-> ->].
    by repeat split; eauto using streams_inv_step, open_inv_step;
      (eapply streams_inv_step || eapply open_inv_step).
  - by destruct (fuse_start_inv kc kb h).
Qed.

Lemma stream_prefix h t src dst : stream_inv h t src dst -> outbox dst `prefix_of` h ++ arrived src.
Proof.
  intros [_ Hi]. destruct t as [|buf|[]|[]|[]]; try done; try (by destruct Hi as [-> _]).
  - rewrite Hi. apply take_prefix_app.
  - etransitivity; [|apply (take_prefix_app h (arrived src) (taken src))].
    rewrite <- Hi. by exists buf.
Qed.

(** *** Termination *)

Definition copier_measure (t : copier) (src : conn) : nat :=
  match t with
  | Reading => 2 * length (unread src) + 3
  | Writing _ => 2 * length (unread src) + 4
  | ClosingSrc _ => 2
  | ClosingDst _ => 1
  | CopierDone _ => 0
  end.

Definition pipe_measure (p : pipe) : nat :=
  copier_measure (up p) (client p) + copier_measure (down p) (backend p).

Lemma copy_step_measure c t src dst t' src' dst' :
  copy_step c t src dst = Some (t', src', dst') ->
  copier_measure t' src' < copier_measure t src /\ (forall t, copier_measure t dst' = copier_measure t dst).
Proof.
  intros Hs. unfold copy_step in Hs.
  destruct t, c; try done; try (destruct (_ && _) eqn:E; [|done]);
    try (destruct (wr_open dst) eqn:Ew; [|done]); try (destruct (_ || _) eqn:E; [|done]);
    injection Hs as <- <- <-; (split; [simpl; try lia|]);
    try (intros []; done); try (intros []; simpl; unfold close_dst; by destruct (c_kind dst)).
  bool_prop. apply Nat.leb_le in H0, H1, H2. unfold unread in *. simpl.
  rewrite !length_drop in *. lia.
Qed.

(** A step of the threads, not of the peers. *)
Definition of_threads (c : pipe_choice) : bool :=
  match c with Up _ | Down _ => true | _ => false end.

Lemma pipe_step_measure c p p' : of_threads c = true -> pipe_step c p = Some p' ->
  pipe_measure p' < pipe_measure p.
Proof.
  intros Ht Hs. unfold pipe_measure. destruct c as [c|c|b| |b| ]; try done; simpl in Hs.
  - destruct (copy_step c _ _ _) as [[[t src] dst]|] eqn:E; [|done]. injection Hs as <-. simpl.
    apply copy_step_measure in E as [? Hd]. rewrite Hd. lia.
  - destruct (copy_step c _ _ _) as [[[t src] dst]|] eqn:E; [|done]. injection Hs as <-. simpl.
    apply copy_step_measure in E as [? Hd]. rewrite Hd. lia.
Qed.

(** The steps a thread takes without a failure of the network: there is something to
    read or the stream has ended, the destination takes what is written, a
    connection that this process has shut refuses to be read or written; and the
    two switches. *)
Definition prompt (c : copy_choice) (src dst : conn) : bool :=
  match c with
  | ReadSome _ | ReadEOF | WriteAll | ClosesSrc | ClosesDst => true
  | ReadFails => negb (rd_open src)
  | WriteFails k => (k =? 0) && negb (wr_open dst)
  end.

Definition prompt_step (c : pipe_choice) (p : pipe) : option pipe :=
  if match c with
     | Up d => prompt d (client p) (backend p)
     | Down d => prompt d (backend p) (client p)
     | _ => false
     end
  then pipe_step c p else None.

(** A thread that is done and has shut its destination, or is blocked: its source is
    open, and its peer has not ended the stream and has nothing more to say. *)
Definition settled (t : copier) (src dst : conn) : Prop :=
  (exists err, t = CopierDone err /\ wr_open dst = false) \/
  (t = Reading /\ rd_open src = true /\ unread src = [] /\ peer_done src = false).

Lemma copier_settles t src dst r : flags_inv dst r t ->
  (forall c, prompt c src dst = true -> copy_step c t src dst = None) -> settled t src dst.
Proof.
  intros (_ & Hw & _) Hn. destruct t as [|buf|err|err|err].
  - right. split; [done|]. destruct (rd_open src) eqn:Er;
      [|specialize (Hn ReadFails); simpl in Hn; rewrite Er in Hn; by specialize (Hn eq_refl)].
    split; [done|]. destruct (unread src) as [|x l] eqn:E.
    + split; [done|]. specialize (Hn ReadEOF eq_refl). simpl in Hn. rewrite Er, E in Hn. by destruct (peer_done src).
    + specialize (Hn (ReadSome 1) eq_refl). simpl in Hn. by rewrite Er, E in Hn.
  - destruct (wr_open dst) eqn:Ew.
    + specialize (Hn WriteAll eq_refl). simpl in Hn. by rewrite Ew in Hn.
    + specialize (Hn (WriteFails 0)). simpl in Hn. rewrite Ew in Hn. by specialize (Hn eq_refl).
  - by specialize (Hn ClosesSrc eq_refl).
  - by specialize (Hn ClosesDst eq_refl).
  - left. exists err. split; [done|]. by rewrite Hw.
Qed.

Lemma pipe_settles p : open_inv p -> (forall c, prompt_step c p = None) ->
  settled (up p) (client p) (backend p) /\ settled (down p) (backend p) (client p).
Proof.
  intros [Hc Hb] Hn. unfold prompt_step in Hn. split; (eapply copier_settles; [done|]); intros c Hp.
  - specialize (Hn (Up c)). cbn -[prompt pipe_step] in Hn. rewrite Hp in Hn. simpl in Hn. by destruct (copy_step _ _ _ _).
  - specialize (Hn (Down c)). cbn -[prompt pipe_step] in Hn. rewrite Hp in Hn. simpl in Hn. by destruct (copy_step _ _ _ _).
Qed.

Lemma prompt_step_Some c p p' : prompt_step c p = Some p' -> pipe_step c p = Some p' /\
  arrived (client p') = arrived (client p) /\ peer_done (client p') = peer_done (client p) /\
  arrived (backend p') = arrived (backend p) /\ peer_done (backend p') = peer_done (backend p).
Proof.
  unfold prompt_step. intros Hs. case_match; [|done]. split; [done|]. destruct c; try done; simpl in Hs;
    (destruct (copy_step _ _ _ _) as [[[t src] dst]|] eqn:E; [|done]); injection Hs as <-; simpl;
    apply copy_step_frame in E; by destruct E as (_ & ? & ? & _ & ? & ? & _).
Qed.

(** A copy that has returned an error. *)
Definition failed (t : copier) : bool :=
  match t with ClosingSrc true | ClosingDst true | CopierDone true => true | _ => false end.

Lemma copy_step_prompt c t src dst t' src' dst' :
  prompt c src dst = true -> (t = Reading -> rd_open src = true) ->
  (forall buf, t = Writing buf -> wr_open dst = true) -> failed t = false ->
  copy_step c t src dst = Some (t', src', dst') -> failed t' = false.
Proof.
  intros Hp Hr Hw Hf Hs. unfold copy_step in Hs.
  destruct t, c; try done; repeat (case_match; try done); simplify_eq/=; try done.
  - by rewrite Hr in Hp.
  - rewrite (Hw _ eq_refl), andb_false_r in Hp. done.
Qed.

(** With connections that can be half-closed no thread fails of its own accord. *)
Lemma prompt_step_clean c p p' : open_inv p ->
  src_closes (c_kind (client p)) = false -> src_closes (c_kind (backend p)) = false ->
  failed (up p) = false -> failed (down p) = false -> prompt_step c p = Some p' ->
  failed (up p') = false /\ failed (down p') = false.
Proof.
  intros [(A1 & A2 & _) (B1 & B2 & _)] Hk Hk' Hu Hd Hs.
  assert (dst_closes (c_kind (client p)) = false) as Hdc by (by destruct (c_kind (client p))).
  assert (dst_closes (c_kind (backend p)) = false) as Hdb by (by destruct (c_kind (backend p))).
  rewrite Hdc in A1. rewrite Hdb in B1. rewrite Hk in A2. rewrite Hk' in B2. unfold prompt_step in Hs.
  destruct c; try done; case_match; try done; simpl in Hs;
    (destruct (copy_step _ _ _ _) as [[[t src] dst]|] eqn:E; [|done]); injection Hs as <-; simpl.
  - split; [|done]. eapply copy_step_prompt; [exact H|..|exact Hu|exact E];
      [intros Et; by rewrite A1, Et|intros buf Et; by rewrite B2, Et].
  - split; [done|]. eapply copy_step_prompt; [exact H|..|exact Hd|exact E];
      [intros Et; by rewrite B1, Et|intros buf Et; by rewrite A2, Et].
Qed.

Lemma copy_ReadSome n src dst :
  rd_open src = true -> 1 <= n -> n <= bufferSize -> n <= length (unread src) ->
  copy_step (ReadSome n) Reading src dst = Some (Writing (take n (unread src)), take_bytes n src, dst).
Proof.
  intros H1 H2%Nat.leb_le H3%Nat.leb_le H4%Nat.leb_le. unfold copy_step. by rewrite H1, H2, H3, H4.
Qed.

(** A connection that is not writable receives nothing more. *)
Lemma copy_step_dst_shut c t src dst t' src' dst' :
  copy_step c t src dst = Some (t', src', dst') -> wr_open dst = false ->
  outbox dst' = outbox dst /\ wr_open dst' = false.
Proof.
  intros Hs Hw. unfold copy_step in Hs. rewrite Hw in Hs.
  destruct t, c; try done; try (destruct (_ && _); [|done]); simpl in *;
    try (injection Hs as <- <- <-; done).
  - destruct k; simpl in Hs; [|done]. injection Hs as <- <- <-. simpl. by rewrite app_nil_r.
  - injection Hs as <- <- <-. unfold close_dst. by destruct (c_kind dst).
Qed.

Lemma client_shut_step c p p' o : pipe_step c p = Some p' ->
  wr_open (client p) = false /\ outbox (client p) = o ->
  wr_open (client p') = false /\ outbox (client p') = o.
Proof.
  intros Hs [Hw <-]. destruct c as [c|c|b| |b| ]; simpl in Hs;
    try (case_any; [done|]); try (injection Hs as <-; done).
  - destruct (copy_step c _ _ _) as [[[t src] dst]|] eqn:E; [|done]. injection Hs as <-. simpl.
    pose proof (copy_step_frame _ _ _ _ _ _ _ E) as (-> & _). split; [|done].
    unfold copy_step in E. destruct (up p), c; try done; try (destruct (_ && _); [|done]);
      try (destruct (_ || _); [|done]); try (destruct (wr_open (backend p)); [|done]);
      injection E as <- <- <-; try done.
    unfold close_src. by destruct (c_kind (client p)).
  - destruct (copy_step c _ _ _) as [[[t src] dst]|] eqn:E; [|done]. injection Hs as <-. simpl.
    by destruct (copy_step_dst_shut _ _ _ _ _ _ _ E Hw).
Qed.

(** *** What a step does to a connection *)

(** What is written is appended, and nothing more once writing is shut. *)
Definition grows (c c' : conn) : Prop := exists w,
  outbox c' = outbox c ++ w /\ (wr_open c = false -> w = [] /\ wr_open c' = false).

#[export] Instance grows_preorder : PreOrder grows.
Proof.
  split.
  - intros c. exists []. by rewrite app_nil_r.
  - intros c1 c2 c3 (w & E & H) (w' & E' & H'). exists (w ++ w'). rewrite E', E, app_assoc.
    split; [done|]. intros Hw. destruct (H Hw) as [-> Hw2]. by destruct (H' Hw2) as [-> ?].
Qed.

(** What the peer of a connection does in a step: the bytes it sends, and whether
    it ends its stream. *)
Definition client_input (c : pipe_choice) : list Z * bool :=
  match c with ClientSends b => (b, false) | ClientEnds => ([], true) | _ => ([], false) end.
Definition backend_input (c : pipe_choice) : list Z * bool :=
  match c with BackendSends b => (b, false) | BackendEnds => ([], true) | _ => ([], false) end.

Definition receives (i : list Z * bool) (c c' : conn) : Prop :=
  arrived c' = arrived c ++ i.1 /\ peer_done c' = peer_done c || i.2.

Lemma receives_refl c : receives ([], false) c c.
Proof. split; [by rewrite app_nil_r|by rewrite orb_false_r]. Qed.

Lemma copy_step_grows c t src dst t' src' dst' :
  copy_step c t src dst = Some (t', src', dst') -> grows src src' /\ grows dst dst'.
Proof.
  intros Hs. pose proof (copy_step_frame _ _ _ _ _ _ _ Hs) as (Eo & _).
  split.
  - exists []. rewrite app_nil_r. split; [done|]. intros Hw. split; [done|].
    unfold copy_step in Hs. destruct t, c; try done; repeat (case_any; try done);
      injection Hs as <- <- <-; try done. unfold close_src. by destruct (c_kind src).
  - destruct (wr_open dst) eqn:Hw.
    + assert (Hx : exists w, outbox dst' = outbox dst ++ w).
      { unfold copy_step in Hs. destruct t, c; try done; repeat (case_any; try done); injection Hs as <- <- <-;
          simpl; unfold close_dst; try (by eexists); exists []; rewrite app_nil_r; try done.
        by destruct (c_kind dst). }
      destruct Hx as [w Hx]. exists w. split; [done|]. by rewrite Hw.
    + destruct (copy_step_dst_shut _ _ _ _ _ _ _ Hs Hw) as [Eo' Hw'].
      exists []. by rewrite app_nil_r.
Qed.

Lemma pipe_step_conns c p p' : pipe_step c p = Some p' ->
  grows (client p) (client p') /\ grows (backend p) (backend p') /\
  receives (client_input c) (client p) (client p') /\
  receives (backend_input c) (backend p) (backend p').
Proof.
  assert (Hg : forall c c', outbox c' = outbox c -> wr_open c' = wr_open c -> grows c c').
  { intros c1 c2 E1 E2. exists []. rewrite E1, E2, app_nil_r. done. }
  intros Hs. destruct c as [c|c|b| |b| ]; simpl in Hs.
  - destruct (copy_step c _ _ _) as [[[t src] dst]|] eqn:E; [|done]. injection Hs as <-. simpl.
    destruct (copy_step_grows _ _ _ _ _ _ _ E) as [H1 H2].
    apply copy_step_frame in E as (_ & P1 & A1 & _ & P2 & A2 & _). repeat (split; [done|]).
    unfold receives. simpl. by rewrite P1, A1, P2, A2, !app_nil_r, !orb_false_r.
  - destruct (copy_step c _ _ _) as [[[t src] dst]|] eqn:E; [|done]. injection Hs as <-. simpl.
    destruct (copy_step_grows _ _ _ _ _ _ _ E) as [H1 H2].
    apply copy_step_frame in E as (_ & P1 & A1 & _ & P2 & A2 & _). repeat (split; [done|]).
    unfold receives. simpl. by rewrite P1, A1, P2, A2, !app_nil_r, !orb_false_r.
  - destruct (peer_done (client p)) eqn:E; [done|]. injection Hs as <-. simpl.
    split; [by apply Hg|split; [by apply Hg|]]. split; [by split; simpl; rewrite ?E|apply receives_refl].
  - injection Hs as <-. simpl. split; [by apply Hg|split; [by apply Hg|]].
    split; [by split; simpl; rewrite ?app_nil_r, ?orb_true_r|apply receives_refl].
  - destruct (peer_done (backend p)) eqn:E; [done|]. injection Hs as <-. simpl.
    split; [by apply Hg|split; [by apply Hg|]]. split; [apply receives_refl|by split; simpl; rewrite ?E].
  - injection Hs as <-. simpl. split; [by apply Hg|split; [by apply Hg|]].
    split; [apply receives_refl|by split; simpl; rewrite ?app_nil_r, ?orb_true_r].
Qed.

(** ** Claims *)

(** C10. The proxy forwards faithfully, in every interleaving and with failures
    anywhere: what has been written to the backend is at any time the proxy
    header (if any) followed by the client's bytes, cut off somewhere (nothing
    is lost in the middle, duplicated, reordered or taken from another
    stream), and likewise towards the client; and a direction whose copy ended
    without an error has delivered all the bytes the peer sent. *)
Theorem pipe_forwards_faithfully (kc kb : kind) (header : list Z) (cs : list pipe_choice)
    (p : pipe) :
  run pipe_step cs (fuse_start kc kb header) = Some p ->
  outbox (backend p) `prefix_of` header ++ arrived (client p) /\
  outbox (client p) `prefix_of` arrived (backend p) /\
  (up p = CopierDone false -> outbox (backend p) = header ++ arrived (client p)) /\
  (down p = CopierDone false -> outbox (client p) = arrived (backend p)).
Proof.
  intros Hr. destruct (pipe_invs kc kb header p) as ([Hu Hd] & _); [by apply run_steps; eauto|].
  split; [by eapply stream_prefix|]. split; [by apply stream_prefix in Hd|].
  destruct Hu as [_ Hu], Hd as [_ Hd].
  split; intros E; rewrite E in *; [by destruct Hu|by destruct Hd].
Qed.

(** C26. Half-closing. While one direction is copying, the other cannot take
    its ends away, except in two cases: its source is readable unless it is of
    an unknown type and the other direction has ended, and its destination is
    writable unless it is a TLS (or unknown) connection from which the other
    direction has finished reading. When [fuse] returns, both connections are
    shut in both directions, and the descriptor of a TCP or UNIX connection is
    still open. *)
Theorem pipe_half_close (kc kb : kind) (header : list Z) (cs : list pipe_choice) (p : pipe) :
  run pipe_step cs (fuse_start kc kb header) = Some p ->
  (past_src (up p) = false -> rd_open (client p) = false -> kc = OtherConn /\ past_dst (down p) = true) /\
  (past_dst (up p) = false -> wr_open (backend p) = false ->
     src_closes kb = true /\ past_src (down p) = true) /\
  (past_src (down p) = false -> rd_open (backend p) = false -> kb = OtherConn /\ past_dst (up p) = true) /\
  (past_dst (down p) = false -> wr_open (client p) = false ->
     src_closes kc = true /\ past_src (up p) = true) /\
  (fuse_returns p = true ->
     rd_open (client p) = false /\ wr_open (client p) = false /\ fd_open (client p) = negb (src_closes kc) /\
     rd_open (backend p) = false /\ wr_open (backend p) = false /\ fd_open (backend p) = negb (src_closes kb)).
Proof.
  intros Hr. destruct (pipe_invs kc kb header p) as (_ & [(A1 & A2 & A3) (B1 & B2 & B3)] & Hc & Hb);
    [by apply run_steps; eauto|].
  rewrite Hc in *. rewrite Hb in *. rewrite A1, A2, A3, B1, B2, B3. unfold fuse_returns.
  repeat split; intros; destruct (up p), (down p), kc, kb; simpl in *; done || discriminate.
Qed.

(** C27. Forwarding terminates. Once the peers are quiet, every schedule of the two
    threads, failures included, is finite: at most two steps per byte still unread
    and eight more. When the threads can go no further without a failure of the
    network, each of them is done and has shut its destination for writing, or is
    blocked on an open peer that has said all it had to say and not ended its
    stream; so if both peers have ended theirs, [fuse] returns. If moreover both
    connections can be half-closed (TCP or UNIX) and no copy had failed, then
    everything has been delivered in both directions. *)
Theorem pipe_terminates (kc kb : kind) (header : list Z) (cs ds : list pipe_choice) (p p' : pipe) :
  run pipe_step cs (fuse_start kc kb header) = Some p ->
  (forall ds q, run pipe_step ds p = Some q -> forallb of_threads ds = true ->
     length ds <= 2 * (length (unread (client p)) + length (unread (backend p))) + 8) /\
  (run prompt_step ds p = Some p' -> (forall c, prompt_step c p' = None) ->
     settled (up p') (client p') (backend p') /\ settled (down p') (backend p') (client p') /\
     (peer_done (client p) = true -> peer_done (backend p) = true ->
      fuse_returns p' = true /\
      (src_closes kc = false -> src_closes kb = false ->
       failed (up p) = false -> failed (down p) = false ->
       outbox (backend p') = header ++ arrived (client p) /\
       outbox (client p') = arrived (backend p)))).
Proof.
  intros Hr. assert (Hst : steps pipe_step (fuse_start kc kb header) p) by (apply run_steps; eauto). split.
  - intros es q Hd Ht.
    assert (Hm : length es + pipe_measure q <= pipe_measure p).
    { clear -Hd Ht. revert p Hd. induction es as [|d es IH]; simpl in *; intros p Hd.
      { injection Hd as ->. lia. }
      bool_prop. destruct (pipe_step d p) as [p1|] eqn:E; [|done]. apply IH in Hd; [|done].
      apply pipe_step_measure in E; [lia|done]. }
    enough (pipe_measure p <= 2 * (length (unread (client p)) + length (unread (backend p))) + 8) by lia.
    unfold pipe_measure, copier_measure. destruct (up p), (down p); lia.
  - intros Hd Hn. set (I q := steps pipe_step (fuse_start kc kb header) q /\
      arrived (client q) = arrived (client p) /\ peer_done (client q) = peer_done (client p) /\
      arrived (backend q) = arrived (backend p) /\ peer_done (backend q) = peer_done (backend p) /\
      (src_closes kc = false -> src_closes kb = false -> failed (up p) = false -> failed (down p) = false ->
       failed (up q) = false /\ failed (down q) = false)).
    assert (I p') as (Hst' & A1 & P1 & A2 & P2 & Hclean).
    { apply (run_invariant prompt_step (fun _ => True) I ds) with (s := p);
        [|by apply Forall_true|by repeat split|done].
      intros c q q' _ (Hq & H1 & H2 & H3 & H4 & H5) Hs.
      destruct (pipe_invs kc kb header q Hq) as (_ & Ho & Hkc & Hkb).
      destruct (prompt_step_Some _ _ _ Hs) as (Hs' & E1 & E2 & E3 & E4).
      split; [by eapply steps_r|]. rewrite E1, E2, E3, E4. do 4 (split; [done|]).
      intros K1 K2 F1 F2. destruct (H5 K1 K2 F1 F2). eapply prompt_step_clean; [exact Ho|..|exact Hs];
        rewrite ?Hkc, ?Hkb; done. }
    destruct (pipe_invs kc kb header p' Hst') as ([[_ Hu] [_ Hv]] & Ho & _).
    destruct (pipe_settles p' Ho Hn) as [S1 S2]. split; [done|]. split; [done|]. intros D1 D2.
    assert (exists e e', up p' = CopierDone e /\ down p' = CopierDone e') as (e & e' & Eu & Ed).
    { destruct S1 as [[e [E _]]|(_ & _ & _ & E)]; [|congruence].
      destruct S2 as [[e' [E' _]]|(_ & _ & _ & E')]; [|congruence]. by exists e, e'. }
    unfold fuse_returns. rewrite Eu, Ed in *. split; [done|]. intros K1 K2 F1 F2.
    destruct (Hclean K1 K2 F1 F2) as [G1 G2]. destruct e, e'; try done. simpl in Hu, Hv.
    rewrite <- A1, <- A2. by destruct Hu, Hv.
Qed.

(** A client that ends its request on a TLS connection and waits for the
    answer may never get it: after the end of the client's stream the whole
    connection is closed, so there is a schedule without any network failure in
    which the request is forwarded in full, and from there on, whatever the
    backend answers and however the threads are scheduled, not a byte reaches
    the client. *)
Theorem tls_half_close_loses_answer (kb : kind) (request : list Z) :
  request <> [] -> length request <= bufferSize ->
  exists cs p, run pipe_step cs (fuse_start TLSConn kb []) = Some p /\
  outbox (backend p) = request /\ up p = CopierDone false /\ peer_done (backend p) = false /\
  (forall c, c ∈ cs -> c <> Up ReadFails /\ forall k, c <> Up (WriteFails k)) /\
  forall ds p', run pipe_step ds p = Some p' -> outbox (client p') = [].
Proof.
  intros Hne Hlen.
  set (cs := [ClientSends request; ClientEnds; Up (ReadSome (length request)); Up WriteAll;
              Up ReadEOF; Up ClosesSrc; Up ClosesDst]).
  set (c := Conn TLSConn request (length request) true [] false false false false).
  set (b := close_dst (Conn kb [] 0 false request true true true false)).
  exists cs, (Pipe c b (CopierDone false) Reading).
  assert (Hrun : run pipe_step cs (fuse_start TLSConn kb [])
                 = Some (Pipe c b (CopierDone false) Reading)).
  { unfold cs. cbn -[copy_step].
    rewrite copy_ReadSome; [|done|by destruct request; [|simpl; lia]|done|done].
    cbn -[copy_step]. unfold unread. simpl. rewrite ?drop_0, take_ge by lia. unfold unread. simpl.
    by rewrite drop_all. }
  split; [done|]. split; [unfold b, close_dst; simpl; by destruct kb|]. split; [done|].
  split; [unfold b, close_dst; simpl; by destruct kb|]. split.
  - intros x Hx. unfold cs in Hx. rewrite !elem_of_cons in Hx.
    destruct Hx as [->|[->|[->|[->|[->|[->|[->|Hx]]]]]]]; try done. by apply elem_of_nil in Hx.
  - intros ds p' Hd.
    apply (steps_invariant pipe_step (fun p => wr_open (client p) = false /\ outbox (client p) = [])
      (Pipe c b (CopierDone false) Reading) p'); [|done|by apply run_steps; eauto].
    intros x p1 p2 H1 H2. by eapply client_shut_step.
Qed.

(** ** Witnesses *)

(** A request and an answer over TCP connections, with a proxy header. *)
Definition exchange : list pipe_choice :=
  [ClientSends [1; 2; 3]%Z; Up (ReadSome 2); BackendSends [9]%Z; Down (ReadSome 1); Up WriteAll;
   ClientEnds; Down WriteAll; Up (ReadSome 1); Up WriteAll; Up ReadEOF; Up ClosesSrc; Up ClosesDst].

Definition exchanged : pipe := Pipe
  (Conn TCPConn [1; 2; 3]%Z 3 true [9]%Z false true true true)
  (Conn TCPConn [9]%Z 1 false [7; 1; 2; 3]%Z true false true true)
  (CopierDone false) Reading.

Lemma pipe_forwards_faithfully_witness :
  run pipe_step exchange (fuse_start TCPConn TCPConn [7]%Z) = Some exchanged /\
  outbox (backend exchanged) = [7]%Z ++ arrived (client exchanged).
Proof.
  assert (H : run pipe_step exchange (fuse_start TCPConn TCPConn [7]%Z) = Some exchanged)
    by (vm_compute; reflexivity).
  split; [exact H|].
  exact (proj1 (proj2 (proj2 (pipe_forwards_faithfully TCPConn TCPConn [7]%Z exchange exchanged H)))
    eq_refl).
Defined.

Lemma pipe_half_close_witness :
  wr_open (client exchanged) = true /\
  run pipe_step exchange (fuse_start TLSConn UnixConn []) <> None.
Proof.
  split; [|vm_compute; discriminate].
  destruct (wr_open (client exchanged)) eqn:E; [reflexivity|].
  destruct (pipe_half_close TCPConn TCPConn [7]%Z exchange exchanged) as (_ & _ & _ & H & _);
    [vm_compute; reflexivity|].
  destruct (H eq_refl E) as [[=] _].
Defined.

(** Both peers have ended their streams, and the threads go on to the end. *)
Definition ended : pipe :=
  default exchanged (run pipe_step [ClientSends [1; 2; 3]%Z; ClientEnds; BackendSends [9]%Z; BackendEnds]
    (fuse_start TCPConn TCPConn [7]%Z)).

Definition to_the_end : list pipe_choice :=
  [Up (ReadSome 3); Up WriteAll; Up ReadEOF; Up ClosesSrc; Up ClosesDst;
   Down (ReadSome 1); Down WriteAll; Down ReadEOF; Down ClosesSrc; Down ClosesDst].

Lemma pipe_terminates_witness :
  exists p', run prompt_step to_the_end ended = Some p' /\ fuse_returns p' = true /\
  outbox (backend p') = [7; 1; 2; 3]%Z /\ outbox (client p') = [9]%Z.
Proof.
  eexists. split; [vm_compute; reflexivity|].
  destruct (pipe_terminates TCPConn TCPConn [7]%Z
    [ClientSends [1; 2; 3]%Z; ClientEnds; BackendSends [9]%Z; BackendEnds] to_the_end ended
    (default ended (run prompt_step to_the_end ended))) as [_ H]; [vm_compute; reflexivity|].
  destruct H as (_ & _ & H); [vm_compute; reflexivity|intros [[]|[]| | | | ]; unfold prompt_step; repeat case_match; reflexivity|].
  destruct (H eq_refl eq_refl) as [H1 H2]. split; [exact H1|]. by apply H2.
Defined.

Lemma tls_half_close_loses_answer_witness :
  exists cs p, run pipe_step cs (fuse_start TLSConn TCPConn []) = Some p /\
  outbox (backend p) = [1; 2]%Z.
Proof.
  destruct (tls_half_close_loses_answer TCPConn [1; 2]%Z) as (cs & p & H1 & H2 & _);
    [discriminate|apply Nat.leb_le; vm_compute; reflexivity|].
  exists cs, p. split; [exact H1|exact H2].
Defined.
