(* ===== verification/Buffers.v ===== *)
(** * The pool of buffers: [bufferPool] of [src/proxy/proxy.go]

    Every copying thread of the proxy takes a buffer from one [sync.Pool], reads
    into it and writes from it, and puts it back when it ends. The model keeps the
    memory of the buffers explicit, so that two threads that held the same buffer
    would see each other's bytes; the theorem is that they never do: the pool
    implements private buffers, which is what the threads of [Fuse] have. *)
From Stdlib Require Import ZArith.
From stdpp Require Import base list.
From S2P Require Import Prelude.

Section Buffers.
(** The length of the slices [New] makes. *)
Context (size : nat).

(** A copying thread: before [Get]; with a buffer, the first [n] bytes of which
    are those of the last [Read] and not yet written; after [Put]. *)
Inductive user : Type :=
  | Waiting
  | Using (b : nat) (n : nat)
  | Gone.

(** Buffers are addresses into the memory. *)
Record pool : Type := Pool {
  free : list nat;
  memory : list (list Z);
  users : list user
}.

Definition pool_New : list Z := repeat 0%Z size.

Inductive buffer_choice : Type :=
  | GetsPooled (i j : nat)
  | GetsNew (i : nat)
  | ReadsInto (i : nat) (data : list Z)
  | WritesFrom (i : nat)
  | Puts (i : nat)
  | Collected (j : nat).

(** One step of a thread, or of the garbage collector, which may empty the pool:
    the state and what is written to the destination. [Get] returns a pooled
    buffer or a new one; [Read] overwrites the beginning of the buffer. *)
Definition pool_step (c : buffer_choice) (p : pool) : option (pool * list Z) :=
  match c with
  | GetsPooled i j =>
    match users p !! i, free p !! j with
    | Some Waiting, Some b =>
      Some (Pool (delete j (free p)) (memory p) (<[i := Using b 0]> (users p)), [])
    | _, _ => None
    end
  | GetsNew i =>
    match users p !! i with
    | Some Waiting =>
      Some (Pool (free p) (memory p ++ [pool_New])
              (<[i := Using (length (memory p)) 0]> (users p)), [])
    | _ => None
    end
  | ReadsInto i data =>
    match users p !! i with
    | Some (Using b _) =>
      if length data <=? size
      then Some (Pool (free p) (alter (fun old => data ++ drop (length data) old) b (memory p))
                   (<[i := Using b (length data)]> (users p)), [])
      else None
    | _ => None
    end
  | WritesFrom i =>
    match users p !! i with
    | Some (Using b n) =>
      content ← memory p !! b;
      Some (Pool (free p) (memory p) (<[i := Using b 0]> (users p)), take n content)
    | _ => None
    end
  | Puts i =>
    match users p !! i with
    | Some (Using b _) => Some (Pool (b :: free p) (memory p) (<[i := Gone]> (users p)), [])
    | _ => None
    end
  | Collected j =>
    match free p !! j with
    | Some _ => Some (Pool (delete j (free p)) (memory p) (users p), [])
    | None => None
    end
  end.

Definition pool_start (threads : nat) : pool := Pool [] [] (repeat Waiting threads).

(** ** The specification: private buffers *)

(** A thread that has a buffer has the bytes it has read and not yet written. *)
Inductive owner : Type :=
  | Before
  | Owns (pending : list Z)
  | After.

Definition private_step (c : buffer_choice) (os : list owner) : option (list owner * list Z) :=
  match c with
  | GetsPooled i _ | GetsNew i =>
    match os !! i with Some Before => Some (<[i := Owns []]> os, []) | _ => None end
  | ReadsInto i data =>
    match os !! i with Some (Owns _) => Some (<[i := Owns data]> os, []) | _ => None end
  | WritesFrom i =>
    match os !! i with Some (Owns d) => Some (<[i := Owns []]> os, d) | _ => None end
  | Puts i => match os !! i with Some (Owns _) => Some (<[i := After]> os, []) | _ => None end
  | Collected _ => Some (os, [])
  end.

(** The outputs of a schedule, with the thread's choice that made each. *)
Fixpoint outputs {S} (step : buffer_choice -> S -> option (S * list Z)) (cs : list buffer_choice)
    (s : S) : option (S * list (list Z)) :=
  match cs with
  | [] => Some (s, [])
  | c :: rest =>
    r ← step c s;
    q ← outputs step rest r.1;
    Some (q.1, r.2 :: q.2)
  end.

(** ** Refinement *)

Definition held (us : list user) : list nat :=
  omap (fun u => match u with Using b _ => Some b | _ => None end) us.

(** No buffer is held twice or held and free, and all have their length. *)
Record pool_inv (p : pool) : Prop := {
  inv_nodup : NoDup (free p ++ held (users p));
  inv_range : Forall (fun b => b < length (memory p)) (free p ++ held (users p));
  inv_size : Forall (fun c => length c = size) (memory p);
  inv_valid : Forall (fun u => match u with Using _ n => n <= size | _ => True end) (users p)
}.

Definition owner_of (mem : list (list Z)) (u : user) : owner :=
  match u with
  | Waiting => Before
  | Using b n => Owns (take n (default [] (mem !! b)))
  | Gone => After
  end.

Definition owners (p : pool) : list owner := owner_of (memory p) <$> users p.

Definition buffer_of (u : user) : list nat := match u with Using b _ => [b] | _ => [] end.

Lemma held_insert us i u : us !! i = Some u ->
  exists rest, held us ≡ₚ buffer_of u ++ rest /\
  forall u', held (<[i := u']> us) ≡ₚ buffer_of u' ++ rest.
Proof.
  revert i. induction us as [|x us IH]; intros [|i] Hi; simplify_eq/=.
  - exists (held us). split; [by destruct u|]. intros u'. by destruct u'.
  - destruct (IH i Hi) as (rest & E & H). exists (buffer_of x ++ rest).
    assert (Hx : forall l l' k : list nat, l ≡ₚ k ++ rest -> l' ≡ₚ buffer_of x ++ l ->
      l' ≡ₚ k ++ buffer_of x ++ rest).
    { intros l l' k -> ->. apply Permutation_app_swap_app. }
    split; [eapply Hx; [exact E|]; by destruct x|]. intros u'. eapply Hx; [apply H|]. by destruct x.
Qed.

Lemma owners_insert mem (us : list user) (i : nat) u : owner_of mem <$> <[i := u]> us
  = <[i := owner_of mem u]> (owner_of mem <$> us).
Proof. apply list_fmap_insert. Qed.

(** The memory may change where nobody holds a buffer. *)
Lemma owners_memory mem mem' (us : list user) :
  (forall b, b ∈ held us -> mem' !! b = mem !! b) ->
  owner_of mem' <$> us = owner_of mem <$> us.
Proof.
  intros H. apply list_fmap_ext. intros i u Hi. destruct u as [|b n|]; simpl; try done.
  rewrite H; [done|]. apply list_elem_of_omap. exists (Using b n). split; [|done].
  by eapply list_elem_of_lookup_2.
Qed.

(** Every address is used once and is an address. *)
Definition addresses (n : nat) (l : list nat) : Prop := NoDup l /\ Forall (fun b => b < n) l.

#[local] Instance addresses_proper n : Proper ((≡ₚ) ==> iff) (addresses n).
Proof. intros l k H. unfold addresses. by rewrite H. Qed.

Lemma pool_inv_addresses p : pool_inv p <-> addresses (length (memory p)) (free p ++ held (users p)) /\
  Forall (fun c => length c = size) (memory p) /\
  Forall (fun u => match u with Using _ n => n <= size | _ => True end) (users p).
Proof. split; [by intros []|]. by intros ([] & ? & ?). Qed.

Lemma addresses_fresh n l : addresses n l -> addresses (S n) (n :: l).
Proof.
  intros [Hn Hf]. split.
  - constructor; [|done]. intros Hin. rewrite Forall_forall in Hf. specialize (Hf n Hin). lia.
  - constructor; [lia|]. eapply Forall_impl; [exact Hf|]. simpl. lia.
Qed.

Lemma addresses_tail n b l : addresses n (b :: l) -> addresses n l.
Proof. intros [H1 H2]. inversion H1. by inversion H2. Qed.

(** Getting and putting move an address, and change no other thread. *)
Lemma pool_inv_step c p p' out :
  pool_inv p -> pool_step c p = Some (p', out) -> pool_inv p'.
Proof.
  rewrite !pool_inv_addresses. intros (Ha & Hs & Hv) H. unfold pool_step in H. destruct c as [i j|i|i data|i|i|j].
  - destruct (users p !! i) as [[| |]|] eqn:E; try done.
    destruct (free p !! j) as [b|] eqn:Ej; [|done]. injection H as <- <-. simpl.
    destruct (held_insert _ _ _ E) as (rest & E1 & E2). split; [|split; [done|by apply Forall_insert; [|lia]]].
    rewrite E1, (delete_Permutation _ _ _ Ej) in Ha. rewrite E2. simpl in *.
    by rewrite <- Permutation_middle.
  - destruct (users p !! i) as [[| |]|] eqn:E; try done. injection H as <- <-. simpl.
    destruct (held_insert _ _ _ E) as (rest & E1 & E2). rewrite E1 in Ha. rewrite E2. simpl in *.
    split; [|split; [|by apply Forall_insert; [|lia]]].
    + rewrite length_app, Nat.add_1_r, <- Permutation_middle. by apply addresses_fresh.
    + apply Forall_app. split; [done|]. constructor; [|constructor]. apply repeat_length.
  - destruct (users p !! i) as [[|b n|]|] eqn:E; try done.
    destruct (Nat.leb_spec (length data) size) as [Hl|]; [|done]. injection H as <- <-. simpl.
    destruct (held_insert _ _ _ E) as (rest & E1 & E2). rewrite E1 in Ha. rewrite E2, length_alter.
    simpl in *. split; [done|]. split; [|by apply Forall_insert].
    apply Forall_alter; [done|]. intros x Hx Hlen. rewrite length_app, length_drop. lia.
  - destruct (users p !! i) as [[|b n|]|] eqn:E; try done.
    destruct (memory p !! b) as [content|]; [|done]. injection H as <- <-. simpl.
    destruct (held_insert _ _ _ E) as (rest & E1 & E2). rewrite E1 in Ha. rewrite E2.
    simpl in *. split; [done|]. split; [done|]. apply Forall_insert; [done|lia].
  - destruct (users p !! i) as [[|b n|]|] eqn:E; try done. injection H as <- <-. simpl.
    destruct (held_insert _ _ _ E) as (rest & E1 & E2). rewrite E1 in Ha. rewrite E2. simpl in *.
    split; [by rewrite Permutation_middle|]. split; [done|]. by apply Forall_insert.
  - destruct (free p !! j) as [b|] eqn:Ej; [|done]. injection H as <- <-. simpl. split; [|done].
    rewrite (delete_Permutation _ _ _ Ej) in Ha. by eapply addresses_tail.
Qed.

(** Reading into a buffer changes what its holder has, and nobody else. *)
Lemma owners_read mem (us : list user) (i : nat) b n data :
  us !! i = Some (Using b n) -> addresses (length mem) (held us) ->
  owner_of (alter (fun old => data ++ drop (length data) old) b mem)
    <$> <[i := Using b (length data)]> us
  = <[i := Owns data]> (owner_of mem <$> us).
Proof.
  intros Hi [Hn Hr]. destruct (held_insert _ _ _ Hi) as (rest & E1 & E2).
  rewrite E1 in Hn, Hr. simpl in Hn, Hr. apply NoDup_cons in Hn as [Hb _].
  apply Forall_cons in Hr as [Hlt _].
  destruct (lookup_lt_is_Some_2 mem b Hlt) as [old Hold].
  rewrite owners_insert. simpl. rewrite list_lookup_alter_eq, Hold. simpl.
  rewrite take_app_length. apply list_eq. intros j.
  destruct (decide (j = i)) as [->|Hne].
  - rewrite !list_lookup_insert_eq; [done|..]; rewrite length_fmap; by eapply lookup_lt_Some.
  - rewrite !list_lookup_insert_ne by done. rewrite !list_lookup_fmap.
    destruct (us !! j) as [[|b' n'|]|] eqn:Ej; simpl; try done.
    rewrite list_lookup_alter_ne; [done|]. intros <-.
    destruct (held_insert (<[i := Gone]> us) j (Using b n')) as (rest' & E3 & _);
      [by rewrite list_lookup_insert_ne|].
    rewrite E2 in E3. simpl in E3. apply Hb. rewrite E3. by left.
Qed.

Lemma pool_simulates c p p' out :
  pool_inv p -> pool_step c p = Some (p', out) -> private_step c (owners p) = Some (owners p', out).
Proof.
  rewrite pool_inv_addresses. intros (Ha & Hs & Hv) H. unfold pool_step in H.
  unfold private_step, owners in *. destruct c as [i j|i|i data|i|i|j].
  - destruct (users p !! i) as [[| |]|] eqn:E; try done.
    destruct (free p !! j) as [b|] eqn:Ej; [|done]. injection H as <- <-. simpl.
    rewrite list_lookup_fmap, E, owners_insert. done.
  - destruct (users p !! i) as [[| |]|] eqn:E; try done. injection H as <- <-. simpl.
    rewrite list_lookup_fmap, E, owners_insert. simpl. do 3 f_equal. symmetry.
    apply owners_memory. intros b Hb. destruct Ha as [_ Hr]. rewrite Forall_app, (Forall_forall _ (held _)) in Hr.
    apply lookup_app_l. by apply Hr.
  - destruct (users p !! i) as [[|b n|]|] eqn:E; try done.
    destruct (Nat.leb_spec (length data) size) as [Hl|]; [|done]. injection H as <- <-. simpl.
    rewrite list_lookup_fmap, E. simpl. do 2 f_equal. symmetry.
    apply (owners_read (memory p) (users p) i b n data E).
    destruct Ha as [Hn Hr]. apply NoDup_app in Hn as (_ & _ & Hn). apply Forall_app in Hr as [_ Hr]. by split.
  - destruct (users p !! i) as [[|b n|]|] eqn:E; try done.
    destruct (memory p !! b) as [content|] eqn:Eb; [|done]. injection H as <- <-. simpl.
    rewrite list_lookup_fmap, E, owners_insert. simpl. by rewrite Eb.
  - destruct (users p !! i) as [[|b n|]|] eqn:E; try done. injection H as <- <-. simpl.
    rewrite list_lookup_fmap, E, owners_insert. done.
  - destruct (free p !! j) as [b|] eqn:Ej; [|done]. injection H as <- <-. done.
Qed.

(** ** Claims *)

(** C18. Copying threads do not share a buffer: in every interleaving of any number
    of them, with buffers taken from the pool, newly made, given back, reused by
    other threads or collected, every write sends exactly the bytes that the same
    thread read last and has not yet written, as if each thread had a buffer of
    its own. *)
Theorem buffers_are_private (threads : nat) (cs : list buffer_choice) (p : pool)
    (outs : list (list Z)) :
  outputs pool_step cs (pool_start threads) = Some (p, outs) ->
  outputs private_step cs (repeat Before threads) = Some (owners p, outs).
Proof.
  assert (Hi : pool_inv (pool_start threads)).
  { apply pool_inv_addresses. unfold pool_start. simpl.
    assert (held (repeat Waiting threads) = []) as -> by (by induction threads).
    split; [by split; constructor|]. split; [constructor|]. clear. by induction threads; constructor. }
  assert (Eo : owners (pool_start threads) = repeat Before threads).
  { unfold owners, pool_start. simpl. clear. by induction threads; simpl; f_equal. }
  rewrite <- Eo. revert Hi. clear Eo. generalize (pool_start threads) as q. revert outs.
  induction cs as [|c cs IH]; intros outs q Hi Hr; simpl in *; [by injection Hr as <- <-|].
  destruct (pool_step c q) as [[q1 out]|] eqn:E; [|done]. simpl in Hr.
  destruct (outputs pool_step cs q1) as [[q2 rest]|] eqn:E'; [|done]. injection Hr as <- <-.
  rewrite (pool_simulates c q q1 out Hi E). simpl.
  by rewrite (IH rest q1 (pool_inv_step c q q1 out Hi E) E').
Qed.
End Buffers.

(** ** Witness *)

(** Two threads, the second of which reuses the buffer of the first. *)
Definition reuse : list buffer_choice :=
  [GetsNew 0; ReadsInto 0 [1; 2; 3]%Z; WritesFrom 0; Puts 0; GetsPooled 1 0; ReadsInto 1 [4]%Z;
   WritesFrom 1].

Lemma buffers_are_private_witness :
  outputs private_step reuse (repeat Before 2)
    = Some ([After; Owns []], [[]; []; [1; 2; 3]; []; []; []; [4]]%Z).
Proof.
  refine (buffers_are_private 4 2 reuse (Pool [] [[4; 2; 3; 0]%Z] [Gone; Using 0 0]) _ _).
  vm_compute. reflexivity.
Defined.
