(* ===== verification/Proxy.v ===== *)
(** * The proxy: [src/proxy/proxy.go]

    The accept loop, the handlers it spawns, [Shutdown] and [Wait] as one
    interleaving over the shared state: the quit flag, the listener, the wait
    group and the metrics counters. Every access to shared state is a step of
    its own; what the network answers is part of the schedule. The wait group has
    its counter, its waiters and the panics of its misuse. A handler that
    forwards data holds a pipe of [Fuse]. *)
From Stdlib Require Import ZArith.
From stdpp Require Import base list strings.
From S2P Require Import Prelude GoStrings GoNet Fuse.

Local Open Scope Z_scope.

(** ** The proxy protocol header *)

(** [net.Addr]: the dynamic type [*net.TCPAddr] with its IPv6 zone, or another
    one, given by what its [Network] and [String] methods return. *)
Inductive Addr : Type :=
  | TCPAddr (ip : IP) (port : Z) (zone : string)
  | OtherAddr (network name : string).

Inductive TransportProtocol : Type := TCPv4 | TCPv6.

Inductive ProtocolVersionAndCommand : Type := LOCAL | PROXY.

(** [proxyproto.Header]: the fields the program sets. *)
Record Header : Type := {
  h_Version : Z;
  h_Command : ProtocolVersionAndCommand;
  h_TransportProtocol : TransportProtocol;
  SourceAddress : IP;
  DestinationAddress : IP;
  SourcePort : Z;
  DestinationPort : Z
}.

(** The conversion [uint16(n)]. *)
Definition uint16 (n : Z) : Z := n mod 2 ^ 16.

(** The type assertions panic on an address that is not a TCP address. *)
Definition getProxyProtoHeaderFor (remote local : Addr) : outcome string Header :=
  match remote, local with
  | TCPAddr sIP sPort _, TCPAddr dIP dPort _ =>
    Ret {| h_Version := 2; h_Command := PROXY; h_TransportProtocol := TCPv4;
           SourceAddress := sIP; DestinationAddress := dIP;
           SourcePort := uint16 sPort; DestinationPort := uint16 dPort |}
  | _, _ => Panic
  end.

(** [Header.WriteTo] comes from a library that is not part of the repository: the
    bytes it writes for a header. *)
Class ProxyProto : Type := format_header : Header -> list Z.

(** ** The handshake *)

(** An error of the network: its text and what [Timeout] says of it. *)
Record net_error : Type := NetError { e_text : string; e_timeout : bool }.

(** [forceHandshake]: the answers of the first [SetDeadline], of [Handshake] and
    of the second [SetDeadline]; the result is the error and whether
    [timeoutCounter] was incremented. *)
Definition forceHandshake (k : kind) (deadline : option net_error) (handshake : option net_error)
    (clear : option net_error) : option net_error * bool :=
  match k with
  | TLSConn =>
    match deadline with
    | Some e => (Some e, false)
    | None =>
      let timedout := match handshake with Some e => e_timeout e | None => false end in
      match handshake with
      | Some e => (Some e, timedout)
      | None =>
        match clear with
        | Some e => (Some e, timedout)
        | None => (None, timedout)
        end
      end
    end
  | _ => (None, false)
  end.

(** ** State *)

(** The steps of a handler, in the order of the code; those from [AtDone] on are its
    deferred calls ([AtWake] is the end of [handlers.Done] when it has to wake up
    the callers of [Wait]). *)
Inductive handler_pc : Type :=
  | AtHandshake
  | AtCountError
  | AtDial
  | AtHeader
  | AtCountSuccess
  | AtAdd
  | AtFuse
  | AtDone
  | AtWake
  | AtDecOpen
  | AtClose
  | Finished.

#[export] Instance handler_pc_eq_dec : EqDecision handler_pc.
Proof. solve_decision. Defined.

Record handler : Type := Handler {
  h_pc : handler_pc;
  h_remote : Addr;
  h_local : Addr;
  h_conn : conn;
  h_backend : option conn;
  h_up : copier;
  h_down : copier
}.

Inductive acceptor : Type :=
  | NotAccepting
  | Accepting
  | CheckingQuit
  | CountingError
  | CountingOpen (k : kind) (remote local : Addr)
  | CountingTotal (k : kind) (remote local : Addr)
  | Spawning (k : kind) (remote local : Addr)
  | StoppedAccepting.

(** A call of [Shutdown]; [ShReturned] tells whether it did the work. *)
Inductive shutdown : Type :=
  | ShLoad
  | ShStore
  | ShClose
  | ShDone
  | ShWake
  | ShReturned (worked : bool).

Record counters : Type := Counters {
  openCounter : Z;
  totalCounter : Z;
  successCounter : Z;
  errorCounter : Z;
  timeoutCounter : Z
}.

(** The wait group [handlers] is a counter and the number of callers of [Wait] that
    are blocked; [woken] are those that have been released and have not run yet. *)
Record proxy : Type := Proxy {
  quit : bool;
  listening : bool;
  handlers : Z;
  waiters : Z;
  woken : Z;
  proxyProtocol : bool;
  metrics : counters;
  accepting : acceptor;
  conns : list handler;
  shutdowns : list shutdown;
  crashed : bool
}.

(** ** Updates *)

Definition set_metrics (m : counters) (p : proxy) : proxy :=
  Proxy (quit p) (listening p) (handlers p) (waiters p) (woken p) (proxyProtocol p) m (accepting p)
    (conns p) (shutdowns p) (crashed p).
Definition set_accepting (a : acceptor) (p : proxy) : proxy :=
  Proxy (quit p) (listening p) (handlers p) (waiters p) (woken p) (proxyProtocol p) (metrics p) a (conns p)
    (shutdowns p) (crashed p).
Definition set_conns (l : list handler) (p : proxy) : proxy :=
  Proxy (quit p) (listening p) (handlers p) (waiters p) (woken p) (proxyProtocol p) (metrics p) (accepting p) l
    (shutdowns p) (crashed p).
Definition set_shutdowns (l : list shutdown) (p : proxy) : proxy :=
  Proxy (quit p) (listening p) (handlers p) (waiters p) (woken p) (proxyProtocol p) (metrics p) (accepting p) (conns p)
    l (crashed p).
Definition set_quit (p : proxy) : proxy :=
  Proxy true (listening p) (handlers p) (waiters p) (woken p) (proxyProtocol p) (metrics p) (accepting p) (conns p)
    (shutdowns p) (crashed p).
Definition close_listener (p : proxy) : proxy :=
  Proxy (quit p) false (handlers p) (waiters p) (woken p) (proxyProtocol p) (metrics p) (accepting p) (conns p)
    (shutdowns p) (crashed p).
Definition crash (p : proxy) : proxy :=
  Proxy (quit p) (listening p) (handlers p) (waiters p) (woken p) (proxyProtocol p) (metrics p) (accepting p) (conns p)
    (shutdowns p) true.

(** [WaitGroup.Add]: it panics if the counter gets negative, and if it takes the
    counter from zero while there are waiters. *)
Definition wg_Add (delta : Z) (p : proxy) : proxy :=
  let n := handlers p + delta in
  let misuse := (n <? 0) || (negb (waiters p =? 0) && (0 <? delta) && (n =? delta)) in
  Proxy (quit p) (listening p) n (waiters p) (woken p) (proxyProtocol p) (metrics p) (accepting p)
    (conns p) (shutdowns p) (crashed p || misuse).

(** The call of [Add] that has brought the counter to zero with waiters goes on:
    it panics if the counter has changed in the meantime, and releases them all
    otherwise. *)
Definition must_wake (p : proxy) : bool := (handlers p =? 0) && negb (waiters p =? 0).

Definition wg_wake (p : proxy) : proxy :=
  if handlers p =? 0
  then Proxy (quit p) (listening p) (handlers p) 0 (woken p + waiters p) (proxyProtocol p) (metrics p)
         (accepting p) (conns p) (shutdowns p) (crashed p)
  else crash p.

(** [WaitGroup.Wait]: it returns at once at zero, and otherwise blocks as a
    waiter. A waiter that has been released panics if the group is in use again
    by the time it runs. *)
Definition wg_Wait (p : proxy) : option proxy :=
  if handlers p =? 0 then None
  else Some (Proxy (quit p) (listening p) (handlers p) (waiters p + 1) (woken p) (proxyProtocol p)
               (metrics p) (accepting p) (conns p) (shutdowns p) (crashed p)).

Definition wg_resume (p : proxy) : option proxy :=
  if 0 <? woken p then
    Some (if (handlers p =? 0) && (waiters p =? 0)
          then Proxy (quit p) (listening p) (handlers p) (waiters p) (woken p - 1) (proxyProtocol p)
                 (metrics p) (accepting p) (conns p) (shutdowns p) (crashed p)
          else crash p)
  else None.

Definition inc_open (d : Z) (m : counters) : counters :=
  Counters (openCounter m + d) (totalCounter m) (successCounter m) (errorCounter m)
    (timeoutCounter m).
Definition inc_total (m : counters) : counters :=
  Counters (openCounter m) (totalCounter m + 1) (successCounter m) (errorCounter m)
    (timeoutCounter m).
Definition inc_success (m : counters) : counters :=
  Counters (openCounter m) (totalCounter m) (successCounter m + 1) (errorCounter m)
    (timeoutCounter m).
Definition inc_error (m : counters) : counters :=
  Counters (openCounter m) (totalCounter m) (successCounter m) (errorCounter m + 1)
    (timeoutCounter m).
Definition inc_timeout (m : counters) : counters :=
  Counters (openCounter m) (totalCounter m) (successCounter m) (errorCounter m)
    (timeoutCounter m + 1).

Definition at_pc (pc : handler_pc) (h : handler) : handler :=
  Handler pc (h_remote h) (h_local h) (h_conn h) (h_backend h) (h_up h) (h_down h).
Definition with_backend (pc : handler_pc) (b : conn) (h : handler) : handler :=
  Handler pc (h_remote h) (h_local h) (h_conn h) (Some b) (h_up h) (h_down h).
Definition with_conn (pc : handler_pc) (c : conn) (h : handler) : handler :=
  Handler pc (h_remote h) (h_local h) c (h_backend h) (h_up h) (h_down h).
Definition with_pipe (q : pipe) (h : handler) : handler :=
  Handler (h_pc h) (h_remote h) (h_local h) (client q) (Some (backend q)) (up q) (down q).

(** ** Operations *)

Section Connections.
Context `{PP : ProxyProto}.

(** [New] adds one to the wait group. *)
Definition New : proxy :=
  wg_Add 1 (Proxy false true 0 0 0 false (Counters 0 0 0 0 0) NotAccepting [] [] false).

Definition EnableProxyProtocol (p : proxy) : proxy :=
  Proxy (quit p) (listening p) (handlers p) (waiters p) (woken p) true (metrics p) (accepting p)
    (conns p) (shutdowns p) (crashed p).

(** A handler as [Accept] spawns it. *)
Definition spawn (k : kind) (remote local : Addr) : handler :=
  Handler AtHandshake remote local (new_conn k []) None Reading Reading.

(** One step of the accept loop between two calls of [Listener.Accept]. *)
Definition acceptor_step (p : proxy) : option proxy :=
  match accepting p with
  | CheckingQuit =>
    Some (set_accepting (if quit p then StoppedAccepting else CountingError) p)
  | CountingError => Some (set_accepting Accepting (set_metrics (inc_error (metrics p)) p))
  | CountingOpen k r l =>
    Some (set_accepting (CountingTotal k r l) (set_metrics (inc_open 1 (metrics p)) p))
  | CountingTotal k r l =>
    Some (set_accepting (Spawning k r l) (set_metrics (inc_total (metrics p)) p))
  | Spawning k r l => Some (set_accepting Accepting (set_conns (conns p ++ [spawn k r l]) p))
  | _ => None
  end.

(** One step of a call of [Shutdown]. *)
Definition shutdown_step (i : nat) (p : proxy) : option proxy :=
  match shutdowns p !! i with
  | Some ShLoad =>
    Some (set_shutdowns (<[i := if quit p then ShReturned false else ShStore]> (shutdowns p)) p)
  | Some ShStore => Some (set_shutdowns (<[i := ShClose]> (shutdowns p)) (set_quit p))
  | Some ShClose => Some (set_shutdowns (<[i := ShDone]> (shutdowns p)) (close_listener p))
  | Some ShDone =>
    let p' := wg_Add (-1) p in
    Some (set_shutdowns (<[i := if must_wake p' then ShWake else ShReturned true]> (shutdowns p)) p')
  | Some ShWake => Some (set_shutdowns (<[i := ShReturned true]> (shutdowns p)) (wg_wake p))
  | _ => None
  end.

(** What the world answers to a handler, and the handler's own steps. [WriteTo]
    writes the whole header, or fails after [n] bytes of it. *)
Inductive handler_choice : Type :=
  | HandshakeAnswers (deadline handshake clear : option net_error)
  | DialAnswers (r : kind + string)
  | HeaderWritten (n : nat) (r : option string)
  | PipeSteps (c : pipe_choice)
  | HandlerSteps.

(** One step of handler [h], run by the proxy [p]: the handler and the proxy
    after it (the handler's slot is updated by the caller). *)
Definition handler_step (c : handler_choice) (h : handler) (p : proxy) : option (handler * proxy) :=
  match h_pc h, c with
  | AtHandshake, HandshakeAnswers d hs cl =>
    let '(err, timedout) := forceHandshake (c_kind (h_conn h)) d hs cl in
    let p' := if timedout then set_metrics (inc_timeout (metrics p)) p else p in
    Some (at_pc (match err with Some _ => AtCountError | None => AtDial end) h, p')
  | AtCountError, HandlerSteps =>
    Some (at_pc AtDecOpen h, set_metrics (inc_error (metrics p)) p)
  | AtDial, DialAnswers (inr e) => Some (at_pc AtDecOpen h, p)
  | AtDial, DialAnswers (inl k) =>
    Some (with_backend (if proxyProtocol p then AtHeader else AtCountSuccess) (new_conn k []) h, p)
  | AtHeader, HeaderWritten n r =>
    match getProxyProtoHeaderFor (h_remote h) (h_local h), h_backend h with
    | Ret header, Some b =>
      match r with
      | Some _ => Some (with_backend AtDecOpen (put_bytes (take n (format_header header)) b) h, p)
      | None => Some (with_backend AtCountSuccess (put_bytes (format_header header) b) h, p)
      end
    | _, _ => Some (h, crash p)
    end
  | AtCountSuccess, HandlerSteps => Some (at_pc AtAdd h, set_metrics (inc_success (metrics p)) p)
  | AtAdd, HandlerSteps => Some (at_pc AtFuse h, wg_Add 1 p)
  | AtFuse, PipeSteps c =>
    b ← h_backend h;
    q ← pipe_step c (Pipe (h_conn h) b (h_up h) (h_down h));
    Some (with_pipe q h, p)
  | AtFuse, HandlerSteps =>
    b ← h_backend h;
    if fuse_returns (Pipe (h_conn h) b (h_up h) (h_down h)) then Some (at_pc AtDone h, p) else None
  | AtDone, HandlerSteps =>
    let p' := wg_Add (-1) p in Some (at_pc (if must_wake p' then AtWake else AtDecOpen) h, p')
  | AtWake, HandlerSteps => Some (at_pc AtDecOpen h, wg_wake p)
  | AtDecOpen, HandlerSteps => Some (at_pc AtClose h, set_metrics (inc_open (-1) (metrics p)) p)
  | AtClose, HandlerSteps => Some (with_conn Finished (Close (h_conn h)) h, p)
  | _, _ => None
  end.

Inductive proxy_choice : Type :=
  | CallAccept
  | AcceptReturns (k : kind) (remote local : Addr)
  | AcceptFails
  | AcceptorSteps
  | CallShutdown
  | ShutdownSteps (i : nat)
  | Handles (i : nat) (c : handler_choice)
  | WaitReturns
  | WaitCalls
  | WaitWakes.

(** A closed listener accepts nothing; a call of [Wait] returns at once
    ([WaitReturns]) or blocks ([WaitCalls]) and runs again when it has been
    released ([WaitWakes]); nothing runs after a crash. *)
Definition proxy_step (c : proxy_choice) (p : proxy) : option proxy :=
  if crashed p then None else
  match c with
  | CallAccept =>
    match accepting p with NotAccepting => Some (set_accepting Accepting p) | _ => None end
  | AcceptReturns k r l =>
    match accepting p, listening p with
    | Accepting, true => Some (set_accepting (CountingOpen k r l) p)
    | _, _ => None
    end
  | AcceptFails =>
    match accepting p with Accepting => Some (set_accepting CheckingQuit p) | _ => None end
  | AcceptorSteps => acceptor_step p
  | CallShutdown => Some (set_shutdowns (shutdowns p ++ [ShLoad]) p)
  | ShutdownSteps i => shutdown_step i p
  | Handles i c =>
    h ← conns p !! i;
    r ← handler_step c h p;
    Some (set_conns (<[i := r.1]> (conns r.2)) r.2)
  | WaitReturns => if handlers p =? 0 then Some p else None
  | WaitCalls => wg_Wait p
  | WaitWakes => wg_resume p
  end.

(** The two ways the program makes a proxy. *)
Definition proxy_start (proxyProto : bool) : proxy :=
  if proxyProto then EnableProxyProtocol New else New.

(** ** Invariants *)

(** A handler the wait group knows about. *)
Definition covered (h : handler) : bool :=
  match h_pc h with AtFuse | AtDone => true | _ => false end.

(** A handler that [openCounter] counts. *)
Definition active (h : handler) : bool :=
  match h_pc h with AtClose | Finished => false | _ => true end.

(** A connection that reached its backend ([successCounter] counts it), and one
    that was turned away. *)
Definition served (h : handler) : bool :=
  match h_pc h with
  | AtAdd | AtFuse | AtDone | AtWake => true
  | AtDecOpen | AtClose | Finished =>
    match h_up h, h_down h with CopierDone _, CopierDone _ => true | _, _ => false end
  | _ => false
  end.

Definition over (h : handler) : bool :=
  match h_pc h with AtDecOpen | AtClose | Finished => true | _ => false end.

(** Calls of [Shutdown] that found the flag unset, that have set it, closed the
    listener, and given back the unit of [New]. *)
Definition committed (s : shutdown) : bool :=
  match s with ShStore | ShClose | ShDone | ShWake | ShReturned true => true | _ => false end.
Definition stored (s : shutdown) : bool :=
  match s with ShClose | ShDone | ShWake | ShReturned _ => true | _ => false end.
Definition closed (s : shutdown) : bool :=
  match s with ShDone | ShWake | ShReturned true => true | _ => false end.
Definition released (s : shutdown) : bool :=
  match s with ShWake | ShReturned true => true | _ => false end.

(** The thread that has to wake up the waiters. *)
Definition waking (h : handler) : bool := match h_pc h with AtWake => true | _ => false end.
Definition sh_waking (s : shutdown) : bool := match s with ShWake => true | _ => false end.

(** What a handler writes to its backend before it forwards data. *)
Definition header_of (proxyProto : bool) (h : handler) : list Z :=
  if proxyProto then
    match getProxyProtoHeaderFor (h_remote h) (h_local h) with
    | Ret header => format_header header
    | _ => []
    end
  else [].

(** The connections of a handler, at each of its steps. *)
Definition pipe_reached (proxyProto : bool) (h : handler) (c : conn) : Prop := exists kb b,
  h_backend h = Some b /\
  steps pipe_step (fuse_start (c_kind c) kb (header_of proxyProto h)) (Pipe c b (h_up h) (h_down h)).

Definition fresh (h : handler) (c : conn) : Prop :=
  c = new_conn (c_kind c) [] /\ h_up h = Reading /\ h_down h = Reading.

Definition turned_away (proxyProto : bool) (h : handler) (c : conn) : Prop :=
  fresh h c /\ (h_backend h = None \/ proxyProto = true /\
    exists kb n, h_backend h = Some (new_conn kb (take n (header_of proxyProto h)))).

Definition was_served (proxyProto : bool) (h : handler) (c : conn) : Prop :=
  pipe_reached proxyProto h c /\
  match h_up h, h_down h with CopierDone _, CopierDone _ => True | _, _ => False end.

Definition handler_inv (proxyProto : bool) (h : handler) : Prop :=
  match h_pc h with
  | AtHandshake | AtCountError | AtDial => fresh h (h_conn h) /\ h_backend h = None
  | AtHeader => fresh h (h_conn h) /\ proxyProto = true /\
      exists kb, h_backend h = Some (new_conn kb [])
  | AtCountSuccess | AtAdd => fresh h (h_conn h) /\
      exists kb, h_backend h = Some (new_conn kb (header_of proxyProto h))
  | AtFuse => pipe_reached proxyProto h (h_conn h)
  | AtDone | AtWake => was_served proxyProto h (h_conn h)
  | AtDecOpen | AtClose => turned_away proxyProto h (h_conn h) \/ was_served proxyProto h (h_conn h)
  | Finished => exists c, h_conn h = Close c /\
      (turned_away proxyProto h c \/ was_served proxyProto h c)
  end.

Definition in_flight (a : acceptor) : Z :=
  match a with CountingTotal _ _ _ | Spawning _ _ _ => 1 | _ => 0 end.
Definition spawning (a : acceptor) : Z :=
  match a with Spawning _ _ _ => 1 | _ => 0 end.

Record proxy_inv (p : proxy) : Prop := {
  inv_wg : handlers p + countb released (shutdowns p) = 1 + countb covered (conns p);
  inv_open : openCounter (metrics p) = countb active (conns p) + in_flight (accepting p);
  inv_total : totalCounter (metrics p) = Z.of_nat (length (conns p)) + spawning (accepting p);
  inv_success : successCounter (metrics p) = countb served (conns p);
  inv_quit : quit p = true <-> 0 < countb stored (shutdowns p);
  inv_listening : listening p = false <-> 0 < countb closed (shutdowns p);
  inv_handlers : Forall (handler_inv (proxyProtocol p)) (conns p);
  inv_waiters : 0 <= waiters p /\ 0 <= woken p;
  inv_woken : 0 < woken p -> 0 < countb released (shutdowns p);
  inv_handlers_nonneg : crashed p = false -> 0 <= handlers p;
  inv_waking : crashed p = false ->
    countb waking (conns p) + countb sh_waking (shutdowns p) = Z.b2z (must_wake p);
  inv_crash : crashed p = true -> handlers p < 0 \/ 0 < waiters p \/ 0 < woken p \/
    (proxyProtocol p = true /\ exists h, h ∈ conns p /\ h_pc h = AtHeader /\
       getProxyProtoHeaderFor (h_remote h) (h_local h) = Panic)
}.

Lemma proxy_inv_start b : proxy_inv (proxy_start b).
Proof.
  destruct b; split; simpl; try done; try constructor; try (split; [done|lia]); try constructor; lia.
Qed.

(** *** One handler *)

(** What a handler's step does to the shared state, in terms of the handler. *)
Record handler_effect (h h' : handler) (p p' : proxy) : Prop := {
  eff_same : quit p' = quit p /\ listening p' = listening p /\ accepting p' = accepting p /\
    conns p' = conns p /\ shutdowns p' = shutdowns p /\ proxyProtocol p' = proxyProtocol p;
  eff_wg : handlers p' = handlers p + Z.b2z (covered h') - Z.b2z (covered h);
  eff_open : openCounter (metrics p')
    = openCounter (metrics p) + Z.b2z (active h') - Z.b2z (active h);
  eff_total : totalCounter (metrics p') = totalCounter (metrics p);
  eff_success : successCounter (metrics p')
    = successCounter (metrics p) + Z.b2z (served h') - Z.b2z (served h);
  eff_wait : (waiters p' = waiters p /\ woken p' = woken p) \/
    (must_wake p = true /\ handlers p' = 0 /\ waiters p' = 0 /\ woken p' = woken p + waiters p /\
       waking h = true);
  eff_blocked : must_wake p = true -> crashed p' = false -> handlers p' = 0;
  eff_nonneg : crashed p' = false -> 0 <= handlers p -> 0 <= handlers p';
  eff_waking : crashed p' = false -> 0 <= handlers p ->
    Z.b2z (waking h') + Z.b2z (must_wake p) = Z.b2z (waking h) + Z.b2z (must_wake p');
  eff_crash : crashed p' = true -> crashed p = true \/ handlers p' < 0 \/
    (h_pc h = AtAdd /\ handlers p = 0 /\ handlers p' = 1 /\ waiters p' = waiters p /\
       waiters p <> 0) \/
    (h' = h /\ h_pc h = AtHeader /\ getProxyProtoHeaderFor (h_remote h) (h_local h) = Panic)
}.

(** The arithmetic of the wait group. *)
Ltac wait_group :=
  unfold wg_Add, must_wake in *; simpl in *;
  repeat match goal with
  | |- context [?a =? ?b] => destruct (Z.eqb_spec a b)
  | H : context [?a =? ?b] |- _ => destruct (Z.eqb_spec a b)
  | |- context [?a <? ?b] => destruct (Z.ltb_spec a b)
  | H : context [?a <? ?b] |- _ => destruct (Z.ltb_spec a b)
  end; simpl in *; rewrite ?orb_true_r, ?orb_false_r in *; simpl in *; try done; try lia; auto.

Lemma must_wake_zero p : must_wake p = true -> handlers p = 0.
Proof. intros H. clear -H. wait_group. Qed.

(** A step that leaves the wait group alone. *)
Lemma handler_effect_metrics m h h' p :
  covered h' = covered h -> waking h' = waking h ->
  openCounter m = openCounter (metrics p) + Z.b2z (active h') - Z.b2z (active h) ->
  totalCounter m = totalCounter (metrics p) ->
  successCounter m = successCounter (metrics p) + Z.b2z (served h') - Z.b2z (served h) ->
  handler_effect h h' p (set_metrics m p).
Proof.
  intros Hc Hw Ho Ht Hs. split; rewrite ?Hc, ?Hw; simpl; auto; try lia; [by repeat split|].
  intros Hm _. by apply must_wake_zero.
Qed.

Lemma handler_effect_refl h h' p :
  covered h' = covered h -> waking h' = waking h -> active h' = active h -> served h' = served h ->
  handler_effect h h' p p.
Proof.
  intros Hc Hw Ha Hs. split; rewrite ?Hc, ?Hw, ?Ha, ?Hs; try lia; auto; [by repeat split|].
  intros Hm _. by apply must_wake_zero.
Qed.

(** The calls of the wait group. *)
Lemma handler_effect_Add h h' p :
  h_pc h = AtAdd -> covered h = false -> covered h' = true -> waking h = false -> waking h' = false ->
  active h' = active h -> served h' = served h -> handler_effect h h' p (wg_Add 1 p).
Proof.
  intros Hpc Hc Hc' Hw Hw' Ha Hs. split; rewrite ?Hc, ?Hc', ?Hw, ?Hw', ?Ha, ?Hs; wait_group.
  right. right. left. split; [done|]. split; [lia|]. split; [lia|done].
Qed.

Lemma handler_effect_Done h h' p :
  covered h = true -> covered h' = false -> waking h = false ->
  waking h' = must_wake (wg_Add (-1) p) ->
  active h' = active h -> served h' = served h -> handler_effect h h' p (wg_Add (-1) p).
Proof.
  intros Hc Hc' Hw Hw' Ha Hs. split; rewrite ?Hc, ?Hc', ?Hw, ?Hw', ?Ha, ?Hs; wait_group.
Qed.

Lemma handler_effect_wake h h' p :
  must_wake p = true -> covered h' = covered h -> waking h = true -> waking h' = false ->
  active h' = active h -> served h' = served h -> handler_effect h h' p (wg_wake p).
Proof.
  intros Hm Hc Hw Hw' Ha Hs. unfold wg_wake.
  assert (handlers p = 0) as E by wait_group. rewrite E. simpl.
  split; rewrite ?Hc, ?Hw, ?Hw', ?Ha, ?Hs, ?Hm; simpl; try lia; auto; by repeat split.
Qed.

Lemma not_served_reading pc h : h_up h = Reading -> served (at_pc pc h) =
  match pc with AtAdd | AtFuse | AtDone | AtWake => true | _ => false end.
Proof. intros H. unfold served. simpl. rewrite H. by destruct pc. Qed.

Lemma served_done b pc h : was_served b h (h_conn h) -> served (at_pc pc h) =
  match pc with
  | AtAdd | AtFuse | AtDone | AtWake | AtDecOpen | AtClose | Finished => true
  | _ => false
  end.
Proof.
  intros [_ H]. unfold served. simpl. destruct pc; try done; by destruct (h_up h), (h_down h).
Qed.

Lemma handler_step_effect c h p h' p' :
  handler_inv (proxyProtocol p) h -> (waking h = true -> must_wake p = true) ->
  handler_step c h p = Some (h', p') -> handler_effect h h' p p'.
Proof.
  intros Hi Hwk Hs. unfold handler_step in Hs.
  destruct (h_pc h) eqn:E; unfold handler_inv in Hi; rewrite E in Hi; destruct c; try done.
  - destruct (forceHandshake _ _ _ _) as [err timedout]. injection Hs as <- <-.
    destruct timedout, err; (apply handler_effect_metrics || apply handler_effect_refl);
      unfold covered, waking, active, served; simpl; rewrite ?E; simpl; lia || done.
  - injection Hs as <- <-. destruct Hi as [(_ & Hu & Hd) _].
    apply handler_effect_metrics; unfold covered, waking, active, served; simpl; rewrite ?E, ?Hu; simpl; lia || done.
  - destruct Hi as [(_ & Hu & Hd) _]. destruct r as [k|e]; injection Hs as <- <-;
      apply handler_effect_refl; unfold covered, waking, active, served; simpl; rewrite E, ?Hu;
      try done; by destruct (proxyProtocol p).
  - destruct Hi as [(_ & Hu & Hd) (_ & kb & Hb)]. rewrite Hb in Hs.
    destruct (getProxyProtoHeaderFor _ _) eqn:Eh.
    + destruct r; injection Hs as <- <-; apply handler_effect_refl;
        unfold covered, waking, active, served; simpl; by rewrite E, ?Hu.
    + by destruct (h_remote h), (h_local h).
    + injection Hs as <- <-. split; simpl; try lia; auto 6; try done.
  - injection Hs as <- <-. apply handler_effect_metrics; unfold covered, waking, active, served; simpl;
      rewrite ?E; simpl; lia || done.
  - injection Hs as <- <-. apply handler_effect_Add; unfold covered, waking, active, served; simpl;
      by rewrite ?E.
  - destruct (h_backend h) as [b|]; [|done]. simpl in Hs.
    destruct (pipe_step _ _) as [q|]; [|done]. injection Hs as <- <-.
    apply handler_effect_refl; unfold covered, waking, active, served; simpl; by rewrite E.
  - destruct (h_backend h) as [b|]; [|done]. simpl in Hs. case_any; [|done].
    injection Hs as <- <-.
    apply handler_effect_refl; unfold covered, waking, active, served; simpl; by rewrite E.
  - injection Hs as <- <-. apply handler_effect_Done; rewrite ?(served_done _ _ h Hi);
      unfold covered, waking, active, served; simpl; rewrite ?E; try done;
      by destruct (must_wake (wg_Add (-1) p)).
  - injection Hs as <- <-. apply handler_effect_wake; rewrite ?(served_done _ _ h Hi);
      unfold covered, waking, active, served in *; simpl; rewrite ?E in *; auto.
  - injection Hs as <- <-. apply handler_effect_metrics; unfold covered, waking, active, served; simpl;
      rewrite ?E; simpl; lia || done.
  - injection Hs as <- <-. apply handler_effect_refl; unfold covered, waking, active, served; simpl;
      by rewrite E.
Qed.

Lemma handler_step_inv c h p h' p' :
  handler_inv (proxyProtocol p) h -> handler_step c h p = Some (h', p') ->
  handler_inv (proxyProtocol p) h'.
Proof.
  intros Hi Hs. unfold handler_step in Hs.
  destruct (h_pc h) eqn:E; unfold handler_inv in Hi; rewrite E in Hi; destruct c; try done.
  - destruct (forceHandshake _ _ _ _) as [[e|] timedout]; by injection Hs as <- <-.
  - injection Hs as <- <-. destruct Hi as [Hf Hb]. left. split; [done|by left].
  - destruct Hi as [Hf Hb]. destruct r as [k|e]; injection Hs as <- <-.
    + unfold handler_inv. destruct (proxyProtocol p) eqn:Ep; simpl; [split; [done|eauto]|].
      split; [done|]. by exists k.
    + left. split; [done|by left].
  - destruct Hi as (Hf & Hp & kb & Hb). rewrite Hb in Hs.
    destruct (getProxyProtoHeaderFor _ _) as [hd|e|] eqn:Eh; [|injection Hs as <- <-..];
      try (unfold handler_inv; rewrite E; by eauto).
    assert (Ehd : header_of (proxyProtocol p) h = format_header hd) by (unfold header_of; by rewrite Hp, Eh).
    destruct r as [e|]; injection Hs as <- <-; unfold handler_inv; simpl.
    + left. split; [done|]. right. split; [done|]. exists kb, n. by rewrite <- Ehd.
    + split; [done|]. exists kb. by rewrite <- Ehd.
  - injection Hs as <- <-. done.
  - injection Hs as <- <-. destruct Hi as ((Hc & Hu & Hd) & kb & Hb).
    exists kb, (new_conn kb (header_of (proxyProtocol p) h)). split; [done|]. simpl. rewrite Hu, Hd, Hc.
    unfold fuse_start, fuse. simpl. constructor.
  - destruct Hi as (kb & b & Hb & Hr). rewrite Hb in Hs. simpl in Hs.
    destruct (pipe_step _ _) as [q|] eqn:Eq; [|done]. injection Hs as <- <-.
    unfold handler_inv. simpl. rewrite E. exists kb, (backend q). split; [done|]. simpl.
    destruct (kinds_step _ _ _ Eq) as [-> _]. simpl.
    eapply steps_r; [exact Hr|]. rewrite Eq. by destruct q.
  - destruct Hi as (kb & b & Hb & Hr). rewrite Hb in Hs. simpl in Hs.
    case_any; [|done]. injection Hs as <- <-. split; [by exists kb, b|]. simpl.
    unfold fuse_returns in Heqb0. simpl in Heqb0. by destruct (h_up h), (h_down h).
  - injection Hs as <- <-. unfold handler_inv. simpl. destruct (must_wake _); [done|by right].
  - injection Hs as <- <-. by right.
  - injection Hs as <- <-. done.
  - injection Hs as <- <-. exists (h_conn h). done.
Qed.

(** A handler neither touches the accept loop nor another handler. *)
Lemma handler_step_shared c h p h' p' : handler_step c h p = Some (h', p') ->
  accepting p' = accepting p /\ conns p' = conns p.
Proof.
  intros Hs. unfold handler_step in Hs. destruct (h_pc h), c; try done;
    try (by injection Hs as <- <-).
  - destruct (forceHandshake _ _ _ _) as [err []]; by injection Hs as <- <-.
  - destruct r; by injection Hs as <- <-.
  - by destruct (getProxyProtoHeaderFor _ _), (h_backend h), r; injection Hs as <- <-.
  - destruct (h_backend h); [|done]. simpl in Hs. destruct (pipe_step _ _); [|done].
    by injection Hs as <- <-.
  - destruct (h_backend h); [|done]. simpl in Hs. destruct (fuse_returns _); [|done].
    by injection Hs as <- <-.
  - injection Hs as <- <-. unfold wg_wake. by destruct (_ =? _).
Qed.

(** *** The proxy *)

(** Whoever is waking the waiters up has the wait group to itself. *)
Lemma waking_alone i h p : proxy_inv p -> crashed p = false -> conns p !! i = Some h ->
  waking h = true -> must_wake p = true.
Proof.
  intros Hi Hcr Hh Hw. pose proof (inv_waking _ Hi Hcr).
  pose proof (countb_bounds sh_waking (shutdowns p)).
  assert (0 < countb waking (conns p)) by (apply countb_pos; eauto).
  destruct (must_wake p); [done|]. simpl in *. lia.
Qed.

Lemma sh_waking_alone i p : proxy_inv p -> crashed p = false -> shutdowns p !! i = Some ShWake ->
  must_wake p = true.
Proof.
  intros Hi Hcr Hh. pose proof (inv_waking _ Hi Hcr). pose proof (countb_bounds waking (conns p)).
  assert (0 < countb sh_waking (shutdowns p)) by (apply countb_pos; by exists i, ShWake).
  destruct (must_wake p); [done|]. simpl in *. lia.
Qed.

Lemma proxy_step_effect i c h p h' p' :
  proxy_inv p -> crashed p = false -> conns p !! i = Some h -> handler_step c h p = Some (h', p') ->
  handler_inv (proxyProtocol p) h /\ handler_effect h h' p p'.
Proof.
  intros Hi Hcr Hh Hs. assert (handler_inv (proxyProtocol p) h) as Hhi
    by (eapply Forall_lookup_1; [apply Hi|done]).
  split; [done|]. eapply handler_step_effect; [done| |exact Hs]. by apply waking_alone with i.
Qed.

Lemma proxy_inv_handles i c h r p :
  proxy_inv p -> crashed p = false -> conns p !! i = Some h -> handler_step c h p = Some r ->
  proxy_inv (set_conns (<[i := r.1]> (conns r.2)) r.2).
Proof.
  intros Hp Hcr Hi Hs. destruct r as [h' p']. simpl.
  destruct (proxy_step_effect _ _ _ _ _ _ Hp Hcr Hi Hs)
    as [Hh [(Eq & El & Ea & Ec & Es & Ep) E1 E2 E3 E4 E5 _ E6 E7 E8]].
  pose proof (handler_step_inv _ _ _ _ _ Hh Hs) as Hh'.
  destruct Hp as [I1 I2 I3 I4 I5 I6 I7 I8 Iw I9 I10 I11].
  split; simpl; rewrite ?Eq, ?El, ?Ea, ?Ec, ?Es, ?Ep; auto.
  - rewrite (countb_insert _ _ _ _ _ Hi). lia.
  - rewrite (countb_insert _ _ _ _ _ Hi). lia.
  - rewrite length_insert. lia.
  - rewrite (countb_insert _ _ _ _ _ Hi). lia.
  - by apply Forall_insert.
  - lia.
  - destruct E5 as [[_ ->]|(Hm & _ & _ & _ & _)]; [done|]. intros _.
    assert (handlers p = 0) by (by apply must_wake_zero). pose proof (countb_bounds covered (conns p)). lia.
  - intros H. rewrite (countb_insert _ _ _ _ _ Hi). specialize (E7 H (I9 Hcr)).
    specialize (I10 Hcr). unfold must_wake in *. simpl in *. lia.
  - intros H. destruct (E8 H) as [H'|[H'|[H'|(-> & Hpc & Hp)]]]; [congruence|auto| |].
    { right. left. lia. }
    right. right. right. unfold handler_inv in Hh. rewrite Hpc in Hh. destruct Hh as (_ & Hpp & _).
    split; [done|]. exists h. split; [|done]. rewrite list_insert_id by done.
    by eapply list_elem_of_lookup_2.
Qed.

Lemma proxy_inv_acceptor p p' :
  proxy_inv p -> crashed p = false -> acceptor_step p = Some p' -> proxy_inv p'.
Proof.
  intros [I1 I2 I3 I4 I5 I6 I7 I8 Iw I9 I10 I11] Hcr Hs. unfold acceptor_step in Hs.
  destruct (accepting p) eqn:E; try done; injection Hs as <-;
    (split; simpl in *; auto; try lia; try by rewrite Hcr).
  - destruct (quit p); simpl in *; lia.
  - destruct (quit p); simpl in *; lia.
  - rewrite countb_app. unfold covered at 2. simpl. lia.
  - rewrite countb_app. unfold active at 2. simpl. lia.
  - rewrite length_app. simpl. lia.
  - rewrite countb_app. unfold served at 2. simpl. lia.
  - apply Forall_app. split; [done|]. by repeat constructor.
  - intros _. rewrite countb_app. unfold waking at 2. simpl. rewrite Z.add_0_r. auto.
Qed.

(** [Shutdown] gives back the unit of [New], and wakes the waiters up. *)
Lemma proxy_inv_shutdown_done i p :
  proxy_inv p -> crashed p = false -> shutdowns p !! i = Some ShDone ->
  let p' := wg_Add (-1) p in
  proxy_inv (set_shutdowns (<[i := if must_wake p' then ShWake else ShReturned true]> (shutdowns p)) p').
Proof.
  intros [I1 I2 I3 I4 I5 I6 I7 I8 Iw I9 I10 I11] Hcr E p'.
  assert (Hrel : forall x, (x = ShWake \/ x = ShReturned true) -> released x = true /\ stored x = true
    /\ closed x = true) by (intros x [->| ->]; done).
  set (x := if must_wake p' then ShWake else ShReturned true).
  destruct (Hrel x) as (H1 & H2 & H3); [unfold x; destruct (must_wake p'); auto|].
  assert (sh_waking x = must_wake p') as Hx by (unfold x; by destruct (must_wake p')).
  specialize (I9 Hcr). specialize (I10 Hcr). clearbody x. unfold p' in *.
  split; simpl; auto; rewrite ?(countb_insert _ _ _ _ _ E), ?H1, ?H2, ?H3; simpl; try lia; auto.
  - rewrite I5. lia.
  - rewrite I6. lia.
  - rewrite Hx, Hcr. simpl. clear -I10 I9. wait_group.
  - rewrite Hcr. simpl. clear -I8 I9. wait_group.
Qed.

Lemma proxy_inv_shutdown_wake i p :
  proxy_inv p -> crashed p = false -> shutdowns p !! i = Some ShWake ->
  proxy_inv (set_shutdowns (<[i := ShReturned true]> (shutdowns p)) (wg_wake p)).
Proof.
  intros Hp Hcr E. pose proof (sh_waking_alone _ _ Hp Hcr E) as Hm.
  destruct Hp as [I1 I2 I3 I4 I5 I6 I7 I8 Iw I9 I10 I11]. specialize (I10 Hcr).
  unfold wg_wake. assert (handlers p = 0) as Ez by (by apply must_wake_zero). rewrite Ez. simpl.
  split; simpl; auto; rewrite ?(countb_insert _ _ _ _ _ E); simpl; try lia; auto; try congruence.
  - rewrite I5. lia.
  - rewrite I6. lia.
  - pose proof (countb_bounds covered (conns p)). lia.
  - intros _. rewrite Hm in I10. unfold must_wake. simpl in *. lia.
Qed.

Lemma proxy_inv_shutdown i p p' :
  proxy_inv p -> crashed p = false -> shutdown_step i p = Some p' -> proxy_inv p'.
Proof.
  intros Hp Hcr Hs. unfold shutdown_step in Hs.
  destruct (shutdowns p !! i) as [[]|] eqn:E; try done; injection Hs as <-;
    try by (apply proxy_inv_shutdown_done || apply proxy_inv_shutdown_wake).
  all: destruct Hp as [I1 I2 I3 I4 I5 I6 I7 I8 Iw I9 I10 I11].
  all: pose proof (countb_bounds stored (shutdowns p)); pose proof (countb_bounds closed (shutdowns p)).
  all: split; simpl in *; auto; rewrite ?(countb_insert _ _ _ _ _ E); simpl; try lia; try by rewrite Hcr.
  - destruct (quit p); simpl; lia.
  - destruct (quit p); simpl; [|lia]. rewrite I5. split; [lia|]. intros _. by apply I5.
  - rewrite I6. destruct (quit p); simpl; lia.
  - destruct (quit p); simpl; lia.
  - intros _. specialize (I10 Hcr). unfold must_wake in *. simpl. destruct (quit p); simpl; lia.
  - rewrite I6. lia.
  - intros _. specialize (I10 Hcr). unfold must_wake in *. simpl. lia.
  - rewrite I5. lia.
  - intros _. specialize (I10 Hcr). unfold must_wake in *. simpl. lia.
Qed.

Lemma proxy_inv_Wait p p' : proxy_inv p -> crashed p = false ->
  wg_Wait p = Some p' \/ wg_resume p = Some p' -> proxy_inv p'.
Proof.
  intros [I1 I2 I3 I4 I5 I6 I7 I8 Iw I9 I10 I11] Hcr [Hs|Hs].
  - unfold wg_Wait in Hs. destruct (Z.eqb_spec (handlers p) 0) as [|Hne]; [done|]. injection Hs as <-.
    split; simpl; auto; try lia; try congruence. intros _. rewrite I10 by done.
    unfold must_wake. simpl. by rewrite (proj2 (Z.eqb_neq _ _) Hne).
  - unfold wg_resume in Hs. destruct (Z.ltb_spec 0 (woken p)); [|done].
    destruct (_ && _); injection Hs as <-; split; simpl; auto; try lia; congruence.
Qed.

Lemma proxy_inv_step c p p' : proxy_inv p -> proxy_step c p = Some p' -> proxy_inv p'.
Proof.
  intros Hi Hs. unfold proxy_step in Hs. destruct (crashed p) eqn:Hcr; [done|].
  destruct c as [ |k r l| | | |i|i c| | | ].
  - destruct Hi as [I1 I2 I3 I4 I5 I6 I7 I8 Iw I9 I10 I11]. destruct (accepting p) eqn:E; try done.
    injection Hs as <-. by split; simpl in *; auto.
  - destruct Hi as [I1 I2 I3 I4 I5 I6 I7 I8 Iw I9 I10 I11]. destruct (accepting p) eqn:E; try done.
    destruct (listening p) eqn:E'; [|done].
    injection Hs as <-. by split; simpl in *; rewrite ?E'; auto.
  - destruct Hi as [I1 I2 I3 I4 I5 I6 I7 I8 Iw I9 I10 I11]. destruct (accepting p) eqn:E; try done.
    injection Hs as <-. by split; simpl in *; auto.
  - by eapply proxy_inv_acceptor.
  - destruct Hi as [I1 I2 I3 I4 I5 I6 I7 I8 Iw I9 I10 I11]. injection Hs as <-.
    split; simpl in *; rewrite ?countb_app; simpl; rewrite ?Z.add_0_r; auto.
  - by eapply proxy_inv_shutdown.
  - destruct (conns p !! i) as [h|] eqn:E; [|done]. simpl in Hs.
    destruct (handler_step c h p) as [r|] eqn:E'; [|done]. injection Hs as <-.
    by eapply proxy_inv_handles.
  - case_any; [|done]. by injection Hs as <-.
  - by eapply proxy_inv_Wait; [| |left].
  - by eapply proxy_inv_Wait; [| |right].
Qed.

Lemma proxy_inv_steps b p : steps proxy_step (proxy_start b) p -> proxy_inv p.
Proof. apply steps_invariant; [apply proxy_inv_step|apply proxy_inv_start]. Qed.

(** Inverting the calls of [Wait] and [Shutdown]. *)
Ltac wait_call Hs :=
  unfold wg_Wait, wg_resume, crash in Hs;
  repeat match type of Hs with context [if ?b then _ else _] => destruct b end; try done;
  injection Hs as <-.
Ltac shutdown_call Hs :=
  unfold shutdown_step, wg_wake, crash in Hs;
  match type of Hs with context [shutdowns ?p !! ?i] => destruct (shutdowns p !! i) as [[]|] end;
  try done; try match type of Hs with context [if ?n =? 0 then _ else _] => destruct (n =? 0) end;
  injection Hs as <-.

Lemma proxyProtocol_step c p p' : proxy_inv p -> proxy_step c p = Some p' ->
  proxyProtocol p' = proxyProtocol p.
Proof.
  intros Hi Hs.
  unfold proxy_step in Hs. destruct (crashed p) eqn:Hcr; [done|].
  destruct c as [ |k r l| | | |i|i c| | | ].
  - by destruct (accepting p); try done; injection Hs as <-.
  - by destruct (accepting p), (listening p); try done; injection Hs as <-.
  - by destruct (accepting p); try done; injection Hs as <-.
  - unfold acceptor_step in Hs. by destruct (accepting p); try done; injection Hs as <-.
  - by injection Hs as <-.
  - by shutdown_call Hs.
  - destruct (conns p !! i) as [h|] eqn:E; [|done]. simpl in Hs.
    destruct (handler_step c h p) as [[h' p1]|] eqn:E'; [|done]. injection Hs as <-.
    destruct (proxy_step_effect _ _ _ _ _ _ Hi Hcr E E') as [_ He].
    by destruct (eff_same _ _ _ _ He) as (_ & _ & _ & _ & _ & Ep).
  - case_any; [|done]. by injection Hs as <-.
  - by wait_call Hs.
  - by wait_call Hs.
Qed.

Lemma proxyProtocol_fixed b p : steps proxy_step (proxy_start b) p -> proxyProtocol p = b.
Proof.
  intros Hs. apply (steps_invariant proxy_step (fun p => proxy_inv p /\ proxyProtocol p = b)
    (proxy_start b)) in Hs; [by destruct Hs| |split; [apply proxy_inv_start|by destruct b]].
  clear. intros c p p' [Hi <-] Hs. split; [by eapply proxy_inv_step|by eapply proxyProtocol_step].
Qed.

Lemma no_covered p : countb covered (conns p) = 0 ->
  forall h, h ∈ conns p -> h_pc h <> AtFuse /\ h_pc h <> AtDone.
Proof.
  intros Hz h Hh. apply list_elem_of_lookup_1 in Hh as [i Hh].
  assert (~ 0 < countb covered (conns p)) as Hn by lia. rewrite countb_pos in Hn.
  split; intros Hp; apply Hn; exists i, h; (split; [done|]); unfold covered; by rewrite Hp.
Qed.

(** *** Calls and threads *)

(** The accept loop and the handlers, as opposed to the calls of other threads. *)
Definition proxy_thread (c : proxy_choice) : bool :=
  match c with
  | CallAccept | CallShutdown | ShutdownSteps _ | WaitReturns | WaitCalls | WaitWakes => false
  | _ => true
  end.

(** The connections taken from the listener so far. *)
Definition taken (p : proxy) : Z :=
  Z.of_nat (length (conns p)) +
  match accepting p with CountingOpen _ _ _ | CountingTotal _ _ _ | Spawning _ _ _ => 1 | _ => 0 end.

(** The proxy's own threads leave the flag, the listener and the calls of
    [Shutdown] alone; they take a connection only from an open listener. *)
Lemma proxy_thread_step c p p' :
  proxy_inv p -> proxy_thread c = true -> proxy_step c p = Some p' ->
  quit p' = quit p /\ listening p' = listening p /\ shutdowns p' = shutdowns p /\
  (accepting p = NotAccepting <-> accepting p' = NotAccepting) /\
  ((taken p' = taken p /\ (crashed p' = true \/ Z.abs (countb covered (conns p') - countb covered (conns p)) <= 1)) \/
   (taken p' = taken p + 1 /\ conns p' = conns p /\ accepting p <> NotAccepting /\ listening p = true)).
Proof.
  intros Hi Hc Hs. unfold proxy_step in Hs. destruct (crashed p) eqn:Hcr; [done|].
  destruct c as [ |k r l| | | |i|i c| | | ]; try done; clear Hc.
  - destruct (accepting p) eqn:E; try done. destruct (listening p) eqn:El; [|done].
    injection Hs as <-. unfold taken. simpl. rewrite E, El. repeat split; try done.
    right. repeat split; try done. lia.
  - destruct (accepting p) eqn:E; try done. injection Hs as <-. unfold taken. simpl. rewrite E.
    repeat split; try done. left. split; [done|]. right. lia.
  - unfold acceptor_step in Hs. destruct (accepting p) eqn:E; try done; injection Hs as <-;
      unfold taken; simpl; rewrite ?E; (repeat split; try done); try (left; split; [lia|right; lia]).
    + by destruct (quit p).
    + left. destruct (quit p); (split; [lia|right; lia]).
    + left. rewrite countb_app, length_app. simpl. split; [lia|right; lia].
  - destruct (conns p !! i) as [h|] eqn:E; [|done]. simpl in Hs.
    destruct (handler_step c h p) as [[h' p1]|] eqn:E'; [|done]. injection Hs as <-. simpl.
    destruct (proxy_step_effect _ _ _ _ _ _ Hi Hcr E E') as [_ He].
    destruct (eff_same _ _ _ _ He) as (Eq & El & Ea & Ec & Es & Ep).
    unfold taken. simpl. rewrite Eq, El, Ea, Ec, Es, length_insert. repeat split; try done. left.
    split; [done|]. right. rewrite (countb_insert _ _ _ _ _ E).
    destruct (covered h), (covered h'); simpl; lia.
Qed.

(** What the proxy's own threads do to the wait group: they leave the waiters alone
    or release them all, and they crash only by an [Add] that finds the counter
    at zero and waiters, or by the proxy header. *)
Lemma proxy_thread_waiting c p p' :
  proxy_inv p -> proxy_thread c = true -> proxy_step c p = Some p' ->
  ((waiters p' = waiters p /\ woken p' = woken p) \/
   (must_wake p = true /\ handlers p' = 0 /\ waiters p' = 0 /\ woken p' = woken p + waiters p)) /\
  (must_wake p = true -> crashed p' = false -> handlers p' = 0) /\
  (crashed p' = true -> handlers p' < 0 \/
     (handlers p = 0 /\ handlers p' = 1 /\ waiters p' = waiters p /\ waiters p <> 0 /\
        exists i h, c = Handles i HandlerSteps /\ conns p !! i = Some h /\ h_pc h = AtAdd) \/
     exists h, h ∈ conns p /\ h_pc h = AtHeader /\
       getProxyProtoHeaderFor (h_remote h) (h_local h) = Panic).
Proof.
  intros Hi Hc Hs. unfold proxy_step in Hs. destruct (crashed p) eqn:Hcr; [done|].
  destruct c as [ |k r l| | | |i|i c| | | ]; try done; clear Hc.
  - destruct (accepting p), (listening p); try done. injection Hs as <-. simpl. rewrite Hcr. split; [auto|split; [|done]]. intros Hm _. by apply must_wake_zero.
  - destruct (accepting p); try done. injection Hs as <-. simpl. rewrite Hcr. split; [auto|split; [|done]]. intros Hm _. by apply must_wake_zero.
  - unfold acceptor_step in Hs. destruct (accepting p); try done; injection Hs as <-; simpl;
      rewrite Hcr; (split; [auto|split; [|done]]); intros Hm _; by apply must_wake_zero.
  - destruct (conns p !! i) as [h|] eqn:E; [|done]. simpl in Hs.
    destruct (handler_step c h p) as [[h' p1]|] eqn:E'; [|done]. injection Hs as <-. simpl.
    destruct (proxy_step_effect _ _ _ _ _ _ Hi Hcr E E') as [_ He]. split; [|split].
    + destruct (eff_wait _ _ _ _ He) as [H|(H1 & H2 & H3 & H4 & _)]; auto.
    + apply (eff_blocked _ _ _ _ He).
    + intros H. destruct (eff_crash _ _ _ _ He H) as [H'|[H'|[H'|(-> & Hpc & Hp)]]]; [congruence|auto| |].
      { destruct H' as (Hpc & H1 & H2 & H3 & H4). right. left. repeat (split; [done|]).
        exists i, h. split; [|done]. unfold handler_step in E'. rewrite Hpc in E'. by destruct c. }
      right. right. exists h. split; [by eapply list_elem_of_lookup_2|done].
Qed.

(** *** Where a handler comes from *)

(** A handler after a step: it was there, it has just been spawned, or the step
    was one of its own. *)
Lemma proxy_step_conns c p p' i h' :
  proxy_step c p = Some p' -> conns p' !! i = Some h' ->
  conns p !! i = Some h' \/
  (exists k r l, accepting p = Spawning k r l /\ h' = spawn k r l /\ conns p !! i = None) \/
  (exists hc h p1, c = Handles i hc /\ conns p !! i = Some h /\ handler_step hc h p = Some (h', p1)).
Proof.
  intros Hs Hi. unfold proxy_step in Hs. destruct (crashed p); [done|].
  destruct c as [ |k r l| | | |j|j c| | | ].
  - destruct (accepting p); try done. injection Hs as <-. auto.
  - destruct (accepting p), (listening p); try done. injection Hs as <-. auto.
  - destruct (accepting p); try done. injection Hs as <-. auto.
  - unfold acceptor_step in Hs. destruct (accepting p) eqn:Ea; try done; injection Hs as <-; auto.
    simpl in Hi. destruct (decide (i < length (conns p))%nat) as [Hlt|Hge].
    { rewrite lookup_app_l in Hi by done. auto. }
    rewrite lookup_app_r in Hi by lia. destruct (i - length (conns p))%nat eqn:E; simplify_eq/=.
    right. left. eexists _, _, _. split; [done|]. split; [done|]. apply lookup_ge_None. lia.
  - injection Hs as <-. auto.
  - shutdown_call Hs; auto.
  - destruct (conns p !! j) as [h|] eqn:E; [|done]. simpl in Hs.
    destruct (handler_step c h p) as [[h1 p1]|] eqn:E'; [|done]. injection Hs as <-. simpl in Hi.
    destruct (handler_step_shared _ _ _ _ _ E') as [_ Ec]. rewrite Ec in Hi.
    destruct (decide (i = j)) as [->|Hne]; [|rewrite list_lookup_insert_ne in Hi by done; auto].
    rewrite list_lookup_insert_eq in Hi by (by eapply lookup_lt_Some). injection Hi as <-.
    right. right. by exists c, h, p1.
  - case_any; [|done]. injection Hs as <-. auto.
  - wait_call Hs; auto.
  - wait_call Hs; auto.
Qed.

(** What a step of a handler does to its connections: their types stay, and a
    backend appears only when the dialer has returned one. *)
Lemma handler_step_conns c h p h' p' : handler_step c h p = Some (h', p') ->
  c_kind (h_conn h') = c_kind (h_conn h) /\
  match h_backend h' with
  | None => True
  | Some b' =>
    (exists b, h_backend h = Some b /\ c_kind b' = c_kind b) \/
    (h_pc h = AtDial /\ c = DialAnswers (inl (c_kind b')))
  end.
Proof.
  intros Hs. unfold handler_step in Hs. destruct (h_pc h) eqn:E, c; try done.
  - destruct (forceHandshake _ _ _ _) as [err []]; injection Hs as <- <-; simpl;
      (split; [done|]); destruct (h_backend h); eauto.
  - injection Hs as <- <-. split; [done|]. simpl. destruct (h_backend h); eauto.
  - destruct r as [k|e]; injection Hs as <- <-; simpl; (split; [done|]); [by right|].
    destruct (h_backend h); eauto.
  - destruct (getProxyProtoHeaderFor _ _), (h_backend h) eqn:Eb, r; injection Hs as <- <-; simpl;
      rewrite ?Eb; (split; [done|]); eauto.
  - injection Hs as <- <-. split; [done|]. simpl. destruct (h_backend h); eauto.
  - injection Hs as <- <-. split; [done|]. simpl. destruct (h_backend h); eauto.
  - destruct (h_backend h) as [b|] eqn:Eb; [|done]. simpl in Hs.
    destruct (pipe_step _ _) as [q|] eqn:Eq; [|done]. injection Hs as <- <-. simpl.
    destruct (kinds_step _ _ _ Eq) as [-> ->]. simpl. eauto.
  - destruct (h_backend h) as [b|] eqn:Eb; [|done]. simpl in Hs. destruct (fuse_returns _); [|done].
    injection Hs as <- <-. simpl. rewrite Eb. eauto.
  - injection Hs as <- <-. split; [done|]. simpl. destruct (h_backend h); eauto.
  - injection Hs as <- <-. split; [done|]. simpl. destruct (h_backend h); eauto.
  - injection Hs as <- <-. split; [done|]. simpl. destruct (h_backend h); eauto.
  - injection Hs as <- <-. split; [done|]. simpl. destruct (h_backend h); eauto.
Qed.

(** What a step of a handler does to the streams of its connections. *)
Definition handler_input (f : pipe_choice -> list Z * bool) (c : handler_choice) : list Z * bool :=
  match c with PipeSteps c => f c | _ => ([], false) end.

Lemma handler_step_streams b c h p h' p' : handler_inv b h -> handler_step c h p = Some (h', p') ->
  grows (h_conn h) (h_conn h') /\ receives (handler_input client_input c) (h_conn h) (h_conn h') /\
  match h_backend h, h_backend h' with
  | Some back, Some back' => grows back back' /\ receives (handler_input backend_input c) back back'
  | Some _, None => False
  | None, Some back' => exists k, back' = new_conn k []
  | None, None => True
  end.
Proof.
  intros Hi Hs. pose proof (fun c => PreOrder_Reflexive (R := grows) c) as Hg.
  assert (Hsame : h_conn h' = h_conn h -> h_backend h' = h_backend h ->
    handler_input client_input c = ([], false) -> handler_input backend_input c = ([], false) ->
    grows (h_conn h) (h_conn h') /\ receives (handler_input client_input c) (h_conn h) (h_conn h') /\
    match h_backend h, h_backend h' with
    | Some back, Some back' => grows back back' /\ receives (handler_input backend_input c) back back'
    | Some _, None => False
    | None, Some back' => exists k, back' = new_conn k []
    | None, None => True
    end).
  { intros -> -> -> ->. split; [done|]. split; [apply receives_refl|].
    destruct (h_backend h); [|done]. split; [done|apply receives_refl]. }
  unfold handler_step in Hs. destruct (h_pc h) eqn:E, c; try done; try (by injection Hs as <- <-; apply Hsame).
  - destruct (forceHandshake _ _ _ _) as [err []]; injection Hs as <- <-; by apply Hsame.
  - destruct r as [k|e]; injection Hs as <- <-; [|by apply Hsame]. unfold handler_inv in Hi.
    rewrite E in Hi. destruct Hi as [_ ->]. split; [done|]. split; [apply receives_refl|]. by exists k.
  - unfold handler_inv in Hi. rewrite E in Hi. destruct Hi as (_ & _ & kb & Hb). rewrite Hb in *.
    assert (Hput : forall l, grows (new_conn kb []) (put_bytes l (new_conn kb [])) /\
      receives ([], false) (new_conn kb []) (put_bytes l (new_conn kb [])))
      by (intros l; split; [by exists l|by split]).
    destruct (getProxyProtoHeaderFor _ _), r; injection Hs as <- <-; simpl; rewrite ?Hb;
      (split; [done|split; [apply receives_refl|]]); try apply Hput; split; done || apply receives_refl.
  - destruct (h_backend h) as [back|] eqn:Eb; [|done]. simpl in Hs.
    destruct (pipe_step _ _) as [q|] eqn:Eq; [|done]. injection Hs as <- <-. simpl.
    apply pipe_step_conns in Eq as (G1 & G2 & R1 & R2). by split; [|split].
  - destruct (h_backend h) as [back|] eqn:Eb; [|done]. simpl in Hs. destruct (fuse_returns _); [|done].
    injection Hs as <- <-. by apply Hsame.
  - injection Hs as <- <-. simpl. split; [by exists []; rewrite app_nil_r|].
    split; [by split; simpl; rewrite ?app_nil_r, ?orb_false_r|].
    destruct (h_backend h); [|done]. split; [done|apply receives_refl].
Qed.

(** The types of the accepted connections. *)
Definition kinds_ok (P : kind -> Prop) (p : proxy) : Prop :=
  Forall (fun h => P (c_kind (h_conn h))) (conns p) /\
  match accepting p with
  | CountingOpen k _ _ | CountingTotal k _ _ | Spawning k _ _ => P k
  | _ => True
  end.

Lemma kinds_ok_step (P : kind -> Prop) c p p' :
  match c with AcceptReturns k _ _ => P k | _ => True end ->
  kinds_ok P p -> proxy_step c p = Some p' -> kinds_ok P p'.
Proof.
  intros Hc [H1 H2] Hs. split.
  - apply Forall_lookup_2. intros i h' Hi.
    destruct (proxy_step_conns _ _ _ _ _ Hs Hi)
      as [Ho|[(k & r & l & Ea & -> & _)|(hc & h & p1 & _ & Ho & Hh)]].
    + by apply (Forall_lookup_1 _ _ _ _ H1 Ho).
    + by rewrite Ea in H2.
    + destruct (handler_step_conns _ _ _ _ _ Hh) as [-> _]. by apply (Forall_lookup_1 _ _ _ _ H1 Ho).
  - unfold proxy_step in Hs. destruct (crashed p); [done|]. destruct c as [ |k r l| | | |j|j c| | | ].
    + destruct (accepting p); try done. by injection Hs as <-.
    + destruct (accepting p), (listening p); try done. by injection Hs as <-.
    + destruct (accepting p); try done. by injection Hs as <-.
    + unfold acceptor_step in Hs. destruct (accepting p); try done; injection Hs as <-; try done.
      simpl. by destruct (quit p).
    + by injection Hs as <-.
    + by shutdown_call Hs.
    + destruct (conns p !! j) as [h|] eqn:E; [|done]. simpl in Hs.
      destruct (handler_step c h p) as [[h1 p1]|] eqn:E'; [|done]. injection Hs as <-. simpl.
      by destruct (handler_step_shared _ _ _ _ _ E') as [-> _].
    + destruct (handlers p =? 0); [|done]. by injection Hs as <-.
    + by wait_call Hs.
    + by wait_call Hs.
Qed.

(** *** Timeouts *)

(** A handler whose handshake has failed and is about to be counted as an error. *)
Definition failing (h : handler) : bool := match h_pc h with AtCountError => true | _ => false end.

Lemma handler_step_errors c h p h' p' : handler_step c h p = Some (h', p') ->
  timeoutCounter (metrics p') + errorCounter (metrics p) + Z.b2z (failing h) <=
  timeoutCounter (metrics p) + errorCounter (metrics p') + Z.b2z (failing h').
Proof.
  intros Hs. unfold handler_step in Hs. destruct (h_pc h) eqn:E, c; try done;
    try (injection Hs as <- <-; unfold failing; simpl; rewrite ?E; simpl; lia).
  - assert (Ht : (forceHandshake (c_kind (h_conn h)) deadline handshake clear).2 = true ->
      is_Some (forceHandshake (c_kind (h_conn h)) deadline handshake clear).1)
      by (unfold forceHandshake; by destruct (c_kind (h_conn h)), deadline, handshake, clear).
    destruct (forceHandshake _ _ _ _) as [err []]; injection Hs as <- <-; unfold failing; simpl; rewrite E;
      [destruct (Ht eq_refl) as [e He]; simpl in He; rewrite He; simpl; lia|].
    destruct err; simpl; lia.
  - destruct r; injection Hs as <- <-; unfold failing; simpl; rewrite E; simpl;
      [destruct (proxyProtocol p); simpl; lia|lia].
  - destruct (getProxyProtoHeaderFor _ _), (h_backend h), r; injection Hs as <- <-;
      unfold failing; simpl; rewrite E; simpl; lia.
  - destruct (h_backend h); [|done]. simpl in Hs. destruct (pipe_step _ _); [|done].
    injection Hs as <- <-. unfold failing. simpl. lia.
  - destruct (h_backend h); [|done]. simpl in Hs. destruct (fuse_returns _); [|done].
    injection Hs as <- <-. unfold failing. simpl. rewrite E. simpl. lia.
  - injection Hs as <- <-. unfold failing, must_wake. simpl. rewrite E. destruct (_ && _); simpl; lia.
  - injection Hs as <- <-. unfold failing, wg_wake. simpl. rewrite E. destruct (_ =? _); simpl; lia.
Qed.

(** Every timeout is also counted as an error, sooner or later. *)
Lemma timeouts_are_errors b p : steps proxy_step (proxy_start b) p ->
  timeoutCounter (metrics p) <= errorCounter (metrics p) + countb failing (conns p).
Proof.
  apply (steps_invariant proxy_step (fun p =>
    timeoutCounter (metrics p) <= errorCounter (metrics p) + countb failing (conns p)));
    [|destruct b; simpl; unfold countb; simpl; lia].
  clear. intros c p p' Hi Hs. unfold proxy_step in Hs. destruct (crashed p); [done|].
  destruct c as [ |k r l| | | |i|i c| | | ].
  - destruct (accepting p); try done. by injection Hs as <-.
  - destruct (accepting p), (listening p); try done. by injection Hs as <-.
  - destruct (accepting p); try done. by injection Hs as <-.
  - unfold acceptor_step in Hs. destruct (accepting p); try done; injection Hs as <-; simpl; try done; try lia.
    rewrite countb_app. unfold countb at 2. simpl. lia.
  - by injection Hs as <-.
  - by shutdown_call Hs.
  - destruct (conns p !! i) as [h|] eqn:E; [|done]. simpl in Hs.
    destruct (handler_step c h p) as [[h' p1]|] eqn:E'; [|done]. injection Hs as <-. simpl.
    pose proof (handler_step_errors _ _ _ _ _ E').
    destruct (handler_step_shared _ _ _ _ _ E') as [_ ->]. rewrite (countb_insert _ _ _ _ _ E). lia.
  - case_any; [|done]. by injection Hs as <-.
  - by wait_call Hs.
  - by wait_call Hs.
Qed.

(** *** Addresses *)

Definition is_tcp (a : Addr) : bool := match a with TCPAddr _ _ _ => true | OtherAddr _ _ => false end.

Definition addresses_ok (p : proxy) : Prop :=
  Forall (fun h => is_tcp (h_remote h) && is_tcp (h_local h) = true) (conns p) /\
  match accepting p with
  | CountingOpen _ r l | CountingTotal _ r l | Spawning _ r l => is_tcp r && is_tcp l = true
  | _ => True
  end.

Lemma handler_step_addresses c h p h' p' : handler_step c h p = Some (h', p') ->
  h_remote h' = h_remote h /\ h_local h' = h_local h.
Proof.
  intros Hs. unfold handler_step in Hs. destruct (h_pc h), c; try done;
    try (by injection Hs as <- <-).
  - destruct (forceHandshake _ _ _ _) as [err []]; by injection Hs as <- <-.
  - destruct r; by injection Hs as <- <-.
  - by destruct (getProxyProtoHeaderFor _ _), (h_backend h), r; injection Hs as <- <-.
  - destruct (h_backend h); [|done]. simpl in Hs. destruct (pipe_step _ _); [|done].
    by injection Hs as <- <-.
  - destruct (h_backend h); [|done]. simpl in Hs. destruct (fuse_returns _); [|done].
    by injection Hs as <- <-.
Qed.

Lemma addresses_step c p p' :
  match c with AcceptReturns _ r l => is_tcp r && is_tcp l = true | _ => True end ->
  addresses_ok p -> proxy_step c p = Some p' -> addresses_ok p'.
Proof.
  intros Hc [H1 H2] Hs. unfold proxy_step in Hs. destruct (crashed p); [done|].
  destruct c as [ |k r l| | | |i|i c| | | ].
  - destruct (accepting p); try done. by injection Hs as <-.
  - destruct (accepting p), (listening p); try done. by injection Hs as <-.
  - destruct (accepting p); try done. by injection Hs as <-.
  - unfold acceptor_step in Hs. destruct (accepting p); try done; injection Hs as <-; try done.
    + split; [done|]. simpl. by destruct (quit p).
    + split; [|done]. apply Forall_app. split; [done|]. by repeat constructor.
  - by injection Hs as <-.
  - by shutdown_call Hs.
  - destruct (conns p !! i) as [h|] eqn:E; [|done]. simpl in Hs.
    destruct (handler_step c h p) as [[h' p1]|] eqn:E'; [|done]. injection Hs as <-.
    destruct (handler_step_shared _ _ _ _ _ E') as [Ea Ec].
    destruct (handler_step_addresses _ _ _ _ _ E') as [Er El].
    unfold addresses_ok. simpl. rewrite Ea, Ec. split; [|done]. apply Forall_insert; [done|].
    rewrite Er, El. by eapply (Forall_lookup_1 _ _ _ _ H1).
  - case_any; [|done]. by injection Hs as <-.
  - by wait_call Hs.
  - by wait_call Hs.
Qed.

(** With a single [Shutdown] and TCP addresses, the proxy's own threads crash only by
    an [Add] that finds waiters and the counter at zero. *)
Lemma thread_crash c p p' :
  proxy_inv p -> proxy_thread c = true -> proxy_step c p = Some p' ->
  countb released (shutdowns p) <= 1 -> (proxyProtocol p = true -> addresses_ok p) ->
  crashed p' = true ->
  handlers p = 0 /\ handlers p' = 1 /\ waiters p' = waiters p /\ waiters p <> 0 /\
  exists i h, c = Handles i HandlerSteps /\ conns p !! i = Some h /\ h_pc h = AtAdd.
Proof.
  intros Hi Hc Hs Hr Ha Hcr. destruct (proxy_thread_waiting _ _ _ Hi Hc Hs) as (_ & _ & Hw).
  destruct (Hw Hcr) as [Hn|[H|(h & Hh & Hpc & Hp)]]; [|done|].
  - destruct (proxy_thread_step _ _ _ Hi Hc Hs) as (_ & _ & Es & _).
    pose proof (inv_wg _ (proxy_inv_step _ _ _ Hi Hs)) as I1. rewrite Es in I1.
    pose proof (countb_bounds covered (conns p')). lia.
  - pose proof (inv_handlers _ Hi) as I7. rewrite Forall_forall in I7. specialize (I7 h Hh).
    unfold handler_inv in I7. rewrite Hpc in I7. destruct I7 as (_ & Hpp & _).
    destruct (Ha Hpp) as [Hf _]. rewrite Forall_forall in Hf. specialize (Hf h Hh).
    by destruct (h_remote h), (h_local h).
Qed.

(** When the counter is at zero the unit of [New] has been given back, and nothing is
    being forwarded. *)
Lemma drained p : proxy_inv p -> handlers p = 0 ->
  0 < countb released (shutdowns p) /\
  (countb released (shutdowns p) <= 1 -> countb covered (conns p) = 0).
Proof.
  intros Hi E. pose proof (inv_wg _ Hi). pose proof (countb_bounds covered (conns p)). lia.
Qed.

(** Whoever gives the unit back has set the flag and closed the listener. *)
Lemma released_stopped p : proxy_inv p -> 0 < countb released (shutdowns p) ->
  quit p = true /\ listening p = false.
Proof.
  intros Hi Hr. assert (countb released (shutdowns p) <= countb stored (shutdowns p))
    by (apply countb_le; by intros [| | | | |[]]).
  assert (countb released (shutdowns p) <= countb closed (shutdowns p))
    by (apply countb_le; by intros [| | | | |[]]).
  split; [apply (inv_quit _ Hi); lia|apply (inv_listening _ Hi); lia].
Qed.

Lemma released_committed l : countb released l <= countb committed l.
Proof. apply countb_le. by intros [| | | | |[]]. Qed.

(** ** Claims *)

(** C14. The books are balanced, in every interleaving. The wait group counts
    the one unit of [New] until a [Shutdown] takes it back, plus exactly the
    handlers that are forwarding data; [accept.total] counts the connections
    accepted and [conn.open] those whose handler has not come to its end;
    [accept.success] counts those that reached the backend, so that when all
    handlers are over, no connection is open and each of the accepted ones was
    either served or turned away. Every handshake that times out ([accept.timeout])
    is also counted in [accept.error], by the handler's next step. *)
Theorem proxy_accounting (proxyProto : bool) (p : proxy) :
  steps proxy_step (proxy_start proxyProto) p ->
  handlers p = 1 - countb released (shutdowns p) + countb covered (conns p) /\
  openCounter (metrics p) = countb active (conns p) + in_flight (accepting p) /\
  totalCounter (metrics p) = Z.of_nat (length (conns p)) + spawning (accepting p) /\
  successCounter (metrics p) = countb served (conns p) /\
  timeoutCounter (metrics p) <= errorCounter (metrics p) + countb failing (conns p) /\
  (forallb (fun h => bool_decide (h_pc h = Finished)) (conns p) = true ->
   in_flight (accepting p) = 0 ->
   openCounter (metrics p) = 0 /\
   totalCounter (metrics p) = successCounter (metrics p)
     + countb (fun h => over h && negb (served h)) (conns p)).
Proof.
  intros Hs. pose proof (timeouts_are_errors _ _ Hs) as Ht.
  apply proxy_inv_steps in Hs as [I1 I2 I3 I4 _ _ _ _ _ _ _ _].
  split; [lia|]. split; [done|]. split; [done|]. split; [done|]. split; [done|]. clear Ht.
  intros Hall Hfl. rewrite I2, I3, I4, Hfl.
  assert (spawning (accepting p) = 0) as -> by (by destruct (accepting p)).
  clear -Hall. induction (conns p) as [|h l IH]; simpl in *; [done|].
  bool_prop. destruct (IH H0) as [IH1 IH2]. unfold active at 1, over at 1. rewrite H. simpl.
  split; [lia|]. destruct (served h); simpl; lia.
Qed.

(** A call of [Wait] returns in the next step: one that begins, or one that was
    blocked and has been released. *)
Definition wait_may_return (p : proxy) : Prop :=
  is_Some (proxy_step WaitReturns p) \/
  exists p', proxy_step WaitWakes p = Some p' /\ crashed p' = false.

(** C13. [Wait] returns only after the shutdown and the drain, whether it was blocked
    or finds the counter at zero: if it can return
    and no two calls of [Shutdown] overlapped, then a [Shutdown] has set the
    flag, closed the listener and returned (or has only to wake up other callers
    of [Wait] before it returns), and no handler is forwarding. *)
Theorem wait_returns_after_drain (proxyProto : bool) (p : proxy) :
  steps proxy_step (proxy_start proxyProto) p ->
  wait_may_return p -> countb committed (shutdowns p) <= 1 ->
  quit p = true /\ listening p = false /\
  (ShReturned true ∈ shutdowns p \/ ShWake ∈ shutdowns p /\ 0 < waiters p) /\
  (forall h, h ∈ conns p -> h_pc h <> AtFuse /\ h_pc h <> AtDone).
Proof.
  intros Hs%proxy_inv_steps Hw Hc. pose proof (released_committed (shutdowns p)) as Hrc.
  assert (Hcr : crashed p = false).
  { destruct Hw as [[? Hw]|(? & Hw & _)]; unfold proxy_step in Hw; by destruct (crashed p). }
  assert (E : handlers p = 0).
  { destruct Hw as [[? Hw]|(p' & Hw & Hn)]; unfold proxy_step in Hw; rewrite Hcr in Hw.
    - by destruct (Z.eqb_spec (handlers p) 0).
    - unfold wg_resume in Hw. destruct (0 <? woken p); [|done].
      destruct (Z.eqb_spec (handlers p) 0); [done|]. by injection Hw as <-. }
  destruct (drained p Hs E) as [Hr Hd]. destruct (released_stopped p Hs Hr) as [Hq Hl].
  split; [done|]. split; [done|]. split; [|by apply no_covered, Hd; lia].
  apply countb_pos in Hr as (i & [| | | | |[]] & Hi & Hr); try done;
    [right|left; by eapply list_elem_of_lookup_2].
  split; [by eapply list_elem_of_lookup_2|].
  pose proof (sh_waking_alone _ _ Hs Hcr Hi) as Hm. pose proof (inv_waiters _ Hs).
  clear -Hm H. wait_group.
Qed.

(** C17. A shut down proxy stops accepting: once a [Shutdown] has closed the
    listener, the flag is set (it is set before the listener is closed), so
    that the failure of [Accept] ends the loop instead of being counted as an
    error, and no further connection can come in. *)
Theorem shutdown_stops_accepting (proxyProto : bool) (p : proxy) (k : kind) (remote local : Addr) :
  steps proxy_step (proxy_start proxyProto) p -> listening p = false -> crashed p = false ->
  proxy_step (AcceptReturns k remote local) p = None /\
  (accepting p = Accepting -> exists p1 p2,
     proxy_step AcceptFails p = Some p1 /\ proxy_step AcceptorSteps p1 = Some p2 /\
     accepting p2 = StoppedAccepting /\ metrics p2 = metrics p) /\
  (accepting p = StoppedAccepting -> forall p', steps proxy_step p p' ->
     accepting p' = StoppedAccepting /\ length (conns p') = length (conns p)).
Proof.
  intros Hs%proxy_inv_steps Hl Hcr. destruct Hs as [_ _ _ _ I5 I6 _ _ _ _ _ _].
  assert (Hq : quit p = true).
  { apply I5. apply I6 in Hl.
    assert (countb closed (shutdowns p) <= countb stored (shutdowns p))
      by (apply countb_le; by intros [| | | | |[]]). lia. }
  split; [|split].
  - unfold proxy_step. rewrite Hcr, Hl. by destruct (accepting p).
  - intros Ha. unfold proxy_step. rewrite Hcr, Ha. eexists _, _. split; [reflexivity|].
    simpl. rewrite Hcr. unfold acceptor_step. simpl. rewrite Hq. by split.
  - intros Ha p' Hs. apply (steps_invariant proxy_step (fun p' =>
      accepting p' = StoppedAccepting /\ length (conns p') = length (conns p)) p p'); try done.
    clear. intros c p1 p2 [Ha Hn] Hs. unfold proxy_step in Hs. rewrite <- Hn.
    destruct (crashed p1); [done|]. rewrite Ha in Hs. destruct c as [ |k r l| | | |i|i c| | | ]; try done.
    + unfold acceptor_step in Hs. by rewrite Ha in Hs.
    + by injection Hs as <-.
    + by shutdown_call Hs.
    + destruct (conns p1 !! i) as [h|]; [|done]. simpl in Hs.
      destruct (handler_step c h p1) as [[h' p3]|] eqn:E'; [|done]. injection Hs as <-. simpl.
      rewrite length_insert. destruct (handler_step_shared _ _ _ _ _ E') as [-> ->]. done.
    + case_any; [|done]. by injection Hs as <-.
    + by wait_call Hs.
    + by wait_call Hs.
Qed.

(** A handler that will not dial any more. *)
Definition rejected (h : handler) : Prop :=
  h_backend h = None /\
  match h_pc h with AtCountError | AtDecOpen | AtClose | Finished => True | _ => False end.

Lemma rejected_step c h p h' p' :
  rejected h -> handler_step c h p = Some (h', p') -> rejected h'.
Proof.
  intros [Hb Hp] Hs. unfold handler_step in Hs.
  destruct (h_pc h) eqn:E; try done; destruct c; try done; by injection Hs as <- <-.
Qed.

Lemma proxy_step_handler (P : handler -> Prop) i c p p' h :
  (forall c h p h' p', P h -> handler_step c h p = Some (h', p') -> P h') ->
  conns p !! i = Some h -> P h -> proxy_step c p = Some p' ->
  exists h', conns p' !! i = Some h' /\ P h'.
Proof.
  intros HP Hi Hh Hs. unfold proxy_step in Hs. destruct (crashed p); [done|].
  destruct c as [ |k r l| | | |j|j c| | | ].
  - destruct (accepting p); try done. injection Hs as <-. eauto.
  - destruct (accepting p), (listening p); try done. injection Hs as <-. eauto.
  - destruct (accepting p); try done. injection Hs as <-. eauto.
  - unfold acceptor_step in Hs. destruct (accepting p); try done; injection Hs as <-; simpl; eauto.
    exists h. split; [|done]. by apply lookup_app_l_Some.
  - injection Hs as <-. eauto.
  - shutdown_call Hs; simpl; eauto.
  - destruct (conns p !! j) as [hj|] eqn:Ej; [|done]. simpl in Hs.
    destruct (handler_step c hj p) as [[h' p1]|] eqn:E; [|done]. injection Hs as <-. simpl.
    destruct (handler_step_shared _ _ _ _ _ E) as [_ ->].
    destruct (decide (i = j)) as [->|Hne].
    + exists h'. split; [apply list_lookup_insert_eq; by apply lookup_lt_Some in Ej|].
      eapply HP; [|exact E]. congruence.
    + exists h. split; [|done]. by rewrite list_lookup_insert_ne.
  - case_any; [|done]. injection Hs as <-. eauto.
  - wait_call Hs; eauto.
  - wait_call Hs; eauto.
Qed.

(** C15. Nobody gets through without a handshake: when the handshake of a TLS
    connection fails (or the deadline cannot be set or cleared), its handler
    never dials the backend, in whatever way the proxy goes on, and it never
    counts as a handler to wait for. *)
Theorem no_backend_without_handshake (proxyProto : bool) (p p1 p' : proxy) (i : nat) (h : handler)
    (deadline handshake clear : option net_error) :
  steps proxy_step (proxy_start proxyProto) p ->
  conns p !! i = Some h -> c_kind (h_conn h) = TLSConn ->
  deadline <> None \/ handshake <> None \/ clear <> None ->
  proxy_step (Handles i (HandshakeAnswers deadline handshake clear)) p = Some p1 ->
  steps proxy_step p1 p' ->
  exists h', conns p' !! i = Some h' /\ h_backend h' = None /\ covered h' = false.
Proof.
  intros Hreach Hi Hk Hf H1 Hs. apply proxy_inv_steps in Hreach as [_ _ _ _ _ _ I7 _ _ _ _ _].
  pose proof (Forall_lookup_1 _ _ _ _ I7 Hi) as Hinv. unfold handler_inv in Hinv.
  assert (exists h1, conns p1 !! i = Some h1 /\ rejected h1) as (h1 & Hi1 & Hr).
  { unfold proxy_step in H1. destruct (crashed p); [done|]. rewrite Hi in H1. simpl in H1.
    unfold handler_step in H1. destruct (h_pc h) eqn:E; try done. rewrite Hk in H1. simpl in H1.
    destruct Hinv as [_ Hb]. exists (at_pc AtCountError h). split; [|by split].
    assert (Hlt : (i < length (conns p))%nat) by (by apply lookup_lt_Some in Hi).
    destruct deadline as [e|]; [|destruct handshake as [e|]; [|destruct clear as [e|]]];
      simpl in H1; try (destruct (e_timeout e); simpl in H1); try (injection H1 as <-; simpl;
      by apply list_lookup_insert_eq). by destruct Hf as [|[|]]. }
  assert (exists h', conns p' !! i = Some h' /\ rejected h') as (h' & Hi' & Hr').
  { apply (steps_invariant proxy_step (fun p => exists h', conns p !! i = Some h' /\ rejected h')
      p1 p'); [|eauto|done].
    intros c q q' (hq & Hq & Hrq) Hsq. eapply (proxy_step_handler rejected); eauto using rejected_step. }
  exists h'. destruct Hr' as [Hb' Hp']. unfold covered. by destruct (h_pc h').
Qed.

(** What a connection has carried: nothing without a backend; otherwise the
    backend was sent the header of this connection and then what its own client
    sent, cut off somewhere, and the client what the backend sent. *)
Definition carries (proxyProto : bool) (h : handler) : Prop :=
  match h_backend h with
  | None => outbox (h_conn h) = [] /\ h_up h = Reading /\ h_down h = Reading
  | Some b =>
    outbox b `prefix_of` header_of proxyProto h ++ arrived (h_conn h) /\
    outbox (h_conn h) `prefix_of` arrived b /\
    (h_up h = CopierDone false ->
       outbox b = header_of proxyProto h ++ arrived (h_conn h) /\ peer_done (h_conn h) = true) /\
    (h_down h = CopierDone false -> outbox (h_conn h) = arrived b /\ peer_done b = true)
  end.

Lemma reached_carries pp h c : pipe_reached pp h c ->
  outbox (h_conn h) = outbox c -> arrived (h_conn h) = arrived c ->
  peer_done (h_conn h) = peer_done c -> carries pp h.
Proof.
  intros (kb & b & Hb & Hr) Ho Ha Hp. unfold carries. rewrite Hb, Ho, Ha, Hp.
  destruct (pipe_invs _ _ _ _ Hr) as ([Hu Hd] & _). simpl in Hu, Hd.
  split; [by eapply stream_prefix|]. split; [by apply stream_prefix in Hd|].
  destruct Hu as [_ Hu], Hd as [_ Hd]. split; intros E; rewrite E in *; [by destruct Hu|by destruct Hd].
Qed.

Lemma fresh_carries pp h c : fresh h c -> outbox (h_conn h) = outbox c ->
  arrived (h_conn h) = arrived c ->
  (h_backend h = None \/ exists kb n, h_backend h = Some (new_conn kb (take n (header_of pp h)))) ->
  carries pp h.
Proof.
  intros (Hc & Hu & Hd) Ho Ha [Hb|(kb & n & Hb)]; unfold carries; rewrite Hb, Ho, ?Ha, ?Hu, ?Hd, Hc.
  - done.
  - cbn [new_conn outbox arrived]. rewrite app_nil_r. split; [apply prefix_take|]. split; [apply prefix_nil|done].
Qed.

Lemma handler_carries pp h : handler_inv pp h -> carries pp h.
Proof.
  intros Hi. unfold handler_inv in Hi.
  assert (Hall : forall kb, h_backend h = Some (new_conn kb (header_of pp h)) ->
    exists kb n, h_backend h = Some (new_conn kb (take n (header_of pp h)))).
  { intros kb ->. exists kb, (length (header_of pp h)). by rewrite take_ge. }
  assert (Hnil : forall kb, h_backend h = Some (new_conn kb []) ->
    exists kb n, h_backend h = Some (new_conn kb (take n (header_of pp h)))) by (intros kb ->; by exists kb, 0%nat).
  destruct (h_pc h); try (by eapply reached_carries); try (destruct Hi as [Hf Hb]; eapply fresh_carries; naive_solver).
  - destruct Hi as [Hr _]. by eapply reached_carries.
  - destruct Hi as [Hr _]. by eapply reached_carries.
  - destruct Hi as [[Hf Hb]|[Hr _]]; [|by eapply reached_carries]. eapply fresh_carries; naive_solver.
  - destruct Hi as [[Hf Hb]|[Hr _]]; [|by eapply reached_carries]. eapply fresh_carries; naive_solver.
  - destruct Hi as (c & Ec & [[Hf Hb]|[Hr _]]).
    + eapply (fresh_carries pp h c); rewrite ?Ec; try done. naive_solver.
    + eapply (reached_carries pp h c); by rewrite ?Ec.
Qed.

Lemma handlers_carry b p h : steps proxy_step (proxy_start b) p -> h ∈ conns p -> carries b h.
Proof.
  intros Hs Hh. pose proof (proxyProtocol_fixed _ _ Hs) as Hpp.
  apply proxy_inv_steps in Hs. destruct Hs as [_ _ _ _ _ _ I7 _ _ _ _ _]. rewrite Hpp in I7.
  apply handler_carries. by eapply (proj1 (Forall_forall _ _)).
Qed.

(** C11. Connections do not mix, and every handler cleans up. At any time a
    connection without a backend has carried nothing; the backend of another one
    was sent the proxy header of this very connection (nothing without the proxy
    protocol) and then a prefix of what its own client sent, all of it up to its
    end if that direction ended without an error, and likewise the other way. A finished
    handler has closed its client connection. If it was served (and counted in
    [accept.success]) its backend is shut in both directions; if it was turned
    away it has no backend, except that with the proxy protocol a backend whose
    header could not be written is left as it was dialled, open, with nothing sent
    but a part of the header. *)
Theorem handlers_isolated_and_cleaned_up (proxyProto : bool) (p : proxy) (h : handler) :
  steps proxy_step (proxy_start proxyProto) p -> h ∈ conns p ->
  (h_backend h = None -> outbox (h_conn h) = []) /\
  (forall b, h_backend h = Some b ->
     outbox b `prefix_of` header_of proxyProto h ++ arrived (h_conn h) /\
     outbox (h_conn h) `prefix_of` arrived b /\
     (h_up h = CopierDone false ->
        outbox b = header_of proxyProto h ++ arrived (h_conn h) /\ peer_done (h_conn h) = true) /\
     (h_down h = CopierDone false -> outbox (h_conn h) = arrived b /\ peer_done b = true)) /\
  (h_pc h = Finished ->
     rd_open (h_conn h) = false /\ wr_open (h_conn h) = false /\ fd_open (h_conn h) = false /\
     (served h = true ->
        exists b, h_backend h = Some b /\ rd_open b = false /\ wr_open b = false) /\
     (served h = false ->
        h_backend h = None \/ proxyProto = true /\
        exists kb n, h_backend h = Some (new_conn kb (take n (header_of proxyProto h))))).
Proof.
  intros Hs Hh. pose proof (handlers_carry _ _ _ Hs Hh) as Hc. unfold carries in Hc.
  split; [intros Hb; rewrite Hb in Hc; by destruct Hc|].
  split; [intros b Hb; by rewrite Hb in Hc|]. clear Hc.
  pose proof (proxyProtocol_fixed _ _ Hs) as Hpp.
  apply proxy_inv_steps in Hs. destruct Hs as [_ _ _ _ _ _ I7 _ _ _ _ _]. rewrite Hpp in I7.
  rewrite Forall_forall in I7. specialize (I7 h Hh). unfold handler_inv in I7.
  intros E; rewrite E in I7. destruct I7 as (c & Hc & Hcase). rewrite Hc. repeat (split; [done|]).
  assert (Hserved : served h =
    match h_up h, h_down h with CopierDone _, CopierDone _ => true | _, _ => false end)
    by (unfold served; by rewrite E). rewrite Hserved.
  destruct Hcase as [[(_ & Hu & _) Hb]|[(kb & b & Hb & Hr) Hdone]].
  - rewrite Hu. split; [done|]. intros _. destruct Hb as [Hb|Hb]; auto.
  - destruct (pipe_invs _ _ _ _ Hr) as (_ & [_ (B1 & B2 & _)] & _ & Hk). simpl in *.
    destruct (h_up h), (h_down h); try done. split; [|done]. intros _. exists b. by rewrite B1, B2.
Qed.

(** *** The proxy header *)

(** A handler that has written the header, or does not have to. *)
Definition past_header (h : handler) : bool :=
  served h || match h_pc h with AtCountSuccess => true | _ => false end.

Definition addressed (pp : bool) (h : handler) : Prop :=
  pp = true -> past_header h = true -> is_tcp (h_remote h) && is_tcp (h_local h) = true.

Lemma addressed_step c h p h' p' :
  handler_inv (proxyProtocol p) h -> addressed (proxyProtocol p) h ->
  handler_step c h p = Some (h', p') -> addressed (proxyProtocol p) h'.
Proof.
  intros Hi Ha Hs Hpp. specialize (Ha Hpp).
  destruct (handler_step_addresses _ _ _ _ _ Hs) as [-> ->].
  unfold past_header, served in *. unfold handler_inv in Hi.
  unfold handler_step in Hs. destruct (h_pc h) eqn:E, c; try done; simpl in Ha.
  - destruct (forceHandshake _ _ _ _) as [err []]; injection Hs as <- <-; simpl; by destruct err.
  - injection Hs as <- <-. simpl. destruct Hi as [(_ & -> & _) _]. done.
  - destruct Hi as [(_ & Hu & _) _]. rewrite Hpp in Hs.
    destruct r; injection Hs as <- <-; simpl; [done|by rewrite Hu].
  - destruct Hi as [(_ & Hu & _) (_ & kb & Hb)]. rewrite Hb in Hs.
    destruct (getProxyProtoHeaderFor _ _) eqn:Eh, r; injection Hs as <- <-; simpl; rewrite ?Hu, ?E; try done;
      by destruct (h_remote h), (h_local h).
  - injection Hs as <- <-. auto.
  - injection Hs as <- <-. auto.
  - destruct (h_backend h) as [b|]; [|done]. simpl in Hs. destruct (pipe_step _ _); [|done].
    injection Hs as <- <-. auto.
  - destruct (h_backend h) as [b|]; [|done]. simpl in Hs. destruct (fuse_returns _); [|done].
    injection Hs as <- <-. auto.
  - injection Hs as <- <-. auto.
  - injection Hs as <- <-. auto.
  - injection Hs as <- <-. simpl. destruct (h_up h), (h_down h); auto.
  - injection Hs as <- <-. simpl. destruct (h_up h), (h_down h); auto.
Qed.

Lemma handlers_addressed b p h : steps proxy_step (proxy_start b) p -> h ∈ conns p -> addressed b h.
Proof.
  intros Hs Hh. assert (Hall : proxy_inv p /\ Forall (addressed (proxyProtocol p)) (conns p)).
  { revert Hs. apply (steps_invariant proxy_step
      (fun p => proxy_inv p /\ Forall (addressed (proxyProtocol p)) (conns p)));
      [|split; [apply proxy_inv_start|by destruct b; constructor]].
    clear. intros c p p' [Hi Ha] Hs. split; [by eapply proxy_inv_step|].
    assert (Hpp : proxyProtocol p' = proxyProtocol p) by (by eapply proxyProtocol_step).
    apply Forall_lookup_2. intros i h' Hi'. rewrite Hpp.
    destruct (proxy_step_conns _ _ _ _ _ Hs Hi')
      as [Ho|[(k & r & l & Ea & -> & _)|(hc & h & p1 & _ & Ho & Hh)]].
    - by eapply (Forall_lookup_1 _ _ _ _ Ha).
    - done.
    - eapply addressed_step; [|by eapply (Forall_lookup_1 _ _ _ _ Ha)|exact Hh].
      by eapply (Forall_lookup_1 _ _ _ _ (inv_handlers _ Hi)). }
  destruct Hall as [_ Hall]. rewrite (proxyProtocol_fixed _ _ Hs) in Hall.
  rewrite Forall_forall in Hall. auto.
Qed.

(** The backend of a connection past the header has the whole header in front of
    what it was sent. *)
Lemma reached_header pp h c : pipe_reached pp h c -> exists b d,
  h_backend h = Some b /\ outbox b = header_of pp h ++ d.
Proof.
  intros (kb & b & Hb & Hr). exists b. revert Hr.
  set (q := Pipe c b (h_up h) (h_down h)). intros Hr.
  assert (Hg : grows (new_conn kb (header_of pp h)) (backend q)).
  { revert Hr. apply (steps_invariant pipe_step (fun q => grows (new_conn kb (header_of pp h)) (backend q)));
      [|done]. intros ch q1 q2 H Hs. etrans; [exact H|].
    by apply pipe_step_conns in Hs as (_ & G & _). }
  destruct Hg as [d Hd]. exists d. split; [done|]. exact (proj1 Hd).
Qed.

Lemma past_header_outbox pp h : handler_inv pp h -> past_header h = true ->
  exists b d, h_backend h = Some b /\ outbox b = header_of pp h ++ d.
Proof.
  intros Hi Hp. unfold past_header, served in Hp. unfold handler_inv in Hi.
  destruct (h_pc h); try done; simpl in Hp;
    try (destruct Hi as (_ & kb & Hb); by eexists _, []; split; [exact Hb|rewrite app_nil_r]).
  - by eapply reached_header.
  - destruct Hi as [Hr _]. by eapply reached_header.
  - destruct Hi as [Hr _]. by eapply reached_header.
  - destruct Hi as [[(_ & Hu & _) _]|[Hr _]]; [by rewrite Hu in Hp|by eapply reached_header].
  - destruct Hi as [[(_ & Hu & _) _]|[Hr _]]; [by rewrite Hu in Hp|by eapply reached_header].
  - destruct Hi as (c & _ & [[(_ & Hu & _) _]|[Hr _]]); [by rewrite Hu in Hp|by eapply reached_header].
Qed.

(** The proxy does not crash: if at most one call of [Shutdown] finds the
    flag unset, nobody is blocked in [Wait], and the proxy protocol is off or all addresses are TCP
    addresses, no interleaving drives the wait group below zero or fails a
    type assertion. *)
Theorem proxy_never_crashes (proxyProto : bool) (p : proxy) :
  steps proxy_step (proxy_start proxyProto) p -> countb committed (shutdowns p) <= 1 ->
  waiters p = 0 /\ woken p = 0 ->
  (proxyProto = true -> forall h, h ∈ conns p -> exists ip port zone ip' port' zone',
     h_remote h = TCPAddr ip port zone /\ h_local h = TCPAddr ip' port' zone') ->
  crashed p = false.
Proof.
  intros Hs Hc Hnw Ha. pose proof (proxyProtocol_fixed _ _ Hs) as Hpp.
  apply proxy_inv_steps in Hs. destruct Hs as [I1 _ _ _ _ _ _ I8 _ _ _ I11].
  destruct (crashed p); [|done]. exfalso.
  destruct (I11 eq_refl) as [Hn|[Hn|[Hn|(Hp & h & Hh & _ & Hpanic)]]]; [|lia..|].
  - pose proof (released_committed (shutdowns p)). pose proof (countb_bounds covered (conns p)). lia.
  - rewrite Hpp in Hp. destruct (Ha Hp h Hh) as (ip & port & zone & ip' & port' & zone' & Er & El).
    rewrite Er, El in Hpanic. done.
Qed.

(** With a single [Shutdown], giving the unit of [New] back does not panic. *)
Lemma shutdown_no_crash i p p' : proxy_inv p -> crashed p = false ->
  countb committed (shutdowns p) <= 1 -> shutdown_step i p = Some p' -> crashed p' = false.
Proof.
  intros Hi Hcr Hc Hs. unfold shutdown_step in Hs.
  destruct (shutdowns p !! i) as [[]|] eqn:E; try done; injection Hs as <-; try done.
  - pose proof (released_committed (<[i := ShReturned true]> (shutdowns p))) as Hle.
    rewrite !(countb_insert _ _ _ _ _ E) in Hle. simpl in Hle. pose proof (inv_wg _ Hi).
    pose proof (countb_bounds covered (conns p)). simpl. rewrite Hcr. simpl. rewrite andb_false_r, orb_false_r.
    apply Z.ltb_ge. lia.
  - pose proof (sh_waking_alone _ _ Hi Hcr E) as Hm. unfold wg_wake.
    assert (handlers p = 0) as -> by (by apply must_wake_zero). done.
Qed.

(** C6. When the wait group panics: with a single [Shutdown] (and TCP addresses if the
    proxy protocol is on) the proxy panics only in the race of its drain, after the
    shutdown has closed the listener. Either a connection accepted before calls
    [handlers.Add(1)] when the counter has reached zero and a caller of [Wait] is
    still to be released, or that caller has been released and finds the wait
    group in use again, by a connection that is being forwarded or by another
    caller. *)
Theorem panics_in_drain_race (proxyProto : bool) (c : proxy_choice) (p p' : proxy) :
  steps proxy_step (proxy_start proxyProto) p -> proxy_step c p = Some p' -> crashed p' = true ->
  countb committed (shutdowns p) <= 1 -> (proxyProto = true -> addresses_ok p) ->
  quit p = true /\ listening p = false /\
  ((exists i h, c = Handles i HandlerSteps /\ conns p !! i = Some h /\ h_pc h = AtAdd /\
      0 < waiters p /\ forall h', h' ∈ conns p -> covered h' = false) \/
   (c = WaitWakes /\ 0 < woken p /\
      (0 < waiters p \/ exists h, h ∈ conns p /\ covered h = true))).
Proof.
  intros Hs Hst Hcr' Hc Ha. pose proof (proxyProtocol_fixed _ _ Hs) as Hpp.
  apply proxy_inv_steps in Hs as Hi. pose proof (released_committed (shutdowns p)) as Hrc.
  pose proof (inv_waiters _ Hi) as Hw. pose proof (inv_wg _ Hi) as Hg.
  destruct (proxy_thread c) eqn:Ht.
  - destruct (thread_crash c p p' Hi Ht Hst) as (E & _ & _ & Hne & i & h & -> & Hh & Hpc);
      [lia|by rewrite Hpp|done|].
    destruct (drained p Hi E) as [Hr Hz]. destruct (released_stopped p Hi Hr) as [Hq Hl].
    split; [done|]. split; [done|]. left. exists i, h. do 3 (split; [done|]). split; [lia|].
    intros h' Hh'. destruct (no_covered p (Hz ltac:(lia)) h' Hh').
    unfold covered. by destruct (h_pc h').
  - unfold proxy_step in Hst. destruct (crashed p) eqn:Hcr; [done|].
    destruct c as [ | | | | |i|i hc| | | ]; try done.
    + destruct (accepting p); try done. injection Hst as <-. simpl in Hcr'. congruence.
    + injection Hst as <-. simpl in Hcr'. congruence.
    + apply shutdown_no_crash in Hst; auto. congruence.
    + destruct (_ =? _); [|done]. injection Hst as <-. congruence.
    + unfold wg_Wait in Hst. destruct (_ =? _); [done|]. injection Hst as <-. simpl in Hcr'. congruence.
    + unfold wg_resume in Hst. destruct (Z.ltb_spec 0 (woken p)) as [Hk|]; [|done].
      pose proof (inv_woken _ Hi Hk) as Hr. destruct (released_stopped p Hi Hr) as [Hq Hl].
      split; [done|]. split; [done|]. right. do 2 (split; [done|]).
      destruct (Z.eqb_spec (waiters p) 0) as [E|]; [|left; lia]. right.
      destruct (Z.eqb_spec (handlers p) 0) as [E'|E'];
        [injection Hst as <-; simpl in Hcr'; congruence|].
      pose proof (inv_handlers_nonneg _ Hi Hcr).
      assert (0 < countb covered (conns p)) as Hp by lia.
      apply countb_pos in Hp as (i & h & Hh & Hv). exists h. split; [by eapply list_elem_of_lookup_2|done].
Qed.

(** [Shutdown] is not safe to call concurrently: two calls that both find
    the flag unset take two units from the wait group, and the second one
    panics. *)
Theorem concurrent_shutdowns_panic :
  exists cs p, run proxy_step cs (proxy_start false) = Some p /\ conns p = [] /\
  length (shutdowns p) = 2%nat /\ crashed p = true.
Proof.
  exists [CallShutdown; CallShutdown; ShutdownSteps 0; ShutdownSteps 1; ShutdownSteps 0;
          ShutdownSteps 0; ShutdownSteps 0; ShutdownSteps 1; ShutdownSteps 1; ShutdownSteps 1].
  eexists. split; [vm_compute; reflexivity|]. by repeat split.
Qed.

(** [Wait] does not cover connections that are still in their handshake: a
    connection may be accepted before the shutdown, [Wait] may then return, and
    afterwards the handshake succeeds, the backend is dialled and data is
    forwarded. *)
Theorem wait_misses_handshakes (remote local : Addr) (kb : kind) :
  exists cs p, run proxy_step cs (proxy_start false) = Some p /\
  (exists pre post, cs = pre ++ WaitReturns :: post /\
     CallShutdown ∈ pre /\ AcceptReturns TLSConn remote local ∈ pre) /\
  exists h, conns p = [h] /\ h_pc h = AtFuse /\ outbox (h_conn h) = [] /\
  exists b, h_backend h = Some b /\ outbox b = [1].
Proof.
  exists ([CallAccept; AcceptReturns TLSConn remote local; AcceptorSteps; AcceptorSteps; AcceptorSteps;
           CallShutdown; ShutdownSteps 0; ShutdownSteps 0; ShutdownSteps 0; ShutdownSteps 0]
          ++ WaitReturns :: [Handles 0 (HandshakeAnswers None None None);
           Handles 0 (DialAnswers (inl kb)); Handles 0 HandlerSteps; Handles 0 HandlerSteps;
           Handles 0 (PipeSteps (ClientSends [1])); Handles 0 (PipeSteps (Up (ReadSome 1)));
           Handles 0 (PipeSteps (Up WriteAll))]).
  eexists. split; [vm_compute; reflexivity|]. split.
  - eexists _, _. split; [reflexivity|]. rewrite !elem_of_cons. auto 12.
  - eexists. split; [reflexivity|]. split; [done|]. split; [done|]. eexists. by split.
Qed.

(** C37. The proxy header, in every interleaving. With the proxy protocol, the backend
    of every connection that was served was sent the header of this very
    connection before anything else: version 2, the command PROXY, the transport
    declared as TCP over IPv4 whatever the addresses are, the client's address and
    the one it connected to, the ports (unchanged when they are 16-bit numbers);
    what follows is a prefix of what the client sent. Without it the backend was
    sent only such a prefix. *)
Theorem proxy_header_sent (proxyProto : bool) (p : proxy) (h : handler) :
  steps proxy_step (proxy_start proxyProto) p -> h ∈ conns p -> served h = true ->
  exists b d, h_backend h = Some b /\ d `prefix_of` arrived (h_conn h) /\
  if proxyProto then
    exists sIP sPort sZone dIP dPort dZone,
      h_remote h = TCPAddr sIP sPort sZone /\ h_local h = TCPAddr dIP dPort dZone /\
      outbox b = format_header
        {| h_Version := 2; h_Command := PROXY; h_TransportProtocol := TCPv4;
           SourceAddress := sIP; DestinationAddress := dIP;
           SourcePort := uint16 sPort; DestinationPort := uint16 dPort |} ++ d /\
      (0 <= sPort < 65536 -> uint16 sPort = sPort) /\ (0 <= dPort < 65536 -> uint16 dPort = dPort)
  else outbox b = d.
Proof.
  intros Hs Hh Hsv. assert (past_header h = true) as Hp by (unfold past_header; by rewrite Hsv).
  pose proof (handlers_addressed _ _ _ Hs Hh) as Ha. pose proof (handlers_carry _ _ _ Hs Hh) as Hc.
  pose proof (proxyProtocol_fixed _ _ Hs) as Hpp.
  pose proof (inv_handlers _ (proxy_inv_steps _ _ Hs)) as I7. rewrite Hpp, Forall_forall in I7.
  destruct (past_header_outbox _ _ (I7 h Hh) Hp) as (b & d & Hb & Ho).
  exists b, d. split; [done|]. unfold carries in Hc. rewrite Hb, Ho in Hc. destruct Hc as [Hd _].
  apply prefix_app_inv in Hd. split; [done|]. unfold addressed, header_of in *.
  destruct proxyProto; [|done]. specialize (Ha eq_refl Hp).
  destruct (h_remote h) as [sIP sPort sZone|], (h_local h) as [dIP dPort dZone|]; try done.
  exists sIP, sPort, sZone, dIP, dPort, dZone. do 2 (split; [done|]). split; [exact Ho|].
  split; intros; by apply Z.mod_small.
Qed.

End Connections.

(** ** Witnesses *)

(** A header that names the source. *)
Definition toy_header : ProxyProto := fun h => SourceAddress h ++ [SourcePort h].
#[local] Existing Instance toy_header.

(** One TLS client whose handshake fails, one that is served, then a shutdown. *)
Definition here : Addr := TCPAddr [127; 0; 0; 1] 8443 "".
Definition there : Addr := TCPAddr [10; 0; 0; 7] 40000 "".

Definition accept_one : list proxy_choice :=
  [AcceptReturns TLSConn there here; AcceptorSteps; AcceptorSteps; AcceptorSteps].

Definition refuse (i : nat) : list proxy_choice :=
  [Handles i (HandshakeAnswers None (Some (NetError "bad certificate" false)) None);
   Handles i HandlerSteps; Handles i HandlerSteps; Handles i HandlerSteps].

Definition serve (i : nat) : list proxy_choice :=
  [Handles i (HandshakeAnswers None None None); Handles i (DialAnswers (inl TCPConn));
   Handles i HandlerSteps; Handles i HandlerSteps].

Definition finish (i : nat) : list proxy_choice :=
  map (Handles i ∘ PipeSteps) [Up ReadFails; Up ClosesSrc; Up ClosesDst; Down ReadFails;
                               Down ClosesSrc; Down ClosesDst]
  ++ repeat (Handles i HandlerSteps) 4.

Definition shut : list proxy_choice := CallShutdown :: repeat (ShutdownSteps 0) 4.

Definition day : list proxy_choice :=
  CallAccept :: accept_one ++ accept_one ++ refuse 0 ++ serve 1.

Definition whole_day : list proxy_choice := day ++ shut ++ finish 1.

(** A connection with the proxy protocol. *)
Definition serve_header : list proxy_choice :=
  CallAccept :: accept_one ++
  [Handles 0 (HandshakeAnswers None None None); Handles 0 (DialAnswers (inl TCPConn));
   Handles 0 (HeaderWritten 0 None); Handles 0 HandlerSteps].

Definition after_header (cs : list proxy_choice) : proxy :=
  default New (run proxy_step cs (proxy_start true)).

Definition after (cs : list proxy_choice) : proxy :=
  default New (run proxy_step cs (proxy_start false)).

(** The concrete schedules run to their end. *)
Lemma reaches_after cs : run proxy_step cs (proxy_start false) = Some (after cs) ->
  steps proxy_step (proxy_start false) (after cs).
Proof. intros H. apply run_steps. by exists cs. Qed.

Lemma proxy_accounting_witness :
  openCounter (metrics (after whole_day)) = 0 /\
  totalCounter (metrics (after whole_day)) = successCounter (metrics (after whole_day)) + 1.
Proof.
  destruct (proxy_accounting false (after whole_day)) as (_ & _ & _ & _ & _ & H).
  - apply reaches_after. vm_compute. reflexivity.
  - destruct (H ltac:(vm_compute; reflexivity) ltac:(vm_compute; reflexivity)) as [H1 H2].
    split; [exact H1|]. rewrite H2. vm_compute. reflexivity.
Defined.

Lemma wait_returns_after_drain_witness :
  quit (after whole_day) = true /\ listening (after whole_day) = false.
Proof.
  destruct (wait_returns_after_drain false (after whole_day)) as (H1 & H2 & _).
  - apply reaches_after. vm_compute. reflexivity.
  - left. vm_compute. eexists. reflexivity.
  - vm_compute. discriminate.
  - split; [exact H1|exact H2].
Defined.

Lemma shutdown_stops_accepting_witness :
  proxy_step (AcceptReturns TLSConn there here) (after whole_day) = None.
Proof.
  refine (proj1 (shutdown_stops_accepting false (after whole_day) TLSConn there here _ _ _));
    [apply reaches_after|..]; vm_compute; reflexivity.
Defined.

Definition refused_handler : handler := Handler AtHandshake there here (new_conn TLSConn []) None
  Reading Reading.

Lemma no_backend_without_handshake_witness :
  exists h', conns (after (CallAccept :: accept_one ++ refuse 0)) !! 0%nat = Some h' /\
    h_backend h' = None /\ covered h' = false.
Proof.
  refine (no_backend_without_handshake false (after (CallAccept :: accept_one))
    (after (CallAccept :: accept_one ++ take 1 (refuse 0)))
    (after (CallAccept :: accept_one ++ refuse 0)) 0 refused_handler
    None (Some (NetError "bad certificate" false)) None _ _ _ _ _ _).
  - apply reaches_after. vm_compute. reflexivity.
  - vm_compute. reflexivity.
  - reflexivity.
  - right. left. discriminate.
  - vm_compute. reflexivity.
  - apply run_steps. exists (drop 1 (refuse 0)). vm_compute. reflexivity.
Defined.

Lemma handlers_isolated_and_cleaned_up_witness :
  exists h, conns (after whole_day) !! 1%nat = Some h /\ h_pc h = Finished /\
    fd_open (h_conn h) = false.
Proof.
  destruct (conns (after whole_day) !! 1%nat) as [h|] eqn:E; [|vm_compute in E; discriminate E].
  exists h. split; [reflexivity|].
  assert (Hp : h_pc h = Finished) by (vm_compute in E; injection E as <-; reflexivity).
  split; [exact Hp|].
  destruct (handlers_isolated_and_cleaned_up false (after whole_day) h) as (_ & _ & H).
  - apply reaches_after. vm_compute. reflexivity.
  - by eapply list_elem_of_lookup_2.
  - apply (H Hp).
Defined.

Lemma proxy_header_sent_witness :
  exists b, (conns (after_header serve_header) !! 0%nat ≫= h_backend) = Some b /\
  outbox b = [10; 0; 0; 7; 40000].
Proof.
  destruct (conns (after_header serve_header) !! 0%nat) as [h|] eqn:E;
    [|vm_compute in E; discriminate E].
  destruct (proxy_header_sent true (after_header serve_header) h)
    as (b & d & Hb & Hd & sIP & sPort & sZ & dIP & dPort & dZ & Hr & _ & Ho & _ & _).
  - apply run_steps. exists serve_header. vm_compute. reflexivity.
  - by eapply list_elem_of_lookup_2.
  - vm_compute in E. injection E as <-. vm_compute. reflexivity.
  - exists b. split; [exact Hb|]. rewrite Ho. vm_compute in E. injection E as <-.
    vm_compute in Hr. injection Hr as <- <- <-. apply prefix_nil_inv in Hd as ->.
    vm_compute. reflexivity.
Defined.

(** A connection finishes its handshake while the main thread is blocked in [Wait]
    and the last forwarding handler ends. *)
Definition drain_race : list proxy_choice :=
  CallAccept :: accept_one ++ serve 0 ++ accept_one ++ shut ++ WaitCalls ::
  [Handles 1 (HandshakeAnswers None None None); Handles 1 (DialAnswers (inl TCPConn));
   Handles 1 HandlerSteps] ++ take 8 (finish 0).

Lemma panics_in_drain_race_witness :
  exists p', proxy_step (Handles 1 HandlerSteps) (after drain_race) = Some p' /\
  crashed p' = true /\ listening (after drain_race) = false /\ 0 < waiters (after drain_race).
Proof.
  eexists. split; [vm_compute; reflexivity|]. split; [reflexivity|].
  destruct (panics_in_drain_race false (Handles 1 HandlerSteps) (after drain_race) _
    (reaches_after drain_race ltac:(vm_compute; reflexivity)) ltac:(vm_compute; reflexivity)
    ltac:(vm_compute; reflexivity) ltac:(vm_compute; discriminate) ltac:(discriminate))
    as (_ & Hl & [(i & h & _ & _ & _ & Hw & _)|(H & _)]); [by split|discriminate H].
Defined.

Lemma proxy_never_crashes_witness : crashed (after whole_day) = false.
Proof.
  apply (proxy_never_crashes false).
  - apply reaches_after. vm_compute. reflexivity.
  - vm_compute. discriminate.
  - vm_compute. split; reflexivity.
  - discriminate.
Defined.
