(* ===== verification/ConnLog.v ===== *)
(** * The connection log: [logConnectionMessage] of [src/proxy/proxy.go]

    The line the proxy logs when a pipe opens and when it is closed, with the
    texts of its two endpoints as [package net] writes them. The section
    "Reading" is a reader for these texts, the reference the writers are
    checked against. *)
From Stdlib Require Import ZArith Lia.
From stdpp Require Import base list sets strings.
From S2P Require Import Prelude GoStrings Utf8 GoNet Proxy.

Local Open Scope Z_scope.

(** ** Numbers *)

Definition lowerhex (d : Z) : Z := if d <? 10 then 48 + d else 87 + d.

(** The digits of [n] without leading zeros, at most [w] of them. *)
Fixpoint numeral (base : Z) (w : nat) (n : Z) : list Z :=
  match w with
  | O => []
  | S w' => (if n <? base then [] else numeral base w' (n / base)) ++ [lowerhex (n mod base)]
  end.

(** [net.uitoa] on a 64-bit number, which has at most 20 decimal digits, and
    [net.itoa]. *)
Definition uitoa (n : Z) : list Z := numeral 10 20 n.
Definition itoa (n : Z) : list Z := if n <? 0 then 45 :: uitoa (- n) else uitoa n.

(** [net.appendHex] on a 32-bit number. *)
Definition appendHex (n : Z) : list Z := numeral 16 8 n.

(** ** Texts of IP addresses *)

(** [net.hexString]. *)
Definition hexString (b : list Z) : list Z :=
  flat_map (fun c => [lowerhex (c / 16); lowerhex (c mod 16)]) b.

(** The 16-bit groups of an address. *)
Fixpoint ip_groups (ip : list Z) : list Z :=
  match ip with
  | a :: b :: t => a * 256 + b :: ip_groups t
  | _ => []
  end.

(** How many zeros a list starts with. *)
Fixpoint zeros (g : list Z) : nat :=
  match g with
  | 0 :: t => S (zeros t)
  | _ => O
  end.

(** The first longest run of zero groups: the loop of [IP.String] from group
    [i] on, where [best] is the run found so far. *)
Fixpoint longest_run (fuel : nat) (g : list Z) (i : nat) (best : nat * nat) : nat * nat :=
  match fuel with
  | O => best
  | S fuel' =>
    if (length g <=? i)%nat then best
    else
      let n := zeros (drop i g) in
      if (best.2 - best.1 <? n)%nat then longest_run fuel' g (i + n + 1) (i, i + n)%nat
      else longest_run fuel' g (i + 1) best
  end.

(** The hexadecimal form: "::" stands for the longest run of zero groups, if
    it is longer than one group. *)
Definition IPv6_text (g : list Z) : list Z :=
  let '(e0, e1) := longest_run 8 g 0 (0, 0)%nat in
  if (e1 - e0 <=? 1)%nat then join_on 58 (map appendHex g)
  else join_on 58 (map appendHex (take e0 g)) ++ [58; 58] ++ join_on 58 (map appendHex (drop e1 g)).

(** [IP.To4]. *)
Definition IP_To4 (ip : IP) : option IP :=
  if (length ip =? 4)%nat then Some ip
  else if (length ip =? 16)%nat && bool_decide (take 12 ip = v4InV6Prefix) then Some (drop 12 ip)
  else None.

(** [IP.String] on an address that is not empty. *)
Definition IP_String (ip : IP) : list Z :=
  match IP_To4 ip with
  | Some ip4 => join_on 46 (map uitoa ip4)
  | None => if (length ip =? 16)%nat then IPv6_text (ip_groups ip) else 63 :: hexString ip
  end.

(** [net.ipEmptyString]. *)
Definition ipEmptyString (ip : IP) : list Z := match ip with [] => [] | _ => IP_String ip end.

(** [net.JoinHostPort]. *)
Definition JoinHostPort (host port : list Z) : list Z :=
  match byteIndex 58 host with
  | Some _ => [91] ++ host ++ [93; 58] ++ port
  | None => host ++ [58] ++ port
  end.

(** ** The log line *)

(** The [Network] and [String] methods of an address. *)
Definition Addr_Network (a : Addr) : string :=
  match a with TCPAddr _ _ _ => "tcp" | OtherAddr network _ => network end.

Definition Addr_String (a : Addr) : string :=
  match a with
  | TCPAddr ip port zone =>
    let ip := ipEmptyString ip in
    of_bytes (if negb (String.eqb zone "") then JoinHostPort (ip ++ [37] ++ bytes zone) (itoa port)
              else JoinHostPort ip (itoa port))
  | OtherAddr _ name => name
  end.

(** The text [logConnectionMessage] gives to the logger; [dst] and [src] are the
    remote addresses of the two connections. *)
Definition logConnectionMessage (action : string) (dst src : Addr) : string :=
  action +:+ " pipe: " +:+ Addr_Network dst +:+ ":" +:+ Addr_String dst +:+ " <-> " +:+
  Addr_Network src +:+ ":" +:+ Addr_String src.

Example IP_String_exs : map (fun ip => of_bytes (IP_String ip))
  [[127; 0; 0; 1]; v4InV6Prefix ++ [10; 0; 0; 7]; replicate 16 0;
   [0x20; 0x01; 0x0d; 0xb8; 0; 0; 0; 0; 0; 1; 0; 0; 0; 0; 0; 1];
   [0x20; 0x01; 0; 0; 0; 0; 0; 1; 0; 0; 0; 0; 0; 0; 0; 0];
   [0x20; 0x01; 0; 1; 0; 1; 0; 1; 0; 1; 0; 1; 0; 1; 0; 0]; [1; 2; 0xab]]
  = ["127.0.0.1"; "10.0.0.7"; "::"; "2001:db8::1:0:0:1"; "2001:0:0:1::"; "2001:1:1:1:1:1:1:0"; "?0102ab"].
Proof. reflexivity. Qed.

Example logConnectionMessage_ex :
  logConnectionMessage "opening" (TCPAddr [10; 0; 0; 7] 40000 "")
    (TCPAddr (0xfe :: 0x80 :: replicate 13 0 ++ [1]) 8080 "eth0")
  = "opening pipe: tcp:10.0.0.7:40000 <-> tcp:[fe80::1%eth0]:8080".
Proof. reflexivity. Qed.

(** ** Reading *)

Definition value (base : Z) (l : list Z) : Z :=
  foldl (fun a c => a * base + default 0 (unhex c)) 0 l.

Definition hex_digit (c : Z) : Prop := 48 <= c <= 57 \/ 97 <= c <= 102.

(** The fields before the first empty one, and the others that are not empty. *)
Fixpoint before_empty (fs : list (list Z)) : list (list Z) :=
  match fs with
  | [] | [] :: _ => []
  | f :: t => f :: before_empty t
  end.

Fixpoint after_empty (fs : list (list Z)) : list (list Z) :=
  match fs with
  | [] => []
  | [] :: t => filter (fun f => f <> []) t
  | _ :: t => after_empty t
  end.

(** The eight groups of a hexadecimal form. *)
Definition read_groups (text : list Z) : list Z :=
  let fs := split_on 58 text in
  let a := before_empty fs in
  let b := after_empty fs in
  map (value 16) a ++ replicate (8 - length a - length b) 0 ++ map (value 16) b.

(** The 16-byte form of an address, of a text with a dot or with colons. *)
Definition read_IP (text : list Z) : IP :=
  if bool_decide (46 ∈ text) then v4InV6Prefix ++ map (value 10) (split_on 46 text)
  else flat_map (fun g => [g / 256; g mod 256]) (read_groups text).

(** *** Numbers *)

Lemma unhex_lowerhex d : 0 <= d < 16 -> unhex (lowerhex d) = Some d.
Proof.
  intros H. unfold unhex, lowerhex, between.
  destruct (Z.ltb_spec d 10); repeat case_match; bool_prop; f_equal; lia.
Qed.

Lemma lowerhex_digit d : 0 <= d < 16 -> hex_digit (lowerhex d).
Proof. intros H. unfold hex_digit, lowerhex. destruct (Z.ltb_spec d 10); lia. Qed.

Lemma numeral_digits base w n : 2 <= base <= 16 -> Forall hex_digit (numeral base w n).
Proof.
  intros Hb. revert n. induction w as [|w IH]; intros n; simpl; [constructor|].
  apply Forall_app. split; [case_match; [constructor|apply IH]|].
  constructor; [|constructor]. apply lowerhex_digit.
  pose proof (Z.mod_pos_bound n base). lia.
Qed.

Lemma numeral_nonempty base w n : numeral base (S w) n <> [].
Proof. simpl. by destruct (if n <? base then _ else _). Qed.

Lemma value_snoc base l d : 0 <= d < 16 ->
  value base (l ++ [lowerhex d]) = value base l * base + d.
Proof. intros Hd. unfold value. rewrite foldl_app. simpl. by rewrite unhex_lowerhex. Qed.

Lemma value_numeral base w n : 2 <= base <= 16 -> 0 <= n < base ^ Z.of_nat w ->
  value base (numeral base w n) = n.
Proof.
  intros Hb. revert n. induction w as [|w IH]; intros n Hn.
  { change (base ^ Z.of_nat 0) with 1 in Hn. change (0 = n). lia. }
  cbn [numeral]. rewrite value_snoc by (pose proof (Z.mod_pos_bound n base); lia).
  rewrite Nat2Z.inj_succ, Z.pow_succ_r in Hn by lia. destruct (Z.ltb_spec n base) as [Hlt|Hge].
  - change (value base []) with 0. rewrite Z.mod_small; lia.
  - rewrite IH.
    + rewrite Z.mul_comm. symmetry. apply Z.div_mod. lia.
    + split; [apply Z.div_pos; lia|]. apply Z.div_lt_upper_bound; lia.
Qed.

Lemma value_uitoa n : 0 <= n < 10 ^ 20 -> value 10 (uitoa n) = n.
Proof. intros H. apply (value_numeral 10 20); [lia|]. exact H. Qed.

Lemma value_appendHex n : 0 <= n < 65536 -> value 16 (appendHex n) = n.
Proof. intros H. apply value_numeral; [lia|]. split; [lia|]. change (16 ^ Z.of_nat 8) with (2 ^ 32). lia. Qed.

Lemma hex_digit_not l c : Forall hex_digit l -> ~ hex_digit c -> c ∉ l.
Proof. intros Hl Hc Hin. apply Hc. by eapply (proj1 (Forall_forall _ _)). Qed.

Lemma map_value_numerals base w g : 2 <= base <= 16 ->
  Forall (fun n => 0 <= n < base ^ Z.of_nat w) g -> map (value base) (map (numeral base w) g) = g.
Proof.
  intros Hb Hg. induction Hg as [|n g Hn Hg IH]; [done|]. cbn [map]. f_equal; [|done].
  by apply value_numeral.
Qed.

Lemma numerals_free base w g x : 2 <= base <= 16 -> ~ hex_digit x ->
  Forall (fun f => x ∉ f) (map (numeral base w) g).
Proof.
  intros Hb Hx. apply Forall_forall. intros f (n & -> & _)%list_elem_of_fmap.
  apply hex_digit_not; [by apply numeral_digits|done].
Qed.

(** *** Addresses *)

Lemma zeros_spec g : take (zeros g) g = replicate (zeros g) 0 /\ (zeros g <= length g)%nat.
Proof.
  induction g as [|[|p|p] g [IH1 IH2]]; simpl; try (split; [done|lia]).
  split; [by rewrite IH1|lia].
Qed.

(** What the loop returns is a run of zeros. *)
Definition zero_run (g : list Z) (e : nat * nat) : Prop :=
  (e.1 <= e.2 <= length g)%nat /\ take (e.2 - e.1) (drop e.1 g) = replicate (e.2 - e.1) 0.

Lemma longest_run_zeros fuel g i best :
  zero_run g best -> zero_run g (longest_run fuel g i best).
Proof.
  revert i best. induction fuel as [|fuel IH]; intros i best Hb; simpl; [done|].
  destruct (Nat.leb_spec (length g) i); [done|]. case_match; [|by apply IH].
  apply IH. pose proof (zeros_spec (drop i g)) as [H1 H2]. rewrite length_drop in H2.
  split; simpl; [lia|]. by replace (i + zeros (drop i g) - i)%nat with (zeros (drop i g)) by lia.
Qed.

Lemma zeros_drop g j : (j <= zeros g)%nat -> zeros (drop j g) = (zeros g - j)%nat.
Proof.
  revert g. induction j as [|j IH]; intros g Hj; [by rewrite drop_0, Nat.sub_0_r|].
  destruct g as [|[|p|p] g]; simpl in *; try lia. apply IH. lia.
Qed.

(** Fuel for every group is enough: no run of zeros is longer. *)
Lemma longest_run_max fuel g i best : (length g <= i + fuel)%nat ->
  let e := longest_run fuel g i best in
  (best.2 - best.1 <= e.2 - e.1)%nat /\
  forall j, (i <= j)%nat -> (zeros (drop j g) <= e.2 - e.1)%nat.
Proof.
  revert i best. induction fuel as [|fuel IH]; intros i best Hf; cbn [longest_run].
  { split; [done|]. intros j Hj. rewrite drop_ge by lia. simpl. lia. }
  destruct (Nat.leb_spec (length g) i).
  { split; [done|]. intros j Hj. rewrite drop_ge by lia. simpl. lia. }
  set (n := zeros (drop i g)). destruct (Nat.ltb_spec (best.2 - best.1) n) as [Hn|Hn].
  - destruct (IH (i + n + 1) (i, i + n) ltac:(lia))%nat as [H1 H2]. cbn [fst snd] in H1.
    split; [lia|]. intros j Hj. destruct (Nat.le_gt_cases j (i + n)) as [Hle|Hgt]; [|apply H2; lia].
    replace j with (i + (j - i))%nat by lia. rewrite <- drop_drop, zeros_drop; fold n; lia.
  - destruct (IH (i + 1)%nat best ltac:(lia)) as [H1 H2]. split; [done|].
    intros j Hj. destruct (decide (j = i)) as [->|]; [fold n; lia|apply H2; lia].
Qed.

Lemma nonempty_fields (fs : list (list Z)) : Forall (fun f => f <> []) fs ->
  before_empty fs = fs /\ after_empty fs = [] /\ filter (fun f => f <> []) fs = fs /\
  forall k, before_empty (fs ++ [] :: k) = fs /\
            after_empty (fs ++ [] :: k) = filter (fun f => f <> []) k.
Proof.
  induction 1 as [|f fs Hf Hfs (H1 & H2 & H3 & H4)]; [done|]. destruct f as [|c f]; [done|].
  cbn [before_empty after_empty app]. rewrite H1, H2, filter_cons_True, H3 by done.
  repeat split; [|apply H4]. f_equal. apply H4.
Qed.

(** Splitting the text of non-empty fields around "::". *)
Lemma split_double a b : Forall (fun f => f <> [] /\ 58 ∉ f) a -> Forall (fun f => f <> [] /\ 58 ∉ f) b ->
  let fs := split_on 58 (join_on 58 a ++ [58; 58] ++ join_on 58 b) in
  before_empty fs = a /\ after_empty fs = b.
Proof.
  intros Ha Hb. cbn zeta. cbn [app]. rewrite split_on_app_gen. cbn [split_on].
  destruct (Z.eq_dec 58 58) as [_|]; [|done].
  apply Forall_and in Ha as [Ha Ha'], Hb as [Hb Hb'].
  assert (Eb : filter (fun f => f <> []) (split_on 58 (join_on 58 b)) = b).
  { destruct b as [|f b]; [done|]. rewrite join_on_split by done. by apply nonempty_fields. }
  destruct a as [|f a].
  - cbn [join_on split_on app before_empty after_empty]. split; [done|]. rewrite filter_cons_False; [done|by intros []].
  - rewrite join_on_split by done. destruct (nonempty_fields _ Ha) as (_ & _ & _ & H).
    destruct (H (split_on 58 (join_on 58 b))) as [-> ->]. done.
Qed.

Lemma appendHex_fields g : Forall (fun f => f <> [] /\ 58 ∉ f) (map appendHex g).
Proof.
  apply Forall_and. split; [|apply numerals_free; unfold hex_digit; lia].
  apply Forall_forall. intros f (n & -> & _)%list_elem_of_fmap. apply numeral_nonempty.
Qed.

Lemma read_groups_IPv6_text g : length g = 8%nat -> Forall (fun n => 0 <= n < 65536) g ->
  read_groups (IPv6_text g) = g.
Proof.
  intros Hl Hg. unfold IPv6_text.
  destruct (longest_run_zeros 8 g 0 (0, 0)%nat) as [He Hz]; [split; simpl; [lia|by rewrite !take_0]|].
  destruct (longest_run 8 g 0 (0, 0)%nat) as [e0 e1]. cbn [fst snd] in He, Hz.
  assert (Hhex : forall k, Forall (fun n => 0 <= n < 65536) k -> map (value 16) (map appendHex k) = k).
  { intros k Hk. apply map_value_numerals; [lia|]. eapply Forall_impl; [exact Hk|].
    simpl. intros n Hn. change (16 ^ Z.of_nat 8) with (2 ^ 32). lia. }
  unfold read_groups. case_match.
  - pose proof (appendHex_fields g) as [Hf Hf']%Forall_and.
    rewrite join_on_split by (done || by destruct g). destruct (nonempty_fields _ Hf) as (-> & -> & _ & _).
    rewrite length_map, Hl, Hhex by done. apply app_nil_r.
  - destruct (split_double (map appendHex (take e0 g)) (map appendHex (drop e1 g))) as [-> ->];
      [apply appendHex_fields..|].
    rewrite !length_map, !Hhex, length_take, length_drop, Nat.min_l by (lia || by (apply Forall_take || apply Forall_drop)).
    replace (8 - e0 - (length g - e1))%nat with (e1 - e0)%nat by lia.
    rewrite <- Hz. rewrite <- (take_drop e0 g) at 4. f_equal.
    rewrite <- (take_drop (e1 - e0) (drop e0 g)) at 2. f_equal. rewrite drop_drop. f_equal. lia.
Qed.

Definition ip_char (c : Z) : Prop := hex_digit c \/ c = 58 \/ c = 46.

Lemma Forall_join (P : Z -> Prop) x fs : P x -> Forall (Forall P) fs -> Forall P (join_on x fs).
Proof.
  intros Hx. induction 1 as [|f fs Hf Hfs IH]; [constructor|]. destruct fs as [|g fs]; [done|].
  change (join_on x (f :: g :: fs)) with (f ++ x :: join_on x (g :: fs)).
  apply Forall_app. split; [done|]. by constructor.
Qed.

Lemma numerals_chars base w g x : 2 <= base <= 16 ->
  Forall (fun c => hex_digit c \/ c = x) (join_on x (map (numeral base w) g)).
Proof.
  intros Hb. apply Forall_join; [by right|]. apply Forall_forall.
  intros f (n & -> & _)%list_elem_of_fmap. eapply Forall_impl; [by apply numeral_digits|]. by left.
Qed.

Lemma IPv6_text_chars g : Forall (fun c => hex_digit c \/ c = 58) (IPv6_text g).
Proof.
  unfold IPv6_text. repeat case_match; [by apply numerals_chars; lia|].
  rewrite !Forall_app. split; [by apply numerals_chars; lia|].
  split; [by repeat constructor; right|]. by apply numerals_chars; lia.
Qed.

Lemma ip_groups_spec n ip : length ip = (2 * n)%nat -> Forall is_byte ip ->
  length (ip_groups ip) = n /\ Forall (fun g => 0 <= g < 65536) (ip_groups ip) /\
  flat_map (fun g => [g / 256; g mod 256]) (ip_groups ip) = ip.
Proof.
  revert ip. induction n as [|n IH]; intros [|a [|b ip]] Hl Hb; simpl in Hl; try lia; [done|].
  inversion Hb as [|? ? Ha Hb']; subst. inversion Hb' as [|? ? Hb0 Hb1]; subst.
  destruct (IH ip ltac:(lia) Hb1) as (H1 & H2 & H3). unfold is_byte in *. cbn [ip_groups flat_map length].
  split; [by rewrite H1|]. split; [constructor; [lia|done]|].
  rewrite H3. cbn [app]. f_equal; [|f_equal].
  - rewrite Z.div_add_l by lia. rewrite Z.div_small by lia. lia.
  - rewrite Z.add_comm, Z.mod_add by lia. by apply Z.mod_small.
Qed.

Lemma IP_To4_Some ip ip4 : IP_To4 ip = Some ip4 -> Forall is_byte ip ->
  length ip4 = 4%nat /\ Forall is_byte ip4 /\ IP_To16 ip = v4InV6Prefix ++ ip4.
Proof.
  unfold IP_To4, IP_To16. intros E4 Hb.
  destruct (Nat.eqb_spec (length ip) 4); [by injection E4 as <-|].
  destruct (Nat.eqb_spec (length ip) 16) as [Hl|]; [|done]. simpl in E4.
  case_bool_decide as Hp; [|done]. injection E4 as <-. rewrite length_drop, Hl.
  split; [done|]. split; [by apply Forall_drop|]. by rewrite <- Hp, take_drop.
Qed.

Lemma IP_To4_None ip : IP_To4 ip = None -> valid_IP ip = true ->
  length ip = 16%nat /\ IP_To16 ip = ip.
Proof.
  unfold IP_To4, valid_IP, IP_To16. destruct (Nat.eqb_spec (length ip) 4); [done|].
  intros _ Hl%Nat.eqb_eq. done.
Qed.

Lemma read_dotted ip4 : length ip4 = 4%nat -> Forall is_byte ip4 ->
  read_IP (join_on 46 (map uitoa ip4)) = v4InV6Prefix ++ ip4.
Proof.
  intros Hl Hb. unfold read_IP. rewrite bool_decide_eq_true_2.
  2: { destruct ip4 as [|a [|b ip4]]; try done.
       change (join_on 46 (map uitoa (a :: b :: ip4)))
         with (uitoa a ++ 46 :: join_on 46 (map uitoa (b :: ip4))).
       rewrite elem_of_app, elem_of_cons. auto. }
  rewrite join_on_split; [|by destruct ip4|apply (numerals_free 10 20); unfold hex_digit; lia].
  f_equal. apply (map_value_numerals 10 20); [lia|].
  eapply Forall_impl; [exact Hb|]. unfold is_byte. simpl. intros n Hn.
  change (Z.pow_pos 10 20) with 100000000000000000000. lia.
Qed.

Lemma read_hexadecimal ip : length ip = 16%nat -> Forall is_byte ip ->
  read_IP (IPv6_text (ip_groups ip)) = ip.
Proof.
  intros Hl Hb. unfold read_IP. rewrite bool_decide_eq_false_2.
  2: { intros Hin. eapply Forall_forall in Hin; [|apply IPv6_text_chars]. unfold hex_digit in Hin. lia. }
  destruct (ip_groups_spec 8 ip Hl Hb) as (H1 & H2 & H3). by rewrite read_groups_IPv6_text.
Qed.

(** The text of an address gives the address back, in its 16-byte form. *)
Lemma read_IP_String ip : valid_IP ip = true -> Forall is_byte ip ->
  read_IP (IP_String ip) = IP_To16 ip /\ Forall ip_char (IP_String ip).
Proof.
  intros Hv Hb. unfold IP_String. destruct (IP_To4 ip) as [ip4|] eqn:E4.
  - destruct (IP_To4_Some _ _ E4 Hb) as (Hl & Hb4 & ->). split; [by apply read_dotted|].
    eapply Forall_impl; [apply (numerals_chars 10 20 ip4 46); lia|]. unfold ip_char. naive_solver.
  - destruct (IP_To4_None _ E4 Hv) as [Hl ->]. rewrite Hl, Nat.eqb_refl.
    split; [by apply read_hexadecimal|].
    eapply Forall_impl; [apply IPv6_text_chars|]. unfold ip_char. naive_solver.
Qed.

Lemma IP_String_To16 ip : valid_IP ip = true -> IP_String (IP_To16 ip) = IP_String ip.
Proof.
  unfold valid_IP, IP_To16. destruct (Nat.eqb_spec (length ip) 4) as [Hl|]; [|done]. intros _.
  unfold IP_String. unfold IP_To4. rewrite length_app, Hl. cbn [length Nat.add Nat.eqb andb v4InV6Prefix].
  rewrite (take_app_length' v4InV6Prefix ip 12), (drop_app_length' v4InV6Prefix ip 12) by done.
  by rewrite bool_decide_eq_true_2.
Qed.

(** Addresses have the same text exactly when they are equal. *)
Lemma IP_String_inj a b : valid_IP a = true -> valid_IP b = true -> Forall is_byte a -> Forall is_byte b ->
  IP_String a = IP_String b <-> IP_Equal a b = true.
Proof.
  intros Va Vb Ba Bb. rewrite IP_Equal_To16 by done. split; intros H.
  - destruct (read_IP_String a Va Ba) as [<- _], (read_IP_String b Vb Bb) as [<- _]. by rewrite H.
  - by rewrite <- (IP_String_To16 a), <- (IP_String_To16 b), H.
Qed.

(** *** Endpoints *)

Lemma lastIndex_app c a b : c ∉ b -> lastIndex c (a ++ c :: b) = Some (length a).
Proof.
  intros Hb. assert (Hn : lastIndex c b = None).
  { induction b as [|x b IH]; [done|]. apply not_elem_of_cons in Hb as [Hx Hb].
    simpl. rewrite IH by done. destruct (Z.eqb_spec x c); [by subst|done]. }
  induction a as [|x a IH]; simpl; [by rewrite Hn, Z.eqb_refl|by rewrite IH].
Qed.

Lemma byteIndex_app c a b : c ∉ a -> byteIndex c (a ++ c :: b) = Some (length a).
Proof.
  intros Ha. induction a as [|x a IH]; simpl; [by rewrite Z.eqb_refl|].
  apply not_elem_of_cons in Ha as [Hx Ha]. destruct (Z.eqb_spec x c); [by subst|]. by rewrite IH.
Qed.

Lemma SplitHostPort_brackets host port :
  91 ∉ host -> 93 ∉ host -> 58 ∉ port -> 91 ∉ port -> 93 ∉ port ->
  forall s, bytes s = [91] ++ host ++ [93; 58] ++ port ->
  SplitHostPort s = Ret (of_bytes host, of_bytes port).
Proof.
  intros H91 H93 P58 P91 P93 s Hs. unfold SplitHostPort. rewrite Hs.
  set (n := length host). cbn [app].
  assert (F1 : lastIndex 58 (91 :: host ++ 93 :: 58 :: port) = Some (S (S n))).
  { replace (91 :: host ++ 93 :: 58 :: port) with ((91 :: host ++ [93]) ++ 58 :: port)
      by (by rewrite <- app_comm_cons, <- app_assoc).
    rewrite lastIndex_app by done. cbn [length]. rewrite length_app. simpl. f_equal. lia. }
  assert (F2 : byteIndex 93 (91 :: host ++ 93 :: 58 :: port) = Some (S n))
    by (apply (byteIndex_app 93 (91 :: host)); set_solver).
  assert (F3 : drop n (host ++ 93 :: 58 :: port) = 93 :: 58 :: port) by apply drop_app_length.
  assert (F4 : drop (S n) (host ++ 93 :: 58 :: port) = 58 :: port).
  { replace (S n) with (n + 1)%nat by lia. by rewrite <- drop_drop, F3. }
  assert (F5 : drop (S (S n)) (host ++ 93 :: 58 :: port) = port).
  { replace (S (S n)) with (n + 2)%nat by lia. by rewrite <- drop_drop, F3. }
  rewrite F1, F2. cbn [head]. rewrite bool_decide_eq_true_2 by done.
  rewrite (proj2 (Nat.eqb_neq _ _)) by (simpl; rewrite length_app; simpl; lia).
  rewrite (proj2 (Nat.eqb_eq _ _)) by done. cbn [drop].
  rewrite F4, F5, skipn_O, !(proj2 (byteIndex_None _ _)) by set_solver.
  replace (S n - 1)%nat with n by lia. unfold n. by rewrite take_app_length.
Qed.

Lemma SplitHostPort_plain host port :
  58 ∉ host -> 91 ∉ host -> 93 ∉ host -> 58 ∉ port -> 91 ∉ port -> 93 ∉ port ->
  forall s, bytes s = host ++ [58] ++ port ->
  SplitHostPort s = Ret (of_bytes host, of_bytes port).
Proof.
  intros H58 H91 H93 P58 P91 P93 s Hs. unfold SplitHostPort. rewrite Hs. cbn [app].
  rewrite lastIndex_app by done.
  rewrite bool_decide_eq_false_2 by (destruct host; [done|]; intros [= ->]; set_solver).
  rewrite take_app_length, (proj2 (byteIndex_None _ _) H58), !drop_0.
  rewrite !(proj2 (byteIndex_None _ _)) by set_solver.
  replace (host ++ 58 :: port) with ((host ++ [58]) ++ port) by (by rewrite <- app_assoc).
  by rewrite drop_app_length' by (rewrite length_app; simpl; lia).
Qed.

(** [SplitHostPort] undoes [JoinHostPort] on a host without brackets. *)
Lemma SplitHostPort_JoinHostPort host port :
  Forall is_byte host -> Forall is_byte port -> 91 ∉ host -> 93 ∉ host ->
  58 ∉ port -> 91 ∉ port -> 93 ∉ port ->
  SplitHostPort (of_bytes (JoinHostPort host port)) = Ret (of_bytes host, of_bytes port).
Proof.
  intros Bh Bp H91 H93 P58 P91 P93. unfold JoinHostPort. destruct (byteIndex 58 host) eqn:E.
  - apply SplitHostPort_brackets; try done. apply bytes_of_bytes.
    rewrite !Forall_app. split; [by repeat constructor|]. split; [done|]. split; [by repeat constructor|done].
  - apply byteIndex_None in E. apply SplitHostPort_plain; try done. apply bytes_of_bytes.
    rewrite !Forall_app. split; [done|]. split; [by repeat constructor|done].
Qed.

(** A TCP endpoint a connection can have. *)
Definition tcp_endpoint (a : Addr) : Prop :=
  match a with
  | TCPAddr ip port zone =>
    valid_IP ip = true /\ Forall is_byte ip /\ 0 <= port < 65536 /\
    Forall (fun c => c ∉ [32; 91; 93]) (bytes zone)
  | OtherAddr _ _ => False
  end.

(** Two endpoints with the same address, port and zone. *)
Definition same_endpoint (a b : Addr) : Prop :=
  match a, b with
  | TCPAddr ip port zone, TCPAddr ip' port' zone' =>
    IP_Equal ip ip' = true /\ port = port' /\ zone = zone'
  | _, _ => False
  end.

Definition host_text (ip : IP) (zone : string) : list Z :=
  match bytes zone with [] => IP_String ip | z => IP_String ip ++ [37] ++ z end.

Lemma Addr_String_tcp ip port zone : valid_IP ip = true ->
  Addr_String (TCPAddr ip port zone) = of_bytes (JoinHostPort (host_text ip zone) (itoa port)).
Proof.
  intros Hv. unfold Addr_String, host_text.
  replace (ipEmptyString ip) with (IP_String ip) by (by destruct ip).
  by destruct zone.
Qed.

Lemma ip_char_not l c : Forall ip_char l -> ~ ip_char c -> c ∉ l.
Proof. intros Hl Hc Hin. apply Hc. by eapply (proj1 (Forall_forall _ _)). Qed.

Lemma itoa_digits port : 0 <= port -> Forall hex_digit (itoa port).
Proof.
  intros H. unfold itoa. destruct (Z.ltb_spec port 0); [lia|]. apply numeral_digits. lia.
Qed.

Lemma value_itoa port : 0 <= port < 65536 -> value 10 (itoa port) = port.
Proof.
  intros H. unfold itoa. destruct (Z.ltb_spec port 0); [lia|]. apply value_uitoa. lia.
Qed.

(** The characters of an endpoint's text. *)
Lemma host_text_chars ip zone : tcp_endpoint (TCPAddr ip 0 zone) ->
  Forall (fun c => is_byte c /\ c ∉ [32; 91; 93]) (host_text ip zone).
Proof.
  intros (Hv & Hb & _ & Hz). destruct (read_IP_String ip Hv Hb) as [_ Hc].
  assert (Hi : Forall (fun c => is_byte c /\ c ∉ [32; 91; 93]) (IP_String ip)).
  { eapply Forall_impl; [exact Hc|]. intros c Hx. split.
    - unfold ip_char, hex_digit in Hx. unfold is_byte. lia.
    - rewrite !not_elem_of_cons. unfold ip_char, hex_digit in Hx. repeat split; try lia. apply not_elem_of_nil. }
  unfold host_text. pose proof (bytes_range zone) as Hr. destruct (bytes zone) as [|c z]; [done|].
  rewrite !Forall_app. split; [done|]. split; [|by apply Forall_and].
  constructor; [|constructor]. split; [unfold is_byte; lia|]. rewrite !not_elem_of_cons.
  repeat split; try lia. apply not_elem_of_nil.
Qed.

(** The host determines the address and the zone. *)
Lemma host_text_inj ip zone ip' zone' :
  tcp_endpoint (TCPAddr ip 0 zone) -> tcp_endpoint (TCPAddr ip' 0 zone') ->
  host_text ip zone = host_text ip' zone' -> IP_Equal ip ip' = true /\ zone = zone'.
Proof.
  intros (Hv & Hb & _ & _) (Hv' & Hb' & _ & _) H.
  destruct (read_IP_String ip Hv Hb) as [_ Hc], (read_IP_String ip' Hv' Hb') as [_ Hc'].
  assert (Hn : 37 ∉ IP_String ip) by (eapply ip_char_not; [exact Hc|]; unfold ip_char, hex_digit; lia).
  assert (Hn' : 37 ∉ IP_String ip') by (eapply ip_char_not; [exact Hc'|]; unfold ip_char, hex_digit; lia).
  rewrite <- (IP_String_inj ip ip') by done. unfold host_text in H.
  destruct (bytes zone) as [|c z] eqn:Ez, (bytes zone') as [|c' z'] eqn:Ez'.
  - split; [done|]. apply bytes_inj. congruence.
  - rewrite H in Hn. set_solver.
  - rewrite <- H in Hn'. set_solver.
  - cbn [app] in H. pose proof (byteIndex_app 37 _ (c :: z) Hn) as E.
    rewrite H, byteIndex_app in E by done. injection E as E.
    apply app_inj_1 in H as [H1 [= H2 H3]]; [|done]. split; [done|]. apply bytes_inj. congruence.
Qed.

(** The text of an endpoint, split again, has its host and its port. *)
Lemma SplitHostPort_tcp ip port zone : tcp_endpoint (TCPAddr ip port zone) ->
  SplitHostPort (Addr_String (TCPAddr ip port zone)) =
    Ret (of_bytes (host_text ip zone), of_bytes (itoa port)) /\
  Forall is_byte (host_text ip zone) /\ Forall is_byte (itoa port) /\
  32 ∉ bytes (Addr_String (TCPAddr ip port zone)).
Proof.
  intros (Hv & Hb & Hp & Hz). rewrite Addr_String_tcp by done.
  pose proof (host_text_chars ip zone ltac:(repeat split; done)) as Hh.
  pose proof (itoa_digits port ltac:(lia)) as Hi.
  assert (Hhn : forall c, c ∈ [32; 91; 93] -> c ∉ host_text ip zone).
  { intros c Hc Hin. by destruct (proj1 (Forall_forall _ _) Hh c Hin). }
  assert (Hin : forall c, c ∈ [32; 58; 91; 93] -> c ∉ itoa port).
  { intros c Hc. apply (hex_digit_not _ _ Hi). rewrite !elem_of_cons, elem_of_nil in Hc.
    unfold hex_digit. lia. }
  assert (Bh : Forall is_byte (host_text ip zone)) by (eapply Forall_impl; [exact Hh|]; by intros ? []).
  assert (Bp : Forall is_byte (itoa port)).
  { eapply Forall_impl; [exact Hi|]. unfold hex_digit, is_byte. lia. }
  split; [apply SplitHostPort_JoinHostPort; try done; (apply Hhn || apply Hin); set_solver|].
  split; [done|]. split; [done|]. unfold JoinHostPort. specialize (Hhn 32 ltac:(set_solver)).
  specialize (Hin 32 ltac:(set_solver)).
  case_match; rewrite bytes_of_bytes; rewrite ?Forall_app, ?not_elem_of_app; repeat split; try done;
    (by repeat constructor) || set_solver.
Qed.

Lemma Addr_String_inj a b : tcp_endpoint a -> tcp_endpoint b ->
  Addr_String a = Addr_String b -> same_endpoint a b.
Proof.
  destruct a as [ip port zone|], b as [ip' port' zone'|]; try done. intros Ha Hb H.
  destruct (SplitHostPort_tcp _ _ _ Ha) as (E & B1 & B2 & _).
  destruct (SplitHostPort_tcp _ _ _ Hb) as (E' & B1' & B2' & _). rewrite H, E' in E.
  injection E as E1 E2. apply (f_equal bytes) in E1, E2. rewrite !bytes_of_bytes in E1, E2 by done.
  destruct Ha as (Hv & Hi & Hp & Hz), Hb as (Hv' & Hi' & Hp' & Hz').
  destruct (host_text_inj ip zone ip' zone') as [? ?]; [by repeat split|by repeat split|done|].
  split; [done|]. split; [|done]. rewrite <- (value_itoa port), <- (value_itoa port') by done. by f_equal.
Qed.

Lemma Addr_String_same a b : tcp_endpoint a -> tcp_endpoint b ->
  same_endpoint a b -> Addr_String a = Addr_String b.
Proof.
  destruct a as [ip port zone|], b as [ip' port' zone'|]; try done.
  intros (Hv & Hi & _) (Hv' & Hi' & _) (He & -> & ->). rewrite !Addr_String_tcp by done.
  unfold host_text. by rewrite (proj2 (IP_String_inj ip ip' Hv Hv' Hi Hi') He).
Qed.

Lemma logConnectionMessage_fields action dst src :
  32 ∉ bytes action -> tcp_endpoint dst -> tcp_endpoint src ->
  split_on 32 (bytes (logConnectionMessage action dst src)) =
  [bytes action; bytes "pipe:"; bytes "tcp:" ++ bytes (Addr_String dst); bytes "<->";
   bytes "tcp:" ++ bytes (Addr_String src)].
Proof.
  intros Ha Hd Hs. destruct dst as [ip port zone|], src as [ip' port' zone'|]; try done.
  destruct (SplitHostPort_tcp _ _ _ Hd) as (_ & _ & _ & Nd).
  destruct (SplitHostPort_tcp _ _ _ Hs) as (_ & _ & _ & Ns).
  unfold logConnectionMessage. revert Nd Ns. generalize (Addr_String (TCPAddr ip port zone)) as d.
  generalize (Addr_String (TCPAddr ip' port' zone')) as e. intros e d Nd Ns. cbn [Addr_Network].
  rewrite !bytes_app.
  replace (bytes action ++ _) with (bytes action ++ 32 :: bytes "pipe:" ++ 32 ::
    (bytes "tcp:" ++ bytes d) ++ 32 :: bytes "<->" ++ 32 :: bytes "tcp:" ++ bytes e).
  2: { change (bytes " pipe: ") with ([32] ++ bytes "pipe:" ++ [32]).
       change (bytes " <-> ") with ([32] ++ bytes "<->" ++ [32]). change (bytes "tcp:") with (bytes "tcp" ++ bytes ":").
       by rewrite <- !app_assoc. }
  assert (forall s, 32 ∉ bytes s -> 32 ∉ bytes "tcp:" ++ bytes s) by (intros s Hn; cbn; set_solver).
  rewrite !split_on_app by (try done; try (by apply H); cbn; set_solver).
  by rewrite split_on_no by auto.
Qed.

(** C38. The connection log tells connections apart: for TCP connections (IPv4
    or IPv6, with or without a zone) two lines are the same text exactly when
    the actions are the same and both ends have equal IP addresses, the same
    port and the same zone. In particular an IPv4 client is logged in the same
    way whether the kernel reports it in its 4-byte form or IPv6-mapped. *)
Theorem log_lines_identify_connections action action' dst src dst' src'
    (Ha : 32 ∉ bytes action) (Ha' : 32 ∉ bytes action')
    (Hd : tcp_endpoint dst) (Hs : tcp_endpoint src)
    (Hd' : tcp_endpoint dst') (Hs' : tcp_endpoint src') :
  logConnectionMessage action dst src = logConnectionMessage action' dst' src' <->
  action = action' /\ same_endpoint dst dst' /\ same_endpoint src src'.
Proof.
  split.
  - intros H. pose proof (logConnectionMessage_fields _ _ _ Ha Hd Hs) as E.
    rewrite H, logConnectionMessage_fields in E by done. injection E as E1 E2 E3.
    split; [by apply bytes_inj|]. split; apply Addr_String_inj; try done; by apply bytes_inj.
  - intros (-> & H1 & H2). unfold logConnectionMessage.
    rewrite (Addr_String_same _ _ Hd Hd' H1), (Addr_String_same _ _ Hs Hs' H2).
    by destruct dst, src, dst', src'.
Qed.

(** ** Witnesses *)

Lemma log_lines_identify_connections_witness :
  logConnectionMessage "opening" (TCPAddr [10; 0; 0; 7] 40000 "") (TCPAddr [127; 0; 0; 1] 8080 "")
  = logConnectionMessage "opening" (TCPAddr (v4InV6Prefix ++ [10; 0; 0; 7]) 40000 "")
      (TCPAddr [127; 0; 0; 1] 8080 "").
Proof.
  assert (H : forall ip port, valid_IP ip = true -> forallb (fun z => (0 <=? z) && (z <? 256)) ip = true ->
    0 <= port < 65536 -> tcp_endpoint (TCPAddr ip port "")).
  { intros ip port Hv Hb Hp. split; [done|]. split; [|split; [done|constructor]].
    apply Forall_forall. intros z Hz. rewrite forallb_forall in Hb.
    specialize (Hb z (proj1 (list_elem_of_In _ _) Hz)). unfold is_byte. lia. }
  assert (Ha : 32 ∉ bytes "opening") by (apply (bool_decide_eq_true_1 _); vm_compute; reflexivity).
  apply (log_lines_identify_connections "opening" "opening"); try done;
    try (apply H; try (vm_compute; reflexivity); lia).
Defined.
