(* ===== verification/Json.v ===== *)
(** * JSON: what the program uses of [encoding/json] and [time]

    Strings, booleans, times and objects as [encoding/json] of Go 1.11 writes
    them, a reference reader of such objects, and the theorem that reading gives
    back what was written. *)
From Stdlib Require Import ZArith Ascii.
From stdpp Require Import base list sets strings.
From S2P Require Import Prelude GoStrings Utf8.

Local Open Scope Z_scope.

(** ** Writing *)

Definition hex_digit (n : Z) : Z := if n <? 10 then 48 + n else 87 + n.

(** The bytes a string's runes are written as. Bytes that are no valid encoding
    are replaced, and so are the characters that are special in JSON, in HTML
    and in JavaScript; a rune that is copied takes the bytes of its encoding. *)
Definition escape_rune (rn : Z * nat) : list Z :=
  let r := fst rn in
  if bad_rune rn then bytes "\ufffd"
  else if (r =? 34) || (r =? 92) then [92; r]
  else if r =? 10 then bytes "\n"
  else if r =? 13 then bytes "\r"
  else if r =? 9 then bytes "\t"
  else if between 0 31 r || (r =? 60) || (r =? 62) || (r =? 38)
  then bytes "\u00" ++ [hex_digit (Z.shiftr r 4); hex_digit (Z.land r 15)]
  else if (r =? 0x2028) || (r =? 0x2029)
  then bytes "\u202" ++ [hex_digit (Z.land r 15)]
  else EncodeRune r.

Definition json_string (s : string) : list Z :=
  [34] ++ flat_map escape_rune (decode (bytes s)) ++ [34].

Definition json_bool (b : bool) : list Z := bytes (if b then "true" else "false").

(** A member of an object; the name needs no escaping. *)
Definition member (name : string) (value : list Z) : list Z :=
  [34] ++ bytes name ++ [34; 58] ++ value.

(** An object: its members in order. *)
Definition json_object (ms : list (string * list Z)) : list Z :=
  [123] ++ join_on 44 (map (fun m => member m.1 m.2) ms) ++ [125].

(** *** Times *)

(** [time.Time]: the date and the time of day it shows and the offset of its zone
    in seconds; the fields are in their usual ranges, the year is any. *)
Record Time : Type := {
  t_year : Z;
  t_month : Z;
  t_day : Z;
  t_hour : Z;
  t_minute : Z;
  t_second : Z;
  t_nanosecond : Z;
  t_offset : Z
}.

(** The last [w] decimal digits of a number. *)
Fixpoint digits (w : nat) (n : Z) : list Z :=
  match w with
  | O => []
  | S w' => digits w' (n / 10) ++ [48 + n mod 10]
  end.

Fixpoint drop_zeros (l : list Z) : list Z :=
  match l with
  | [] => []
  | c :: rest => if c =? 48 then drop_zeros rest else l
  end.

(** The layout [RFC3339Nano]: trailing zeros of the fraction are left out, and so
    is an empty fraction; the zone is [Z] or hours and minutes. *)
Definition time_fraction (nano : Z) : list Z :=
  match drop_zeros (reverse (digits 9 nano)) with
  | [] => []
  | l => 46 :: reverse l
  end.

Definition time_zone (offset : Z) : list Z :=
  if offset =? 0 then [90]
  else
    let zone := Z.quot offset 60 in
    let abs := Z.abs zone in
    (if zone <? 0 then 45 else 43) :: digits 2 (abs / 60) ++ [58] ++ digits 2 (abs mod 60).

Definition RFC3339Nano (t : Time) : list Z :=
  digits 4 (t_year t) ++ [45] ++ digits 2 (t_month t) ++ [45] ++ digits 2 (t_day t)
  ++ [84] ++ digits 2 (t_hour t) ++ [58] ++ digits 2 (t_minute t) ++ [58] ++ digits 2 (t_second t)
  ++ time_fraction (t_nanosecond t) ++ time_zone (t_offset t).

(** [Time.MarshalJSON]: a year of more than four digits cannot be written. *)
Definition Time_MarshalJSON (t : Time) : outcome string (list Z) :=
  if (t_year t <? 0) || (10000 <=? t_year t)
  then Err "Time.MarshalJSON: year outside of range [0,9999]"
  else Ret ([34] ++ RFC3339Nano t ++ [34]).

(** ** Reading *)

Definition unhex_digit (c : Z) : option Z :=
  if between 48 57 c then Some (c - 48)
  else if between 97 102 c then Some (c - 87)
  else None.

(** The reference reader of a JSON string after its opening quote: the bytes it
    denotes and what follows the closing quote. *)
Fixpoint read_string (l : list Z) : option (list Z * list Z) :=
  match l with
  | [] => None
  | 34 :: rest => Some ([], rest)
  | 92 :: 117 :: a :: b :: c :: d :: rest =>
    a ← unhex_digit a; b ← unhex_digit b; c ← unhex_digit c; d ← unhex_digit d;
    r ← read_string rest;
    Some (EncodeRune (((a * 16 + b) * 16 + c) * 16 + d) ++ r.1, r.2)
  | 92 :: 110 :: rest => r ← read_string rest; Some (10 :: r.1, r.2)
  | 92 :: 114 :: rest => r ← read_string rest; Some (13 :: r.1, r.2)
  | 92 :: 116 :: rest => r ← read_string rest; Some (9 :: r.1, r.2)
  | 92 :: 34 :: rest => r ← read_string rest; Some (34 :: r.1, r.2)
  | 92 :: 92 :: rest => r ← read_string rest; Some (92 :: r.1, r.2)
  | 92 :: _ => None
  | c :: rest => r ← read_string rest; Some (c :: r.1, r.2)
  end.

(** The values that occur. *)
Inductive json : Type :=
  | JString (s : list Z)
  | JBool (b : bool).

Definition read_value (l : list Z) : option (json * list Z) :=
  match l with
  | 34 :: l => r ← read_string l; Some (JString r.1, r.2)
  | 116 :: 114 :: 117 :: 101 :: l => Some (JBool true, l)
  | 102 :: 97 :: 108 :: 115 :: 101 :: l => Some (JBool false, l)
  | _ => None
  end.

(** The members of an object after its opening brace, and what follows its
    closing brace; every member takes at least one unit of fuel. *)
Fixpoint read_members (fuel : nat) (l : list Z) : option (list (list Z * json) * list Z) :=
  match fuel, l with
  | S fuel, 34 :: l =>
    name ← read_string l;
    match name.2 with
    | 58 :: l =>
      v ← read_value l;
      match v.2 with
      | 44 :: l => rest ← read_members fuel l; Some ((name.1, v.1) :: rest.1, rest.2)
      | 125 :: l => Some ([(name.1, v.1)], l)
      | _ => None
      end
    | _ => None
    end
  | _, _ => None
  end.

(** A whole text that is one object. *)
Definition read_object (l : list Z) : option (list (list Z * json)) :=
  match l with
  | 123 :: l =>
    match read_members (length l) l with
    | Some (ms, []) => Some ms
    | _ => None
    end
  | _ => None
  end.

(** ** Lemmas *)


Lemma read_plain c tail out rest : c <> 34 -> c <> 92 ->
  read_string tail = Some (out, rest) -> read_string (c :: tail) = Some (c :: out, rest).
Proof.
  intros H1 H2 H. destruct c as [|p|p]; [simpl; by rewrite H| |simpl; by rewrite H].
  do 7 (destruct p as [p|p|]; try (simpl; by rewrite H); try done).
Qed.

Lemma read_plain_all l tail out rest : Forall (fun c => c <> 34 /\ c <> 92) l ->
  read_string tail = Some (out, rest) -> read_string (l ++ tail) = Some (l ++ out, rest).
Proof.
  intros Hl H. induction Hl as [|c l [H1 H2] _ IH]; [done|]. cbn [app].
  by apply read_plain.
Qed.

Lemma EncodeRune_plain r : r <> 34 -> r <> 92 -> Forall (fun c => c <> 34 /\ c <> 92) (EncodeRune r).
Proof.
  intros H1 H2. unfold EncodeRune, between.
  assert (Hm : forall x, 0 <= x mod 64 < 64) by (intros; apply Z.mod_pos_bound; lia).
  pose proof (Hm r). pose proof (Hm (r / 64)). pose proof (Hm (r / 4096)).
  repeat case_match; bool_prop; rewrite ?Z.leb_le in *;
    repeat constructor; try lia; try (intros ?; lia).
  all: try (apply Z.neq_sym, Z.lt_neq; pose proof (Z.div_pos r 64); pose proof (Z.div_pos r 4096);
            pose proof (Z.div_pos r 262144); lia).
Qed.

Lemma unhex_hex n : 0 <= n < 16 -> unhex_digit (hex_digit n) = Some n.
Proof.
  intros H. unfold hex_digit, unhex_digit, between.
  destruct (Z.ltb_spec n 10).
  - destruct (Z.leb_spec 48 (48 + n)); [|lia]. destruct (Z.leb_spec (48 + n) 57); [|lia].
    simpl. f_equal. lia.
  - destruct (Z.leb_spec 48 (87 + n)); [|lia]. destruct (Z.leb_spec (87 + n) 57); [lia|]. simpl.
    destruct (Z.leb_spec 97 (87 + n)); [|lia]. destruct (Z.leb_spec (87 + n) 102); [|lia].
    simpl. f_equal. lia.
Qed.

Lemma read_u a b c d tail out rest :
  0 <= a < 16 -> 0 <= b < 16 -> 0 <= c < 16 -> 0 <= d < 16 ->
  read_string tail = Some (out, rest) ->
  read_string (92 :: 117 :: hex_digit a :: hex_digit b :: hex_digit c :: hex_digit d :: tail)
    = Some (EncodeRune (((a * 16 + b) * 16 + c) * 16 + d) ++ out, rest).
Proof.
  intros Ha Hb Hc Hd H. cbn [read_string]. rewrite !unhex_hex by done.
  cbn [mbind option_bind]. by rewrite H.
Qed.

Lemma nibbles r : 0 <= r < 256 ->
  0 <= Z.shiftr r 4 < 16 /\ 0 <= Z.land r 15 < 16 /\ Z.shiftr r 4 * 16 + Z.land r 15 = r.
Proof.
  intros H. change 15 with (Z.ones 4). rewrite Z.shiftr_div_pow2, Z.land_ones by lia.
  change (2 ^ 4) with 16. pose proof (Z.div_mod r 16). pose proof (Z.mod_pos_bound r 16).
  split; [|lia]. split; [apply Z.div_pos; lia|apply Z.div_lt_upper_bound; lia].
Qed.

(** One rune, written and read back. *)
Lemma read_escape rn tail out rest : read_string tail = Some (out, rest) ->
  read_string (escape_rune rn ++ tail) = Some (EncodeRune (fst rn) ++ out, rest).
Proof.
  intros H. unfold escape_rune. destruct (bad_rune rn) eqn:Eb.
  { apply bool_decide_eq_true in Eb as ->. exact (read_u 15 15 15 13 tail out rest
      ltac:(lia) ltac:(lia) ltac:(lia) ltac:(lia) H). }
  destruct rn as [r n]. cbn [fst]. clear Eb.
  destruct (Z.eqb_spec r 34) as [->|N34]; [cbn; by rewrite H|].
  destruct (Z.eqb_spec r 92) as [->|N92]; [cbn; by rewrite H|].
  destruct (Z.eqb_spec r 10) as [->|N10]; [cbn; by rewrite H|].
  destruct (Z.eqb_spec r 13) as [->|N13]; [cbn; by rewrite H|].
  destruct (Z.eqb_spec r 9) as [->|N9]; [cbn; by rewrite H|]. cbn [orb].
  destruct (between 0 31 r || (r =? 60) || (r =? 62) || (r =? 38)) eqn:E.
  { assert (0 <= r < 256) as Hr.
    { unfold between in E. rewrite !orb_true_iff, andb_true_iff, !Z.leb_le, !Z.eqb_eq in E. lia. }
    destruct (nibbles r Hr) as (H1 & H2 & H3).
    change (bytes "\u00" ++ [hex_digit (Z.shiftr r 4); hex_digit (Z.land r 15)])
      with [92; 117; hex_digit 0; hex_digit 0; hex_digit (Z.shiftr r 4); hex_digit (Z.land r 15)].
    cbn [app]. rewrite (read_u 0 0 _ _ tail out rest) by (done || lia).
    by replace (((0 * 16 + 0) * 16 + Z.shiftr r 4) * 16 + Z.land r 15) with r by lia. }
  destruct (Z.eqb_spec r 0x2028) as [->|N1];
    [exact (read_u 2 0 2 8 tail out rest ltac:(lia) ltac:(lia) ltac:(lia) ltac:(lia) H)|].
  destruct (Z.eqb_spec r 0x2029) as [->|N2];
    [exact (read_u 2 0 2 9 tail out rest ltac:(lia) ltac:(lia) ltac:(lia) ltac:(lia) H)|].
  cbn [orb]. apply read_plain_all; [by apply EncodeRune_plain|done].
Qed.

Lemma read_escapes ds rest :
  read_string (flat_map escape_rune ds ++ 34 :: rest) = Some (encode (map fst ds), rest).
Proof.
  induction ds as [|d ds IH]; [done|]. cbn [flat_map map]. rewrite <- app_assoc.
  by rewrite (read_escape _ _ _ _ IH).
Qed.

(** A string cannot break out of its place: it is written so that a JSON reader finds exactly its runes (undecodable bytes
    replaced by the replacement character) and the closing quote where it
    belongs; for valid UTF-8 it reads the string itself. *)
Theorem json_string_roundtrip (s : string) (rest : list Z) :
  exists body, json_string s ++ rest = 34 :: body /\
  read_string body = Some (encode (runes s), rest) /\
  (ValidString s = true -> read_string body = Some (bytes s, rest)).
Proof.
  exists (flat_map escape_rune (decode (bytes s)) ++ 34 :: rest). split.
  { unfold json_string. cbn [app]. by rewrite <- app_assoc. }
  rewrite read_escapes. split; [done|]. intros Hv. do 2 f_equal. by apply encode_runes.
Qed.

(** *** Objects *)

(** A text that reads as a value wherever it stands. *)
Definition reads (text : list Z) (v : json) : Prop :=
  forall tail, read_value (text ++ tail) = Some (v, tail).

Lemma reads_string s : reads (json_string s) (JString (encode (runes s))).
Proof.
  intros tail. unfold json_string, read_value. cbn [app]. rewrite <- app_assoc. cbn [app].
  by rewrite read_escapes.
Qed.

Lemma reads_bool b : reads (json_bool b) (JBool b).
Proof. by destruct b. Qed.

(** Bytes that need no escaping. *)
Definition plain (l : list Z) : Prop := Forall (fun c => c <> 34 /\ c <> 92) l.

Lemma plain_decided l : forallb (fun c => negb ((c =? 34) || (c =? 92))) l = true -> plain l.
Proof.
  intros H. apply Forall_forall. intros c Hc. apply list_elem_of_In in Hc.
  rewrite forallb_forall in H. specialize (H c Hc). lia.
Qed.

Lemma reads_plain l : plain l -> reads ([34] ++ l ++ [34]) (JString l).
Proof.
  intros Hl tail. unfold read_value. cbn [app]. rewrite <- app_assoc. cbn [app].
  rewrite (read_plain_all l (34 :: tail) [] tail Hl eq_refl). by rewrite app_nil_r.
Qed.

Lemma read_member name text v tail : plain (bytes name) -> reads text v ->
  exists l, member name text ++ tail = 34 :: l /\
  read_string l = Some (bytes name, 58 :: text ++ tail).
Proof.
  intros Hn Hv. exists (bytes name ++ 34 :: 58 :: text ++ tail). split.
  - unfold member. cbn [app]. rewrite <- !app_assoc. done.
  - rewrite (read_plain_all (bytes name) (34 :: 58 :: text ++ tail) [] (58 :: text ++ tail) Hn eq_refl).
    by rewrite app_nil_r.
Qed.

Lemma join_cons x f gs : gs <> [] -> join_on x (f :: gs) = f ++ x :: join_on x gs.
Proof. by destruct gs. Qed.

(** What the members of an object read as. *)
Definition members_read (ms : list (string * list Z)) (vs : list (list Z * json)) : Prop :=
  Forall2 (fun m v => plain (bytes m.1) /\ v.1 = bytes m.1 /\ reads m.2 v.2) ms vs.

Lemma members_read_cons name text v ms vs :
  forallb (fun c => negb ((c =? 34) || (c =? 92))) (bytes name) = true -> reads text v ->
  members_read ms vs -> members_read ((name, text) :: ms) ((bytes name, v) :: vs).
Proof. intros Hn Hv Hms. constructor; [|done]. by split; [apply plain_decided|]. Qed.

Lemma read_join ms vs fuel tail : members_read ms vs -> ms <> [] -> (length ms <= fuel)%nat ->
  read_members fuel (join_on 44 (map (fun m => member m.1 m.2) ms) ++ 125 :: tail) = Some (vs, tail).
Proof.
  intros Hms. revert fuel. induction Hms as [|[name text] [n v] ms vs (Hn & Hnv & Hv) Hms IH];
    intros fuel Hne Hf; [done|].
  simpl in Hf, Hn, Hnv, Hv. subst n. destruct fuel as [|fuel]; [lia|].
  destruct ms as [|m ms].
  - inversion Hms; subst. cbn [map join_on fst snd].
    destruct (read_member name text v (125 :: tail) Hn Hv) as (l & -> & Hl).
    cbn [read_members]. rewrite Hl. cbn [mbind option_bind fst snd]. by rewrite Hv.
  - assert (IH' := fun fuel => IH fuel ltac:(done)). cbn [map] in *.
    rewrite join_cons by done. cbn [fst snd].
    set (rest := join_on 44 _) in *. rewrite <- app_assoc.
    change ((44 :: rest) ++ 125 :: tail) with (44 :: (rest ++ 125 :: tail)).
    destruct (read_member name text v (44 :: (rest ++ 125 :: tail)) Hn Hv) as (l & -> & Hl).
    cbn [read_members]. rewrite Hl. cbn [mbind option_bind fst snd]. rewrite Hv.
    cbn [mbind option_bind fst snd]. rewrite IH' by (simpl in *; lia). done.
Qed.

Lemma member_length name text : (1 <= length (member name text))%nat.
Proof. unfold member. simpl. lia. Qed.

Lemma join_members_length ms :
  (length ms <= length (join_on 44 (map (fun m => member m.1 m.2) ms)))%nat.
Proof.
  induction ms as [|m ms IH]; [simpl; lia|]. cbn [map]. pose proof (member_length m.1 m.2).
  destruct ms as [|m' ms]; [done|]. rewrite join_cons by done. rewrite length_app.
  cbn [length] in *. lia.
Qed.

Lemma read_json_object ms vs : members_read ms vs -> ms <> [] ->
  read_object (json_object ms) = Some vs.
Proof.
  intros Hms Hne. unfold json_object, read_object. cbn [app].
  rewrite (read_join ms vs _ []); [done|done|done|].
  rewrite length_app. pose proof (join_members_length ms). lia.
Qed.

(** *** Times *)

Lemma plain_app l k : plain l -> plain k -> plain (l ++ k).
Proof. intros. by apply Forall_app. Qed.

Lemma plain_digits w n : plain (digits w n).
Proof.
  revert n. induction w as [|w IH]; intros n; simpl; [constructor|].
  apply plain_app; [apply IH|]. pose proof (Z.mod_pos_bound n 10 ltac:(lia)).
  repeat constructor; lia.
Qed.

Lemma drop_zeros_sub (P : Z -> Prop) l : Forall P l -> Forall P (drop_zeros l).
Proof. induction 1; simpl; [done|]. case_match; [done|by constructor]. Qed.

Lemma plain_fraction nano : plain (time_fraction nano).
Proof.
  unfold time_fraction. destruct (drop_zeros _) as [|c l] eqn:E; [constructor|].
  constructor; [lia|]. apply Forall_reverse. rewrite <- E. apply drop_zeros_sub, Forall_reverse.
  apply plain_digits.
Qed.

Lemma plain_RFC3339Nano t : plain (RFC3339Nano t).
Proof.
  unfold RFC3339Nano, time_zone.
  repeat (apply plain_app; [by apply plain_digits || (repeat constructor; lia)|]).
  apply plain_app; [apply plain_fraction|]. destruct (t_offset t =? 0); [by repeat constructor|].
  constructor; [by case_match; lia|].
  apply plain_app; [apply plain_digits|]. apply plain_app; [by repeat constructor|apply plain_digits].
Qed.

Lemma reads_time t text : Time_MarshalJSON t = Ret text -> reads text (JString (RFC3339Nano t)).
Proof.
  unfold Time_MarshalJSON. case_match; [done|]. intros Ht. apply Ret_inj in Ht. subst text.
  apply reads_plain, plain_RFC3339Nano.
Qed.
