(* ===== verification/Status.v ===== *)
(** * Status endpoint: [src/status.go]

    The status handler's two flags, the response to [/_status] and its JSON
    encoding (in terms of [Json]). The backend probe happens
    outside the lock, so its answer is an argument of the request, and the flags
    are those at the time the lock is taken. *)
From Stdlib Require Import ZArith Ascii.
From stdpp Require Import base list sets strings.
From S2P Require Import Prelude GoStrings Utf8 Json.

Local Open Scope Z_scope.

(** ** State *)

Record statusHandler : Type := StatusHandler {
  st_listening : bool;
  st_reloading : bool
}.

Definition newStatusHandler : statusHandler := StatusHandler false false.

Definition Listening (s : statusHandler) : statusHandler := StatusHandler true false.

Definition Reloading (s : statusHandler) : statusHandler := StatusHandler (st_listening s) true.

(** ** The response *)

Record statusResponse : Type := {
  Ok : bool;
  Status : string;
  BackendOk : bool;
  BackendStatus : string;
  BackendError : string;
  r_Time : Time;
  Hostname : string;
  Message : string;
  Revision : string;
  Compiler : string
}.

(** [json.Marshal]: the fields in order, those tagged [omitempty] only if they
    are not empty. *)
Definition optional (name value : string) : list (string * list Z) :=
  if String.eqb value "" then [] else [(name, json_string value)].

Definition json_Marshal (r : statusResponse) : outcome string (list Z) :=
  match Time_MarshalJSON (r_Time r) with
  | Ret time =>
    Ret (json_object
      ([("ok", json_bool (Ok r));
        ("status", json_string (Status r));
        ("backend_ok", json_bool (BackendOk r));
        ("backend_status", json_string (BackendStatus r))]
       ++ optional "backend_error" (BackendError r)
       ++ [("time", time)]
       ++ optional "hostname" (Hostname r)
       ++ [("message", json_string (Message r));
           ("revision", json_string (Revision r));
           ("compiler", json_string (Compiler r))]))
  | Err e => Err ("json: error calling MarshalJSON for type time.Time: " +:+ e)
  | Panic => Panic
  end.

(** *** Serving *)

(** What a request observes besides the flags: the answer of the backend probe
    (an error or nil), the time, the host name (if the call succeeds), and the
    version strings. *)
Record probe : Type := {
  p_dial : option string;
  p_now : Time;
  p_hostname : option string;
  version : string;
  runtime_Version : string
}.

Definition response (s : statusHandler) (q : probe) : statusResponse :=
  let backendOk := match p_dial q with None => true | Some _ => false end in
  let ok := st_listening s && backendOk in
  {| Ok := ok;
     Status := if ok && backendOk then "ok" else "critical";
     BackendOk := backendOk;
     BackendStatus := if backendOk then "ok" else "critical";
     BackendError := match p_dial q with Some e => e | None => "" end;
     r_Time := p_now q;
     Hostname := match p_hostname q with Some h => h | None => "" end;
     Message := if negb (st_listening s) then "initializing"
                else if st_reloading s then "reloading" else "listening";
     Revision := version q;
     Compiler := runtime_Version q |}.

(** [ServeHTTP]: the status code and the body; a marshalling error panics. *)
Definition ServeHTTP (s : statusHandler) (q : probe) : outcome string (Z * list Z) :=
  let resp := response s q in
  match json_Marshal resp with
  | Ret out => Ret (if Ok resp then 200 else 503, out)
  | _ => Panic
  end.

(** ** Claims *)

(** C39. The status endpoint answers 200 exactly when the proxy is listening and
    the backend can be reached, and 503 otherwise; the body says "ok" or
    "critical" accordingly, carries the backend's error, and describes the
    state as initializing, reloading or listening. A reload does not turn the
    answer into a failure, and the handler never panics in the years 0 to
    9999. *)
Theorem status_reports_health (s : statusHandler) (q : probe) :
  0 <= t_year (p_now q) < 10000 ->
  exists code body, ServeHTTP s q = Ret (code, body) /\
  json_Marshal (response s q) = Ret body /\
  (code = 200 <-> st_listening s = true /\ p_dial q = None) /\
  (code = 503 <-> ~ (st_listening s = true /\ p_dial q = None)) /\
  (Status (response s q) = "ok" <-> code = 200) /\
  (forall e, p_dial q = Some e -> BackendError (response s q) = e /\ BackendOk (response s q) = false) /\
  (exists code' body', ServeHTTP (Reloading s) q = Ret (code', body') /\ code' = code) /\
  (Message (response s q) = "initializing" <-> st_listening s = false).
Proof.
  intros Hy. unfold ServeHTTP, json_Marshal, Time_MarshalJSON.
  assert ((t_year (p_now q) <? 0) || (10000 <=? t_year (p_now q)) = false) as E.
  { apply orb_false_iff. rewrite Z.ltb_ge, Z.leb_gt. lia. }
  simpl. rewrite E. eexists _, _. split; [reflexivity|]. split; [reflexivity|].
  destruct (st_listening s), (p_dial q) as [e|]; simpl; repeat split; try done; try tauto;
    try (intros; naive_solver); try (eexists _, _; split; reflexivity);
    try (destruct (st_reloading s); done).
Qed.

(** What a client reads in a response. *)
Definition json_text (s : string) : json := JString (encode (runes s)).

Definition optional_field (name value : string) : list (list Z * json) :=
  if String.eqb value "" then [] else [(bytes name, json_text value)].

Definition fields (r : statusResponse) : list (list Z * json) :=
  [(bytes "ok", JBool (Ok r)); (bytes "status", json_text (Status r));
   (bytes "backend_ok", JBool (BackendOk r)); (bytes "backend_status", json_text (BackendStatus r))]
  ++ optional_field "backend_error" (BackendError r)
  ++ [(bytes "time", JString (RFC3339Nano (r_Time r)))]
  ++ optional_field "hostname" (Hostname r)
  ++ [(bytes "message", json_text (Message r)); (bytes "revision", json_text (Revision r));
      (bytes "compiler", json_text (Compiler r))].

Lemma optional_reads name value :
  forallb (fun c => negb ((c =? 34) || (c =? 92))) (bytes name) = true ->
  members_read (optional name value) (optional_field name value).
Proof.
  intros Hn. unfold optional, optional_field. case_match; [constructor|].
  apply members_read_cons; [done|apply reads_string|constructor].
Qed.

(** C40. The body of a status answer is one JSON object from which a reader gets
    back exactly the fields of the response, in order: nothing that comes from
    outside (an error of the backend, a host name, a version) can end its string,
    add a member or hide one; undecodable bytes are replaced, and strings that
    are valid UTF-8 are read unchanged. *)
Theorem status_body_roundtrip (r : statusResponse) (body : list Z) :
  json_Marshal r = Ret body ->
  read_object body = Some (fields r) /\
  (forall s, ValidString s = true -> json_text s = JString (bytes s)).
Proof.
  unfold json_Marshal. destruct (Time_MarshalJSON (r_Time r)) as [time|e|] eqn:E; [|done|done].
  intros H. apply Ret_inj in H as <-. split.
  - apply read_json_object; [|done]. unfold fields. cbn [app].
    do 4 (apply members_read_cons; [done|auto using reads_string, reads_bool|]).
    apply Forall2_app; [by apply optional_reads|]. cbn [app].
    apply members_read_cons; [done|by apply reads_time|].
    apply Forall2_app; [by apply optional_reads|].
    do 3 (apply members_read_cons; [done|apply reads_string|]). constructor.
  - intros s Hv. unfold json_text. f_equal. by apply encode_runes.
Qed.

(** ** Witnesses *)

Definition new_year : Time := {| t_year := 2019; t_month := 1; t_day := 1; t_hour := 0;
  t_minute := 0; t_second := 0; t_nanosecond := 120000000; t_offset := -18000 |}.

Example new_year_text : of_bytes (RFC3339Nano new_year) = "2019-01-01T00:00:00.12-05:00".
Proof. reflexivity. Qed.

Definition some_probe : probe :=
  {| p_dial := Some "dial tcp: connection refused"; p_now := new_year;
     p_hostname := Some "host"; version := "master"; runtime_Version := "go1.11.4" |}.

Lemma status_reports_health_witness :
  exists code body, ServeHTTP (Listening newStatusHandler) some_probe = Ret (code, body) /\ code = 503.
Proof.
  destruct (status_reports_health (Listening newStatusHandler) some_probe)
    as (code & body & H & _ & _ & H503 & _); [simpl; lia|].
  exists code, body. split; [exact H|]. apply H503. intros [_ E]. discriminate E.
Defined.

Lemma status_body_roundtrip_witness :
  exists body, json_Marshal (response (Listening newStatusHandler) some_probe) = Ret body /\
  read_object body = Some (fields (response (Listening newStatusHandler) some_probe)).
Proof.
  eexists. split; [reflexivity|].
  refine (proj1 (status_body_roundtrip (response (Listening newStatusHandler) some_probe) _ _)).
  reflexivity.
Defined.
