(* ===== verification/Signals.v ===== *)
(** * Signals and reloading: [src/signals.go], [src/unix.go], [src/windows.go]

    The signal handler consumes the signals the process receives until one asks
    it to shut down; refresh signals and the timer reload the certificate. The
    certificate and its state are those of [Certloader], the flags of the status
    endpoint those of [Status]. *)
From Stdlib Require Import ZArith.
From stdpp Require Import base list sets strings gmap.
From S2P Require Import Prelude GoStrings GoNet Certloader Flags TlsConfig Status.

(** ** Signals *)

Inductive Signal : Type := SIGINT | SIGTERM | SIGUSR1 | SIGHUP.

#[export] Instance Signal_eq_dec : EqDecision Signal.
Proof. solve_decision. Defined.

(** The build constraint that selects [unix.go] or [windows.go]; [os.Interrupt]
    is [SIGINT]. *)
Inductive platform : Type := Unix | Windows.

(** [unix.go]. *)
Definition unix_shutdownSignals : list Signal := [SIGINT; SIGTERM].
Definition unix_refreshSignals : list Signal := [SIGUSR1].
Definition unix_useSyslog (syslogFlag : bool) : bool := syslogFlag.

(** [windows.go]. *)
Definition windows_shutdownSignals : list Signal := [SIGINT].
Definition windows_refreshSignals : list Signal := [].
Definition windows_useSyslog (syslogFlag : bool) : bool := false.

Definition shutdownSignals (pl : platform) : list Signal :=
  match pl with Unix => unix_shutdownSignals | Windows => windows_shutdownSignals end.
Definition refreshSignals (pl : platform) : list Signal :=
  match pl with Unix => unix_refreshSignals | Windows => windows_refreshSignals end.
Definition useSyslog (pl : platform) : bool -> bool :=
  match pl with Unix => unix_useSyslog | Windows => windows_useSyslog end.

(** The loop of [isShutdownSignal]. *)
Fixpoint is_one_of (sig : Signal) (l : list Signal) : bool :=
  match l with
  | [] => false
  | s :: rest => if bool_decide (sig = s) then true else is_one_of sig rest
  end.
Definition isShutdownSignal (pl : platform) (sig : Signal) : bool :=
  is_one_of sig (shutdownSignals pl).

(** ** The context *)

(** The fields of [Context] the handlers use; [statusHTTP] is whether the status
    server runs, the certificate is a possibly nil interface value. *)
Record Context : Type := {
  ctx_statusHTTP : bool;
  ctx_shutdownTimeout : Z;
  ctx_cert : option certificate
}.

(** What the handler does when it is told to shut down, in order. *)
Inductive action : Type :=
  | ShutdownStatusHTTP
  | ExitAfter (timeout : Z) (code : Z)
  | ShutdownProxy.

Section Signals.
Context `{L : CertLibs}.

(** [Context.reload]: an error of the certificate is logged; calling a method
    of a nil interface panics. *)
Definition reload (ctx : Context) (status : statusHandler) : SE statusHandler := fun s =>
  let status1 := Reloading status in
  match ctx_cert ctx with
  | None => (Panic, s)
  | Some c =>
    match Reload c s with
    | (Panic, s') => (Panic, s')
    | (_, s') => (Ret (Listening status1), s')
    end
  end.

(** The body of the shutdown branch. *)
Definition shutdown_actions (ctx : Context) : list action :=
  (if ctx_statusHTTP ctx then [ShutdownStatusHTTP] else [])
  ++ [ExitAfter (ctx_shutdownTimeout ctx) 1; ShutdownProxy].

(** [Context.signalHandler] on the signals it receives: the flags and, if the
    handler returned, what it did; [None] means that it waits for the next
    signal. Only the signals registered with [signal.Notify] are received. *)
Fixpoint signalHandler (pl : platform) (ctx : Context) (sigs : list Signal)
    (status : statusHandler) : SE (statusHandler * option (list action)) :=
  match sigs with
  | [] => mret (status, None)
  | sig :: rest =>
    if isShutdownSignal pl sig then mret (status, Some (shutdown_actions ctx))
    else status' ← reload ctx status; signalHandler pl ctx rest status'
  end.

Definition notified (pl : platform) (sigs : list Signal) : list Signal :=
  filter (fun s => is_one_of s (shutdownSignals pl ++ refreshSignals pl) = true) sigs.

(** [Context.reloadHandler] after [ticks] intervals have passed. *)
Fixpoint ticking (ctx : Context) (ticks : nat) (status : statusHandler) : SE statusHandler :=
  match ticks with
  | O => mret status
  | S n => status' ← reload ctx status; ticking ctx n status'
  end.
Definition reloadHandler (ctx : Context) (interval : Z) (ticks : nat) (status : statusHandler) :
    SE statusHandler :=
  if (interval =? 0)%Z then mret status else ticking ctx ticks status.

(** ** Lemmas *)

(** The signals before the first one that asks for a shutdown. *)
Fixpoint before_shutdown (pl : platform) (sigs : list Signal) : list Signal :=
  match sigs with
  | [] => []
  | sig :: rest => if isShutdownSignal pl sig then [] else sig :: before_shutdown pl rest
  end.

(** What is needed for reloading not to panic. *)
Definition reload_ok (c : certificate) (s : state) : Prop :=
  wf s /\ keychain_ok s.

Lemma Reload_no_panic `{!CertLibsOk L} c s :
  reload_ok c s -> (Reload c s).1 <> Panic /\ reload_ok c (Reload c s).2.
Proof.
  intros [Hw Hk]. assert ((Reload c s).1 <> Panic) as Hn.
  { pose proof (Reload_ok c s Hw Hk) as H. unfold ensures in H. by destruct (Reload c s) as [[]]. }
  split; [done|]. pose proof (reload_env c s) as [_ He]. split.
  - pose proof (happen_wf c Reloads s Hw) as H. by simpl in H.
  - unfold keychain_ok in *. by rewrite He.
Qed.

Lemma reload_spec `{!CertLibsOk L} ctx c status s :
  ctx_cert ctx = Some c -> reload_ok c s ->
  reload ctx status s = (Ret (StatusHandler true false), (Reload c s).2) /\
  reload_ok c (Reload c s).2.
Proof.
  intros Hc Hok. destruct (Reload_no_panic c s Hok) as [Hn Hok']. split; [|done].
  unfold reload. rewrite Hc. by destruct (Reload c s) as [[]].
Qed.

Lemma happen_Reloads (c : certificate) s : (happen c Reloads s).2 = (Reload c s).2.
Proof. done. Qed.

Lemma signalHandler_spec `{!CertLibsOk L} pl ctx c sigs status s :
  ctx_cert ctx = Some c -> reload_ok c s ->
  let reloads := before_shutdown pl sigs in
  signalHandler pl ctx sigs status s =
  (Ret (match reloads with [] => status | _ => StatusHandler true false end,
        if existsb (isShutdownSignal pl) sigs then Some (shutdown_actions ctx) else None),
   (history c (map (fun _ => Reloads) reloads) s).2).
Proof.
  intros Hc. revert status s. induction sigs as [|sig sigs IH]; intros status s Hok; [done|].
  cbn [signalHandler existsb before_shutdown]. destruct (isShutdownSignal pl sig); [done|].
  destruct (reload_spec ctx c status s Hc Hok) as [Hr Hok'].
  unfold mbind, SE_bind. rewrite Hr, (IH _ _ Hok').
  cbn [orb map]. unfold history at 2. fold (history (C := certificate)).
  destruct (happen c Reloads s) as [o s1] eqn:E.
  assert (s1 = (Reload c s).2) as -> by (rewrite <- happen_Reloads, E; done).
  destruct (history c _ (Reload c s).2) as [os s2]. simpl.
  by destruct (before_shutdown pl sigs).
Qed.

(** ** Claims *)

(** C28. The signal handler reloads the certificate once for every refresh
    signal that arrives before the first shutdown signal, whether the reloads
    succeed or not, and is then marked as listening; the first shutdown signal
    ends it, with the status server asked to stop (if there is one), the forced
    exit armed and the proxy shut down, in this order and once; later signals
    are not looked at; without a shutdown signal it keeps waiting. *)
Theorem signals_reload_then_shut_down `{!CertLibsOk L} (pl : platform) (ctx : Context)
    (c : certificate) (sigs : list Signal) (status : statusHandler) (s : state) :
  ctx_cert ctx = Some c -> wf s -> keychain_ok s ->
  let reloads := before_shutdown pl sigs in
  signalHandler pl ctx sigs status s =
  (Ret (match reloads with [] => status | _ => StatusHandler true false end,
        if existsb (isShutdownSignal pl) sigs
        then Some ((if ctx_statusHTTP ctx then [ShutdownStatusHTTP] else [])
                   ++ [ExitAfter (ctx_shutdownTimeout ctx) 1; ShutdownProxy])
        else None),
   (history c (map (fun _ => Reloads) reloads) s).2).
Proof. intros Hc Hw Hk. apply signalHandler_spec; [done|by split]. Qed.

(** Without a certificate (client mode with authentication disabled) the
    first refresh signal, or the first tick of the reload timer, panics. *)
Theorem reload_without_certificate_panics (ctx : Context) (rest : list Signal) (ticks : nat)
    (interval : Z) (status : statusHandler) (s : state) :
  ctx_cert ctx = None -> interval <> 0%Z ->
  signalHandler Unix ctx (SIGUSR1 :: rest) status s = (Panic, s) /\
  reloadHandler ctx interval (S ticks) status s = (Panic, s).
Proof.
  intros Hc Hi. split; simpl; unfold mbind, SE_bind, reload; rewrite ?Hc; [done|].
  unfold reloadHandler. destruct (Z.eqb_spec interval 0); [done|]. simpl.
  unfold mbind, SE_bind, reload. by rewrite Hc.
Qed.

(** The reload timer marks the process as listening: after a tick the
    status endpoint reports a listening proxy although the listener may not
    have been opened yet. *)
Theorem timed_reload_marks_listening `{!CertLibsOk L} (ctx : Context) (c : certificate)
    (interval : Z) (ticks : nat) (s : state) :
  ctx_cert ctx = Some c -> interval <> 0%Z -> wf s -> keychain_ok s ->
  exists s', reloadHandler ctx interval (S ticks) newStatusHandler s = (Ret (Listening newStatusHandler), s').
Proof.
  intros Hc Hi Hw Hk. unfold reloadHandler. destruct (Z.eqb_spec interval 0); [done|]. simpl.
  assert (Hok : reload_ok c s) by (by split). clear Hw Hk.
  generalize newStatusHandler at 1 as st.
  revert s Hok. induction ticks as [|n' IH]; intros s Hok st;
    destruct (reload_spec ctx c st s Hc Hok) as [Hr Hok'];
    unfold mbind, SE_bind; rewrite Hr; simpl.
  - by eexists.
  - apply (IH _ Hok').
Qed.
End Signals.

(** ** Witnesses *)

Definition toy_context : Context :=
  {| ctx_statusHTTP := true; ctx_shutdownTimeout := 300; ctx_cert := Some (Keystore toy_keystore) |}.

Lemma signals_reload_then_shut_down_witness :
  exists s', signalHandler Unix toy_context [SIGUSR1; SIGTERM; SIGUSR1] newStatusHandler
    (toy_state "new") =
  (Ret (StatusHandler true false, Some [ShutdownStatusHTTP; ExitAfter 300 1; ShutdownProxy]), s').
Proof.
  eexists. refine (@signals_reload_then_shut_down toy toy_ok Unix toy_context
    (Keystore toy_keystore) [SIGUSR1; SIGTERM; SIGUSR1] newStatusHandler (toy_state "new") _ _ _).
  - reflexivity.
  - intros i [= <-]. simpl. lia.
  - constructor.
Defined.

Lemma reload_without_certificate_panics_witness :
  signalHandler (L := toy) Unix {| ctx_statusHTTP := false; ctx_shutdownTimeout := 300; ctx_cert := None |}
    [SIGUSR1] newStatusHandler (toy_state "x") = (Panic, toy_state "x").
Proof.
  refine (proj1 (@reload_without_certificate_panics toy
    {| ctx_statusHTTP := false; ctx_shutdownTimeout := 300; ctx_cert := None |} [] 0 1
    newStatusHandler (toy_state "x") eq_refl _)).
  discriminate.
Defined.

Lemma timed_reload_marks_listening_witness :
  exists s', reloadHandler toy_context 60 1 newStatusHandler (toy_state "new")
    = (Ret (Listening newStatusHandler), s').
Proof.
  refine (@timed_reload_marks_listening toy toy_ok toy_context (Keystore toy_keystore) 60 0
    (toy_state "new") eq_refl _ _ _).
  - discriminate.
  - intros i [= <-]. simpl. lia.
  - constructor.
Defined.
