(* ===== verification/Main.v ===== *)
(** * The program: [src/main.go]

    Validation of the flags, addresses, the two backend dialers, the status
    listener, and the start-up of the server and client modes down to the point
    where the signal handler takes over ([Signals]). The network's answers are
    the record [world]; the compiled wildcard patterns, the access control
    lists, the certificates, the TLS configurations, the dialer and the proxy
    are those of the other files. *)
From Stdlib Require Import ZArith.
From stdpp Require Import base list sets strings gmap.
From S2P Require Import Prelude GoStrings Utf8 GoNet Regexp Wildcard Auth Certloader Flags Fdlimit TlsConfig.
From S2P Require Import Dialer Fuse Proxy Status Signals.

Local Open Scope Z_scope.

(** ** The world *)

(** What the network and the operating system answer: whether an address
    resolves, whether a socket can be opened, whether there is a system log, and
    the limits of the process. [None] is a nil error. *)
Record world : Type := {
  w_resolve : string -> option string;
  w_listen : string -> string -> option string;
  w_syslog : option string;
  w_rlimits : RlimitCalls;
  w_rlimit : Rlimit
}.

(** [fdlimit.Raise] on each platform. *)
Definition Raise (pl : platform) (w : world) (max : Z) : option string :=
  match pl with
  | Unix => (unix_Raise (R := w_rlimits w) max (w_rlimit w)).1
  | Windows => windows_Raise max
  end.

(** ** Logging *)

Inductive log_writer : Type := Stderr | Syslog.

(** [initLogger]: the error and where the global logger writes to; [NewLogger] is
    the answer of the system log. *)
Definition initLogger (syslog : bool) (NewLogger : option string) : option string * log_writer :=
  if syslog then
    match NewLogger with
    | None => (None, Syslog)
    | Some err => (Some err, Stderr)
    end
  else (None, Stderr).

(** [panicOnError]. *)
Definition panicOnError (err : option string) : outcome string unit :=
  match err with Some _ => Panic | None => Ret () end.

(** ** Flags *)

Definition validateFlags (f : Flags) : outcome string unit :=
  if enableProf f && String.eqb (statusAddress f) ""
  then Err "--enable-pprof requires --status to be set"
  else if negb (String.eqb (metricsURL f) "") && negb (HasPrefix (metricsURL f) "http://")
          && negb (HasPrefix (metricsURL f) "https://")
  then Err "--metrics-url should start with http:// or https://"
  else if timeoutDuration f =? 0
  then Err "--connect-timeout duration must not be zero"
  else Ret ().

Definition validateUnixOrLocalhost (addr : string) : bool :=
  if HasPrefix addr "unix:" then true
  else if HasPrefix addr "127.0.0.1:" then true
  else if HasPrefix addr "[::1]:" then true
  else if HasPrefix addr "localhost:" then true
  else false.

(** The loop that looks up the cipher suite names. *)
Fixpoint check_suites (names : list string) : outcome string unit :=
  match names with
  | [] => Ret ()
  | suite :: rest =>
    match cipherSuites !! TrimSpace suite with
    | None => Err ("invalid cipher suite option: " +:+ suite)
    | Some _ => check_suites rest
    end
  end.

Definition nonempty {A} (l : list A) : bool := negb (Nat.eqb (length l) 0).

Definition hasAccessFlags (f : Flags) : bool :=
  nonempty (serverAllowedCNs f) || nonempty (serverAllowedOUs f)
  || nonempty (serverAllowedDNSs f) || nonempty (serverAllowedIPs f)
  || nonempty (serverAllowedURIs f).

Definition serverValidateFlags (f : Flags) : outcome string unit :=
  let keystore := negb (String.eqb (keystorePath f) "") in
  if negb keystore && negb (hasKeychainIdentity f)
  then Err "at least one of --keystore or --keychain-identity (if supported) flags is required"
  else if keystore && hasKeychainIdentity f
  then Err "--keystore and --keychain-identity flags are mutually exclusive"
  else if negb (serverDisableAuth f) && negb (serverAllowAll f) && negb (hasAccessFlags f)
  then Err "at least one access control flag (--allow-{all,cn,ou,dns-san,ip-san,uri-san} or --disable-authentication) is required"
  else if negb (serverDisableAuth f) && serverAllowAll f && hasAccessFlags f
  then Err "--allow-all is mutually exclusive with other access control flags"
  else if serverDisableAuth f && (serverAllowAll f || hasAccessFlags f)
  then Err "--disable-authentication is mutually exclusive with other access control flags"
  else if negb (serverUnsafeTarget f) && negb (validateUnixOrLocalhost (serverForwardAddress f))
  then Err "--target must be unix:PATH, localhost:PORT, 127.0.0.1:PORT or [::1]:PORT (unless --unsafe-target is set)"
  else check_suites (Split (enabledCipherSuites f) ",").

Definition clientValidateFlags (f : Flags) : outcome string unit :=
  let keystore := negb (String.eqb (keystorePath f) "") in
  if negb keystore && negb (hasKeychainIdentity f) && negb (clientDisableAuth f)
  then Err "at least one of --keystore, --keychain-identity (if supported), or --disable-authentication flags is required"
  else if (keystore && hasKeychainIdentity f) || (keystore && clientDisableAuth f)
          || (hasKeychainIdentity f && clientDisableAuth f)
  then Err "--keystore, --keychain-identity, and --disable-authentication flags are mutually exclusive"
  else if negb (clientUnsafeListen f) && negb (validateUnixOrLocalhost (clientListenAddress f))
  then Err "--listen must be unix:PATH, localhost:PORT, 127.0.0.1:PORT or [::1]:PORT (unless --unsafe-listen is set)"
  else
    match clientConnectProxy f with
    | Some u =>
      if negb (String.eqb (u_Scheme u) "http") && negb (String.eqb (u_Scheme u) "https")
      then Err ("invalid CONNECT proxy " +:+ URL_String u +:+ ", must have HTTP or HTTPS connection scheme")
      else check_suites (Split (enabledCipherSuites f) ",")
    | None => check_suites (Split (enabledCipherSuites f) ",")
    end.

(** ** Addresses *)

Record target : Type := { t_network : string; t_address : string; t_host : string }.

Definition parseUnixOrTCPAddress (w : world) (input : string) : outcome string target :=
  if HasPrefix input "unix:"
  then Ret {| t_network := "unix"; t_address := str_drop 5 input; t_host := "" |}
  else
    hp ← SplitHostPort input;
    match w_resolve w input with
    | Some e => Err e
    | None => Ret {| t_network := "tcp"; t_address := input; t_host := fst hp |}
    end.

(** ** Dialers *)

(** The underlying dialers: [net.Dialer] with its timeout, or an HTTP CONNECT
    tunnel through a proxy, with the configuration for the proxy. *)
Inductive Dialer : Type :=
  | NetDialer (timeout : Z)
  | HttpTunnel (proxy_url : URL) (parent : Z) (proxyConfig : Config).

(** The closures the two modes pass to the proxy. *)
Inductive dial_func : Type :=
  | DialTimeout (network address : string) (timeout : Z)
  | DialTLS (d : mtlsDialer Dialer) (network address : string).

Section Main.
Context `{L : CertLibs} `{X : X509Libs}.

Definition serverBackendDialer (w : world) (f : Flags) : outcome string dial_func :=
  t ← parseUnixOrTCPAddress w (serverForwardAddress f);
  Ret (DialTimeout (t_network t) (t_address t) (timeoutDuration f)).

(** The access control lists of the two modes; the client's has no [AllowAll]. *)
Definition server_acl (f : Flags) (uris : list regexpMatcher) : ACL regexpMatcher :=
  {| AllowAll := serverAllowAll f; AllowedCNs := serverAllowedCNs f;
     AllowedOUs := serverAllowedOUs f; AllowedDNSs := serverAllowedDNSs f;
     AllowedIPs := serverAllowedIPs f; AllowedURIs := uris |}.
Definition client_acl (f : Flags) (uris : list regexpMatcher) : ACL regexpMatcher :=
  {| AllowAll := false; AllowedCNs := clientAllowedCNs f;
     AllowedOUs := clientAllowedOUs f; AllowedDNSs := clientAllowedDNSs f;
     AllowedIPs := clientAllowedIPs f; AllowedURIs := uris |}.

(** The errors of package [wildcard] and their texts. *)
Definition wildcard_text (e : wildcard_error) : string :=
  match e with
  | errEmptyPattern => "input pattern was empty string"
  | errInvalidWildcard => "wildcard '*' can only appear between two separators"
  | errInvalidDoubleWildcard => "wildcard '**' can only appear at end of pattern"
  | _ => "unable to compile generated regex (internal bug)"
  end.

Definition patterns_of (r : outcome wildcard_error (list regexpMatcher)) :
    outcome string (list regexpMatcher) :=
  match r with
  | Ret ms => Ret ms
  | Err e => Err (wildcard_text e)
  | Panic => Panic
  end.

(** [config.ClientAuth] is assigned after the proxy's own configuration has been
    built; the configuration that is passed to the tunnel is [proxyConfig]. *)
Definition clientBackendDialer (f : Flags) (fs : gmap string string) (cert : option certificate)
    (network address host : string) : outcome string dial_func :=
  config ← buildConfig fs (enabledCipherSuites f) (caBundlePath f);
  let config := set_ServerName (if String.eqb (clientServerName f) "" then host
                                else clientServerName f) config in
  allowedURIs ← patterns_of (CompileList (clientAllowedURIs f));
  let config := set_VerifyPeerCertificate
                  (VerifyPeerCertificateClient (client_acl f allowedURIs)) config in
  r ← (match clientConnectProxy f with
       | Some u =>
         proxyConfig ← buildConfig fs (enabledCipherSuites f) (caBundlePath f);
         Ret (set_ClientAuth NoClientCert config,
              HttpTunnel u (timeoutDuration f) proxyConfig)
       | None => Ret (config, NetDialer (timeoutDuration f))
       end : outcome string (Config * Dialer));
  Ret (DialTLS (DialerWithCertificate cert (fst r) (timeoutDuration f) (snd r)) network address).

(** ** The status listener *)

Record status_server : Type := {
  ss_network : string;
  ss_address : string;
  ss_tls : option Config;
  ss_routes : list string
}.

Definition routes (pprof : bool) : list string :=
  ["/_status"; "/_metrics"] ++
  if pprof then ["/debug/pprof/"; "/debug/pprof/cmdline"; "/debug/pprof/profile";
                 "/debug/pprof/symbol"; "/debug/pprof/trace"] else [].

(** For a UNIX socket the listener is asserted to be one before the error of
    [net.Listen] is looked at; the assertion on a nil interface panics. *)
Definition serveStatus (w : world) (f : Flags) (fs : gmap string string)
    (cert : option certificate) : outcome string status_server :=
  config ← buildConfig fs (enabledCipherSuites f) (caBundlePath f);
  let config := set_ClientAuth NoClientCert config in
  let config := match cert with Some c => set_GetCertificate (Some c) config | None => config end in
  t ← parseUnixOrTCPAddress w (statusAddress f);
  let unix := String.eqb (t_network t) "unix" in
  match w_listen w (t_network t) (t_address t) with
  | Some e => if unix then Panic else Err e
  | None =>
    Ret {| ss_network := t_network t; ss_address := t_address t;
           ss_tls := if unix then None else Some config;
           ss_routes := routes (enableProf f) |}
  end.

(** The handler of [/_metrics]: [params] are the query parameters. *)
Definition metrics_format (params : gmap string (list string)) : outcome string string :=
  match params !! "format" with
  | None => Ret "json"
  | Some [] => Panic
  | Some (x :: _) => if String.eqb x "prometheus" then Ret "prometheus" else Ret "json"
  end.

(** ** Metrics *)

(** The metrics reporters [run] starts: graphite if an address is given,
    prometheus always, and the JSON reporter, with the configuration of the
    client it posts with (TLS 1.2 and the CA bundle). *)
Inductive reporter : Type :=
  | GraphiteReporter (address prefix : string)
  | PrometheusReporter (prefix : string)
  | JSONReporter (url prefix : string) (interval : Z) (minVersion : Z) (rootCAs : CertPool).

Definition start_metrics (f : Flags) (ca : CertPool) : list reporter :=
  (match metricsGraphite f with
   | Some address => [GraphiteReporter address (metricsPrefix f)]
   | None => []
   end)
  ++ [PrometheusReporter (metricsPrefix f);
      JSONReporter (metricsURL f) (metricsPrefix f) (metricsInterval f) VersionTLS12 ca].

(** ** Listening *)

(** A proxy that is ready to accept: where and how it listens, what it dials, the
    status server, the metrics reporters and the context for the signal handler. What follows (the
    accept loop, the signal handler and waiting) is the subject of [System]. *)
Record running : Type := {
  r_network : string;
  r_address : string;
  r_tls : option Config;
  r_unlink : bool;
  r_proxy : proxy;
  r_dial : dial_func;
  r_timeout : Z;
  r_status : option status_server;
  r_metrics : list reporter;
  r_context : Context
}.

Definition maybe_status (w : world) (f : Flags) (fs : gmap string string)
    (cert : option certificate) : outcome string (option status_server) :=
  if negb (String.eqb (statusAddress f) "") then s ← serveStatus w f fs cert; Ret (Some s)
  else Ret None.

Definition context_of (f : Flags) (cert : option certificate) (ss : option status_server) : Context :=
  {| ctx_statusHTTP := match ss with Some _ => true | None => false end;
     ctx_shutdownTimeout := shutdownTimeout f; ctx_cert := cert |}.

(** The configuration of the TLS listener; the method value of a nil certificate
    panics. *)
Definition server_config (f : Flags) (fs : gmap string string) (cert : option certificate) :
    outcome string Config :=
  config ← buildConfig fs (enabledCipherSuites f) (caBundlePath f);
  allowedURIs ← patterns_of (CompileList (serverAllowedURIs f));
  match cert with
  | None => Panic
  | Some c =>
    let config := set_GetCertificate (Some c) config in
    let config := set_VerifyPeerCertificate
                    (VerifyPeerCertificateServer (server_acl f allowedURIs)) config in
    Ret (if serverDisableAuth f then set_ClientAuth NoClientCert config else config)
  end.

Definition serverListen (w : world) (f : Flags) (fs : gmap string string)
    (metrics : list reporter) (cert : option certificate) (dial : dial_func) :
    outcome string running :=
  config ← server_config f fs cert;
  match w_listen w "tcp" (serverListenAddress f) with
  | Some e => Err e
  | None =>
    ss ← maybe_status w f fs cert;
    Ret {| r_network := "tcp"; r_address := serverListenAddress f; r_tls := Some config;
           r_unlink := false; r_proxy := proxy_start (serverProxyProtocol f); r_dial := dial;
           r_timeout := timeoutDuration f; r_status := ss; r_metrics := metrics;
           r_context := context_of f cert ss |}
  end.

Definition clientListen (w : world) (f : Flags) (fs : gmap string string)
    (metrics : list reporter) (cert : option certificate) (dial : dial_func) :
    outcome string running :=
  t ← parseUnixOrTCPAddress w (clientListenAddress f);
  match w_listen w (t_network t) (t_address t) with
  | Some e => Err e
  | None =>
    ss ← maybe_status w f fs cert;
    Ret {| r_network := t_network t; r_address := t_address t; r_tls := None;
           r_unlink := String.eqb (t_network t) "unix"; r_proxy := proxy_start false;
           r_dial := dial; r_timeout := timeoutDuration f; r_status := ss;
           r_metrics := metrics; r_context := context_of f cert ss |}
  end.

(** ** [run] *)

Inductive command : Type := ServerCommand | ClientCommand.

Definition raise_fdlimit (pl : platform) (w : world) (f : Flags) : outcome string unit :=
  if 0 <? fdLimit f then match Raise pl w (fdLimit f) with Some e => Err e | None => Ret () end
  else Ret ().

Definition start_logger (pl : platform) (w : world) (f : Flags) : outcome string log_writer :=
  match initLogger (useSyslog pl (syslogFlag f)) (w_syslog w) with
  | (Some err, _) => Err err
  | (None, writer) => Ret writer
  end.

(** The part of [run] after the certificate has been built. *)
Definition run_command (w : world) (f : Flags) (fs : gmap string string) (cmd : command)
    (metrics : list reporter) (cert : option certificate) : outcome string running :=
  match cmd with
  | ServerCommand =>
    serverValidateFlags f;;
    dial ← serverBackendDialer w f;
    serverListen w f fs metrics cert dial
  | ClientCommand =>
    clientValidateFlags f;;
    t ← parseUnixOrTCPAddress w (clientForwardAddress f);
    dial ← clientBackendDialer f fs cert (t_network t) (t_address t) (t_host t);
    clientListen w f fs metrics cert dial
  end.

(** [run], from the parsed flags to the running proxy. *)
Definition main_run (pl : platform) (b : build) (w : world) (f : Flags) (cmd : command) :
    SE running := fun s =>
  (lift (validateFlags f);;
   lift (start_logger pl w f);;
   lift (raise_fdlimit pl w f);;
   ca ← lift (caBundle (files s) (caBundlePath f));
   cert ← buildCertificate b f (keystorePath f) (keystorePass f);
   lift (run_command w f (files s) cmd (start_metrics f ca) cert)) s.

(** The exit status [main] ends with: 1 for an error of [run], 0 when it
    returns, and 2 for a panic. *)
Definition main_exit {A} (r : outcome string A) : Z :=
  match r with Ret _ => 0 | Err _ => 1 | Panic => 2 end.

(** ** Lemmas *)

Lemma check_suites_ok names : check_suites names = Ret () <-> Forall known_suite names.
Proof.
  induction names as [|n names IH]; simpl; [by split; [constructor|]|].
  rewrite Forall_cons, <- IH. unfold known_suite. destruct (cipherSuites !! TrimSpace n).
  - split; [by split; [eauto|]|by intros [_ ?]].
  - split; [done|by intros [[? [=]] _]].
Qed.

Lemma select_suites_known names acc : Forall known_suite names ->
  exists suites, select_suites names acc = Ret suites.
Proof.
  intros H. pose proof (select_suites_spec names acc) as Hs.
  destruct (select_suites names acc) as [suites|m|]; [eauto| |done].
  destruct Hs as (pre & bad & post & -> & _ & Hb & _).
  apply Forall_app in H as [_ H]. by apply Forall_cons in H as [? _].
Qed.

Lemma buildConfig_known fs suites path pool :
  Forall known_suite (Split suites ",") -> caBundle fs path = Ret pool ->
  exists c, buildConfig fs suites path = Ret c.
Proof.
  intros Hk Hc. destruct (select_suites_known _ [] Hk) as [cs Hs].
  unfold buildConfig. rewrite Hc. cbn [mbind outcome_bind]. rewrite Hs. cbn [mbind outcome_bind].
  eauto.
Qed.

(** An address that passes the check is a UNIX socket or on this machine. *)
Definition local_host (host : string) : Prop :=
  host = "127.0.0.1" \/ host = "::1" \/ host = "localhost".

Lemma SplitHostPort_v6 rest host port :
  SplitHostPort ("[::1]:" +:+ rest) = Ret (host, port) -> host = "::1".
Proof.
  unfold SplitHostPort. rewrite bytes_app. change (bytes "[::1]:") with [91; 58; 58; 49; 93; 58].
  destruct (lastIndex 58 _) as [i|]; [|done].
  rewrite bool_decide_eq_true_2 by done. cbn [app byteIndex Z.eqb Pos.eqb fmap option_fmap option_map].
  repeat case_match; try done. by intros [= <- _].
Qed.

Lemma validated_address_local w addr t :
  validateUnixOrLocalhost addr = true -> parseUnixOrTCPAddress w addr = Ret t ->
  (t_network t = "unix" /\ addr = "unix:" +:+ t_address t) \/
  (t_network t = "tcp" /\ t_address t = addr /\ local_host (t_host t)).
Proof.
  unfold validateUnixOrLocalhost, parseUnixOrTCPAddress.
  destruct (HasPrefix addr "unix:") eqn:Eu.
  { intros _ [= <-]. left. split; [done|]. apply HasPrefix_spec in Eu as [r ->].
    done. }
  intros Hv. rewrite bind_Ret_inv. intros ([host port] & Hs & Hr).
  destruct (w_resolve w addr); [done|]. injection Hr as <-. right. simpl.
  split; [done|]. split; [done|]. unfold local_host.
  destruct (HasPrefix addr "127.0.0.1:") eqn:E1.
  { apply HasPrefix_spec in E1 as [r ->]. left.
    apply (SplitHostPort_name "127.0.0.1" r host port); [|done|done|exact Hs].
    apply byteIndex_None. done. }
  destruct (HasPrefix addr "[::1]:") eqn:E2.
  { apply HasPrefix_spec in E2 as [r ->]. right. left. by eapply SplitHostPort_v6. }
  destruct (HasPrefix addr "localhost:") eqn:E3; [|done].
  apply HasPrefix_spec in E3 as [r ->]. right. right.
  apply (SplitHostPort_name "localhost" r host port); [|done|done|exact Hs].
  apply byteIndex_None. done.
Qed.

(** The backend of a server whose target is not declared unsafe. *)
Definition local_target (f : Flags) (network address : string) : Prop :=
  (network = "unix" /\ serverForwardAddress f = "unix:" +:+ address) \/
  (network = "tcp" /\ address = serverForwardAddress f /\
   exists host port, SplitHostPort address = Ret (host, port) /\ local_host host).

Lemma validated_local w f network address timeout :
  serverValidateFlags f = Ret () -> serverUnsafeTarget f = false ->
  serverBackendDialer w f = Ret (DialTimeout network address timeout) ->
  local_target f network address.
Proof.
  unfold local_target. intros Hv Hu Hd. assert (Hl : validateUnixOrLocalhost (serverForwardAddress f) = true).
  { destruct (validateUnixOrLocalhost _) eqn:E; [done|]. unfold serverValidateFlags in Hv.
    rewrite Hu, E in Hv. cbn [negb andb] in Hv.
    repeat match type of Hv with (if ?b then _ else _) = _ => destruct b; [done|] end. done. }
  unfold serverBackendDialer in Hd. apply bind_Ret_inv in Hd as (t & Ht & [= <- <- <-]).
  destruct (validated_address_local w _ _ Hl Ht) as [[Hn Ha]|(Hn & Ha & Hh)]; [auto|].
  right. split; [done|]. split; [done|]. rewrite Ha.
  unfold parseUnixOrTCPAddress in Ht. destruct (HasPrefix _ _); [by injection Ht as <-|].
  apply bind_Ret_inv in Ht as ([host port] & Hs & Hr). exists host, port. split; [done|].
  destruct (w_resolve w _); [done|]. by injection Hr as <-.
Qed.

(** The certificate of a run has been loaded; without one, no flag names one. *)
Lemma buildCertificate_loaded b f path pass (s s' : state) cert :
  buildCertificate b f path pass s = (Ret cert, s') ->
  match cert with
  | Some c => Reload c s = (Ret (), s')
  | None => path = "" /\ hasKeychainIdentity f = false
  end.
Proof.
  unfold buildCertificate.
  destruct (hasPKCS11 f); [|destruct (hasKeychainIdentity f)].
  - unfold buildCertificateFromPKCS11, CertificateFromPKCS11Module,
      enabled_CertificateFromPKCS11Module, mbind, SE_bind, lift.
    destruct (pkcs11Module f), (pkcs11TokenLabel f), (pkcs11PIN f); try done. simpl.
    destruct (cgo b); simpl; [|done].
    match goal with |- context [pkcs11_Reload ?c s] =>
      destruct (pkcs11_Reload c s) as [[[]|e|] st] eqn:E; [|done|done];
      by intros [= <- <-] end.
  - unfold buildCertificateFromCertstore, CertificateFromKeychainIdentity,
      enabled_CertificateFromKeychainIdentity, mbind, SE_bind, lift.
    destruct (keychainIdentity f); [|done]. simpl. destruct (certstore b); simpl; [|done].
    match goal with |- context [certstore_Reload ?c s] =>
      destruct (certstore_Reload c s) as [[[]|e|] st] eqn:E; [|done|done];
      by intros [= <- <-] end.
  - destruct (String.eqb_spec path "") as [|_]; [by intros [= <- <-]|].
    unfold CertificateFromKeystore, mbind, SE_bind. simpl.
    match goal with |- context [keystore_Reload ?c s] =>
      destruct (keystore_Reload c s) as [[[]|e|] st] eqn:E; [|done|done];
      by intros [= <- <-] end.
Qed.

Lemma buildCertificate_named b f path pass (s s' : state) cert :
  path <> "" \/ hasKeychainIdentity f = true ->
  buildCertificate b f path pass s = (Ret cert, s') ->
  exists c, cert = Some c /\ Reload c s = (Ret (), s').
Proof.
  intros Hn Hb%buildCertificate_loaded. destruct cert as [c|]; [by exists c|].
  destruct Hb as [-> E]. rewrite E in Hn. by destruct Hn.
Qed.

Lemma SE_bind_Ret {A B} (m : SE A) (k : A -> SE B) s b s' :
  (m ≫= k) s = (Ret b, s') -> exists a s1, m s = (Ret a, s1) /\ k a s1 = (Ret b, s').
Proof.
  unfold mbind, SE_bind. destruct (m s) as [[a|e|] s1]; [|done|done]. by exists a, s1.
Qed.

Lemma lift_Ret {A} (o : outcome string A) s a s' : lift o s = (Ret a, s') -> o = Ret a /\ s' = s.
Proof. unfold lift. by intros [= <- <-]. Qed.

Lemma main_run_Ret pl b w f cmd s r s' :
  main_run pl b w f cmd s = (Ret r, s') ->
  validateFlags f = Ret () /\ exists pool cert,
    caBundle (files s) (caBundlePath f) = Ret pool /\
    buildCertificate b f (keystorePath f) (keystorePass f) s = (Ret cert, s') /\
    run_command w f (files s) cmd (start_metrics f pool) cert = Ret r.
Proof.
  unfold main_run. intros H. apply SE_bind_Ret in H as ([] & s1 & [Hv ->]%lift_Ret & H).
  apply SE_bind_Ret in H as (lw & s1 & [_ ->]%lift_Ret & H).
  apply SE_bind_Ret in H as ([] & s1 & [_ ->]%lift_Ret & H).
  apply SE_bind_Ret in H as (pool & s1 & [Hc ->]%lift_Ret & H).
  apply SE_bind_Ret in H as (cert & s1 & Hb & [Hr ->]%lift_Ret). eauto 6.
Qed.

(** The configuration a server listens with lets every client in. *)
Lemma server_config_open f fs cert c certs :
  server_config f fs cert = Ret c ->
  ClientAuth c = NoClientCert /\ server_authenticates c certs = Ret () /\
  is_Some (VerifyPeerCertificate c).
Proof.
  unfold server_config. rewrite bind_Ret_inv. intros (config & Hb & H).
  apply bind_Ret_inv in H as (uris & _ & H). destruct cert as [k|]; [|done].
  apply buildConfig_Ret in Hb as (ca & cs & _ & _ & ->).
  assert (ClientAuth c = NoClientCert /\ is_Some (VerifyPeerCertificate c)) as [Ha Hv].
  { injection H as <-. by destruct (serverDisableAuth f). }
  split; [done|]. split; [|done]. unfold server_authenticates. by rewrite Ha.
Qed.

(** What a server that has started consists of. *)
Lemma server_started pl b w f s r s' :
  main_run pl b w f ServerCommand s = (Ret r, s') ->
  exists c cfg, ctx_cert (r_context r) = Some c /\ r_tls r = Some cfg /\
    cfg_GetCertificate cfg = Some c /\ Reload c s = (Ret (), s') /\
    r_proxy r = proxy_start (serverProxyProtocol f) /\
    (forall certs, server_authenticates cfg certs = Ret ()) /\
    (exists network address, r_dial r = DialTimeout network address (timeoutDuration f) /\
       (serverUnsafeTarget f = false -> local_target f network address)) /\
    exists pool, caBundle (files s) (caBundlePath f) = Ret pool /\ r_metrics r = start_metrics f pool.
Proof.
  intros (_ & pool & cert & Hp & Hb & Hr)%main_run_Ret. unfold run_command in Hr.
  apply bind_Ret_inv in Hr as ([] & Hv & Hr). apply bind_Ret_inv in Hr as (dial & Hd & Hr).
  assert (Hl : exists network address, dial = DialTimeout network address (timeoutDuration f) /\
    (serverUnsafeTarget f = false -> local_target f network address)).
  { pose proof Hd as Hd'. unfold serverBackendDialer in Hd'. apply bind_Ret_inv in Hd' as (t & _ & [= <-]).
    eexists _, _. split; [done|]. intros Hu. by eapply validated_local. }
  assert (Hn : keystorePath f <> "" \/ hasKeychainIdentity f = true).
  { unfold serverValidateFlags in Hv.
    destruct (String.eqb_spec (keystorePath f) "") as [Hk|Hk]; [|by left].
    right. by destruct (hasKeychainIdentity f). }
  destruct (buildCertificate_named _ _ _ _ _ _ _ Hn Hb) as (c & -> & Hc).
  unfold serverListen in Hr. apply bind_Ret_inv in Hr as (cfg & Hcfg & Hr).
  destruct (w_listen w _ _); [done|]. apply bind_Ret_inv in Hr as (ss & _ & [= <-]).
  exists c, cfg. split; [done|]. split; [done|].
  split; [|split; [done|split; [done|split; [|split; [done|by exists pool]]]]];
    [|intros certs; by apply (server_config_open _ _ _ _ certs) in Hcfg as (_ & ? & _)].
  unfold server_config in Hcfg. apply bind_Ret_inv in Hcfg as (config & _ & H).
  apply bind_Ret_inv in H as (uris & _ & [= <-]). by destruct (serverDisableAuth f).
Qed.

(** The name a server's certificate has to be valid for. *)
Definition expected_name (f : Flags) (host : string) : string :=
  if String.eqb (clientServerName f) "" then host else clientServerName f.

(** What a client answers to a server that presents [certs]. *)
Definition client_accepts (f : Flags) (pool : CertPool) (uris : list regexpMatcher) (host : string)
    (certs : list Certificate) (o : outcome string unit) : Prop :=
  if String.eqb (expected_name f host) "" then exists e, o = Err e
  else o = (chains ← x509_Verify pool ExtKeyUsageServerAuth (Some (expected_name f host)) certs;
            VerifyPeerCertificateClient (client_acl f uris) (map Raw certs) chains).

Lemma client_accepts_Ret f pool uris host certs o : client_accepts f pool uris host certs o ->
  o = Ret () <-> expected_name f host <> "" /\ exists chains,
    x509_Verify pool ExtKeyUsageServerAuth (Some (expected_name f host)) certs = Ret chains /\
    VerifyPeerCertificateClient (client_acl f uris) (map Raw certs) chains = Ret ().
Proof.
  unfold client_accepts. destruct (String.eqb_spec (expected_name f host) "") as [E|E].
  - intros [e ->]. split; [done|]. by intros [? _].
  - intros ->. rewrite bind_Ret_inv. naive_solver.
Qed.

(** What the dialer of a client consists of. *)
Lemma client_dialer f fs cert network address host dial :
  clientBackendDialer f fs cert network address host = Ret dial ->
  exists d pool uris, dial = DialTLS d network address /\
  caBundle fs (caBundlePath f) = Ret pool /\ CompileList (clientAllowedURIs f) = Ret uris /\
  cfg_GetClientCertificate (d_config d) = cert /\
  (forall certs, client_accepts f pool uris host certs (client_authenticates (d_config d) certs)).
Proof.
  unfold clientBackendDialer. rewrite bind_Ret_inv. intros (config & Hb & H).
  apply bind_Ret_inv in H as (uris & Hu & H). apply bind_Ret_inv in H as ([config' dl] & Hr & H).
  injection H as <-. apply buildConfig_Ret in Hb as (pool & cs & Hp & _ & ->).
  eexists _, pool, uris. split; [done|]. split; [done|]. split.
  { unfold patterns_of in Hu. destruct (CompileList (clientAllowedURIs f)); congruence. }
  unfold client_accepts, expected_name, client_authenticates, DialerWithCertificate.
  destruct (clientConnectProxy f) as [u|].
  - apply bind_Ret_inv in Hr as (pc & _ & [= <- <-]). simpl. destruct cert; (split; [done|]);
      intros certs; simpl; destruct (String.eqb _ ""); eauto.
  - injection Hr as <- <-. simpl. destruct cert; (split; [done|]);
      intros certs; simpl; destruct (String.eqb _ ""); eauto.
Qed.

(** What a client that has started consists of. *)
Lemma client_started pl b w f s r s' :
  main_run pl b w f ClientCommand s = (Ret r, s') ->
  exists cert d t pool uris, ctx_cert (r_context r) = cert /\ r_tls r = None /\
    r_proxy r = proxy_start false /\
    buildCertificate b f (keystorePath f) (keystorePass f) s = (Ret cert, s') /\
    parseUnixOrTCPAddress w (clientForwardAddress f) = Ret t /\
    r_dial r = DialTLS d (t_network t) (t_address t) /\
    caBundle (files s) (caBundlePath f) = Ret pool /\ CompileList (clientAllowedURIs f) = Ret uris /\
    (forall certs, client_accepts f pool uris (t_host t) certs (client_authenticates (d_config d) certs)).
Proof.
  intros (_ & pool & cert & Hp & Hb & Hr)%main_run_Ret. unfold run_command in Hr.
  apply bind_Ret_inv in Hr as ([] & Hv & Hr). apply bind_Ret_inv in Hr as (t & Ht & Hr).
  apply bind_Ret_inv in Hr as (dial & Hd & Hr).
  destruct (client_dialer _ _ _ _ _ _ _ Hd) as (d & pool' & uris & -> & Hp' & Hu & _ & Ha).
  unfold clientListen in Hr. apply bind_Ret_inv in Hr as (t' & _ & Hr).
  destruct (w_listen w _ _); [done|]. apply bind_Ret_inv in Hr as (ss & _ & [= <-]).
  exists cert, d, t, pool', uris. by repeat (split; [done|]).
Qed.

(** Exactly one of three. *)
Definition exactly_one (a b c : bool) : Prop :=
  (a = true /\ b = false /\ c = false) \/ (a = false /\ b = true /\ c = false) \/
  (a = false /\ b = false /\ c = true).

Lemma exactly_one_iff a b c :
  exactly_one a b c <-> negb a && negb b && negb c = false /\
    (a && b) || (a && c) || (b && c) = false.
Proof. unfold exactly_one. destruct a, b, c; simpl; intuition congruence. Qed.

Lemma negb_and_false a b : negb a && negb b = false <-> a = true \/ b = true.
Proof. destruct a, b; simpl; intuition congruence. Qed.

(** ** Claims *)

(** C30. What the server's flag validation lets through, exactly: one source of
    the certificate (a keystore or a keychain identity, not both), one access
    policy (no authentication, everyone with a valid certificate, or at least
    one access rule), a target that is local unless --unsafe-target is set, and
    known cipher suites only. *)
Theorem server_flags_iff (f : Flags) :
  serverValidateFlags f = Ret () <->
  (keystorePath f = "" <-> hasKeychainIdentity f = true) /\
  exactly_one (serverDisableAuth f) (serverAllowAll f) (hasAccessFlags f) /\
  (serverUnsafeTarget f = true \/ validateUnixOrLocalhost (serverForwardAddress f) = true) /\
  Forall known_suite (Split (enabledCipherSuites f) ",").
Proof.
  rewrite <- check_suites_ok, exactly_one_iff, <- negb_and_false. unfold serverValidateFlags.
  rewrite !guard_Ret. generalize (check_suites (Split (enabledCipherSuites f) ",") = Ret ()) as suites.
  intros suites.
  assert (Hk : (keystorePath f = "" <-> hasKeychainIdentity f = true) <->
    negb (negb (String.eqb (keystorePath f) "")) && negb (hasKeychainIdentity f) = false /\
    negb (String.eqb (keystorePath f) "") && hasKeychainIdentity f = false).
  { destruct (String.eqb_spec (keystorePath f) "") as [->|Hk], (hasKeychainIdentity f); simpl; intuition congruence. }
  rewrite Hk. clear Hk.
  destruct (serverDisableAuth f), (serverAllowAll f), (hasAccessFlags f); simpl; intuition congruence.
Qed.

(** C31. The same for the client: exactly one of a keystore, a keychain identity
    and --disable-authentication; a local listening address unless
    --unsafe-listen is set; a CONNECT proxy only over HTTP or HTTPS; known
    cipher suites only. *)
Theorem client_flags_iff (f : Flags) :
  clientValidateFlags f = Ret () <->
  exactly_one (negb (String.eqb (keystorePath f) "")) (hasKeychainIdentity f) (clientDisableAuth f) /\
  (clientUnsafeListen f = true \/ validateUnixOrLocalhost (clientListenAddress f) = true) /\
  (forall u, clientConnectProxy f = Some u -> u_Scheme u = "http" \/ u_Scheme u = "https") /\
  Forall known_suite (Split (enabledCipherSuites f) ",").
Proof.
  rewrite <- check_suites_ok, exactly_one_iff, <- negb_and_false. unfold clientValidateFlags.
  rewrite !guard_Ret. generalize (check_suites (Split (enabledCipherSuites f) ",")) as suites. intros suites.
  assert (Hp : (forall u, clientConnectProxy f = Some u -> u_Scheme u = "http" \/ u_Scheme u = "https")
    <-> match clientConnectProxy f with
        | Some u => negb (String.eqb (u_Scheme u) "http") && negb (String.eqb (u_Scheme u) "https") = false
        | None => True end).
  { destruct (clientConnectProxy f) as [u|]; [|by split].
    rewrite andb_false_iff, !negb_false_iff, !String.eqb_eq.
    split; [intros H; by apply H|by intros H v [= <-]]. }
  rewrite Hp. clear Hp. destruct (clientConnectProxy f) as [u|]; rewrite ?guard_Ret; tauto.
Qed.

(** A validated server forwards only to this machine: without
    --unsafe-target, the backend it dials is a UNIX socket or a TCP address
    whose host is 127.0.0.1, ::1 or localhost, as [net.SplitHostPort] reads
    it; and it is the address given. *)
Theorem validated_target_is_local (w : world) (f : Flags) (network address : string) (timeout : Z) :
  serverValidateFlags f = Ret () -> serverUnsafeTarget f = false ->
  serverBackendDialer w f = Ret (DialTimeout network address timeout) ->
  (network = "unix" /\ serverForwardAddress f = "unix:" +:+ address) \/
  (network = "tcp" /\ address = serverForwardAddress f /\
   exists host port, SplitHostPort address = Ret (host, port) /\ local_host host).
Proof. apply validated_local. Qed.

(** C33. Validation and configuration agree: once the flags are validated,
    [buildConfig] can fail only because of the CA bundle, in both modes. *)
Theorem validated_suites_build (f : Flags) (fs : gmap string string) (pool : CertPool) :
  serverValidateFlags f = Ret () \/ clientValidateFlags f = Ret () ->
  caBundle fs (caBundlePath f) = Ret pool ->
  exists c, buildConfig fs (enabledCipherSuites f) (caBundlePath f) = Ret c /\
    RootCAs c = pool /\ CipherSuites c <> [].
Proof.
  intros Hv Hc. assert (Hk : Forall known_suite (Split (enabledCipherSuites f) ",")).
  { apply check_suites_ok. destruct Hv as [Hv|Hv].
    - unfold serverValidateFlags in Hv.
      repeat match type of Hv with (if ?b then _ else _) = _ => destruct b; [done|] end. done.
    - unfold clientValidateFlags in Hv.
      repeat match type of Hv with (if ?b then _ else _) = _ => destruct b; [done|] end.
      destruct (clientConnectProxy f); [|done].
      by match type of Hv with (if ?b then _ else _) = _ => destruct b end. }
  destruct (buildConfig_known fs _ _ pool Hk Hc) as [c Hb]. exists c. split; [done|].
  apply buildConfig_Ret in Hb as (ca & cs & Hca & Hcs & ->). simpl.
  split; [congruence|]. pose proof (select_suites_spec (Split (enabledCipherSuites f) ",") []) as Hs.
  rewrite Hcs in Hs. destruct Hs as [_ ->]. simpl.
  destruct (Split (enabledCipherSuites f) ",") as [|n ns] eqn:E.
  { exfalso. revert E. apply (Split_nonempty 44). done. }
  apply Forall_cons in Hk as [[cs Hn] _]. simpl. unfold suites_of. rewrite Hn. simpl.
  assert (cs <> []) as Hne.
  { destruct (cipherSuites_cases _ _ Hn) as [En|[En|[En|En]]]; rewrite En in Hn;
      vm_compute in Hn; by injection Hn as <-. }
  by destruct cs.
Qed.

(** C21. The server never asks its clients for a certificate: whatever the
    access control flags, the configuration it listens with accepts every
    client in a full handshake, with any certificate or none, and the access
    control list is not consulted. *)
Theorem server_accepts_every_client (f : Flags) (fs : gmap string string)
    (cert : option certificate) (c : Config) (certs : list Certificate) :
  server_config f fs cert = Ret c ->
  ClientAuth c = NoClientCert /\ server_authenticates c certs = Ret () /\
  is_Some (VerifyPeerCertificate c).
Proof. apply server_config_open. Qed.

(** C20. A client accepts a server exactly when path validation succeeds against
    the configured trust store, for server authentication and for the host
    name of the target (or the one that overrides it), and the access control
    list built from the --verify flags admits the verified chains. Without a name
    to expect (a UNIX socket as target and no --override-server-name) it accepts
    nobody. It offers the certificate it was given, or none. *)
Theorem client_accepts_iff (f : Flags) (fs : gmap string string) (cert : option certificate)
    (network address host : string) (d : mtlsDialer Dialer) (n a : string)
    (certs : list Certificate) :
  clientBackendDialer f fs cert network address host = Ret (DialTLS d n a) ->
  exists pool uris, caBundle fs (caBundlePath f) = Ret pool /\
  CompileList (clientAllowedURIs f) = Ret uris /\ n = network /\ a = address /\
  cfg_GetClientCertificate (d_config d) = cert /\
  (client_authenticates (d_config d) certs = Ret () <->
   expected_name f host <> "" /\ exists chains,
     x509_Verify pool ExtKeyUsageServerAuth (Some (expected_name f host)) certs = Ret chains /\
     VerifyPeerCertificateClient (client_acl f uris) (map Raw certs) chains = Ret ()).
Proof.
  intros Hd. destruct (client_dialer _ _ _ _ _ _ _ Hd) as (d' & pool & uris & [= <- <- <-] & Hp & Hu & Hc & Ha).
  exists pool, uris. repeat (split; [done|]). by apply client_accepts_Ret.
Qed.

(** A server that has started has a loaded certificate: the handshake and
    the signal handler use it, and it is not nil (flags that name no
    certificate are rejected before it would be used). *)
Theorem started_server_has_certificate (pl : platform) (b : build) (w : world) (f : Flags)
    (s s' : state) (r : running) :
  main_run pl b w f ServerCommand s = (Ret r, s') ->
  exists c cfg, ctx_cert (r_context r) = Some c /\ r_tls r = Some cfg /\
    cfg_GetCertificate cfg = Some c /\ is_Some (current s').
Proof.
  intros (c & cfg & Hc & Ht & Hg & Hr & _)%server_started. exists c, cfg.
  by apply (reload_current c s s') in Hr as [Hr _].
Qed.

(** A status socket that cannot be opened crashes the process: when
    listening on a UNIX socket for the status endpoint fails, the error is not
    returned; the type assertion on the nil listener panics first. *)
Theorem status_socket_failure_panics (w : world) (f : Flags) (fs : gmap string string)
    (cert : option certificate) (path e : string) (c : Config) :
  buildConfig fs (enabledCipherSuites f) (caBundlePath f) = Ret c ->
  statusAddress f = "unix:" +:+ path -> w_listen w "unix" path = Some e ->
  serveStatus w f fs cert = Panic.
Proof.
  intros Hb Ha Hl. unfold serveStatus. rewrite Hb. cbn [mbind outcome_bind].
  unfold parseUnixOrTCPAddress. rewrite Ha.
  assert (HasPrefix ("unix:" +:+ path) "unix:" = true) as ->
    by (apply HasPrefix_spec; by exists path).
  cbn [mbind outcome_bind t_network t_address].
  change (str_drop 5 ("unix:" +:+ path)) with path. by rewrite Hl.
Qed.
End Main.

(** ** Witnesses *)

(** A server for clients with the common name "client", a client of it, and a
    network on which everything but one UNIX socket can be opened. *)
Definition toy_flags : Flags := {|
  keychainIdentity := None; pkcs11Module := None; pkcs11TokenLabel := None; pkcs11PIN := None;
  serverListenAddress := "0.0.0.0:8443"; serverForwardAddress := "localhost:8080";
  serverProxyProtocol := false; serverUnsafeTarget := false; serverAllowAll := false;
  serverAllowedCNs := ["client"]; serverAllowedOUs := []; serverAllowedDNSs := [];
  serverAllowedIPs := []; serverAllowedURIs := ["spiffe://ghostunnel/*"];
  serverDisableAuth := false;
  clientListenAddress := "unix:/run/client.sock"; clientForwardAddress := "server:8443";
  clientUnsafeListen := false; clientServerName := ""; clientConnectProxy := None;
  clientAllowedCNs := ["server"]; clientAllowedOUs := []; clientAllowedDNSs := [];
  clientAllowedIPs := []; clientAllowedURIs := []; clientDisableAuth := false;
  keystorePath := "server.pem"; keystorePass := ""; caBundlePath := "server.pem";
  enabledCipherSuites := "AES,CHACHA"; timedReload := 0; shutdownTimeout := 300;
  timeoutDuration := 10; metricsGraphite := None; metricsURL := ""; metricsPrefix := "ghostunnel";
  metricsInterval := 30; statusAddress := "unix:/run/taken.sock"; enableProf := false;
  fdLimit := 0; syslogFlag := false
|}.

Definition toy_world : world := {|
  w_resolve _ := None;
  w_listen network address :=
    if String.eqb address "/run/taken.sock" then Some "bind: address already in use" else None;
  w_syslog := None; w_rlimits := posix; w_rlimit := {| Cur := 1024; Max := 4096 |}
|}.

Definition toy_fs : gmap string string := {["server.pem" := "server"]}.

(** The evaluation of a call that returns functions is only looked at from the
    outside. *)
Definition returns {E A} (P : A -> bool) (o : outcome E A) : bool :=
  match o with Ret a => P a | _ => false end.

Lemma returns_Ret {E A} (P : A -> bool) (o : outcome E A) : returns P o = true ->
  exists a, o = Ret a /\ P a = true.
Proof. destruct o as [a|e|]; [by exists a|done|done]. Qed.

Lemma validated_target_is_local_witness :
  exists host port, SplitHostPort "localhost:8080" = Ret (host, port) /\ local_host host.
Proof.
  destruct (validated_target_is_local toy_world toy_flags "tcp" "localhost:8080" 10)
    as [[[=] _]|(_ & _ & H)]; try (vm_compute; reflexivity). exact H.
Defined.

Lemma validated_suites_build_witness :
  exists c, buildConfig (X := toy_x509) toy_fs "AES,CHACHA" "server.pem" = Ret c /\
  RootCAs c = [toy_certificate "server"].
Proof.
  destruct (validated_suites_build (X := toy_x509) toy_flags toy_fs [toy_certificate "server"])
    as (c & H1 & H2 & _); [left; vm_compute; reflexivity|vm_compute; reflexivity|].
  exists c. split; [exact H1|exact H2].
Defined.

Lemma server_accepts_every_client_witness :
  exists c, server_config (X := toy_x509) toy_flags toy_fs (Some (Keystore toy_keystore)) = Ret c /\
  server_authenticates (X := toy_x509) c [] = Ret ().
Proof.
  destruct (returns_Ret (fun _ => true)
    (server_config (X := toy_x509) toy_flags toy_fs (Some (Keystore toy_keystore)))) as (c & E & _);
    [vm_compute; reflexivity|].
  exists c. split; [exact E|].
  exact (proj1 (proj2 (server_accepts_every_client (X := toy_x509) _ _ _ c [] E))).
Defined.

Definition dials_tls (d : dial_func) : bool :=
  match d with DialTLS _ _ _ => true | _ => false end.

Lemma client_accepts_iff_witness :
  exists d, clientBackendDialer (X := toy_x509) toy_flags toy_fs None "tcp" "server:8443" "server"
    = Ret (DialTLS d "tcp" "server:8443") /\
  client_authenticates (X := toy_x509) (d_config d) [toy_certificate "server"] = Ret ().
Proof.
  destruct (returns_Ret dials_tls
    (clientBackendDialer (X := toy_x509) toy_flags toy_fs None "tcp" "server:8443" "server"))
    as ([|d n a] & E & Ht); [vm_compute; reflexivity|discriminate Ht|].
  destruct (client_accepts_iff (X := toy_x509) toy_flags toy_fs None "tcp" "server:8443" "server"
    d n a [toy_certificate "server"] E) as (pool & uris & Hp & Hu & -> & -> & _ & H).
  exists d. split; [exact E|]. apply H. vm_compute in Hp. injection Hp as <-.
  vm_compute in Hu. injection Hu as <-. split; [vm_compute; discriminate|]. eexists. split; vm_compute; reflexivity.
Defined.

Definition no_status (f : Flags) : Flags := {|
  keychainIdentity := keychainIdentity f; pkcs11Module := pkcs11Module f;
  pkcs11TokenLabel := pkcs11TokenLabel f; pkcs11PIN := pkcs11PIN f;
  serverListenAddress := serverListenAddress f; serverForwardAddress := serverForwardAddress f;
  serverProxyProtocol := serverProxyProtocol f; serverUnsafeTarget := serverUnsafeTarget f;
  serverAllowAll := serverAllowAll f; serverAllowedCNs := serverAllowedCNs f;
  serverAllowedOUs := serverAllowedOUs f; serverAllowedDNSs := serverAllowedDNSs f;
  serverAllowedIPs := serverAllowedIPs f; serverAllowedURIs := serverAllowedURIs f;
  serverDisableAuth := serverDisableAuth f; clientListenAddress := clientListenAddress f;
  clientForwardAddress := clientForwardAddress f; clientUnsafeListen := clientUnsafeListen f;
  clientServerName := clientServerName f; clientConnectProxy := clientConnectProxy f;
  clientAllowedCNs := clientAllowedCNs f; clientAllowedOUs := clientAllowedOUs f;
  clientAllowedDNSs := clientAllowedDNSs f; clientAllowedIPs := clientAllowedIPs f;
  clientAllowedURIs := clientAllowedURIs f; clientDisableAuth := clientDisableAuth f;
  keystorePath := keystorePath f; keystorePass := keystorePass f; caBundlePath := caBundlePath f;
  enabledCipherSuites := enabledCipherSuites f; timedReload := timedReload f;
  shutdownTimeout := shutdownTimeout f; timeoutDuration := timeoutDuration f;
  metricsGraphite := metricsGraphite f; metricsURL := metricsURL f;
  metricsPrefix := metricsPrefix f; metricsInterval := metricsInterval f; statusAddress := "";
  enableProf := false; fdLimit := fdLimit f; syslogFlag := syslogFlag f |}.

Lemma started_server_has_certificate_witness :
  exists r, (main_run (L := toy) (X := toy_x509) Unix {| cgo := true; certstore := false |}
    toy_world (no_status toy_flags) ServerCommand (toy_state "server")).1 = Ret r /\
  is_Some (current (main_run (L := toy) (X := toy_x509) Unix {| cgo := true; certstore := false |}
    toy_world (no_status toy_flags) ServerCommand (toy_state "server")).2).
Proof.
  destruct (returns_Ret (fun _ => true) (main_run (L := toy) (X := toy_x509) Unix
    {| cgo := true; certstore := false |} toy_world (no_status toy_flags) ServerCommand
    (toy_state "server")).1) as (r & E & _); [vm_compute; reflexivity|].
  exists r. split; [exact E|].
  destruct (started_server_has_certificate (L := toy) (X := toy_x509) Unix
    {| cgo := true; certstore := false |} toy_world (no_status toy_flags) (toy_state "server")
    _ r (injective_projections _ (_, _) E eq_refl)) as (c & cfg & _ & _ & _ & H). exact H.
Defined.

Lemma status_socket_failure_panics_witness :
  serveStatus (X := toy_x509) toy_world toy_flags toy_fs None = Panic.
Proof.
  destruct (returns_Ret (fun _ => true) (buildConfig (X := toy_x509) toy_fs "AES,CHACHA" "server.pem"))
    as (c & E & _); [vm_compute; reflexivity|].
  refine (status_socket_failure_panics (X := toy_x509) toy_world toy_flags toy_fs None
    "/run/taken.sock" "bind: address already in use" c E _ _); vm_compute; reflexivity.
Defined.
