(* ===== verification/System.v ===== *)
(** * The running process: the threads of the program together

    After start-up ([Main]) the process consists of the main thread (the end of
    [serverListen] or [clientListen], then [signalHandler] and [Wait]), the
    thread of the reload timer, the forced-exit timer, the threads of the proxy
    ([Proxy]) and the requests to the status endpoint ([Status]), over one shared
    state: the certificate ([Certloader]), the flags of the status endpoint, the
    channel of signals and the proxy. This file composes them as one interleaving
    and proves the invariants that tie the threads together; [Lifecycle] has what
    the whole promises. *)
From Stdlib Require Import ZArith.
From stdpp Require Import base list sets strings gmap.
From S2P Require Import Prelude GoStrings GoNet Certloader Flags TlsConfig Fuse Proxy Status Signals.

(** ** Signals of the process *)

(** The capacity of the channel given to [signal.Notify]; a signal that finds it
    full is dropped. *)
Definition signals_capacity : nat := 3.

Definition deliver (sig : Signal) (queue : list Signal) : list Signal :=
  if length queue <? signals_capacity then queue ++ [sig] else queue.

Definition is_notified (pl : platform) (sig : Signal) : bool :=
  is_one_of sig (shutdownSignals pl ++ refreshSignals pl).

(** Signals no channel is registered for: the Go runtime ends the process for
    some of them and ignores the others. *)
Definition ends_process (sig : Signal) : bool :=
  match sig with SIGHUP | SIGINT | SIGTERM => true | SIGUSR1 => false end.

(** ** State *)

(** The status server: not started, serving, asked to stop by a thread of its
    own (it still serves until that thread closes its listener). *)
Inductive http_state : Type := HttpOff | HttpOn | HttpStopping.

Inductive process_exit : Type :=
  | Exited (code : Z)
  | KilledBy (sig : Signal)
  | Panicked.

Section System.
Context `{L : CertLibs} `{PP : ProxyProto}.

(** A call of [Context.reload], which several threads make. The certificate is
    built first and published later, so that two calls may overlap. *)
Inductive reload_pc : Type :=
  | RReloading
  | RBuild
  | RPublish (cert : tls_certificate)
  | RListening.

(** The main thread: the listeners are still to be opened; then the end of
    [serverListen], with the signal handler in the middle; [MWaiting] is a call of
    [Wait] that is blocked. *)
Inductive main_pc : Type :=
  | MOpen
  | MAccept
  | MListening
  | MNotify
  | MSelect
  | MReload (r : reload_pc)
  | MStatusShutdown
  | MArmExit
  | MCallShutdown
  | MInShutdown
  | MStop
  | MWait
  | MWaiting.

(** A request to [/_status]: the backend is probed, then the lock is taken and
    the flags are read. *)
Inductive request : Type :=
  | Probing
  | Probed (q : probe)
  | Answered (r : statusResponse).

Record system : Type := Sys {
  s_pc : main_pc;
  s_queue : list Signal;
  s_status : statusHandler;
  s_cert : state;
  s_proxy : proxy;
  s_tick : bool;
  s_reloader : option reload_pc;
  s_armed : bool;
  s_http : http_state;
  s_requests : list request;
  s_exit : option process_exit
}.

(** What is fixed after the flags have been read. *)
Record setup : Type := {
  u_platform : platform;
  u_context : Context;
  u_interval : Z;
  u_proxyProtocol : bool
}.

Definition start (u : setup) (c : state) : system :=
  Sys MOpen [] newStatusHandler c (proxy_start (u_proxyProtocol u)) false None false HttpOff [] None.

(** ** Updates *)

Definition set_pc (pc : main_pc) (s : system) : system :=
  Sys pc (s_queue s) (s_status s) (s_cert s) (s_proxy s) (s_tick s) (s_reloader s) (s_armed s)
    (s_http s) (s_requests s) (s_exit s).
Definition set_queue (q : list Signal) (s : system) : system :=
  Sys (s_pc s) q (s_status s) (s_cert s) (s_proxy s) (s_tick s) (s_reloader s) (s_armed s)
    (s_http s) (s_requests s) (s_exit s).
Definition set_status (st : statusHandler) (s : system) : system :=
  Sys (s_pc s) (s_queue s) st (s_cert s) (s_proxy s) (s_tick s) (s_reloader s) (s_armed s)
    (s_http s) (s_requests s) (s_exit s).
Definition set_cert (c : state) (s : system) : system :=
  Sys (s_pc s) (s_queue s) (s_status s) c (s_proxy s) (s_tick s) (s_reloader s) (s_armed s)
    (s_http s) (s_requests s) (s_exit s).
Definition set_proxy (p : proxy) (s : system) : system :=
  Sys (s_pc s) (s_queue s) (s_status s) (s_cert s) p (s_tick s) (s_reloader s) (s_armed s)
    (s_http s) (s_requests s) (s_exit s).
Definition set_timer (tick : bool) (r : option reload_pc) (s : system) : system :=
  Sys (s_pc s) (s_queue s) (s_status s) (s_cert s) (s_proxy s) tick r (s_armed s)
    (s_http s) (s_requests s) (s_exit s).
Definition arm_exit (s : system) : system :=
  Sys (s_pc s) (s_queue s) (s_status s) (s_cert s) (s_proxy s) (s_tick s) (s_reloader s) true
    (s_http s) (s_requests s) (s_exit s).
Definition set_http (on : http_state) (s : system) : system :=
  Sys (s_pc s) (s_queue s) (s_status s) (s_cert s) (s_proxy s) (s_tick s) (s_reloader s)
    (s_armed s) on (s_requests s) (s_exit s).
Definition set_requests (l : list request) (s : system) : system :=
  Sys (s_pc s) (s_queue s) (s_status s) (s_cert s) (s_proxy s) (s_tick s) (s_reloader s)
    (s_armed s) (s_http s) l (s_exit s).
Definition exit_with (e : process_exit) (s : system) : system :=
  Sys (s_pc s) (s_queue s) (s_status s) (s_cert s) (s_proxy s) (s_tick s) (s_reloader s)
    (s_armed s) (s_http s) (s_requests s) (Some e).

(** ** Threads *)

(** One step of [Context.reload]: where the call is afterwards ([None]: it has
    returned), and the process. *)
Definition reload_step (ctx : Context) (r : reload_pc) (s : system) :
    option reload_pc * system :=
  match r with
  | RReloading => (Some RBuild, set_status (Reloading (s_status s)) s)
  | RBuild =>
    match ctx_cert ctx with
    | None => (None, exit_with Panicked s)
    | Some c =>
      match certificate_build c (s_cert s) with
      | (Ret cert, c') => (Some (RPublish cert), set_cert c' s)
      | (Err _, c') => (Some RListening, set_cert c' s)
      | (Panic, c') => (None, exit_with Panicked (set_cert c' s))
      end
    end
  | RPublish cert => (Some RListening, set_cert (StorePointer cert (s_cert s)).2 s)
  | RListening => (None, set_status (Listening (s_status s)) s)
  end.

(** One step of the main thread. A call of the proxy that panics ends the
    process. *)
Definition call_proxy (c : proxy_choice) (pc : main_pc) (s : system) : option system :=
  match proxy_step c (s_proxy s) with
  | Some p => Some (if crashed p then exit_with Panicked (set_proxy p s)
                    else set_pc pc (set_proxy p s))
  | None => None
  end.

Definition main_step (u : setup) (s : system) : option system :=
  let ctx := u_context u in
  match s_pc s with
  | MOpen => Some (set_pc MAccept (set_http (if ctx_statusHTTP ctx then HttpOn else HttpOff) s))
  | MAccept => call_proxy CallAccept MListening s
  | MListening => Some (set_pc MNotify (set_status (Listening (s_status s)) s))
  | MNotify => Some (set_pc MSelect s)
  | MSelect =>
    match s_queue s with
    | [] => None
    | sig :: rest =>
      Some (set_pc (if isShutdownSignal (u_platform u) sig then MStatusShutdown
                    else MReload RReloading) (set_queue rest s))
    end
  | MReload r =>
    let '(r', s') := reload_step ctx r s in
    Some (set_pc (match r' with Some r' => MReload r' | None => MSelect end) s')
  | MStatusShutdown => Some (set_pc MArmExit (if ctx_statusHTTP ctx then set_http HttpStopping s else s))
  | MArmExit => Some (set_pc MCallShutdown (arm_exit s))
  | MCallShutdown => call_proxy CallShutdown MInShutdown s
  | MInShutdown =>
    match shutdowns (s_proxy s) !! 0 with
    | Some (ShReturned _) => Some (set_pc MStop s)
    | _ => call_proxy (ShutdownSteps 0) MInShutdown s
    end
  | MStop => Some (set_pc MWait s)
  | MWait =>
    match proxy_step WaitReturns (s_proxy s) with
    | Some _ => Some (exit_with (Exited 0) s)
    | None => call_proxy WaitCalls MWaiting s
    end
  | MWaiting =>
    match proxy_step WaitWakes (s_proxy s) with
    | Some p => Some (exit_with (if crashed p then Panicked else Exited 0) (set_proxy p s))
    | None => None
    end
  end.

(** The thread of [reloadHandler]. *)
Definition reloader_step (u : setup) (s : system) : option system :=
  match s_reloader s with
  | None => if s_tick s then Some (set_timer false (Some RReloading) s) else None
  | Some r =>
    let '(r', s') := reload_step (u_context u) r s in
    Some (set_timer (s_tick s') r' s')
  end.

(** Registered between [signal.Notify] and the deferred [signal.Stop]. *)
Definition registered (pc : main_pc) : bool :=
  match pc with MOpen | MAccept | MListening | MNotify | MWait | MWaiting => false | _ => true end.

Definition signal_step (u : setup) (sig : Signal) (s : system) : system :=
  if registered (s_pc s) && is_notified (u_platform u) sig
  then set_queue (deliver sig (s_queue s)) s
  else if ends_process sig then exit_with (KilledBy sig) s else s.

(** What may happen next: a step of a thread, or of the environment. Opening the
    listeners may fail with an error, and panic if it is the socket of the status
    endpoint ([Main.status_socket_failure_panics]). *)
Inductive sys_choice : Type :=
  | MainSteps
  | OpenFails
  | OpenPanics
  | SignalArrives (sig : Signal)
  | TimerTicks
  | ReloaderSteps
  | ExitTimerFires
  | ProxySteps (c : proxy_choice)
  | StatusServerCloses
  | RequestArrives
  | RequestProbes (i : nat) (q : probe)
  | RequestAnswers (i : nat)
  | FilesChange (fs : gmap string string) (k : outcome string (list identity)).

Definition sys_step (u : setup) (c : sys_choice) (s : system) : option system :=
  if s_exit s then None else
  match c with
  | MainSteps => main_step u s
  | OpenFails => match s_pc s with MOpen => Some (exit_with (Exited 1) s) | _ => None end
  | OpenPanics =>
    match s_pc s with
    | MOpen => if ctx_statusHTTP (u_context u) then Some (exit_with Panicked s) else None
    | _ => None
    end
  | SignalArrives sig => Some (signal_step u sig s)
  | TimerTicks =>
    if (u_interval u =? 0)%Z then None else Some (set_timer true (s_reloader s) s)
  | ReloaderSteps => reloader_step u s
  | ExitTimerFires => if s_armed s then Some (exit_with (Exited 1) s) else None
  | ProxySteps c => if proxy_thread c then call_proxy c (s_pc s) s else None
  | StatusServerCloses =>
    match s_http s with HttpStopping => Some (set_http HttpOff s) | _ => None end
  | RequestArrives =>
    match s_http s with HttpOff => None | _ => Some (set_requests (s_requests s ++ [Probing]) s) end
  | RequestProbes i q =>
    match s_requests s !! i with
    | Some Probing => Some (set_requests (<[i := Probed q]> (s_requests s)) s)
    | _ => None
    end
  | RequestAnswers i =>
    match s_requests s !! i with
    | Some (Probed q) =>
      Some (set_requests (<[i := Answered (response (s_status s) q)]> (s_requests s)) s)
    | _ => None
    end
  | FilesChange fs k =>
    let c := s_cert s in
    Some (set_cert (State fs k (open_files c) (heap c) (cached c)) s)
  end.

(** ** Invariants *)

(** The call of [Shutdown] the main thread makes, at each of its steps. *)
Definition shutdowns_at (pc : main_pc) (l : list shutdown) : Prop :=
  match pc with
  | MInShutdown => exists x, l = [x] /\ x <> ShReturned false /\ x <> ShWake
  | MStop | MWait | MWaiting => l = [ShReturned true]
  | _ => l = []
  end.

(** The forced exit is armed once the main thread is past [time.AfterFunc]. *)
Definition armed_at (pc : main_pc) : bool :=
  match pc with MCallShutdown | MInShutdown | MStop | MWait | MWaiting => true | _ => false end.

(** The accept loop has been started. *)
Definition accepts_at (pc : main_pc) : bool :=
  match pc with MOpen | MAccept => false | _ => true end.

(** The main thread is the only one that waits for the proxy. *)
Definition waiting_at (pc : main_pc) : bool := match pc with MWaiting => true | _ => false end.

(** [status.Listening] has been called. *)
Definition listening_at (pc : main_pc) : bool :=
  match pc with MOpen | MAccept | MListening => false | _ => true end.

Definition is_reloading (r : reload_pc) : bool :=
  match r with RReloading => false | _ => true end.

(** A call of [reload] that has marked the status and not finished. *)
Definition reload_in_progress (s : system) : bool :=
  match s_pc s with MReload r => is_reloading r | _ => false end ||
  match s_reloader s with Some r => is_reloading r | None => false end.

(** Why the process has ended. *)
Definition exit_cause (u : setup) (s : system) : Prop :=
  match s_exit s with
  | None | Some Panicked => True
  | Some (Exited code) =>
    (code = 0%Z /\ (s_pc s = MWait \/ s_pc s = MWaiting) /\ is_Some (proxy_step WaitReturns (s_proxy s))) \/
    (code = 1%Z /\ (s_pc s = MOpen \/ s_armed s = true))
  | Some (KilledBy sig) =>
    ends_process sig = true /\ registered (s_pc s) && is_notified (u_platform u) sig = false
  end.

Record sys_inv (u : setup) (s : system) : Prop := {
  inv_proxy : steps proxy_step (proxy_start (u_proxyProtocol u)) (s_proxy s);
  inv_shutdowns : shutdowns_at (s_pc s) (shutdowns (s_proxy s));
  inv_accepting : accepting (s_proxy s) = NotAccepting <-> accepts_at (s_pc s) = false;
  inv_armed : s_armed s = armed_at (s_pc s);
  inv_queue : length (s_queue s) <= signals_capacity;
  inv_status : listening_at (s_pc s) = true -> st_listening (s_status s) = true;
  inv_reloading : s_exit s = None -> st_reloading (s_status s) = true ->
    reload_in_progress s = true;
  inv_alive : s_exit s = None -> crashed (s_proxy s) = false;
  inv_waiting : s_exit s = None ->
    (waiters (s_proxy s) + woken (s_proxy s) = Z.b2z (waiting_at (s_pc s)))%Z;
  inv_exit : exit_cause u s
}.

Lemma sys_inv_start u c : sys_inv u (start u c).
Proof. split; simpl; try done; try lia; by destruct (u_proxyProtocol u). Qed.

Lemma deliver_length sig q : length q <= signals_capacity -> length (deliver sig q) <= signals_capacity.
Proof.
  intros H. unfold deliver. destruct (Nat.ltb_spec (length q) signals_capacity); [|done].
  rewrite length_app. simpl. lia.
Qed.

(** A step of a reload concerns the status, the certificate and the end of the
    process only. *)
Lemma reload_step_inv ctx r s r' s' : reload_step ctx r s = (r', s') ->
  s_pc s' = s_pc s /\ s_queue s' = s_queue s /\ s_proxy s' = s_proxy s /\ s_tick s' = s_tick s /\
  s_reloader s' = s_reloader s /\ s_armed s' = s_armed s /\
  (st_listening (s_status s) = true -> st_listening (s_status s') = true) /\
  (s_exit s = None -> s_exit s' = None \/ s_exit s' = Some Panicked) /\
  (s_exit s' = None -> st_reloading (s_status s') = true ->
     is_reloading (default RReloading r') = true).
Proof.
  intros H. destruct r; simpl in H.
  - injection H as <- <-. simpl. repeat split; auto; discriminate.
  - destruct (ctx_cert ctx) as [c|].
    + destruct (certificate_build c (s_cert s)) as [[cert|e|] c'];
        injection H as <- <-; simpl; repeat split; auto; discriminate.
    + injection H as <- <-. simpl. repeat split; auto; discriminate.
  - injection H as <- <-. simpl. repeat split; auto; discriminate.
  - injection H as <- <-. simpl. repeat split; auto; discriminate.
Qed.

(** The steps of the proxy that the other threads of the process may take. *)
Lemma sys_inv_proxy u s p :
  sys_inv u s -> s_exit s = None -> forall c, proxy_thread c = true ->
  proxy_step c (s_proxy s) = Some p ->
  sys_inv u (if crashed p then exit_with Panicked (set_proxy p s) else set_proxy p s).
Proof.
  intros [I1 I2 I3 I4 I5 I6 I7 I8 Iw I9] Hx c Hc Hs.
  destruct (proxy_thread_step c _ _ (proxy_inv_steps _ _ I1) Hc Hs) as (_ & _ & Esh & Ea & _).
  assert (Hr : steps proxy_step (proxy_start (u_proxyProtocol u)) p) by (by eapply steps_r).
  assert (Hwt : (waiters p + woken p = Z.b2z (waiting_at (s_pc s)))%Z).
  { rewrite <- Iw by done. destruct (proxy_thread_waiting c _ _ (proxy_inv_steps _ _ I1) Hc Hs)
      as ([[-> ->]|(_ & _ & -> & ->)] & _); lia. }
  destruct (crashed p) eqn:E; split; simpl; rewrite ?Esh; auto; try done; try by rewrite <- Ea.
  unfold exit_cause. simpl. by rewrite Hx.
Qed.

(** The call of [Shutdown], which the main thread makes once. *)
Lemma main_shutdown_step u s x p :
  sys_inv u s -> waiters (s_proxy s) = 0%Z -> shutdowns (s_proxy s) = [x] ->
  x <> ShReturned false -> x <> ShWake -> proxy_step (ShutdownSteps 0) (s_proxy s) = Some p ->
  crashed p = false /\ accepting p = accepting (s_proxy s) /\ conns p = conns (s_proxy s) /\
  waiters p = waiters (s_proxy s) /\ woken p = woken (s_proxy s) /\
  exists x', shutdowns p = [x'] /\ x' <> ShReturned false /\ x' <> ShWake /\
  (quit p, listening p) = (match x with ShStore => true | _ => quit (s_proxy s) end,
                           match x with ShClose => false | _ => listening (s_proxy s) end) /\
  match x with
  | ShLoad => x' = ShStore | ShStore => x' = ShClose | ShClose => x' = ShDone
  | ShDone => x' = ShReturned true | ShWake | ShReturned _ => False
  end.
Proof.
  intros [I1 _ _ _ _ _ _ _ _ _] Hw Hl Hx Hx' Hs.
  apply proxy_inv_steps in I1 as [I1 _ _ _ I5 _ _ _ _ _ _ _].
  unfold proxy_step in Hs. destruct (crashed (s_proxy s)) eqn:Hcr; [done|].
  unfold shutdown_step in Hs. rewrite Hl in *. simpl in Hs. destruct x; try done;
    injection Hs as <-; simpl.
  - assert (Hq : quit (s_proxy s) = false).
    { destruct (quit (s_proxy s)); [|done]. simpl in I5. lia. }
    rewrite Hq. repeat split; try done. by exists ShStore.
  - repeat split; try done. by exists ShClose.
  - repeat split; try done. by exists ShDone.
  - unfold must_wake. simpl. rewrite Hcr, Hw. simpl in *.
    pose proof (countb_bounds covered (conns (s_proxy s))).
    rewrite !andb_false_r, orb_false_r. split; [apply Z.ltb_ge; lia|]. do 4 (split; [done|]).
    by exists (ShReturned true).
Qed.

(** A reload by the main thread, and one by the timer's. *)
Lemma sys_inv_main_reload u s r r' s' :
  sys_inv u s -> s_exit s = None -> s_pc s = MReload r -> reload_step (u_context u) r s = (r', s') ->
  sys_inv u (set_pc (match r' with Some r' => MReload r' | None => MSelect end) s').
Proof.
  intros [I1 I2 I3 I4 I5 I6 I7 I8 Iw I9] Hx Hpc Hr.
  destruct (reload_step_inv _ _ _ _ _ Hr) as (_ & Eq & Ep & _ & _ & Ea & Hl & He & Hrel).
  rewrite Hpc in *. simpl in *. destruct (He Hx) as [Hx'|Hx'];
    (split; simpl; rewrite ?Eq, ?Ep, ?Ea, ?Hx'; auto; try (by destruct r'));
    try (unfold exit_cause; simpl; by rewrite Hx').
  - intros _ H. unfold reload_in_progress. simpl. specialize (Hrel Hx' H).
    by destruct r'; simpl in Hrel; rewrite ?Hrel.
  - intros _. rewrite (Iw Hx). by destruct r'.
Qed.

Lemma sys_inv_timer_reload u s r r' s' :
  sys_inv u s -> s_exit s = None -> s_reloader s = Some r ->
  reload_step (u_context u) r s = (r', s') -> sys_inv u (set_timer (s_tick s') r' s').
Proof.
  intros [I1 I2 I3 I4 I5 I6 I7 I8 Iw I9] Hx Hs Hr.
  destruct (reload_step_inv _ _ _ _ _ Hr) as (Epc & Eq & Ep & _ & _ & Ea & Hl & He & Hrel).
  destruct (He Hx) as [Hx'|Hx'];
    (split; simpl; rewrite ?Epc, ?Eq, ?Ep, ?Ea, ?Hx'; auto; try (unfold exit_cause; simpl; by rewrite Hx'));
    try done.
  intros _ H. unfold reload_in_progress. simpl. specialize (Hrel Hx' H).
  destruct r'; simpl in Hrel; [by rewrite Hrel, orb_true_r|done].
Qed.

(** The main thread's call of [Wait] has been released. *)
Lemma sys_inv_wakes u s s' : sys_inv u s -> s_exit s = None -> s_pc s = MWaiting ->
  match proxy_step WaitWakes (s_proxy s) with
  | Some p => Some (exit_with (if crashed p then Panicked else Exited 0) (set_proxy p s))
  | None => None
  end = Some s' -> sys_inv u s'.
Proof.
  intros [I1 I2 I3 I4 I5 I6 I7 I8 Iw I9] Hx Hpc Hs.
  destruct (proxy_step WaitWakes (s_proxy s)) as [p|] eqn:E; [|done]. injection Hs as <-.
  pose proof E as E'. unfold proxy_step, wg_resume in E'. rewrite (I8 Hx) in E'.
  destruct (0 <? _)%Z; [|done].
  destruct (_ && _) eqn:Ez; injection E' as <-; simpl; rewrite ?(I8 Hx); (split; simpl; auto; try done;
    try by (eapply steps_r; [exact I1|exact E])).
  apply andb_true_iff in Ez as [Ez _]. left. simpl. rewrite Hpc. split; [done|]. split; [auto|].
  unfold proxy_step. simpl. by rewrite Ez.
Qed.

Lemma sys_inv_main u s s' :
  sys_inv u s -> s_exit s = None -> main_step u s = Some s' -> sys_inv u s'.
Proof.
  intros Hi Hx Hs. pose proof Hi as [I1 I2 I3 I4 I5 I6 I7 I8 Iw I9].
  unfold main_step, call_proxy in Hs. unfold reload_in_progress, exit_cause in *.
  rewrite Hx in I9. destruct (s_pc s) as [ | | | | |r| | | | | | | ] eqn:Hpc; simpl in *.
  - injection Hs as <-. split; simpl; auto; try by rewrite Hx. by unfold exit_cause; simpl; rewrite Hx.
  - unfold proxy_step in Hs. rewrite I8 in Hs by done. rewrite (proj2 I3 eq_refl) in Hs.
    simpl in Hs. rewrite I8 in Hs by done. injection Hs as <-.
    split; simpl; auto; try done; [|by unfold exit_cause; simpl; rewrite Hx].
    eapply steps_r; [exact I1|]. instantiate (1 := CallAccept). unfold proxy_step.
    by rewrite (I8 Hx), (proj2 I3 eq_refl).
  - injection Hs as <-. split; simpl; auto; try done. by unfold exit_cause; simpl; rewrite Hx.
  - injection Hs as <-. split; simpl; auto; try done. by unfold exit_cause; simpl; rewrite Hx.
  - destruct (s_queue s) as [|sig rest]; [done|]. simpl in I5. injection Hs as <-.
    destruct (isShutdownSignal _ _); split; simpl; auto; try lia; try done;
      by unfold exit_cause; simpl; rewrite Hx.
  - destruct (reload_step (u_context u) r s) as [r' s1] eqn:E. injection Hs as <-.
    by eapply sys_inv_main_reload.
  - injection Hs as <-. destruct (ctx_statusHTTP _); split; simpl; auto;
      by unfold exit_cause; simpl; rewrite Hx.
  - injection Hs as <-. split; simpl; auto. by unfold exit_cause; simpl; rewrite Hx.
  - unfold proxy_step in Hs. rewrite I8 in Hs by done. simpl in Hs. rewrite I8 in Hs by done.
    injection Hs as <-. split; simpl; auto; try done;
      [|rewrite I2; by exists ShLoad|by unfold exit_cause; simpl; rewrite Hx].
    eapply steps_r; [exact I1|]. instantiate (1 := CallShutdown). unfold proxy_step.
    by rewrite (I8 Hx).
  - destruct I2 as (x & Hl & Hne & Hnw). rewrite Hl in Hs. simpl in Hs.
    assert (Hgo : (exists w, x = ShReturned w) \/ forall (A : Type) (a b : A),
      match x with ShReturned _ => a | _ => b end = b) by (destruct x; eauto).
    assert (Hw0 : waiters (s_proxy s) = 0%Z)
      by (specialize (Iw Hx); pose proof (inv_waiters _ (proxy_inv_steps _ _ I1)); lia).
    destruct Hgo as [[w ->]|Hgo].
    + injection Hs as <-. split; simpl; auto; [|by unfold exit_cause; simpl; rewrite Hx].
      rewrite Hl. by destruct w.
    + rewrite Hgo in Hs. destruct (proxy_step (ShutdownSteps 0) (s_proxy s)) as [p|] eqn:E; [|done].
      destruct (main_shutdown_step u s x p Hi Hw0 Hl Hne Hnw E)
        as (Hc & Ha & _ & W1 & W2 & x' & Hl' & Hx' & Hx'' & _).
      rewrite Hc in Hs. injection Hs as <-.
      split; simpl; auto; [by eapply steps_r|by exists x'|by rewrite Ha|by rewrite W1, W2|].
      by unfold exit_cause; simpl; rewrite Hx.
  - injection Hs as <-. split; simpl; auto. by unfold exit_cause; simpl; rewrite Hx.
  - unfold proxy_step in Hs. rewrite (I8 Hx) in Hs.
    destruct (handlers (s_proxy s) =? 0)%Z eqn:E.
    + injection Hs as <-. split; simpl; rewrite ?Hpc; auto; try done. unfold exit_cause. simpl.
      rewrite Hpc. left. split; [done|]. split; [auto|]. unfold proxy_step. by rewrite (I8 Hx), E.
    + unfold wg_Wait in Hs. rewrite E in Hs. simpl in Hs. rewrite (I8 Hx) in Hs. injection Hs as <-.
      split; simpl; auto; try done; [|intros _; specialize (Iw Hx); lia|by unfold exit_cause; simpl; rewrite Hx].
      eapply steps_r; [exact I1|]. instantiate (1 := WaitCalls). unfold proxy_step, wg_Wait.
      by rewrite (I8 Hx), E.
  - by eapply sys_inv_wakes.
Qed.

(** A step that leaves everything the invariant speaks of alone. *)
Definition same_process (s s' : system) : Prop :=
  s_pc s' = s_pc s /\ s_status s' = s_status s /\ s_proxy s' = s_proxy s /\
  s_reloader s' = s_reloader s /\ s_armed s' = s_armed s /\ s_exit s' = s_exit s.

Lemma sys_inv_same u s s' : sys_inv u s -> same_process s s' ->
  length (s_queue s') <= signals_capacity -> sys_inv u s'.
Proof.
  intros [I1 I2 I3 I4 I5 I6 I7 I8 Iw I9] (E1 & E2 & E3 & E4 & E5 & E6) Hq.
  split; unfold reload_in_progress, exit_cause in *; rewrite ?E1, ?E2, ?E3, ?E4, ?E5, ?E6; auto.
Qed.

Lemma sys_inv_exits u s e : sys_inv u s ->
  exit_cause u (exit_with e s) -> sys_inv u (exit_with e s).
Proof. intros [I1 I2 I3 I4 I5 I6 I7 I8 Iw I9] He. by split. Qed.

Lemma sys_inv_signal u sig s : sys_inv u s -> sys_inv u (signal_step u sig s).
Proof.
  intros Hi. unfold signal_step. destruct (registered _ && _) eqn:E.
  - eapply sys_inv_same; [exact Hi|done|]. apply deliver_length, Hi.
  - destruct (ends_process sig) eqn:E'; [|done]. by apply sys_inv_exits.
Qed.

Lemma sys_inv_step u c s s' : sys_inv u s -> sys_step u c s = Some s' -> sys_inv u s'.
Proof.
  intros Hi Hs. unfold sys_step in Hs. destruct (s_exit s) eqn:Hx; [done|].
  destruct c as [ | | |sig| | | |c| | |i q|i|fs k].
  - by eapply sys_inv_main.
  - destruct (s_pc s) eqn:E; try done. injection Hs as <-. apply sys_inv_exits; [done|].
    right. simpl. rewrite E. auto.
  - destruct (s_pc s) eqn:E; try done. destruct (ctx_statusHTTP _); [|done]. injection Hs as <-.
    by apply sys_inv_exits.
  - injection Hs as <-. by apply sys_inv_signal.
  - case_any; [done|]. injection Hs as <-. eapply sys_inv_same; [exact Hi|done|apply Hi].
  - unfold reloader_step in Hs. destruct (s_reloader s) as [r|] eqn:E.
    + destruct (reload_step (u_context u) r s) as [r' s1] eqn:E'. injection Hs as <-.
      by eapply sys_inv_timer_reload.
    + destruct (s_tick s); [|done]. injection Hs as <-. destruct Hi as [I1 I2 I3 I4 I5 I6 I7 I8 Iw I9].
      split; auto. intros _ H. specialize (I7 Hx H). unfold reload_in_progress in *.
      by rewrite E in I7.
  - destruct (s_armed s) eqn:E; [|done]. injection Hs as <-. apply sys_inv_exits; [done|].
    right. auto.
  - destruct (proxy_thread c) eqn:Ec; [|done]. unfold call_proxy in Hs.
    destruct (proxy_step c (s_proxy s)) as [p|] eqn:E; [|done]. injection Hs as <-.
    pose proof (sys_inv_proxy u s p Hi Hx c Ec E) as H. destruct (crashed p); [done|].
    eapply sys_inv_same; [exact H|done|apply H].
  - destruct (s_http s); try done. injection Hs as <-. eapply sys_inv_same; [exact Hi|done|apply Hi].
  - destruct (s_http s); try done; injection Hs as <-; (eapply sys_inv_same; [exact Hi|done|apply Hi]).
  - destruct (s_requests s !! i) as [[]|]; try done. injection Hs as <-.
    eapply sys_inv_same; [exact Hi|done|apply Hi].
  - destruct (s_requests s !! i) as [[]|]; try done. injection Hs as <-.
    eapply sys_inv_same; [exact Hi|done|apply Hi].
  - injection Hs as <-. eapply sys_inv_same; [exact Hi|done|apply Hi].
Qed.

Lemma sys_inv_steps u c s : steps (sys_step u) (start u c) s -> sys_inv u s.
Proof. apply steps_invariant; [apply sys_inv_step|apply sys_inv_start]. Qed.

(** The proxy changes by its own steps only: those of its threads, and the calls of
    the main thread. *)
Definition proxy_moves (c : sys_choice) (s s' : system) : Prop :=
  s_proxy s' = s_proxy s \/
  exists pc, proxy_step pc (s_proxy s) = Some (s_proxy s') /\
    (c = ProxySteps pc \/ proxy_thread pc = false).

Lemma call_proxy_moves c pc s s' : call_proxy c pc s = Some s' ->
  proxy_step c (s_proxy s) = Some (s_proxy s').
Proof.
  unfold call_proxy. destruct (proxy_step c (s_proxy s)) as [p|]; [|done].
  destruct (crashed p); by intros [= <-].
Qed.

Lemma reload_step_proxy ctx r s r' s' : reload_step ctx r s = (r', s') -> s_proxy s' = s_proxy s.
Proof. intros H. by destruct (reload_step_inv _ _ _ _ _ H) as (_ & _ & -> & _). Qed.

Lemma sys_step_proxy u c s s' : sys_step u c s = Some s' -> proxy_moves c s s'.
Proof.
  unfold sys_step, proxy_moves. destruct (s_exit s); [done|]. intros Hs.
  destruct c as [ | | |sig| | | |c| | |i q|i|fs k].
  - unfold main_step in Hs. destruct (s_pc s) as [ | | | | |r| | | | | | | ];
      try (apply call_proxy_moves in Hs; right; by eexists; split; [exact Hs|right]);
      repeat (case_match; simplify_eq/=; try by left);
      try (apply call_proxy_moves in Hs; right; by eexists; split; [exact Hs|right]); simplify_eq/=;
      try by left.
    + left. by eapply reload_step_proxy.
    + right. by exists WaitWakes; auto.
  - destruct (s_pc s); try done. injection Hs as <-. by left.
  - repeat (case_match; try done). injection Hs as <-. by left.
  - injection Hs as <-. unfold signal_step. left. by repeat case_match.
  - case_match; [done|]. injection Hs as <-. by left.
  - unfold reloader_step in Hs. left. repeat (case_match; simplify_eq/=; try done).
    by eapply reload_step_proxy.
  - case_match; [|done]. injection Hs as <-. by left.
  - case_match; [|done]. apply call_proxy_moves in Hs. right. eexists. split; [exact Hs|by left].
  - case_match; try done. injection Hs as <-. by left.
  - case_match; try done; injection Hs as <-; by left.
  - repeat (case_match; try done). injection Hs as <-. by left.
  - repeat (case_match; try done). injection Hs as <-. by left.
  - injection Hs as <-. by left.
Qed.

(** A handler after a step of the process. *)
Lemma sys_step_conns u c s s' i h' :
  sys_step u c s = Some s' -> conns (s_proxy s') !! i = Some h' ->
  conns (s_proxy s) !! i = Some h' \/
  (exists k r l, accepting (s_proxy s) = Spawning k r l /\ h' = spawn k r l /\
     conns (s_proxy s) !! i = None) \/
  (exists hc h p1, c = ProxySteps (Handles i hc) /\ conns (s_proxy s) !! i = Some h /\
     handler_step hc h (s_proxy s) = Some (h', p1)).
Proof.
  intros Hs Hi. destruct (sys_step_proxy _ _ _ _ Hs) as [E|(pc & Hp & Hc)].
  { rewrite E in Hi. auto. }
  destruct (proxy_step_conns _ _ _ _ _ Hp Hi) as [H|[H|(hc & h & p1 & -> & H)]]; [auto..|].
  right. right. exists hc, h, p1. by destruct Hc as [->|].
Qed.

(** Where a handler goes: it stays, or takes a step of its own. *)
Lemma sys_step_forward u c s s' i h :
  sys_step u c s = Some s' -> conns (s_proxy s) !! i = Some h ->
  exists h', conns (s_proxy s') !! i = Some h' /\
  (h' = h \/ exists hc p1, c = ProxySteps (Handles i hc) /\
     handler_step hc h (s_proxy s) = Some (h', p1)).
Proof.
  intros Hs Hi.
  assert (Hex : exists h', conns (s_proxy s') !! i = Some h').
  { destruct (sys_step_proxy _ _ _ _ Hs) as [E|(pc & Hp & _)]; [rewrite E; eauto|].
    destruct (proxy_step_handler (fun _ => True) _ _ _ _ _ ltac:(done) Hi I Hp) as (h' & H & _). eauto. }
  destruct Hex as [h' Hi']. exists h'. split; [done|].
  destruct (sys_step_conns _ _ _ _ _ _ Hs Hi') as [H|[(k & r & l & _ & _ & H)|(hc & h0 & p1 & -> & H0 & H)]];
    rewrite Hi in *; [left; congruence|done|]. injection H0 as <-. right. by exists hc, p1.
Qed.
End System.
