(* ===== verification/Lifecycle.v ===== *)
(** * The life of the process

    What the threads of [System] do together, seen from outside: an abstract
    tunnel that the process refines, the end of every shutdown, the ways the
    process ends (a race at the end of the drain included), the certificate under
    concurrent reloads, and what the status endpoint says. *)
From Stdlib Require Import ZArith.
From stdpp Require Import base list sets strings gmap.
From S2P Require Import Prelude GoStrings GoNet Certloader Flags TlsConfig Fuse Proxy Status Signals Main System.

Section Lifecycle.
Context `{L : CertLibs} `{PP : ProxyProto}.

(** ** Safety *)

(** What the environment must respect: the socket of the status endpoint can be
    opened, the keychain returns identities with a leaf, and with the proxy protocol the connections are TCP connections. *)
Definition tame (u : setup) (c : sys_choice) : Prop :=
  match c with
  | OpenPanics => False
  | FilesChange _ k => identities_ok k
  | ProxySteps (AcceptReturns _ r l) => u_proxyProtocol u = true -> is_tcp r && is_tcp l = true
  | _ => True
  end.

(** The certificate can be offered, and reloading it cannot panic. *)
Definition cert_ok (c : state) : Prop :=
  wf c /\ keychain_ok c /\ exists cert, current c = Some cert /\ complete cert.

(** A certificate built and not yet published. *)
Definition pending_ok (r : option reload_pc) : Prop :=
  match r with Some (RPublish cert) => complete cert | _ => True end.

Definition main_reload (pc : main_pc) : option reload_pc :=
  match pc with MReload r => Some r | _ => None end.

Record safe_inv (u : setup) (s : system) : Prop := {
  safe_cert : cert_ok (s_cert s);
  safe_main : pending_ok (main_reload (s_pc s));
  safe_timer : pending_ok (s_reloader s);
  safe_addresses : u_proxyProtocol u = true -> addresses_ok (s_proxy s);
  safe_exit : s_exit s = Some Panicked -> s_pc s = MWaiting /\ crashed (s_proxy s) = true
}.

Lemma cert_ok_quiet (m : SE tls_certificate) c : quiet m -> cert_ok c -> cert_ok (m c).2.
Proof.
  intros Hq (Hw & Hk & Hc). destruct (Hq c) as ([_ Ek] & Eh & Ec).
  unfold cert_ok, wf, keychain_ok, current. by rewrite Ek, Eh, Ec.
Qed.

Lemma cert_ok_store cert c : complete cert -> cert_ok c -> cert_ok (StorePointer cert c).2.
Proof.
  intros Hc (Hw & Hk & _). split; [|split; [done|]].
  - intros i [= <-]. simpl. rewrite length_app. simpl. lia.
  - exists cert. split; [apply current_after_Store|done].
Qed.

Lemma reload_step_safe `{!CertLibsOk L} ctx c r s r' s' :
  ctx_cert ctx = Some c -> cert_ok (s_cert s) -> pending_ok (Some r) ->
  reload_step ctx r s = (r', s') ->
  cert_ok (s_cert s') /\ pending_ok r' /\ s_exit s' = s_exit s.
Proof.
  intros Hc Hok Hp Hs. destruct r; simpl in Hs.
  - by injection Hs as <- <-.
  - rewrite Hc in Hs. destruct Hok as (Hw & Hk & Hcur).
    pose proof (certificate_build_ok c (s_cert s) Hw Hk) as Hb. unfold ensures in Hb.
    assert (Hok' : cert_ok (certificate_build c (s_cert s)).2)
      by (by apply cert_ok_quiet; [apply certificate_build_quiet|]).
    by destruct (certificate_build c (s_cert s)) as [[cert|e|] c']; injection Hs as <- <-.
  - injection Hs as <- <-. split; [|done]. by apply cert_ok_store.
  - by injection Hs as <- <-.
Qed.

(** Nobody waits for the proxy before the main thread does. *)
Lemma nobody_waits u s : sys_inv u s -> s_exit s = None -> s_pc s <> MWaiting ->
  waiters (s_proxy s) = 0%Z.
Proof.
  intros [I1 _ _ _ _ _ _ _ Iw _] Hx Hpc. specialize (Iw Hx).
  pose proof (inv_waiters _ (proxy_inv_steps _ _ I1)) as Hw. clear -Iw Hw Hpc.
  destruct (s_pc s); try done; simpl in Iw; lia.
Qed.

(** The main thread calls [Shutdown] once. *)
Lemma one_shutdown u s : sys_inv u s -> (countb released (shutdowns (s_proxy s)) <= 1)%Z.
Proof.
  intros [_ I2 _ _ _ _ _ _ _ _]. unfold shutdowns_at in I2.
  destruct (s_pc s); try (rewrite I2; simpl; lia).
  destruct I2 as (x & -> & _). simpl. destruct (released x); simpl; lia.
Qed.

(** The threads of the proxy panic only while the main thread is blocked in [Wait], and
    only by a connection that begins to be forwarded when the drain has just ended. *)
Lemma call_proxy_safe u s c p :
  sys_inv u s -> safe_inv u s -> s_exit s = None -> tame u (ProxySteps c) -> proxy_thread c = true ->
  proxy_step c (s_proxy s) = Some p ->
  (u_proxyProtocol u = true -> addresses_ok p) /\
  (crashed p = true -> s_pc s = MWaiting /\ handlers (s_proxy s) = 0%Z /\ handlers p = 1%Z /\
     (waiters (s_proxy s) <> 0)%Z).
Proof.
  intros Hi [S1 S2 S3 S4 S5] Hx Ht Hc Hs. split.
  { intros Hp. apply (addresses_step c (s_proxy s)); auto. destruct c; auto. }
  intros Hcr. pose proof Hi as [I1 _ _ _ _ _ _ _ Iw _].
  destruct (thread_crash c (s_proxy s) p (proxy_inv_steps _ _ I1) Hc Hs) as (H1 & H2 & _ & H4 & _);
    [by eapply one_shutdown|by rewrite (proxyProtocol_fixed _ _ I1)|done|].
  split; [|done]. specialize (Iw Hx). pose proof (inv_waiters _ (proxy_inv_steps _ _ I1)) as Hw.
  clear -Iw Hw H4. destruct (s_pc s); try done; simpl in Iw; lia.
Qed.

Lemma safe_inv_main `{!CertLibsOk L} u c s s' :
  ctx_cert (u_context u) = Some c -> sys_inv u s -> safe_inv u s -> s_exit s = None ->
  main_step u s = Some s' -> safe_inv u s'.
Proof.
  intros Hc Hi [S1 S2 S3 S4 S5] Hx Hs. unfold main_step, call_proxy in Hs.
  pose proof Hi as [I1 I2 I3 I4 I5 I6 I7 I8 Iw I9].
  assert (Haddr : forall c p, proxy_step c (s_proxy s) = Some p -> proxy_thread c = false ->
    u_proxyProtocol u = true -> addresses_ok p).
  { intros c' p Hp Ht Hpp. apply (addresses_step c' (s_proxy s)); auto. by destruct c'. }
  assert (Hw0 : s_pc s <> MWaiting -> waiters (s_proxy s) = 0%Z) by (by eapply nobody_waits).
  destruct (s_pc s) as [ | | | | |r| | | | | | | ] eqn:Hpc; simpl in *;
    try specialize (Hw0 ltac:(done));
    try (injection Hs as <-; by split; simpl; rewrite ?Hx).
  - destruct (proxy_step CallAccept (s_proxy s)) as [p|] eqn:E; [|done].
    assert (crashed p = false) as Hcr.
    { unfold proxy_step in E. rewrite (I8 Hx) in E. destruct (accepting (s_proxy s)); try done.
      injection E as <-. by apply I8. }
    rewrite Hcr in Hs. injection Hs as <-. split; simpl; rewrite ?Hx; auto; [by eapply Haddr|done].
  - destruct (s_queue s) as [|sig rest]; [done|]. injection Hs as <-.
    by destruct (isShutdownSignal _ _); split; simpl; rewrite ?Hx.
  - destruct (reload_step (u_context u) r s) as [r' s1] eqn:E. injection Hs as <-.
    destruct (reload_step_safe _ _ _ _ _ _ Hc S1 S2 E) as (H1 & H2 & H3).
    destruct (reload_step_inv _ _ _ _ _ E) as (_ & _ & Ep & _ & Er & _).
    split; simpl; rewrite ?Ep, ?Er, ?H3, ?Hx; auto; [by destruct r'|done].
  - injection Hs as <-. by destruct (ctx_statusHTTP _); split; simpl; rewrite ?Hx.
  - destruct (proxy_step CallShutdown (s_proxy s)) as [p|] eqn:E; [|done].
    assert (crashed p = false) as Hcr.
    { unfold proxy_step in E. rewrite (I8 Hx) in E. injection E as <-. by apply I8. }
    rewrite Hcr in Hs. injection Hs as <-. split; simpl; rewrite ?Hx; auto; [by eapply Haddr|done].
  - destruct I2 as (x & Hl & Hne & Hnw). rewrite Hl in Hs. simpl in Hs.
    destruct (proxy_step (ShutdownSteps 0) (s_proxy s)) as [p|] eqn:E.
    + destruct (main_shutdown_step u s x p Hi Hw0 Hl Hne Hnw E) as (Hcr & _). rewrite Hcr in Hs.
      destruct x; injection Hs as <-; split; simpl; rewrite ?Hx; auto; try done; by eapply Haddr.
    + destruct x; try done. injection Hs as <-. by split; simpl; rewrite ?Hx.
  - destruct (proxy_step WaitReturns (s_proxy s)).
    { injection Hs as <-. by split; simpl; rewrite ?Hpc. }
    destruct (proxy_step WaitCalls (s_proxy s)) as [p|] eqn:E; [|done].
    assert (crashed p = false) as Hcr.
    { unfold proxy_step, wg_Wait in E. rewrite (I8 Hx) in E. destruct (_ =? _)%Z; [done|].
      injection E as <-. done. }
    rewrite Hcr in Hs. injection Hs as <-. split; simpl; rewrite ?Hx; auto; [by eapply Haddr|done].
  - destruct (proxy_step WaitWakes (s_proxy s)) as [p|] eqn:E; [|done]. injection Hs as <-.
    split; simpl; rewrite ?Hpc; auto; [by eapply Haddr|]. by destruct (crashed p).
Qed.

Lemma safe_inv_step `{!CertLibsOk L} u c ch s s' :
  ctx_cert (u_context u) = Some c -> tame u ch -> sys_inv u s -> safe_inv u s ->
  sys_step u ch s = Some s' -> safe_inv u s'.
Proof.
  intros Hc Ht Hi Hsf Hs. pose proof Hsf as [S1 S2 S3 S4 S5].
  unfold sys_step in Hs. destruct (s_exit s) eqn:Hx; [done|].
  destruct ch as [ | | |sig| | | |ch| | |i q|i|fs k].
  - by eapply safe_inv_main.
  - destruct (s_pc s) eqn:E; try done. injection Hs as <-. by split; simpl; rewrite ?E; auto.
  - done.
  - injection Hs as <-. unfold signal_step. destruct (_ && _); [by split; simpl; rewrite ?Hx|].
    destruct (ends_process sig); by split; simpl; rewrite ?Hx.
  - case_any; [done|]. injection Hs as <-. by split; simpl; rewrite ?Hx.
  - unfold reloader_step in Hs. destruct (s_reloader s) as [r|] eqn:E.
    + destruct (reload_step (u_context u) r s) as [r' s1] eqn:E'. injection Hs as <-.
      destruct (reload_step_safe _ _ _ _ _ _ Hc S1 S3 E') as (H1 & H2 & H3).
      destruct (reload_step_inv _ _ _ _ _ E') as (Epc & _ & Ep & _).
      by split; simpl; rewrite ?Epc, ?Ep, ?H3, ?Hx; auto.
    + destruct (s_tick s); [|done]. injection Hs as <-. by split; simpl; rewrite ?Hx.
  - destruct (s_armed s); [|done]. injection Hs as <-. by split.
  - destruct (proxy_thread ch) eqn:Ec; [|done]. unfold call_proxy in Hs.
    destruct (proxy_step ch (s_proxy s)) as [p|] eqn:E; [|done].
    destruct (call_proxy_safe u s ch p Hi Hsf Hx Ht Ec E) as [Ha Hcr].
    destruct (crashed p) eqn:Ecr; injection Hs as <-; split; simpl; rewrite ?Hx; auto; try done.
    intros _. split; [by apply Hcr|done].
  - destruct (s_http s); try done. injection Hs as <-. by split; simpl; rewrite ?Hx.
  - destruct (s_http s); try done; injection Hs as <-; by split; simpl; rewrite ?Hx.
  - destruct (s_requests s !! i) as [[]|]; try done. injection Hs as <-. by split; simpl; rewrite ?Hx.
  - destruct (s_requests s !! i) as [[]|]; try done. injection Hs as <-. by split; simpl; rewrite ?Hx.
  - injection Hs as <-. split; simpl; rewrite ?Hx; auto. by destruct S1 as (Hw & _ & Hcur).
Qed.

Definition all_inv (u : setup) (s : system) : Prop := sys_inv u s /\ safe_inv u s.

Lemma all_inv_start u st : cert_ok st -> all_inv u (start u st).
Proof.
  intros Hok. split; [apply sys_inv_start|]. split; simpl; auto; [|done]. intros ->. by repeat constructor.
Qed.

Lemma all_inv_step `{!CertLibsOk L} u c ch s s' :
  ctx_cert (u_context u) = Some c -> tame u ch -> all_inv u s ->
  sys_step u ch s = Some s' -> all_inv u s'.
Proof. intros Hc Ht [Hi Hs] E. split; [by eapply sys_inv_step|by eapply safe_inv_step]. Qed.

Lemma all_inv_run `{!CertLibsOk L} u c st cs s :
  ctx_cert (u_context u) = Some c -> cert_ok st -> Forall (tame u) cs ->
  run (sys_step u) cs (start u st) = Some s -> all_inv u s.
Proof.
  intros Hc Hok Ht. apply (run_invariant (sys_step u) (tame u)); [|done|by apply all_inv_start].
  intros ch s1 s2. by apply (all_inv_step u c).
Qed.

(** ** The tunnel, seen from outside *)

(** What the process promises to its operator: it opens a listener, takes
    connections from it while it is open, forwards at most the connections it has
    taken; a shutdown signal makes it close the listener and drain; it ends
    orderly only when the listener is closed and nothing is being forwarded, with
    status 1 only when it could not start or the drain took too long, and
    otherwise by a signal that kills it. When it had to wait for the drain, and
    the last connection has been finished ([Drained]), it panics if one of the
    connections taken earlier gets forwarded before the process has ended. *)
Inductive phase : Type :=
  | Initializing
  | Serving
  | Draining
  | Drained
  | Over (e : process_exit).

Record tunnel : Type := Tunnel {
  t_phase : phase;
  t_open : bool;
  t_taken : Z;
  t_busy : Z
}.

Definition live (ph : phase) : Prop := match ph with Over _ => False | _ => True end.

Inductive tunnel_step : tunnel -> tunnel -> Prop :=
  | TStarts n b : tunnel_step (Tunnel Initializing false n b) (Tunnel Serving true n b)
  | TTakes ph n b : live ph ->
    tunnel_step (Tunnel ph true n b) (Tunnel ph true (n + 1) b)
  | TConnects ph o n b : live ph -> (b < n)%Z ->
    tunnel_step (Tunnel ph o n b) (Tunnel ph o n (b + 1))
  | TFinishes ph o n b : live ph -> (0 < b)%Z ->
    tunnel_step (Tunnel ph o n b) (Tunnel ph o n (b - 1))
  | TStops n b : tunnel_step (Tunnel Serving true n b) (Tunnel Draining true n b)
  | TCloses n b : tunnel_step (Tunnel Draining true n b) (Tunnel Draining false n b)
  | TLastFinishes n : tunnel_step (Tunnel Draining false n 1) (Tunnel Drained false n 0)
  | TEnds ph n : ph = Draining \/ ph = Drained ->
    tunnel_step (Tunnel ph false n 0) (Tunnel (Over (Exited 0)) false n 0)
  | TLate n : (0 < n)%Z -> tunnel_step (Tunnel Drained false n 0) (Tunnel (Over Panicked) false n 1)
  | TReused n b : (0 < b)%Z ->
    tunnel_step (Tunnel Drained false n b) (Tunnel (Over Panicked) false n b)
  | TGivesUp ph o n b : ph = Initializing \/ ph = Draining \/ ph = Drained ->
    tunnel_step (Tunnel ph o n b) (Tunnel (Over (Exited 1)) o n b)
  | TKilled ph o n b sig : live ph -> ends_process sig = true ->
    tunnel_step (Tunnel ph o n b) (Tunnel (Over (KilledBy sig)) o n b).

Definition phase_at (pc : main_pc) : phase :=
  match pc with
  | MOpen | MAccept => Initializing
  | MListening | MNotify | MSelect | MReload _ => Serving
  | MStatusShutdown | MArmExit | MCallShutdown | MInShutdown | MStop | MWait | MWaiting => Draining
  end.

(** The main thread was blocked in [Wait], and the counter has got to zero since. *)
Definition drain_over (s : system) : bool :=
  waiting_at (s_pc s) && ((handlers (s_proxy s) =? 0)%Z || (waiters (s_proxy s) =? 0)%Z).

Definition phase_of (s : system) : phase := if drain_over s then Drained else phase_at (s_pc s).

Definition tunnel_of (s : system) : tunnel :=
  Tunnel (match s_exit s with Some e => Over e | None => phase_of s end)
    (accepts_at (s_pc s) && listening (s_proxy s)) (taken (s_proxy s))
    (countb covered (conns (s_proxy s))).

Lemma tunnel_of_live s : s_exit s = None ->
  tunnel_of s = Tunnel (phase_of s) (accepts_at (s_pc s) && listening (s_proxy s)) (taken (s_proxy s))
    (countb covered (conns (s_proxy s))).
Proof. intros Hx. unfold tunnel_of. by rewrite Hx. Qed.

Lemma phase_of_other s : s_pc s <> MWaiting -> phase_of s = phase_at (s_pc s).
Proof. unfold phase_of, drain_over. by destruct (s_pc s). Qed.

Lemma live_of s : live (phase_of s).
Proof. unfold phase_of. destruct (drain_over s); [done|]. by destruct (s_pc s). Qed.

(** Once [Shutdown] has returned the wait group counts what is being forwarded, and
    the listener is closed. *)
Lemma waiting_counts u s : sys_inv u s -> s_pc s = MWaiting ->
  handlers (s_proxy s) = countb covered (conns (s_proxy s)) /\ listening (s_proxy s) = false.
Proof.
  intros [I1 I2 _ _ _ _ _ _ _ _] Hpc. rewrite Hpc in I2. simpl in I2.
  apply proxy_inv_steps in I1 as [J1 _ _ _ _ J6 _ _ _ _ _ _]. rewrite I2 in J1, J6. simpl in J1, J6.
  split; [lia|]. by apply J6.
Qed.

(** The listener is open until the main thread's call of [Shutdown] closes it. *)
Lemma listener_open u s : sys_inv u s ->
  countb closed (shutdowns (s_proxy s)) = 0%Z -> listening (s_proxy s) = true.
Proof.
  intros [I1 _ _ _ _ _ _ _ _ _] Hc. apply proxy_inv_steps in I1 as [_ _ _ _ _ I6 _ _ _ _ _ _].
  destruct (listening (s_proxy s)); [done|]. rewrite Hc in I6. lia.
Qed.

(** A connection is being forwarded only if it was taken. *)
Lemma covered_taken p : (0 <= countb covered (conns p) <= taken p)%Z.
Proof.
  pose proof (countb_bounds covered (conns p)). unfold taken. destruct (accepting p); lia.
Qed.

(** The number of forwarded connections in the tunnel. *)
Lemma busy_refines ph o n b b' : live ph -> (0 <= b)%Z -> (0 <= b' <= n)%Z -> (Z.abs (b' - b) <= 1)%Z ->
  Tunnel ph o n b' = Tunnel ph o n b \/ tunnel_step (Tunnel ph o n b) (Tunnel ph o n b').
Proof.
  intros Hl Hb Hb' Hd. assert (b' = b \/ b' = b + 1 \/ b' = b - 1)%Z as [->|[->| ->]] by lia;
    [by left|right..].
  - apply TConnects; [done|lia].
  - apply TFinishes; [done|lia].
Qed.

(** While the main thread is blocked: the threads of the proxy go on until the last
    connection is finished, and from then on may only panic. *)
Lemma waiting_refines u s c p :
  sys_inv u s -> s_exit s = None -> s_pc s = MWaiting -> proxy_thread c = true ->
  proxy_step c (s_proxy s) = Some p -> crashed p = false ->
  tunnel_of (set_proxy p s) = tunnel_of s \/ tunnel_step (tunnel_of s) (tunnel_of (set_proxy p s)).
Proof.
  intros Hi Hx Hpc Hc Hs Hcr. pose proof (proxy_inv_steps _ _ (inv_proxy _ _ Hi)) as Hp.
  destruct (waiting_counts u s Hi Hpc) as [Hb Hl].
  assert (Hi' : sys_inv u (set_proxy p s)) by (pose proof (sys_inv_proxy u s p Hi Hx c Hc Hs) as H; by rewrite Hcr in H).
  destruct (waiting_counts u (set_proxy p s) Hi' Hpc) as [Hb' _]. simpl in Hb'.
  destruct (proxy_thread_step c _ _ Hp Hc Hs) as (_ & El & _ & _ & [[Et Hd]|(_ & _ & _ & Hopen)]);
    [|by rewrite Hl in Hopen].
  destruct Hd as [Hd|Hd]; [congruence|].
  destruct (proxy_thread_waiting c _ _ Hp Hc Hs) as (Hw & Hm & _). specialize (fun H => Hm H Hcr).
  rewrite !tunnel_of_live by done. unfold phase_of, drain_over. simpl.
  rewrite Hpc, El, Hl, Et. simpl. rewrite <- Hb, <- Hb' in *.
  pose proof (covered_taken p) as Hct. rewrite <- Hb', Et in Hct.
  pose proof (covered_taken (s_proxy s)) as Hct0. rewrite <- Hb in Hct0.
  unfold must_wake in *.
  destruct (Z.eqb_spec (waiters (s_proxy s)) 0) as [Ew|Ew].
  { rewrite orb_true_r. assert (waiters p = 0)%Z as -> by lia. rewrite orb_true_r.
    by apply busy_refines; [|lia..]. }
  destruct (Z.eqb_spec (handlers (s_proxy s)) 0) as [Eh|Eh]; simpl in *.
  { rewrite (Hm eq_refl), Eh. by left. }
  assert (waiters p = waiters (s_proxy s)) as -> by (destruct Hw as [[Hw _]|[Hw _]]; done).
  destruct (Z.eqb_spec (waiters (s_proxy s)) 0); [done|].
  destruct (Z.eqb_spec (handlers p) 0) as [Eh'|Eh']; simpl.
  - assert (handlers (s_proxy s) = 1)%Z as -> by lia. rewrite Eh'. right. apply TLastFinishes.
  - by apply busy_refines; [|lia..].
Qed.

Lemma proxy_refines u s c p :
  sys_inv u s -> safe_inv u s -> tame u (ProxySteps c) -> s_exit s = None -> proxy_thread c = true ->
  proxy_step c (s_proxy s) = Some p ->
  let s' := if crashed p then exit_with Panicked (set_proxy p s) else set_proxy p s in
  tunnel_of s' = tunnel_of s \/ tunnel_step (tunnel_of s) (tunnel_of s').
Proof.
  intros Hi Hsf Ht Hx Hc Hs s'. destruct (call_proxy_safe u s c p Hi Hsf Hx Ht Hc Hs) as [_ Hcr].
  destruct (proxy_thread_step c _ _ (proxy_inv_steps _ _ (inv_proxy _ _ Hi)) Hc Hs) as (_ & El & Es & _ & Hcase).
  assert (Hpc : s_pc s = MWaiting \/ s_pc s <> MWaiting) by (destruct (s_pc s); auto).
  destruct Hpc as [Hpc|Hpc].
  - destruct (crashed p) eqn:E; [|by eapply waiting_refines]. unfold s'. right.
    destruct (Hcr eq_refl) as (_ & Hh & Hh' & Hw). destruct (waiting_counts u s Hi Hpc) as [Hb Hl].
    assert (Hb' : countb covered (conns p) = 1%Z).
    { pose proof (inv_wg _ (proxy_inv_step _ _ _ (proxy_inv_steps _ _ (inv_proxy _ _ Hi)) Hs)) as I1.
      pose proof (inv_shutdowns _ _ Hi) as I2. rewrite Hpc in I2. simpl in I2. rewrite Es, I2 in I1.
      simpl in I1. lia. }
    pose proof (covered_taken p) as Hct. rewrite Hb' in Hct.
    assert (taken p = taken (s_proxy s)) as Et
      by (destruct Hcase as [[Et _]|(_ & _ & _ & Hopen)]; [done|by rewrite Hl in Hopen]).
    unfold tunnel_of. simpl. rewrite Hx, El, Hl, Hb', Et, <- Hb, Hh, andb_false_r.
    unfold phase_of, drain_over. rewrite Hpc, Hh. simpl. apply TLate. lia.
  - destruct (crashed p) eqn:E; [destruct Hcr; [done|congruence]|]. unfold s'.
    rewrite !tunnel_of_live, !phase_of_other by done. simpl. rewrite El.
    pose proof (covered_taken p). pose proof (covered_taken (s_proxy s)).
    assert (live (phase_at (s_pc s))) as Hlive by (by destruct (s_pc s)).
    destruct Hcase as [[Et [Hd|Hd]]|(Et & Ec & Ha & Hl)].
    + congruence.
    + rewrite Et in *. by apply busy_refines; [|lia..].
    + right. rewrite Et, Ec, Hl.
      destruct (accepts_at (s_pc s)) eqn:Eacc; [|by destruct Ha; apply (inv_accepting _ _ Hi)].
      by apply TTakes.
Qed.

(** The end of [Wait]. *)
Lemma wait_refines u s s' : all_inv u s -> s_exit s = None -> s_pc s = MWait \/ s_pc s = MWaiting ->
  main_step u s = Some s' -> tunnel_of s' = tunnel_of s \/ tunnel_step (tunnel_of s) (tunnel_of s').
Proof.
  intros [Hi _] Hx Hpc Hs. pose proof Hi as [I1 I2 _ _ _ _ _ I8 Iw _]. specialize (I8 Hx).
  apply proxy_inv_steps in I1 as Hp.
  assert (handlers (s_proxy s) = countb covered (conns (s_proxy s)) /\ listening (s_proxy s) = false)
    as [Hb Hl].
  { destruct Hpc as [Hpc|Hpc]; [|by eapply waiting_counts]. rewrite Hpc in I2. simpl in I2.
    destruct Hp as [J1 _ _ _ _ J6 _ _ _ _ _ _]. rewrite I2 in J1, J6. simpl in J1, J6.
    split; [lia|by apply J6]. }
  unfold main_step, call_proxy, proxy_step in Hs. rewrite I8 in Hs.
  destruct Hpc as [Hpc|Hpc]; rewrite Hpc in *; simpl in Hs.
  - destruct (Z.eqb_spec (handlers (s_proxy s)) 0) as [E|E].
    + injection Hs as <-. right. rewrite (tunnel_of_live s) by done. rewrite phase_of_other by (by rewrite Hpc).
      unfold tunnel_of. simpl. rewrite Hpc, Hl, <- Hb, E. apply TEnds. by left.
    + unfold wg_Wait in Hs. rewrite (proj2 (Z.eqb_neq _ _) E) in Hs. simpl in Hs. rewrite I8 in Hs.
      injection Hs as <-. left. rewrite !tunnel_of_live by done. unfold phase_of, drain_over. simpl.
      rewrite Hpc. simpl. rewrite (proj2 (Z.eqb_neq _ _) E). specialize (Iw Hx). simpl in Iw.
      pose proof (inv_waiters _ Hp). assert (waiters (s_proxy s) = 0%Z) as -> by lia. done.
  - unfold wg_resume in Hs. destruct (Z.ltb_spec 0 (woken (s_proxy s))) as [Hk|]; [|done].
    specialize (Iw Hx). simpl in Iw. pose proof (inv_waiters _ Hp).
    assert (Hw : waiters (s_proxy s) = 0%Z) by lia. rewrite Hw in Hs. simpl in Hs. right.
    rewrite (tunnel_of_live s) by done. unfold phase_of, drain_over. rewrite Hpc, Hw. simpl.
    rewrite orb_true_r, Hl. destruct (Z.eqb_spec (handlers (s_proxy s)) 0) as [E|E]; injection Hs as <-;
      unfold tunnel_of; simpl; rewrite ?I8, ?Hpc, ?Hl; simpl; rewrite <- Hb.
    + rewrite E. apply TEnds. by right.
    + apply TReused. pose proof (countb_bounds covered (conns (s_proxy s))). lia.
Qed.

Lemma main_refines `{!CertLibsOk L} u c s s' :
  ctx_cert (u_context u) = Some c -> all_inv u s -> s_exit s = None -> main_step u s = Some s' ->
  tunnel_of s' = tunnel_of s \/ tunnel_step (tunnel_of s) (tunnel_of s').
Proof.
  intros Hc Hall Hx Hs.
  assert (Hpc : (s_pc s = MWait \/ s_pc s = MWaiting) \/ (s_pc s <> MWait /\ s_pc s <> MWaiting))
    by (destruct (s_pc s); auto).
  destruct Hpc as [Hpc|[Hpc Hpc']]; [by eapply wait_refines|].
  destruct Hall as [Hi [S1 S2 _ _ _]]. pose proof Hi as [I1 I2 I3 _ _ _ _ I8 _ _].
  pose proof (listener_open u s Hi) as Hopen. pose proof (nobody_waits u s Hi Hx Hpc') as Hw0.
  unfold main_step, call_proxy in Hs.
  destruct (s_pc s) as [ | | | | |r| | | | | | | ] eqn:E0; simpl in *; unfold tunnel_of, phase_of, drain_over;
    try (injection Hs as <-; left; simpl; by rewrite Hx, E0); try done.
  - unfold proxy_step in Hs. rewrite (I8 Hx), (proj2 I3 eq_refl) in Hs. simpl in Hs.
    rewrite (I8 Hx) in Hs. injection Hs as <-. right. simpl. rewrite Hx, E0, I2 in *.
    unfold taken. simpl. rewrite (proj2 I3 eq_refl), (Hopen eq_refl). apply TStarts.
  - destruct (s_queue s) as [|sig rest]; [done|]. injection Hs as <-. simpl.
    rewrite Hx, E0. destruct (isShutdownSignal _ _); [right|by left]. simpl.
    rewrite I2 in Hopen. rewrite (Hopen eq_refl). apply TStops.
  - destruct (reload_step (u_context u) r s) as [r' s1] eqn:E. injection Hs as <-. left. simpl.
    destruct (reload_step_safe _ _ _ _ _ _ Hc S1 S2 E) as (_ & _ & H3).
    destruct (reload_step_inv _ _ _ _ _ E) as (_ & _ & Ep & _).
    rewrite H3, Hx, E0, Ep. by destruct r'.
  - injection Hs as <-. left. by destruct (ctx_statusHTTP _); simpl; rewrite Hx, E0.
  - unfold proxy_step in Hs. rewrite (I8 Hx) in Hs. simpl in Hs.
    rewrite (I8 Hx) in Hs. injection Hs as <-. left. simpl. by rewrite Hx, E0.
  - destruct I2 as (x & Hl & Hne & Hnw). rewrite Hl in *. simpl in Hs.
    destruct (proxy_step (ShutdownSteps 0) (s_proxy s)) as [p|] eqn:E.
    + destruct (main_shutdown_step u s x p Hi Hw0 Hl Hne Hnw E)
        as (Hcr & Ha & Ec & _ & _ & x' & _ & _ & _ & [= _ Eli] & Hm). rewrite Hcr in Hs.
      destruct x; try done; injection Hs as <-; simpl; rewrite Hx, E0; unfold taken;
        rewrite Ha, Ec, Eli; [by left..| |by left]. right. rewrite (Hopen eq_refl). apply TCloses.
    + destruct x; try done. injection Hs as <-. left. simpl. by rewrite Hx, E0.
Qed.

Lemma sys_refines `{!CertLibsOk L} u c ch s s' :
  ctx_cert (u_context u) = Some c -> tame u ch -> all_inv u s -> sys_step u ch s = Some s' ->
  tunnel_of s' = tunnel_of s \/ tunnel_step (tunnel_of s) (tunnel_of s').
Proof.
  intros Hc Ht Hall Hs. pose proof Hall as [Hi Hsf].
  unfold sys_step in Hs. destruct (s_exit s) eqn:Hx; [done|].
  destruct ch as [ | | |sig| | | |ch| | |i q|i|fs k].
  - by eapply main_refines.
  - destruct (s_pc s) eqn:E; try done. injection Hs as <-. right. unfold tunnel_of. simpl.
    rewrite Hx. unfold phase_of, drain_over. rewrite E. apply TGivesUp. by left.
  - done.
  - injection Hs as <-. unfold signal_step. destruct (_ && _); [by left|].
    destruct (ends_process sig) eqn:E; [right|by left]. unfold tunnel_of. simpl. rewrite Hx.
    apply TKilled; [apply live_of|done].
  - case_any; [done|]. injection Hs as <-. by left.
  - unfold reloader_step in Hs. destruct (s_reloader s) as [r|] eqn:E.
    + destruct (reload_step (u_context u) r s) as [r' s1] eqn:E'. injection Hs as <-. left.
      destruct Hsf as [S1 _ S3 _ _]. rewrite E in S3.
      destruct (reload_step_safe _ _ _ _ _ _ Hc S1 S3 E') as (_ & _ & H3).
      destruct (reload_step_inv _ _ _ _ _ E') as (Epc & _ & Ep & _).
      unfold tunnel_of, phase_of, drain_over. simpl. by rewrite H3, Epc, Ep.
    + destruct (s_tick s); [|done]. injection Hs as <-. by left.
  - destruct (s_armed s) eqn:E; [|done]. injection Hs as <-. right. unfold tunnel_of. simpl.
    rewrite Hx. apply TGivesUp. right. unfold phase_of. destruct (drain_over s); [by right|left].
    rewrite (inv_armed _ _ Hi) in E. by destruct (s_pc s).
  - destruct (proxy_thread ch) eqn:Ec; [|done]. unfold call_proxy in Hs.
    destruct (proxy_step ch (s_proxy s)) as [p|] eqn:E; [|done].
    injection Hs as <-. by apply (proxy_refines u s ch p).
  - destruct (s_http s); try done. injection Hs as <-. by left.
  - destruct (s_http s); try done; injection Hs as <-; by left.
  - destruct (s_requests s !! i) as [[]|]; try done. injection Hs as <-. by left.
  - destruct (s_requests s !! i) as [[]|]; try done. injection Hs as <-. by left.
  - injection Hs as <-. by left.
Qed.

(** ** Shutting down *)

(** The main thread is shutting down, or will after the signals before the first
    shutdown signal. *)
Definition shutting (u : setup) (s : system) : bool :=
  match s_pc s with
  | MSelect | MReload _ => existsb (isShutdownSignal (u_platform u)) (s_queue s)
  | MStatusShutdown | MArmExit | MCallShutdown | MInShutdown | MStop | MWait | MWaiting => true
  | _ => false
  end.

(** How many steps of the main thread are left until it is blocked in [Wait]: a
    reload for every signal before the first shutdown signal, then the shutdown
    itself and the call. *)
Definition reload_left (r : reload_pc) : nat :=
  match r with RReloading => 4 | RBuild => 3 | RPublish _ => 2 | RListening => 1 end.
Definition shutdown_left (l : list shutdown) : nat :=
  match l with
  | [ShLoad] => 5 | [ShStore] => 4 | [ShClose] => 3 | [ShDone] => 2 | [ShReturned _] => 1
  | _ => 0
  end.
Definition select_left (u : setup) (q : list Signal) : nat :=
  5 * length (before_shutdown (u_platform u) q) + 11.
Definition main_left (u : setup) (s : system) : nat :=
  match s_pc s with
  | MSelect => select_left u (s_queue s)
  | MReload r => reload_left r + select_left u (s_queue s)
  | MStatusShutdown => 10 | MArmExit => 9 | MCallShutdown => 8
  | MInShutdown => 2 + shutdown_left (shutdowns (s_proxy s))
  | MStop => 2
  | MWait => 1
  | _ => 0
  end.

Lemma before_shutdown_app pl q sig : existsb (isShutdownSignal pl) q = true ->
  before_shutdown pl (q ++ [sig]) = before_shutdown pl q.
Proof.
  induction q as [|x q IH]; simpl; [done|]. destruct (isShutdownSignal pl x); simpl; [done|].
  intros H. by rewrite IH.
Qed.

Lemma before_shutdown_length pl q : existsb (isShutdownSignal pl) q = true ->
  length (before_shutdown pl q) < length q.
Proof.
  induction q as [|x q IH]; simpl; [done|]. destruct (isShutdownSignal pl x); simpl; [lia|].
  intros H. specialize (IH H). lia.
Qed.

Lemma main_left_bound u s : sys_inv u s -> shutting u s = true -> main_left u s <= 25.
Proof.
  intros [_ I2 _ _ I5 _ _ _ _ _] Hs. unfold shutting, main_left, select_left, signals_capacity in *.
  destruct (s_pc s) as [ | | | | |r| | | | | | | ]; try done; try lia.
  - apply before_shutdown_length in Hs. lia.
  - apply before_shutdown_length in Hs. destruct r; simpl; lia.
  - destruct I2 as (x & -> & _). destruct x; simpl; lia.
Qed.

(** The main thread can go on, and each of its steps brings the wait nearer. *)
Lemma main_progress u s : sys_inv u s -> s_exit s = None -> shutting u s = true ->
  s_pc s <> MWait -> s_pc s <> MWaiting -> exists s', main_step u s = Some s' /\
  (s_exit s' = None -> shutting u s' = true /\ main_left u s' < main_left u s).
Proof.
  intros Hi Hx Hsh Hw Hw'. pose proof Hi as [_ I2 _ _ _ _ _ I8 _ _].
  pose proof (nobody_waits u s Hi Hx Hw') as Hw0.
  unfold main_step, call_proxy, shutting, main_left, select_left in *.
  destruct (s_pc s) as [ | | | | |r| | | | | | | ] eqn:Hpc; try done; simpl in *.
  - destruct (s_queue s) as [|sig rest]; [done|]. eexists. split; [done|]. intros _. simpl in *.
    destruct (isShutdownSignal _ sig); simpl in *; (split; [done|]); lia.
  - destruct (reload_step (u_context u) r s) as [r' s1] eqn:E. eexists. split; [done|].
    destruct (reload_step_inv _ _ _ _ _ E) as (_ & Eq & _). simpl. intros Hx1.
    assert (Hr : match r' with Some r' => reload_left r' | None => 0 end < reload_left r).
    { destruct r; simpl in E; [by injection E as <- <-; simpl; lia| |
        by injection E as <- <-; simpl; lia..].
      destruct (ctx_cert _) as [c|]; [|injection E as <- <-; simpl; lia].
      by destruct (certificate_build c _) as [[]]; injection E as <- <-; simpl; lia. }
    rewrite Eq. destruct r'; (split; [done|lia]).
  - eexists. split; [done|]. intros _. destruct (ctx_statusHTTP _); simpl; split; done || lia.
  - eexists. split; [done|]. intros _. simpl. split; done || lia.
  - unfold proxy_step. rewrite (I8 Hx). simpl. rewrite (I8 Hx). eexists. split; [done|].
    intros _. simpl. rewrite I2. simpl. split; done || lia.
  - destruct I2 as (x & Hl & Hne & Hnw). rewrite Hl. simpl.
    destruct (proxy_step (ShutdownSteps 0) (s_proxy s)) as [p|] eqn:E.
    + destruct (main_shutdown_step u s x p Hi Hw0 Hl Hne Hnw E)
        as (Hcr & _ & _ & _ & _ & x' & Hl' & _ & _ & _ & Hm).
      rewrite Hcr. destruct x; try done; subst x'; (eexists; split; [done|]); intros _; simpl;
        rewrite Hl'; simpl; (split; [done|lia]).
    + destruct x; try (unfold proxy_step, shutdown_step in E; by rewrite (I8 Hx), Hl in E).
      eexists. split; [done|]. intros _. simpl. split; done || lia.
  - eexists. split; [done|]. intros _. simpl. split; done || lia.
Qed.

(** The other threads do not delay the main thread. *)
Lemma others_do_not_delay u c s s' : sys_inv u s -> s_exit s = None -> shutting u s = true ->
  c <> MainSteps -> sys_step u c s = Some s' -> s_exit s' = None ->
  shutting u s' = true /\ main_left u s' = main_left u s.
Proof.
  intros Hi Hx Hsh Hne Hs Hx'. unfold sys_step in Hs. rewrite Hx in Hs.
  destruct c as [ | | |sig| | | |c| | |i q|i|fs k]; try done.
  - destruct (s_pc s); try done. by injection Hs as <-.
  - repeat (case_match; try done). by injection Hs as <-.
  - injection Hs as <-. unfold signal_step in *. destruct (registered _ && _).
    + unfold deliver. destruct (_ <? _); [|by split].
      unfold shutting, main_left, select_left in *. simpl.
      destruct (s_pc s); try done; rewrite before_shutdown_app by done;
        (split; [|done]); rewrite existsb_app, Hsh; done.
    + destruct (ends_process sig); [done|by split].
  - case_any; [done|]. by injection Hs as <-.
  - unfold reloader_step in Hs. destruct (s_reloader s) as [r|].
    + destruct (reload_step (u_context u) r s) as [r' s1] eqn:E. injection Hs as <-.
      destruct (reload_step_inv _ _ _ _ _ E) as (Epc & Eq & Ep & _).
      unfold shutting, main_left in *. simpl. by rewrite Epc, Eq, Ep.
    + destruct (s_tick s); [|done]. by injection Hs as <-.
  - destruct (s_armed s); [|done]. by injection Hs as <-.
  - destruct (proxy_thread c) eqn:Ec; [|done]. unfold call_proxy in Hs.
    destruct (proxy_step c (s_proxy s)) as [p|] eqn:E; [|done].
    destruct (proxy_thread_step c _ _ (proxy_inv_steps _ _ (inv_proxy _ _ Hi)) Ec E)
      as (_ & _ & Esh & _).
    destruct (crashed p); injection Hs as <-; [done|].
    unfold shutting, main_left in *. simpl. by rewrite Esh.
  - destruct (s_http s); try done. by injection Hs as <-.
  - destruct (s_http s); try done; by injection Hs as <-.
  - destruct (s_requests s !! i) as [[]|]; try done. by injection Hs as <-.
  - destruct (s_requests s !! i) as [[]|]; try done. by injection Hs as <-.
  - by injection Hs as <-.
Qed.

(** The steps of the main thread in a schedule. *)
Fixpoint main_steps (cs : list sys_choice) : nat :=
  match cs with
  | [] => 0
  | MainSteps :: rest => S (main_steps rest)
  | _ :: rest => main_steps rest
  end.

Lemma alive_before u c s s' : sys_step u c s = Some s' -> s_exit s = None.
Proof. unfold sys_step. by destruct (s_exit s). Qed.

(** The call of [Wait]. *)
Lemma wait_call_step u s s' : sys_inv u s -> s_exit s = None -> s_pc s = MWait ->
  main_step u s = Some s' -> s_exit s' = None ->
  shutting u s' = true /\ main_steps [MainSteps] + main_left u s' <= main_left u s.
Proof.
  intros Hi Hx Hpc Hs Hx'. unfold main_step, call_proxy in Hs. rewrite Hpc in Hs.
  destruct (proxy_step WaitReturns _); [by injection Hs as <-|].
  destruct (proxy_step WaitCalls _) as [p|]; [|done].
  destruct (crashed p); injection Hs as <-; [done|]. unfold shutting, main_left. simpl. by rewrite Hpc.
Qed.

Lemma shutting_step u c s s' : sys_inv u s -> shutting u s = true -> sys_step u c s = Some s' ->
  s_exit s' = None -> shutting u s' = true /\ main_steps [c] + main_left u s' <= main_left u s.
Proof.
  intros Hi Hsh Hs Hx'. pose proof (alive_before _ _ _ _ Hs) as Hx.
  assert (Hc : c = MainSteps \/ (c <> MainSteps /\ main_steps [c] = 0)) by (destruct c; auto).
  destruct Hc as [->|[Hne ->]].
  - unfold sys_step in Hs. rewrite Hx in Hs.
    assert (Hw : s_pc s = MWait \/ s_pc s <> MWait) by (destruct (s_pc s); auto).
    destruct Hw as [Hw|Hw]; [by apply (wait_call_step u s s' Hi Hx Hw Hs)|].
    assert (s_pc s <> MWaiting) as Hw'.
    { intros E. unfold main_step in Hs. rewrite E in Hs.
      destruct (proxy_step _ _); [|done]. by injection Hs as <-. }
    destruct (main_progress u s Hi Hx Hsh Hw Hw') as (s1 & Hs1 & H). rewrite Hs in Hs1.
    injection Hs1 as <-. destruct (H Hx'). simpl. split; [done|lia].
  - destruct (others_do_not_delay u c s s' Hi Hx Hsh Hne Hs Hx') as [H1 ->]. split; [done|lia].
Qed.

Lemma shutting_run u cs s s' : sys_inv u s -> shutting u s = true ->
  run (sys_step u) cs s = Some s' -> s_exit s' = None ->
  sys_inv u s' /\ shutting u s' = true /\ main_steps cs + main_left u s' <= main_left u s.
Proof.
  revert s. induction cs as [|c cs IH]; intros s Hi Hsh Hr Hx'; simpl in Hr.
  { injection Hr as <-. split; [done|]. split; [done|]. simpl. lia. }
  destruct (sys_step u c s) as [s1|] eqn:E; [|done]. simpl in Hr.
  assert (Hx1 : s_exit s1 = None).
  { destruct cs as [|c' cs]; simpl in Hr; [by injection Hr as ->|].
    destruct (sys_step u c' s1) eqn:E'; [|done]. by eapply alive_before. }
  destruct (shutting_step u c s s1 Hi Hsh E Hx1) as [Hsh1 Hm].
  destruct (IH s1 (sys_inv_step _ _ _ _ Hi E) Hsh1 Hr Hx') as (Hi' & Hsh' & Hm').
  split; [done|]. split; [done|].
  assert (main_steps (c :: cs) = main_steps [c] + main_steps cs) as -> by (by destruct c). lia.
Qed.

Lemma signal_starts_shutdown u s sig :
  registered (s_pc s) = true -> isShutdownSignal (u_platform u) sig = true ->
  length (s_queue s) < signals_capacity -> s_exit s = None ->
  shutting u (signal_step u sig s) = true /\ s_exit (signal_step u sig s) = None.
Proof.
  intros Hreg Hsig Hq Hx. unfold signal_step. rewrite Hreg.
  assert (is_notified (u_platform u) sig = true) as ->.
  { unfold isShutdownSignal in Hsig. unfold is_notified. revert Hsig.
    induction (shutdownSignals (u_platform u)) as [|x l IH]; simpl; [done|].
    by case_bool_decide. }
  simpl. split; [|done]. unfold shutting, deliver. simpl.
  destruct (Nat.ltb_spec (length (s_queue s)) signals_capacity); [|lia].
  rewrite existsb_app. simpl. rewrite Hsig. simpl. rewrite orb_true_r. by destruct (s_pc s).
Qed.

(** ** The certificate *)

Lemma reload_step_heap ctx r s r' s' : reload_step ctx r s = (r', s') ->
  heap (s_cert s) `prefix_of` heap (s_cert s').
Proof.
  intros H. destruct r; simpl in H.
  - by injection H as <- <-.
  - destruct (ctx_cert ctx) as [c|]; [|by injection H as <- <-].
    destruct (certificate_build_quiet c (s_cert s)) as (_ & Eh & _).
    destruct (certificate_build c (s_cert s)) as [[cert|e|] c'];
      injection H as <- <-; simpl in *; by rewrite Eh.
  - injection H as <- <-. simpl. by apply prefix_app_r.
  - by injection H as <- <-.
Qed.

Lemma sys_step_heap u c s s' : sys_step u c s = Some s' ->
  heap (s_cert s) `prefix_of` heap (s_cert s').
Proof.
  unfold sys_step. destruct (s_exit s); [done|]. intros Hs.
  destruct c as [ | | |sig| | | |c| | |i q|i|fs k].
  - unfold main_step, call_proxy in Hs. destruct (s_pc s) as [ | | | | |r| | | | | | | ];
      repeat (case_match; simplify_eq/=; try done); simplify_eq/=; try done.
    by eapply (reload_step_heap (u_context u) _ s).
  - destruct (s_pc s); try done. by injection Hs as <-.
  - repeat (case_match; try done). by injection Hs as <-.
  - injection Hs as <-. unfold signal_step. by repeat case_match.
  - case_any; [done|]. by injection Hs as <-.
  - unfold reloader_step in Hs. repeat (case_match; simplify_eq/=; try done).
    by eapply (reload_step_heap (u_context u) _ s).
  - case_match; [|done]. by injection Hs as <-.
  - unfold call_proxy in Hs. by repeat (case_match; simplify_eq/=; try done).
  - case_match; try done. by injection Hs as <-.
  - case_match; try done; by injection Hs as <-.
  - repeat (case_match; try done). by injection Hs as <-.
  - repeat (case_match; try done). by injection Hs as <-.
  - by injection Hs as <-.
Qed.

(** ** From start-up to the end *)

Lemma refines_run `{!CertLibsOk L} u c st cs s :
  ctx_cert (u_context u) = Some c -> cert_ok st -> Forall (tame u) cs ->
  run (sys_step u) cs (start u st) = Some s ->
  rtc tunnel_step (Tunnel Initializing false 0 0) (tunnel_of s).
Proof.
  intros Hc Hok Ht Hr.
  apply (run_invariant (sys_step u) (tame u) (fun s => all_inv u s /\
    rtc tunnel_step (Tunnel Initializing false 0 0) (tunnel_of s)) cs) in Hr; [by destruct Hr| |done|].
  - intros ch s1 s2 Hch [Hi Hs1] Hs2. split; [by eapply all_inv_step|].
    destruct (sys_refines u c ch s1 s2 Hc Hch Hi Hs2) as [->|H]; [done|]. by eapply rtc_r.
  - split; [by apply all_inv_start|]. unfold tunnel_of. simpl.
    destruct (u_proxyProtocol u); simpl; constructor.
Qed.

(** The process [run] sets up. *)
Definition setup_of (pl : platform) (f : Flags) (r : running) : setup :=
  {| u_platform := pl; u_context := r_context r; u_interval := timedReload f;
     u_proxyProtocol := proxyProtocol (r_proxy r) |}.

Lemma cert_ok_reload `{!CertLibsOk L} (c : certificate) s s' :
  wf s -> keychain_ok s -> Reload c s = (Ret (), s') -> cert_ok s'.
Proof.
  intros Hw Hk Hr. pose proof (Reload_ok c s Hw Hk) as H. unfold ensures in H. rewrite Hr in H.
  destruct (reload_current c s s' Hr) as [_ Hw']. split; [done|]. split; [|done].
  pose proof (reload_env c s) as [_ He]. rewrite Hr in He. simpl in He.
  unfold keychain_ok. by rewrite He.
Qed.

(** ** Claims *)


(** From the command line to the end of the process: a server whose [run] got
    as far as listening has the certificate it loaded, in its TLS listener and in
    its signal handler, reports metrics over TLS 1.2 with the configured CA
    bundle, and from there on behaves as the tunnel, in every interleaving. *)
Theorem started_server_keeps_promise `{X : X509Libs} `{!CertLibsOk L} (pl : platform) (b : build)
    (w : world) (f : Flags) (st st' : state) (r : running) (cs : list sys_choice) (s : system) :
  wf st -> keychain_ok st -> main_run pl b w f ServerCommand st = (Ret r, st') ->
  Forall (tame (setup_of pl f r)) cs ->
  run (sys_step (setup_of pl f r)) cs (start (setup_of pl f r) st') = Some s ->
  (exists c cfg, ctx_cert (r_context r) = Some c /\ r_tls r = Some cfg /\
     cfg_GetCertificate cfg = Some c) /\
  (exists pool, caBundle (files st) (caBundlePath f) = Ret pool /\
     JSONReporter (metricsURL f) (metricsPrefix f) (metricsInterval f) VersionTLS12 pool ∈ r_metrics r) /\
  s_proxy (start (setup_of pl f r) st') = r_proxy r /\
  rtc tunnel_step (Tunnel Initializing false 0 0) (tunnel_of s).
Proof.
  intros Hw Hk Hm Ht Hr.
  destruct (server_started _ _ _ _ _ _ _ Hm) as (c & cfg & Hc & Htls & Hg & Hrel & Hp & _ & _ & pool & Hca & Hmet).
  split; [by exists c, cfg|]. split.
  { exists pool. split; [done|]. rewrite Hmet. unfold start_metrics. set_solver. }
  split; [|by eapply (refines_run (setup_of pl f r) c st'); [exact Hc|by eapply cert_ok_reload|..]].
  simpl. rewrite Hp. by destruct (serverProxyProtocol f).
Qed.

(** A drained process can exit. *)
Lemma nothing_covered p : (forall h, h ∈ conns p -> covered h = false) -> countb covered (conns p) = 0%Z.
Proof.
  intros Hd. pose proof (countb_bounds covered (conns p)) as [Hb _].
  destruct (Z.eq_dec (countb covered (conns p)) 0%Z) as [|Hne]; [done|].
  assert (Hp : (0 < countb covered (conns p))%Z) by lia.
  apply countb_pos in Hp as (i & h & Hi & Hc). rewrite Hd in Hc; [done|]. by eapply list_elem_of_lookup_2.
Qed.

Lemma drained_exits u s : sys_inv u s -> s_exit s = None -> s_pc s = MWait ->
  (forall h, h ∈ conns (s_proxy s) -> covered h = false) ->
  sys_step u MainSteps s = Some (exit_with (Exited 0) s).
Proof.
  intros [I1 I2 _ _ _ _ _ I8 _ _] Hx Hpc Hd%nothing_covered. unfold sys_step. rewrite Hx. unfold main_step.
  rewrite Hpc in *. apply proxy_inv_steps in I1 as [Jw _ _ _ _ _ _ _ _ _ _ _]. simpl in I2. rewrite I2, Hd in Jw.
  unfold proxy_step. rewrite I8 by done.
  by rewrite (proj2 (Z.eqb_eq _ _)) by (unfold countb in Jw; simpl in Jw; lia).
Qed.

Lemma wakes_and_exits u s : s_exit s = None -> s_pc s = MWaiting -> crashed (s_proxy s) = false ->
  handlers (s_proxy s) = 0%Z -> waiters (s_proxy s) = 0%Z -> (0 < woken (s_proxy s))%Z ->
  exists s', sys_step u MainSteps s = Some s' /\ s_exit s' = Some (Exited 0).
Proof.
  intros Hx Hpc Hcr Hh Hw Hk. unfold sys_step, main_step, proxy_step, wg_resume.
  rewrite Hx, Hpc, Hcr, Hh, Hw, (proj2 (Z.ltb_lt _ _) Hk). simpl. eexists. split; [done|]. simpl. done.
Qed.

(** One that is blocked in [Wait] and is drained exits as soon as the handler that
    finished last has woken it up. *)
Lemma woken_exits u s : sys_inv u s -> s_exit s = None -> s_pc s = MWaiting ->
  (forall h, h ∈ conns (s_proxy s) -> covered h = false) ->
  exists cs s', run (sys_step u) cs s = Some s' /\ s_exit s' = Some (Exited 0) /\
  (cs = [MainSteps] \/ exists i h, conns (s_proxy s) !! i = Some h /\ h_pc h = AtWake /\
     cs = [ProxySteps (Handles i HandlerSteps); MainSteps]).
Proof.
  intros Hi Hx Hpc Hd%nothing_covered. destruct (waiting_counts u s Hi Hpc) as [Hh _].
  rewrite Hd in Hh. pose proof Hi as [I1 I2 _ _ _ _ _ I8 Iw _]. rewrite Hpc in I2, Iw. simpl in I2.
  specialize (I8 Hx). specialize (Iw Hx). simpl in Iw. apply proxy_inv_steps in I1 as Hp.
  pose proof (inv_waiters _ Hp) as Hw. pose proof (inv_waking _ Hp I8) as Hk. rewrite I2 in Hk.
  unfold must_wake in Hk. rewrite Hh in Hk. simpl in Hk.
  destruct (Z.eqb_spec (waiters (s_proxy s)) 0) as [E|E]; simpl in Hk.
  - destruct (wakes_and_exits u s) as (s' & Hs & He); auto; [lia|]. exists [MainSteps], s'.
    cbn [run]. rewrite Hs. split; [done|]. auto.
  - assert (0 < countb waking (conns (s_proxy s)))%Z as Hc by (unfold countb in *; simpl in Hk; lia).
    apply countb_pos in Hc as (i & h & Hl & Hpch). unfold waking in Hpch.
    assert (h_pc h = AtWake) as Hpch' by (by destruct (h_pc h)).
    exists [ProxySteps (Handles i HandlerSteps); MainSteps].
    set (p1 := set_conns (<[i := at_pc AtDecOpen h]> (conns (wg_wake (s_proxy s)))) (wg_wake (s_proxy s))).
    assert (proxy_step (Handles i HandlerSteps) (s_proxy s) = Some p1) as Hp1.
    { unfold proxy_step. rewrite I8, Hl. simpl. unfold handler_step. by rewrite Hpch'. }
    assert (crashed p1 = false /\ handlers p1 = 0 /\ waiters p1 = 0 /\ 0 < woken p1)%Z as (C1 & C2 & C3 & C4).
    { unfold p1, wg_wake. rewrite Hh. simpl. repeat split; done || lia. }
    destruct (wakes_and_exits u (set_pc MWaiting (set_proxy p1 s))) as (s' & Hs & He); auto.
    assert (sys_step u (ProxySteps (Handles i HandlerSteps)) s = Some (set_pc MWaiting (set_proxy p1 s)))
      as Hs1 by (unfold sys_step, call_proxy; simpl; by rewrite Hx, Hp1, C1, Hpc).
    exists s'. cbn [run]. rewrite Hs1. cbn [mbind option_bind]. rewrite Hs. split; [done|].
    split; [done|]. right. by exists i, h.
Qed.

(** C12. A shutdown signal leads to the end of the process. When one arrives while
    the handler is registered and its channel has room, then however the other
    threads, further signals and the environment go on, the main thread is never
    blocked before it waits for the drain, gets there within 24 of its own steps
    (reloads asked for earlier included). If no handler is forwarding when it calls
    [Wait] the process can end at once with status 0; if it is blocked in [Wait], it
    can as soon as no handler is forwarding and the one that finished last has woken
    it up. In both the forced exit is armed and can end the process at any time,
    whatever the handlers do. *)
Theorem shutdown_completes (u : setup) (st : state) (s s' : system) (sig : Signal)
    (cs : list sys_choice) :
  steps (sys_step u) (start u st) s -> s_exit s = None -> registered (s_pc s) = true ->
  isShutdownSignal (u_platform u) sig = true -> length (s_queue s) < signals_capacity ->
  run (sys_step u) (SignalArrives sig :: cs) s = Some s' -> s_exit s' = None ->
  (s_pc s' <> MWait -> s_pc s' <> MWaiting ->
     main_steps cs < 24 /\ is_Some (sys_step u MainSteps s')) /\
  (s_pc s' = MWait -> main_steps cs <= 24 /\
     ((forall h, h ∈ conns (s_proxy s') -> covered h = false) ->
      sys_step u MainSteps s' = Some (exit_with (Exited 0) s')) /\
     sys_step u ExitTimerFires s' = Some (exit_with (Exited 1) s')) /\
  (s_pc s' = MWaiting -> main_steps cs <= 25 /\
     ((forall h, h ∈ conns (s_proxy s') -> covered h = false) ->
      exists cs' s'', run (sys_step u) cs' s' = Some s'' /\ s_exit s'' = Some (Exited 0) /\
      (cs' = [MainSteps] \/ exists i h, conns (s_proxy s') !! i = Some h /\ h_pc h = AtWake /\
         cs' = [ProxySteps (Handles i HandlerSteps); MainSteps])) /\
     sys_step u ExitTimerFires s' = Some (exit_with (Exited 1) s')).
Proof.
  intros Hr Hx Hreg Hsig Hq Hrun Hx'. pose proof (sys_inv_steps _ _ _ Hr) as Hi.
  destruct (signal_starts_shutdown u s sig Hreg Hsig Hq Hx) as [Hsh Hx1].
  assert (Hstep : sys_step u (SignalArrives sig) s = Some (signal_step u sig s))
    by (unfold sys_step; by rewrite Hx).
  cbn [run] in Hrun. rewrite Hstep in Hrun. simpl in Hrun.
  pose proof (sys_inv_signal u sig s Hi) as Hi1.
  pose proof (main_left_bound u _ Hi1 Hsh) as Hb.
  destruct (shutting_run u cs _ s' Hi1 Hsh Hrun Hx') as (Hi' & Hsh' & Hm).
  assert (Harm : forall pc, s_pc s' = pc -> armed_at pc = true ->
    sys_step u ExitTimerFires s' = Some (exit_with (Exited 1) s')).
  { intros pc Hpc Ha. unfold sys_step. by rewrite Hx', (inv_armed _ _ Hi'), Hpc, Ha. }
  split; [|split].
  - intros Hpc Hpc'. destruct (main_progress u s' Hi' Hx' Hsh' Hpc Hpc') as (s2 & Hs2 & _).
    unfold sys_step. rewrite Hx', Hs2. split; [|done].
    assert (1 < main_left u s'); [|lia].
    destruct Hi' as [_ I2 _ _ _ _ _ _ _ _]. clear -Hpc Hpc' Hsh' I2.
    unfold shutting, main_left, select_left in *. destruct (s_pc s'); try done; try lia.
  - intros Hpc. assert (main_left u s' = 1) as Hl by (unfold main_left; by rewrite Hpc).
    split; [lia|]. split; [by apply drained_exits|by eapply Harm].
  - intros Hpc. split; [lia|]. split; [by apply woken_exits|by eapply Harm].
Qed.

(** C29. How the process ends, whatever happens: with status 0 only after the main
    thread's [Shutdown] has set the flag, closed the listener and returned, and
    no handler is forwarding; with status 1 only when the listeners could not be
    opened or the forced exit was armed; by a signal only if it is one nobody
    handles, or it arrives outside the life of the handler. *)
Theorem exits_explained (u : setup) (st : state) (s : system) (e : process_exit) :
  steps (sys_step u) (start u st) s -> s_exit s = Some e ->
  match e with
  | Exited code =>
    (code = 0%Z /\ quit (s_proxy s) = true /\ listening (s_proxy s) = false /\
     shutdowns (s_proxy s) = [ShReturned true] /\
     forall h, h ∈ conns (s_proxy s) -> h_pc h <> AtFuse /\ h_pc h <> AtDone) \/
    (code = 1%Z /\ (s_pc s = MOpen \/ armed_at (s_pc s) = true))
  | KilledBy sig => registered (s_pc s) = false \/ is_notified (u_platform u) sig = false
  | Panicked => True
  end.
Proof.
  intros Hr Hx. apply sys_inv_steps in Hr as [I1 I2 _ I4 _ _ _ _ _ I9]. unfold exit_cause in I9.
  rewrite Hx in I9. destruct e as [code|sig|]; [|by apply andb_false_iff, I9|done].
  destruct I9 as [(-> & Hpc & Hw)|[-> H]]; [left|right; by rewrite <- I4].
  assert (Hsh : shutdowns (s_proxy s) = [ShReturned true]) by (destruct Hpc as [Hpc|Hpc]; by rewrite Hpc in I2).
  clear I2. rename Hsh into I2.
  apply proxy_inv_steps in I1 as [J1 _ _ _ J5 J6 _ _ _ _ _ _]. rewrite I2 in J1, J5, J6. simpl in J1, J5, J6.
  unfold proxy_step in Hw. destruct (crashed _); [by destruct Hw|].
  destruct (Z.eqb_spec (handlers (s_proxy s)) 0) as [E|E]; [|by destruct Hw].
  split; [done|]. split; [by apply J5|]. split; [by apply J6|]. split; [done|].
  apply no_covered. lia.
Qed.


(** C19. The status endpoint tells the truth about the process: a request that is
    answered once the accept loop runs and [Listening] has been called is
    positive exactly when its probe of the backend was; it says "reloading" only
    while some thread is reloading, and "initializing" only while the process
    is starting. *)
Theorem status_reflects_process (u : setup) (st : state) (s : system) (i : nat) (q : probe) :
  steps (sys_step u) (start u st) s -> s_exit s = None -> s_requests s !! i = Some (Probed q) ->
  exists r s', sys_step u (RequestAnswers i) s = Some s' /\ s_requests s' !! i = Some (Answered r) /\
  (listening_at (s_pc s) = true -> (Ok r = true <-> p_dial q = None)) /\
  (Message r = "reloading" -> reload_in_progress s = true) /\
  (Message r = "initializing" -> listening_at (s_pc s) = false).
Proof.
  intros Hr Hx Hq. apply sys_inv_steps in Hr as [_ _ _ _ _ I6 I7 _ _ _].
  exists (response (s_status s) q). eexists. unfold sys_step. rewrite Hx, Hq. split; [done|].
  simpl. split; [apply list_lookup_insert_eq; by eapply lookup_lt_Some|].
  split; [|split].
  - intros Hl. rewrite (I6 Hl). by destruct (p_dial q).
  - intros Hm. apply (I7 Hx). destruct (st_listening (s_status s)), (st_reloading (s_status s)); done.
  - intros Hm. destruct (listening_at (s_pc s)); [|done]. rewrite I6 in Hm by done.
    by destruct (st_reloading (s_status s)).
Qed.
End Lifecycle.

#[local] Existing Instance toy_header.

(** ** Witnesses *)

Definition toy_setup : setup := {| u_platform := Unix; u_context := toy_context; u_interval := 60;
  u_proxyProtocol := false |}.

(** The process serves one connection, is told to terminate, waits for it and exits. *)
Definition orderly : list (@sys_choice toy) :=
  repeat MainSteps 4 ++ map ProxySteps (accept_one ++ serve 0) ++ SignalArrives SIGTERM ::
  repeat MainSteps 11 ++ map ProxySteps (finish 0) ++ [MainSteps].

Definition sys_after (cs : list (@sys_choice toy)) : @system toy :=
  default (start toy_setup (toy_state "v1")) (run (sys_step toy_setup) cs (start toy_setup (toy_state "v1"))).

Lemma reaches_sys cs :
  run (sys_step toy_setup) cs (start toy_setup (toy_state "v1")) = Some (sys_after cs) ->
  steps (sys_step toy_setup) (start toy_setup (toy_state "v1")) (sys_after cs).
Proof. intros H. apply run_steps. by exists cs. Qed.

Lemma toy_cert_ok : cert_ok (toy_state "v1").
Proof.
  split; [intros i [= <-]; simpl; lia|]. split; [constructor|]. by eexists.
Qed.

(** Reloads by the main thread and by the timer are not serialised: the timer's
    may build and publish a certificate from newer files while the main thread
    still holds one built from older files, which it then publishes over it.
    Both reloads have ended, nothing is pending, and the older certificate is
    offered. *)
Theorem overlapping_reloads_regress :
  exists (cs : list (@sys_choice toy)) s cert,
  run (sys_step toy_setup) cs (start toy_setup (toy_state "v1")) = Some s /\
  s_pc s = MSelect /\ s_reloader s = None /\ s_queue s = [] /\
  files (s_cert s) !! "server.pem" = Some "v2" /\
  current (s_cert s) = Some cert /\ tc_Certificate cert = ["v1"].
Proof.
  exists (repeat MainSteps 4 ++ [SignalArrives SIGUSR1; MainSteps; MainSteps; MainSteps;
    FilesChange {["server.pem" := "v2"]} (Ret []); TimerTicks] ++ repeat ReloaderSteps 5
    ++ repeat MainSteps 2).
  eexists _, _. vm_compute. repeat split.
Qed.

(** The panic of the tunnel is real: a connection accepted before the shutdown gets
    through its handshake while the process drains, and reaches [handlers.Add(1)]
    when the only forwarded connection has finished and has not yet woken the main
    thread up. *)
Theorem drain_race_kills_process :
  exists (cs : list (@sys_choice toy)) s,
  run (sys_step toy_setup) cs (start toy_setup (toy_state "v1")) = Some s /\
  s_exit s = Some Panicked /\ s_pc s = MWaiting.
Proof.
  exists (repeat MainSteps 4 ++ map ProxySteps (accept_one ++ serve 0 ++ accept_one)
    ++ SignalArrives SIGTERM :: repeat MainSteps 11
    ++ map ProxySteps [Handles 1 (HandshakeAnswers None None None); Handles 1 (DialAnswers (inl TCPConn));
                       Handles 1 HandlerSteps]
    ++ map ProxySteps (take 8 (finish 0)) ++ [ProxySteps (Handles 1 HandlerSteps)]).
  eexists. vm_compute. repeat split.
Qed.

(** Two overlapping reloads also clear the flag of the status endpoint early: it
    says "listening" while a reload is in progress. *)
Theorem reload_flag_cleared_early :
  exists (cs : list (@sys_choice toy)) s,
  run (sys_step toy_setup) cs (start toy_setup (toy_state "v1")) = Some s /\
  reload_in_progress s = true /\ st_reloading (s_status s) = false.
Proof.
  exists (repeat MainSteps 4 ++ [SignalArrives SIGUSR1; MainSteps; MainSteps; TimerTicks]
    ++ repeat ReloaderSteps 5).
  eexists. vm_compute. repeat split.
Qed.

(** One refresh signal is being handled, three are pending. *)
Definition burst : list (@sys_choice toy) :=
  repeat MainSteps 4 ++ [SignalArrives SIGUSR1; MainSteps; SignalArrives SIGUSR1;
    SignalArrives SIGUSR1; SignalArrives SIGUSR1].

(** A shutdown signal can be lost: while one reload runs and three refresh
    signals are pending, the channel is full and the signal is dropped; the
    process reloads three times and goes on serving. *)
Theorem shutdown_signal_dropped :
  exists (pre post : list (@sys_choice toy)) s0 s,
  run (sys_step toy_setup) pre (start toy_setup (toy_state "v1")) = Some s0 /\
  registered (s_pc s0) = true /\
  run (sys_step toy_setup) (SignalArrives SIGTERM :: post) s0 = Some s /\
  s_pc s = MSelect /\ s_queue s = [] /\ s_exit s = None.
Proof.
  exists burst, (repeat MainSteps 19), (sys_after burst),
    (sys_after (burst ++ SignalArrives SIGTERM :: repeat MainSteps 19)).
  do 5 (split; [vm_compute; reflexivity|]). vm_compute. reflexivity.
Qed.


Lemma shutdown_completes_witness :
  exists s', run (sys_step toy_setup) (SignalArrives SIGTERM :: repeat MainSteps 10)
    (sys_after (repeat MainSteps 4)) = Some s' /\
  sys_step toy_setup ExitTimerFires s' = Some (exit_with (Exited 1) s').
Proof.
  eexists. split; [vm_compute; reflexivity|].
  refine (proj2 (proj2 (proj1 (proj2 (@shutdown_completes toy toy_header toy_setup (toy_state "v1")
    (sys_after (repeat MainSteps 4)) _ SIGTERM (repeat MainSteps 10) _ _ _ _ _ _ _)) _)));
    try (apply reaches_sys); try (vm_compute; reflexivity). vm_compute. lia.
Defined.

Lemma exits_explained_witness : quit (s_proxy (sys_after orderly)) = true /\
  listening (s_proxy (sys_after orderly)) = false.
Proof.
  destruct (@exits_explained toy toy_header toy_setup (toy_state "v1") (sys_after orderly) (Exited 0))
    as [(_ & H1 & H2 & _)|[H _]].
  - apply reaches_sys. vm_compute. reflexivity.
  - vm_compute. reflexivity.
  - split; [exact H1|exact H2].
  - discriminate H.
Defined.

(** A reload by signal overlaps one by the timer. *)
Definition overlap : list (@sys_choice toy) :=
  SignalArrives SIGUSR1 :: repeat MainSteps 3 ++ TimerTicks :: repeat ReloaderSteps 5
  ++ repeat MainSteps 2.


Lemma status_reflects_process_witness :
  exists r s', sys_step toy_setup (RequestAnswers 0)
    (sys_after (repeat MainSteps 4 ++ [RequestArrives; RequestProbes 0 some_probe])) = Some s' /\
  s_requests s' !! 0 = Some (Answered r) /\ Message r <> "initializing".
Proof.
  destruct (@status_reflects_process toy toy_header toy_setup (toy_state "v1")
    (sys_after (repeat MainSteps 4 ++ [RequestArrives; RequestProbes 0 some_probe])) 0 some_probe)
    as (r & s' & H1 & H2 & _ & _ & H3).
  - apply reaches_sys. vm_compute. reflexivity.
  - vm_compute. reflexivity.
  - vm_compute. reflexivity.
  - exists r, s'. split; [exact H1|]. split; [exact H2|]. intros Hm. specialize (H3 Hm).
    vm_compute in H3. discriminate H3.
Defined.

Lemma started_server_keeps_promise_witness :
  exists r s, (main_run (L := toy) (X := toy_x509) Unix {| cgo := true; certstore := false |}
    toy_world (no_status toy_flags) ServerCommand (toy_state "server")).1 = Ret r /\
  s_exit s = Some (KilledBy SIGTERM) /\
  rtc tunnel_step (Tunnel Initializing false 0 0) (tunnel_of (L := toy) s).
Proof.
  destruct (returns_Ret (fun _ => true) (main_run (L := toy)
    (X := toy_x509) Unix {| cgo := true; certstore := false |} toy_world (no_status toy_flags)
    ServerCommand (toy_state "server")).1) as (r & E & _); [vm_compute; reflexivity|].
  destruct (main_run (L := toy) (X := toy_x509) Unix {| cgo := true; certstore := false |}
    toy_world (no_status toy_flags) ServerCommand (toy_state "server")) as [o st'] eqn:Em.
  simpl in E. subst o.
  exists r, (exit_with (KilledBy SIGTERM) (start (setup_of Unix (no_status toy_flags) r) st')).
  split; [reflexivity|]. split; [reflexivity|].
  refine (proj2 (proj2 (proj2 (started_server_keeps_promise (L := toy) (X := toy_x509) Unix
    {| cgo := true; certstore := false |} toy_world (no_status toy_flags) (toy_state "server") st' r
    [SignalArrives SIGTERM] _ _ _ Em _ _)))).
  - intros i [= <-]. simpl. lia.
  - constructor.
  - repeat constructor.
  - reflexivity.
Defined.
