(* ===== verification/Sessions.v ===== *)
(** * Sessions: the running process with its TLS handshakes

    In [System] the answers of the network to a handler are part of the schedule.
    Here they follow from the configuration the process was started with: the
    handshake of an accepted connection from the [tls.Config] of the listener and
    the certificate of that moment ([server_authenticates]), the connection to the
    backend from the dialer ([Dialer]: three threads per call, interleaved with
    everything else) and its [tls.Config] ([client_authenticates]). The composed
    process is proved to be an instance of [System], and from that and the
    start-up ([Main]) follows whom a process talks to. *)
From Stdlib Require Import ZArith.
From stdpp Require Import base list sets strings gmap.
From S2P Require Import Prelude GoStrings GoNet Auth Wildcard Certloader Flags TlsConfig Dialer.
From S2P Require Import Fuse Proxy Status Signals Main System Lifecycle.

Section Sessions.
Context `{L : CertLibs} `{X : X509Libs} `{PP : ProxyProto}.

(** ** State *)

(** A call of [dialWithDialer] by a handler: its threads, and the certificates the
    backend presented in a handshake that succeeded. *)
Record attempt : Type := Attempt {
  at_dialing : dialing;
  at_peer : option (list Certificate)
}.

(** Per connection (its index): the dialing of its backend, and the certificate
    its client was offered in a handshake that succeeded. *)
Record sessions : Type := Sessions {
  x_sys : system;
  x_dials : gmap nat attempt;
  x_offers : gmap nat tls_certificate
}.

(** How the process was started: what [run] set up, the network it listens on, the
    configuration of the TLS listener if there is one, and the dialer. *)
Record wiring : Type := Wiring {
  wi_setup : setup;
  wi_network : string;
  wi_tls : option Config;
  wi_dial : dial_func
}.

Definition wiring_of (pl : platform) (f : Flags) (r : running) : wiring :=
  Wiring (setup_of pl f r) (r_network r) (r_tls r) (r_dial r).

Definition sessions_start (w : wiring) (st : state) : sessions :=
  Sessions (start (wi_setup w) st) ∅ ∅.

(** ** Handshakes *)

(** The dynamic type of a plain connection. *)
Definition kind_of (network : string) : kind :=
  if String.eqb network "unix" then UnixConn else TCPConn.

(** [tls.NewListener] wraps what the listener accepts. *)
Definition accepted_kind (w : wiring) : kind :=
  match wi_tls w with Some _ => TLSConn | None => kind_of (wi_network w) end.

(** The certificate [crypto/tls] gets from the callback of the configuration. *)
Definition offered (cfg : Config) (st : state) : option tls_certificate :=
  match cfg_GetCertificate cfg with
  | Some c =>
    match (GetCertificate c st).1 with
    | Ret (Some i) => heap st !! i
    | _ => None
    end
  | None => None
  end.

(** The server's side of a handshake with a client that presents [certs]. *)
Definition server_handshake (cfg : Config) (certs : list Certificate) (st : state) :
    outcome string tls_certificate :=
  match offered cfg st with
  | None => Err "tls: no certificates configured"
  | Some cert => server_authenticates cfg certs;; Ret cert
  end.

(** ** Steps *)

(** The steps of the process whose outcome does not depend on a configuration: the
    accepted connections have the type of the listener, a plain backend that of
    its network; handshakes and TLS backends have steps of their own. *)
Definition free_step (w : wiring) (c : sys_choice) : bool :=
  match c with
  | ProxySteps (AcceptReturns k _ _) => bool_decide (k = accepted_kind w)
  | ProxySteps (Handles _ (HandshakeAnswers _ _ _)) =>
    match wi_tls w with Some _ => false | None => true end
  | ProxySteps (Handles _ (DialAnswers r)) =>
    match wi_dial w, r with
    | DialTimeout network _ _, inl k => bool_decide (k = kind_of network)
    | DialTimeout _ _ _, inr _ => true
    | DialTLS _ _ _, _ => false
    end
  | _ => true
  end.

Definition step_sys (w : wiring) (c : sys_choice) (x : sessions) : option sessions :=
  s ← sys_step (wi_setup w) c (x_sys x);
  Some (Sessions s (x_dials x) (x_offers x)).

(** A panic in a handler's thread, or in one of its dialing, ends the process. *)
Definition panics (x : sessions) : sessions :=
  Sessions (exit_with Panicked (x_sys x)) (x_dials x) (x_offers x).

Definition answer_handshake (i : nat) (deadline handshake clear : option net_error) : sys_choice :=
  ProxySteps (Handles i (HandshakeAnswers deadline handshake clear)).

(** The handshake of connection [i]: [deadline] and [clear] are the answers of the
    two [SetDeadline], [net] an error of the network (or the deadline) before the
    handshake is over. *)
Definition client_handshakes (w : wiring) (i : nat) (deadline net clear : option net_error)
    (certs : list Certificate) (x : sessions) : option sessions :=
  match wi_tls w with
  | None => None
  | Some cfg =>
    match deadline, net, server_handshake cfg certs (s_cert (x_sys x)) with
    | Some e, _, _ => step_sys w (answer_handshake i (Some e) None None) x
    | None, Some e, _ => step_sys w (answer_handshake i None (Some e) clear) x
    | None, None, Err e => step_sys w (answer_handshake i None (Some (NetError e false)) clear) x
    | None, None, Panic => x' ← step_sys w (answer_handshake i None None clear) x; Some (panics x)
    | None, None, Ret cert =>
      x' ← step_sys w (answer_handshake i None None clear) x;
      Some (Sessions (x_sys x') (x_dials x') (<[i := cert]> (x_offers x')))
    end
  end.

(** The dialing of connection [i]: begun when the handler calls the dialer; its
    threads go on after the call has returned. *)
Definition attempt_of (x : sessions) (i : nat) : option attempt :=
  match x_dials x !! i with
  | Some a => Some a
  | None =>
    h ← conns (s_proxy (x_sys x)) !! i;
    if bool_decide (h_pc h = AtDial) then Some (Attempt dial_start None) else None
  end.

Definition dial_thread (c : dial_choice) : bool :=
  match c with HandshakeReturns _ => false | _ => true end.

Definition set_dial (i : nat) (a : attempt) (x : sessions) : sessions :=
  Sessions (x_sys x) (<[i := a]> (x_dials x)) (x_offers x).

Definition alive (x : sessions) : bool := match s_exit (x_sys x) with None => true | Some _ => false end.

Inductive choice : Type :=
  | Free (c : sys_choice)
  | ClientHandshakes (i : nat) (deadline net clear : option net_error) (certs : list Certificate)
  | DialerSteps (i : nat) (c : dial_choice)
  | BackendHandshakes (i : nat) (net : option string) (certs : list Certificate)
  | DialerReturns (i : nat).

Definition step (w : wiring) (c : choice) (x : sessions) : option sessions :=
  match c with
  | Free c => if free_step w c then step_sys w c x else None
  | ClientHandshakes i deadline net clear certs => client_handshakes w i deadline net clear certs x
  | DialerSteps i c =>
    match wi_dial w with
    | DialTLS _ _ _ =>
      if alive x && dial_thread c
      then a ← attempt_of x i; s ← dial_step c (at_dialing a);
           Some (set_dial i (Attempt s (at_peer a)) x)
      else None
    | DialTimeout _ _ _ => None
    end
  | BackendHandshakes i net certs =>
    match wi_dial w with
    | DialTLS d _ _ =>
      if alive x then
        a ← attempt_of x i;
        match net, client_authenticates (d_config d) certs with
        | Some e, _ => s ← dial_step (HandshakeReturns (Some e)) (at_dialing a);
                       Some (set_dial i (Attempt s (at_peer a)) x)
        | None, Err e => s ← dial_step (HandshakeReturns (Some e)) (at_dialing a);
                         Some (set_dial i (Attempt s (at_peer a)) x)
        | None, Ret _ => s ← dial_step (HandshakeReturns None) (at_dialing a);
                         Some (set_dial i (Attempt s (Some certs)) x)
        | None, Panic => s ← dial_step (HandshakeReturns None) (at_dialing a); Some (panics x)
        end
      else None
    | DialTimeout _ _ _ => None
    end
  | DialerReturns i =>
    a ← x_dials x !! i;
    match pc (at_dialing a) with
    | Returned r =>
      step_sys w (ProxySteps (Handles i (DialAnswers
        match r with None => inl TLSConn | Some e => inr (Error e) end))) x
    | _ => None
    end
  end.

(** ** An instance of [System] *)

(** The configurations do not panic on what a peer presents. *)
Definition quiet_wiring (w : wiring) : Prop :=
  (forall cfg certs, wi_tls w = Some cfg -> server_authenticates cfg certs <> Panic) /\
  (forall d n a certs, wi_dial w = DialTLS d n a -> client_authenticates (d_config d) certs <> Panic).

(** The choice of [System] that a step makes, if it makes one. *)
Definition makes (c : choice) (sc : sys_choice) : Prop :=
  match c with
  | Free c => sc = c
  | ClientHandshakes i _ _ _ _ => exists d h cl, sc = answer_handshake i d h cl
  | DialerReturns i => exists r, sc = ProxySteps (Handles i (DialAnswers r))
  | DialerSteps _ _ | BackendHandshakes _ _ _ => False
  end.

Lemma step_sys_inv w c x x' : step_sys w c x = Some x' ->
  sys_step (wi_setup w) c (x_sys x) = Some (x_sys x') /\ x_dials x' = x_dials x /\
  x_offers x' = x_offers x.
Proof. unfold step_sys. destruct (sys_step _ c _); [|done]. by intros [= <-]. Qed.

Lemma server_handshake_quiet cfg certs st :
  server_authenticates cfg certs <> Panic -> server_handshake cfg certs st <> Panic.
Proof.
  unfold server_handshake. intros H. destruct (offered cfg st); [|done].
  by destruct (server_authenticates cfg certs).
Qed.

(** A handshake of a client is a step of its handler; it succeeds only with a
    certificate to offer. *)
Lemma client_handshakes_inv w i d n cl certs x x' :
  quiet_wiring w -> client_handshakes w i d n cl certs x = Some x' ->
  exists cfg hs, wi_tls w = Some cfg /\
    sys_step (wi_setup w) (answer_handshake i d hs (match d with Some _ => None | None => cl end))
      (x_sys x) = Some (x_sys x') /\ x_dials x' = x_dials x /\
    ((d <> None \/ hs <> None) /\ x_offers x' = x_offers x \/
     exists cert, offered cfg (s_cert (x_sys x)) = Some cert /\
       x_offers x' = <[i := cert]> (x_offers x)).
Proof.
  intros [Hq _] Hs. unfold client_handshakes in Hs. destruct (wi_tls w) as [cfg|]; [|done].
  pose proof (server_handshake_quiet cfg certs (s_cert (x_sys x)) (Hq cfg certs eq_refl)) as Hp.
  exists cfg. destruct d as [e|].
  { exists None. apply step_sys_inv in Hs as (H1 & H2 & H3). repeat (split; [done|]). by left; auto. }
  destruct n as [e|].
  { exists (Some e). apply step_sys_inv in Hs as (H1 & H2 & H3). repeat (split; [done|]). by left; auto. }
  destruct (server_handshake cfg certs _) as [cert|e|] eqn:E; [| |done].
  - destruct (step_sys w _ x) as [x1|] eqn:E1; [|done]. injection Hs as <-.
    apply step_sys_inv in E1 as (H1 & H2 & H3). exists None. simpl. repeat (split; [done|]).
    right. exists cert. rewrite H3. split; [|done]. unfold server_handshake in E.
    destruct (offered cfg _) as [cert'|]; [|done].
    destruct (server_authenticates cfg certs); [|done..]. simpl in E. by injection E as ->.
  - apply step_sys_inv in Hs as (H1 & H2 & H3). exists (Some (NetError e false)).
    repeat (split; [done|]). by left; auto.
Qed.

(** The dialing of a backend leaves the rest alone. *)
Lemma dialing_inv w c x x' :
  quiet_wiring w -> (forall i, c <> DialerReturns i) -> (forall c', c <> Free c') ->
  (forall i d n cl certs, c <> ClientHandshakes i d n cl certs) -> step w c x = Some x' ->
  exists d n a i at0 at1 dc, wi_dial w = DialTLS d n a /\ attempt_of x i = Some at0 /\
    x' = set_dial i at1 x /\ dial_step dc (at_dialing at0) = Some (at_dialing at1) /\
    ((dc = HandshakeReturns None /\ exists certs, at_peer at1 = Some certs /\
        client_authenticates (d_config d) certs = Ret ()) \/
     (dc <> HandshakeReturns None /\ at_peer at1 = at_peer at0)).
Proof.
  intros [_ Hq] H1 H2 H3 Hs. destruct c as [c|i d n cl certs|i c|i net certs|i]; unfold step in Hs;
    [by destruct (H2 c)|by destruct (H3 i d n cl certs)| | |by destruct (H1 i)].
  - destruct (wi_dial w) as [|d n a] eqn:Ed; [done|].
    destruct (alive x && dial_thread c) eqn:Ec; [|done]. bool_prop.
    destruct (attempt_of x i) as [at0|] eqn:Ea; [|done]. cbn [mbind option_bind] in Hs.
    destruct (dial_step c (at_dialing at0)) as [s|] eqn:Es; [|done]. injection Hs as <-.
    exists d, n, a, i, at0, (Attempt s (at_peer at0)), c. repeat (split; [done|]).
    right. split; [by destruct c|done].
  - destruct (wi_dial w) as [|d n a] eqn:Ed; [done|]. destruct (alive x); [|done].
    destruct (attempt_of x i) as [at0|] eqn:Ea; [|done]. cbn [mbind option_bind] in Hs.
    specialize (Hq d n a certs eq_refl).
    assert (Hfail : forall e s, dial_step (HandshakeReturns (Some e)) (at_dialing at0) = Some s ->
      exists dc, dial_step dc (at_dialing at0) = Some s /\ dc <> HandshakeReturns None)
      by (intros e s Hs'; by exists (HandshakeReturns (Some e))).
    destruct net as [e|]; [|destruct (client_authenticates _ certs) as [[]|e|] eqn:Ec; [| |done]];
      (match type of Hs with context [dial_step ?c ?s] =>
         destruct (dial_step c s) as [s'|] eqn:Es; [|done] end); injection Hs as <-.
    + destruct (Hfail _ _ Es) as (dc & Hdc & Hne).
      exists d, n, a, i, at0, (Attempt s' (at_peer at0)), dc. repeat (split; [done|]). by right.
    + exists d, n, a, i, at0, (Attempt s' (Some certs)), (HandshakeReturns None).
      repeat (split; [done|]). left. split; [done|]. by exists certs.
    + destruct (Hfail _ _ Es) as (dc & Hdc & Hne).
      exists d, n, a, i, at0, (Attempt s' (at_peer at0)), dc. repeat (split; [done|]). by right.
Qed.

(** Every step is one of [System] or leaves the process alone. *)
Lemma step_refines w c x x' : quiet_wiring w -> step w c x = Some x' ->
  x_sys x' = x_sys x \/
  exists sc, makes c sc /\ sys_step (wi_setup w) sc (x_sys x) = Some (x_sys x').
Proof.
  intros Hq Hs. destruct c as [c|i d n cl certs|i c|i net certs|i].
  - simpl in Hs. destruct (free_step w c); [|done]. apply step_sys_inv in Hs as [H _]. right. by exists c.
  - destruct (client_handshakes_inv _ _ _ _ _ _ _ _ Hq Hs) as (cfg & hs & _ & H & _).
    right. eexists. split; [|exact H]. by eexists _, _, _.
  - apply dialing_inv in Hs as (? & ? & ? & ? & ? & ? & ? & _ & _ & -> & _); [by left|done..].
  - apply dialing_inv in Hs as (? & ? & ? & ? & ? & ? & ? & _ & _ & -> & _); [by left|done..].
  - simpl in Hs. destruct (x_dials x !! i) as [a|]; [|done]. simpl in Hs.
    destruct (pc (at_dialing a)) as [| |r]; [done..|]. apply step_sys_inv in Hs as [H _].
    right. eexists. split; [|exact H]. by eexists.
Qed.

(** What the peers of connection [i] do in a step. *)
Definition peer_input (f : pipe_choice -> list Z * bool) (i : nat) (c : choice) : list Z * bool :=
  match c with
  | Free (ProxySteps (Handles j hc)) => if Nat.eqb i j then handler_input f hc else ([], false)
  | _ => ([], false)
  end.

(** Where a handler goes. *)
Lemma step_forward w c x x' i h : quiet_wiring w -> step w c x = Some x' ->
  conns (s_proxy (x_sys x)) !! i = Some h ->
  exists h', conns (s_proxy (x_sys x')) !! i = Some h' /\
  (h' = h \/ exists hc p1, handler_step hc h (s_proxy (x_sys x)) = Some (h', p1) /\
     forall f, handler_input f hc = peer_input f i c).
Proof.
  intros Hq Hs Hi. destruct (step_refines _ _ _ _ Hq Hs) as [->|(sc & Hm & Hsc)]; [by exists h; auto|].
  destruct (sys_step_forward _ _ _ _ _ _ Hsc Hi) as (h' & Hi' & [->|(hc & p1 & -> & Hh)]); [by exists h; auto|].
  exists h'. split; [done|]. right. exists hc, p1. split; [done|]. intros f.
  destruct c; simpl in Hm; try done.
  - rewrite <- Hm. simpl. by rewrite Nat.eqb_refl.
  - by destruct Hm as (d & hs & cl & [= -> ->]).
  - by destruct Hm as (r & [= -> ->]).
Qed.

Lemma session_sys_inv w c x x' : quiet_wiring w -> step w c x = Some x' ->
  sys_inv (wi_setup w) (x_sys x) -> sys_inv (wi_setup w) (x_sys x').
Proof.
  intros Hq Hs Hi. destruct (step_refines _ _ _ _ Hq Hs) as [->|(sc & _ & Hsc)]; [done|].
  by eapply sys_inv_step.
Qed.

(** A step of a process on the streams of connection [i]. *)
Lemma step_streams w c x x' i h : quiet_wiring w -> sys_inv (wi_setup w) (x_sys x) ->
  step w c x = Some x' -> conns (s_proxy (x_sys x)) !! i = Some h ->
  exists h', conns (s_proxy (x_sys x')) !! i = Some h' /\
  grows (h_conn h) (h_conn h') /\
  (h' = h \/ receives (peer_input client_input i c) (h_conn h) (h_conn h')) /\
  match h_backend h, h_backend h' with
  | Some back, Some back' =>
      grows back back' /\ (h' = h \/ receives (peer_input backend_input i c) back back')
  | Some _, None => False
  | None, Some back' => exists k, back' = new_conn k []
  | None, None => True
  end.
Proof.
  intros Hq Hinv Hs Hi. destruct (step_forward _ _ _ _ _ _ Hq Hs Hi) as (h' & Hi' & Hc).
  exists h'. split; [done|]. destruct Hc as [->|(hc & p1 & Hh & Hin)].
  { split; [done|]. split; [by left|]. destruct (h_backend h); [|done]. by split; [|left]. }
  apply inv_proxy in Hinv. apply proxy_inv_steps in Hinv as [_ _ _ _ _ _ I7 _ _ _ _ _].
  pose proof (Forall_lookup_1 _ _ _ _ I7 Hi) as Hhi.
  destruct (handler_step_streams _ _ _ _ _ _ Hhi Hh) as (G & R & B). rewrite !Hin in *.
  split; [done|]. split; [by right|]. destruct (h_backend h), (h_backend h'); try done.
  destruct B as [B1 B2]. split; [done|by right].
Qed.

(** What the environment must respect, as in [Lifecycle]. *)
Definition tame_session (w : wiring) (c : choice) : Prop :=
  match c with Free c => tame (wi_setup w) c | _ => True end.

Lemma makes_tame w c sc : tame_session w c -> makes c sc -> tame (wi_setup w) sc.
Proof. destruct c; simpl; try done; intros Ht H; [by subst|naive_solver..]. Qed.

Lemma all_inv_session `{!CertLibsOk L} w k c x x' :
  ctx_cert (u_context (wi_setup w)) = Some k -> quiet_wiring w -> tame_session w c ->
  all_inv (wi_setup w) (x_sys x) -> step w c x = Some x' -> all_inv (wi_setup w) (x_sys x').
Proof.
  intros Hk Hq Ht Hi Hs. destruct (step_refines _ _ _ _ Hq Hs) as [->|(sc & Hm & Hsc)]; [done|].
  eapply all_inv_step; [exact Hk|by eapply makes_tame|done|done].
Qed.

(** ** Whom a client talks to *)

(** A backend that has been authenticated by the dialer's configuration. *)
Definition authenticated (d : mtlsDialer Dialer) (a : attempt) : Prop := exists certs,
  at_peer a = Some certs /\ client_authenticates (d_config d) certs = Ret ().

Record client_inv (d : mtlsDialer Dialer) (x : sessions) : Prop := {
  inv_attempts : forall i a, x_dials x !! i = Some a -> dial_inv (at_dialing a) /\
    (hs (at_dialing a) = Dialer.Finished None -> authenticated d a);
  inv_backends : forall i h b, conns (s_proxy (x_sys x)) !! i = Some h -> h_backend h = Some b ->
    c_kind b = TLSConn /\ exists a, x_dials x !! i = Some a /\
      pc (at_dialing a) = Returned None /\ authenticated d a
}.

(** A call of the dialer that has returned stays so. *)
Lemma returned_stays c s s' r : dial_step c s = Some s' -> pc s = Returned r -> pc s' = Returned r.
Proof.
  intros Hs Hp. destruct c as [e| |e|]; simpl in Hs; rewrite ?Hp in Hs; try done.
  - destruct (timer s && _); [|done]. by injection Hs as <-.
  - destruct (hs s); try done. destruct (_ <? _); [|done]. by injection Hs as <-.
Qed.

Lemma dial_inv_step c s s' : dial_inv s -> dial_step c s = Some s' -> dial_inv s'.
Proof.
  destruct c as [r| |r|]; eauto using dial_inv_dial, dial_inv_timer, dial_inv_handshake,
    dial_inv_receive.
Qed.

(** Only the handshake itself makes it succeed. *)
Lemma dial_step_success c s s' : dial_step c s = Some s' -> hs s' = Dialer.Finished None ->
  c = HandshakeReturns None \/ hs s = Dialer.Finished None.
Proof.
  intros Hs Hh. destruct c as [r| |r|]; simpl in Hs.
  - destruct (pc s), r; try done; injection Hs as <-; [by right|done].
  - destruct (timer s && _); [|done]. injection Hs as <-. auto.
  - destruct (hs s) eqn:E; try done. destruct (_ <? _); [|done]. injection Hs as <-.
    simpl in Hh. destruct r; [done|by left].
  - destruct (pc s), (errChannel s) as [|[]]; try done; injection Hs as <-; auto.
Qed.

(** A step of the process that brings no backend keeps the invariant. *)
Lemma client_inv_sys w d sc x x' :
  client_inv d x -> sys_step (wi_setup w) sc (x_sys x) = Some (x_sys x') ->
  x_dials x' = x_dials x ->
  (forall i k, sc = ProxySteps (Handles i (DialAnswers (inl k))) -> k = TLSConn /\
     exists a, x_dials x !! i = Some a /\ pc (at_dialing a) = Returned None /\ authenticated d a) ->
  client_inv d x'.
Proof.
  intros [C1 C2] Hs Ed Hk. split; rewrite Ed; [done|]. intros i h' b' Hi Hb.
  destruct (sys_step_conns _ _ _ _ _ _ Hs Hi)
    as [Ho|[(k & r & l & _ & -> & _)|(hc & h & p1 & -> & Ho & Hh)]]; [by eapply C2|done|].
  destruct (handler_step_conns _ _ _ _ _ Hh) as [_ Hc]. rewrite Hb in Hc.
  destruct Hc as [(b & Hb0 & ->)|[_ ->]]; [by eapply C2|].
  by destruct (Hk _ _ eq_refl) as [-> ?].
Qed.

Lemma client_inv_dial d x i at0 at1 dc :
  client_inv d x -> attempt_of x i = Some at0 ->
  dial_step dc (at_dialing at0) = Some (at_dialing at1) ->
  (dc = HandshakeReturns None /\ authenticated d at1) \/
    (dc <> HandshakeReturns None /\ at_peer at1 = at_peer at0) ->
  client_inv d (set_dial i at1 x).
Proof.
  intros [C1 C2] Ha Hs Hcase. unfold attempt_of in Ha.
  assert (Hinv : dial_inv (at_dialing at0) /\
    (hs (at_dialing at0) = Dialer.Finished None -> authenticated d at0) /\
    (forall a, x_dials x !! i = Some a -> authenticated d a -> authenticated d at0)).
  { destruct (x_dials x !! i) as [a|] eqn:E.
    - injection Ha as ->. destruct (C1 _ _ E) as [Hi Hf]. split; [done|]. split; [done|].
      by intros a [= <-].
    - destruct (conns _ !! i) as [h|]; [|done]. simpl in Ha. case_bool_decide; [|done].
      injection Ha as <-. split; [apply dial_inv_start|]. done. }
  destruct Hinv as (Hi & Hf & Hold).
  assert (Hnew : forall a, x_dials x !! i = Some a -> authenticated d a -> authenticated d at1).
  { intros a Hl Hau. destruct Hcase as [[_ H]|[_ E]]; [done|].
    destruct (Hold a Hl Hau) as (certs & H1 & H2). exists certs. by rewrite E. }
  split; simpl.
  - intros j a Hj. destruct (decide (j = i)) as [->|Hne];
      [|rewrite lookup_insert_ne in Hj by done; by eapply C1].
    rewrite lookup_insert_eq in Hj. injection Hj as <-. split; [by eapply dial_inv_step|].
    intros Hfin. destruct Hcase as [[_ H]|[Hne E]]; [done|].
    destruct (dial_step_success _ _ _ Hs Hfin) as [?|Hfin0]; [done|].
    destruct (Hf Hfin0) as (certs & H1 & H2). exists certs. by rewrite E.
  - intros j h b Hj Hb. destruct (C2 _ _ _ Hj Hb) as (Hk & a & Ha' & Hret & Hau). split; [done|].
    destruct (decide (j = i)) as [->|Hne].
    + exists at1. rewrite lookup_insert_eq. split; [done|]. split; [|by eapply Hnew].
      rewrite Ha' in Ha. injection Ha as <-. by eapply returned_stays.
    + exists a. by rewrite lookup_insert_ne.
Qed.

Lemma client_inv_step w d n a c x x' :
  quiet_wiring w -> wi_dial w = DialTLS d n a -> client_inv d x -> step w c x = Some x' ->
  client_inv d x'.
Proof.
  intros Hq Hd Hi Hs. destruct c as [c|i dl net cl certs|i c|i net certs|i].
  - simpl in Hs. destruct (free_step w c) eqn:Ef; [|done]. apply step_sys_inv in Hs as (Hs & Ed & _).
    eapply client_inv_sys; [done..|]. intros i k ->. simpl in Ef. by rewrite Hd in Ef.
  - destruct (client_handshakes_inv _ _ _ _ _ _ _ _ Hq Hs) as (cfg & h & _ & Hsc & Ed & _).
    eapply client_inv_sys; [done..|]. by intros j k [=].
  - apply dialing_inv in Hs as (d' & n' & a' & j & at0 & at1 & dc & Hd' & Ha & -> & Hst & Hcase); [|done..].
    rewrite Hd in Hd'. injection Hd' as <- <- <-. by eapply client_inv_dial.
  - apply dialing_inv in Hs as (d' & n' & a' & j & at0 & at1 & dc & Hd' & Ha & -> & Hst & Hcase); [|done..].
    rewrite Hd in Hd'. injection Hd' as <- <- <-. by eapply client_inv_dial.
  - simpl in Hs. destruct (x_dials x !! i) as [at0|] eqn:Ea; [|done]. simpl in Hs.
    destruct (pc (at_dialing at0)) as [| |r] eqn:Ep; [done..|].
    apply step_sys_inv in Hs as (Hs & Ed & _). eapply client_inv_sys; [done..|].
    intros j k [= -> Hr]. destruct r as [e|]; [done|]. injection Hr as <-. split; [done|].
    destruct Hi as [C1 _]. destruct (C1 _ _ Ea) as [Hinv Hf]. exists at0. split; [done|]. split; [done|].
    apply Hf. destruct Hinv as [_ _ Hc _ _]. rewrite Ep in Hc. by destruct Hc.
Qed.

Lemma client_inv_start w d st : client_inv d (sessions_start w st).
Proof.
  split; simpl; [intros i a; by rewrite lookup_empty|]. by destruct (u_proxyProtocol (wi_setup w)).
Qed.

(** ** Whom a server serves *)

Record server_inv (x : sessions) : Prop := {
  inv_tls : kinds_ok (fun k => k = TLSConn) (s_proxy (x_sys x));
  inv_offers : forall i cert, x_offers x !! i = Some cert ->
    complete cert /\ exists n, heap (s_cert (x_sys x)) !! n = Some cert;
  inv_served : forall i h, conns (s_proxy (x_sys x)) !! i = Some h ->
    h_pc h = AtDial \/ is_Some (h_backend h) -> is_Some (x_offers x !! i)
}.

(** A TLS connection gets past its handshake only without an error. *)
Lemma handshake_passes hc h p h' p' : handler_step hc h p = Some (h', p') ->
  h_pc h' = AtDial -> c_kind (h_conn h) = TLSConn -> hc = HandshakeAnswers None None None.
Proof.
  intros Hs Hp Hk. unfold handler_step in Hs. destruct (h_pc h) eqn:E, hc; try done;
    try (injection Hs as <- <-; done).
  - rewrite Hk in Hs. destruct deadline as [e|], handshake as [e'|], clear as [e''|]; simpl in Hs;
      try (destruct (e_timeout _)); injection Hs as <- <-; done.
  - destruct r; injection Hs as <- <-; [simpl in Hp|done]. by destruct (proxyProtocol p).
  - destruct (getProxyProtoHeaderFor _ _), (h_backend h), r; injection Hs as <- <-;
      simpl in Hp; congruence.
  - destruct (h_backend h); [|done]. simpl in Hs. destruct (pipe_step _ _); [|done].
    injection Hs as <- <-. simpl in Hp. congruence.
  - destruct (h_backend h); [|done]. simpl in Hs. destruct (fuse_returns _); [|done].
    by injection Hs as <- <-.
  - injection Hs as <- <-. simpl in Hp. by destruct (must_wake _).
Qed.

Lemma offered_current cfg st cert : offered cfg st = Some cert -> current st = Some cert.
Proof.
  unfold offered, current. destruct (cfg_GetCertificate cfg) as [c|]; [|done].
  rewrite get_cached. simpl. by destruct (cached st).
Qed.

Lemma current_in_heap st cert : current st = Some cert -> exists n, heap st !! n = Some cert.
Proof. unfold current. destruct (cached st) as [n|]; [|done]. intros H. by exists n. Qed.

(** A step of the process, with what became of the offers. *)
Lemma server_inv_sys w sc x x' :
  server_inv x -> sys_step (wi_setup w) sc (x_sys x) = Some (x_sys x') ->
  (forall k r l, sc = ProxySteps (AcceptReturns k r l) -> k = TLSConn) ->
  (forall i cert, x_offers x' !! i = Some cert -> x_offers x !! i = Some cert \/
     complete cert /\ exists n, heap (s_cert (x_sys x)) !! n = Some cert) ->
  (forall i, is_Some (x_offers x !! i) -> is_Some (x_offers x' !! i)) ->
  (forall i, sc = answer_handshake i None None None -> is_Some (x_offers x' !! i)) ->
  server_inv x'.
Proof.
  intros [S1 S2 S3] Hs Hk Hnew Hold Hh.
  assert (Hheap : forall cert, (exists n, heap (s_cert (x_sys x)) !! n = Some cert) ->
    exists n, heap (s_cert (x_sys x')) !! n = Some cert).
  { intros cert [n Hn]. exists n. eapply prefix_lookup_Some; [exact Hn|by eapply sys_step_heap]. }
  split.
  - destruct (sys_step_proxy _ _ _ _ Hs) as [E|(pc & Hp & Hc)]; [by rewrite E|].
    eapply kinds_ok_step; [|exact S1|exact Hp]. destruct pc; try done.
    destruct Hc as [->|Hc]; [by eapply Hk|done].
  - intros i cert Hi. destruct (Hnew i cert Hi) as [Ho|[Hc Hn]]; [|by auto].
    destruct (S2 i cert Ho) as [Hc Hn]. by auto.
  - intros i h' Hi Hp. destruct (sys_step_conns _ _ _ _ _ _ Hs Hi)
      as [Ho|[(k & r & l & _ & -> & _)|(hc & h & p1 & Esc & Ho & Hst)]].
    + apply Hold. by eapply S3.
    + by destruct Hp as [|[]].
    + assert (Hkind : c_kind (h_conn h) = TLSConn) by (by apply (Forall_lookup_1 _ _ _ _ (proj1 S1) Ho)).
      destruct Hp as [Hp|[b' Hb]].
      * apply (handshake_passes _ _ _ _ _ Hst Hp) in Hkind as ->. by apply Hh.
      * destruct (handler_step_conns _ _ _ _ _ Hst) as [_ Hc]. rewrite Hb in Hc. apply Hold, (S3 i h); [done|].
        destruct Hc as [(b & -> & _)|[-> _]]; eauto.
Qed.

Lemma server_inv_step `{!CertLibsOk L} w cfg c x x' :
  quiet_wiring w -> wi_tls w = Some cfg -> (exists cert, current (s_cert (x_sys x)) = Some cert /\ complete cert) ->
  server_inv x -> step w c x = Some x' -> server_inv x'.
Proof.
  intros Hq Ht (cur & Hcur & Hok) Hi Hs.
  assert (Hsame : forall y, x_offers y = x_offers x ->
    (forall i cert, x_offers y !! i = Some cert -> x_offers x !! i = Some cert \/
       complete cert /\ exists n, heap (s_cert (x_sys x)) !! n = Some cert) /\
    (forall i, is_Some (x_offers x !! i) -> is_Some (x_offers y !! i))).
  { intros y ->. split; auto. }
  destruct c as [c|i dl net cl certs|i c|i net certs|i].
  - simpl in Hs. destruct (free_step w c) eqn:Ef; [|done].
    apply step_sys_inv in Hs as (Hs & _ & Eo). destruct (Hsame _ Eo).
    eapply server_inv_sys; [done|done| |done|done|].
    + intros k r l ->. unfold free_step, accepted_kind in Ef. rewrite Ht in Ef. by bool_prop.
    + intros i ->. unfold free_step in Ef. simpl in Ef. by rewrite Ht in Ef.
  - destruct (client_handshakes_inv _ _ _ _ _ _ _ _ Hq Hs) as (cfg' & h & Ht' & Hsc & _ & Hcase).
    rewrite Ht in Ht'. injection Ht' as <-.
    destruct Hcase as [[Hne Eo]|(cert & Hof & Eo)].
    + destruct (Hsame _ Eo). eapply server_inv_sys; [done..|].
      intros j [= <- -> -> _]. by destruct Hne.
    + apply offered_current in Hof. rewrite Hcur in Hof. injection Hof as <-.
      eapply server_inv_sys; [done|done| | | |]; rewrite ?Eo; [done|..].
      * intros j cert Hj. destruct (decide (j = i)) as [->|Hne];
          [rewrite lookup_insert_eq in Hj|rewrite lookup_insert_ne in Hj by done; by left].
        injection Hj as <-. right. split; [done|by apply current_in_heap].
      * intros j Hj. destruct (decide (j = i)) as [->|Hne];
          [rewrite lookup_insert_eq; by eexists|by rewrite lookup_insert_ne].
      * intros j [= <- _ _ _]. rewrite lookup_insert_eq. by eexists.
  - apply dialing_inv in Hs as (d & n & a & j & at0 & at1 & dc & _ & _ & -> & _); [|done..]. by destruct Hi.
  - apply dialing_inv in Hs as (d & n & a & j & at0 & at1 & dc & _ & _ & -> & _); [|done..]. by destruct Hi.
  - simpl in Hs. destruct (x_dials x !! i) as [at0|]; [|done]. simpl in Hs.
    destruct (pc (at_dialing at0)) as [| |r]; [done..|].
    apply step_sys_inv in Hs as (Hs & _ & Eo). destruct (Hsame _ Eo).
    by eapply server_inv_sys.
Qed.

Lemma server_inv_start w st : server_inv (sessions_start w st).
Proof.
  split; simpl; [|intros i c; by rewrite lookup_empty|]; by destruct (u_proxyProtocol (wi_setup w));
    repeat constructor.
Qed.

(** ** Started processes *)

Lemma started_quiet `{!X509LibsOk X} pl b w f cmd st st' r :
  main_run pl b w f cmd st = (Ret r, st') -> quiet_wiring (wiring_of pl f r).
Proof.
  intros Hm. destruct cmd.
  - apply server_started in Hm as (c & cfg & _ & Ht & _ & _ & _ & Ha & (n & a & Hd & _) & _).
    split; simpl; [|intros; congruence]. intros cfg' certs E. rewrite Ht in E. injection E as <-.
    by rewrite Ha.
  - apply client_started in Hm as (cert & d & t & pool & uris & _ & Ht & _ & _ & _ & Hd & _ & _ & Ha).
    split; simpl; [intros; congruence|]. intros d' n a certs E. rewrite Hd in E. injection E as <- _ _.
    specialize (Ha certs). unfold client_accepts in Ha.
    destruct (String.eqb (expected_name f (t_host t)) ""); [by destruct Ha as [e ->]|]. rewrite Ha.
    pose proof (x509_Verify_ok pool ExtKeyUsageServerAuth (Some (expected_name f (t_host t))) certs) as Hv.
    destruct (x509_Verify _ _ _ _) as [chains|e|]; [|done|done]. cbn [mbind outcome_bind].
    by destruct (verify_never_panics (client_acl f uris) (map Raw certs) chains Hv) as [_ [->| ->]].
Qed.

Lemma started_cert_ok `{!CertLibsOk L} pl b w f cmd st st' r c :
  wf st -> keychain_ok st -> main_run pl b w f cmd st = (Ret r, st') ->
  ctx_cert (r_context r) = Some c -> cert_ok st'.
Proof.
  intros Hw Hk Hm Hc. apply (cert_ok_reload c st); [done..|]. destruct cmd.
  - apply server_started in Hm as (c' & cfg & Hc' & _ & _ & Hr & _). congruence.
  - apply client_started in Hm as (cert & d & t & pool & uris & <- & _ & _ & Hb & _).
    apply buildCertificate_loaded in Hb. by rewrite Hc in Hb.
Qed.

Lemma server_inv_run `{!CertLibsOk L} w k cfg st cs x :
  ctx_cert (u_context (wi_setup w)) = Some k -> quiet_wiring w -> wi_tls w = Some cfg ->
  cert_ok st -> Forall (tame_session w) cs -> run (step w) cs (sessions_start w st) = Some x ->
  server_inv x.
Proof.
  intros Hk Hq Ht Hok Htame Hr.
  apply (run_invariant (step w) (tame_session w)
    (fun x => all_inv (wi_setup w) (x_sys x) /\ server_inv x) cs) in Hr; [by destruct Hr| |done|].
  - intros c y y' Hc [Hi Hsi] Hs. split; [by eapply all_inv_session|].
    eapply server_inv_step; [exact Hq|exact Ht| |exact Hsi|exact Hs]. by destruct Hi as [_ [(_ & _ & H) _ _ _ _]].
  - split; [by apply all_inv_start|apply server_inv_start].
Qed.

(** What the connections of a running process carry. *)
Lemma session_carries w cs st x h : quiet_wiring w ->
  run (step w) cs (sessions_start w st) = Some x -> h ∈ conns (s_proxy (x_sys x)) ->
  carries (u_proxyProtocol (wi_setup w)) h.
Proof.
  intros Hq Hr Hh. assert (Hi : sys_inv (wi_setup w) (x_sys x)).
  { apply (run_invariant (step w) (fun _ => True) (fun x => sys_inv (wi_setup w) (x_sys x)) cs)
      with (s := sessions_start w st); [|by apply Forall_true|apply sys_inv_start|done].
    intros c y y' _ Hi Hs. by eapply session_sys_inv. }
  by eapply handlers_carry; [apply Hi|].
Qed.

(** ** Claims *)

(** C4. Whom a running client talks to: at any time, in every interleaving of
    connections, dialing threads, timers, signals, reloads and failures, a backend
    a connection has been given is a TLS connection that the connection's own
    dialing has returned, and the certificates its peer presented in the handshake
    of that dialing verify against the configured trust store for the
    expected host name (which is not empty), and the access control list built
    from the --verify flags admits them; what this peer has been sent is what the connection's own local
    client sent, cut off somewhere, and the local client was sent only what this
    peer sent. A connection without a backend has carried nothing: a timeout or a
    failed handshake leaks nothing. *)
Theorem client_talks_to_authorized_servers `{!X509LibsOk X} (pl : platform) (b : build) (w : world)
    (f : Flags) (st st' : state) (r : running) (cs : list choice) (x : sessions) (h : handler) :
  main_run pl b w f ClientCommand st = (Ret r, st') ->
  run (step (wiring_of pl f r)) cs (sessions_start (wiring_of pl f r) st') = Some x ->
  h ∈ conns (s_proxy (x_sys x)) ->
  (h_backend h = None -> outbox (h_conn h) = []) /\
  forall back, h_backend h = Some back ->
  c_kind back = TLSConn /\
  outbox back `prefix_of` arrived (h_conn h) /\ outbox (h_conn h) `prefix_of` arrived back /\
  exists i a certs, conns (s_proxy (x_sys x)) !! i = Some h /\ x_dials x !! i = Some a /\
    pc (at_dialing a) = Returned None /\ at_peer a = Some certs /\
  exists t pool uris chains,
    parseUnixOrTCPAddress w (clientForwardAddress f) = Ret t /\
    caBundle (files st) (caBundlePath f) = Ret pool /\ CompileList (clientAllowedURIs f) = Ret uris /\
    expected_name f (t_host t) <> "" /\
    x509_Verify pool ExtKeyUsageServerAuth (Some (expected_name f (t_host t))) certs = Ret chains /\
    VerifyPeerCertificateClient (client_acl f uris) (map Raw certs) chains = Ret ().
Proof.
  intros Hm Hr Hh. pose proof (started_quiet _ _ _ _ _ _ _ _ Hm) as Hq.
  pose proof (session_carries _ _ _ _ _ Hq Hr Hh) as Hs.
  apply client_started in Hm as (cert & d & t & pool & uris & _ & _ & Hpp & _ & Ht & Hd & Hp & Hu & Ha).
  simpl in Hs. rewrite Hpp in Hs. unfold carries in Hs.
  split; [intros Hb; rewrite Hb in Hs; by destruct Hs|].
  intros back Hb. rewrite Hb in Hs. destruct Hs as (S1 & S2 & _).
  assert (Hi : client_inv d x).
  { apply (run_invariant (step (wiring_of pl f r)) (fun _ => True) (client_inv d) cs)
      with (s := sessions_start (wiring_of pl f r) st'); auto using client_inv_start.
    - intros c y y' _. by eapply client_inv_step.
    - by apply Forall_true. }
  apply list_elem_of_lookup_1 in Hh as [i Hi'].
  destruct (inv_backends _ _ Hi i h back Hi' Hb) as (Hk & a & Hx & Hret & certs & Hpeer & Hc).
  split; [done|]. split; [done|]. split; [done|]. exists i, a, certs. do 4 (split; [done|]).
  apply (client_accepts_Ret _ _ _ _ _ _ (Ha certs)) in Hc as (Hn & chains & Hv & Hacl).
  by exists t, pool, uris, chains.
Qed.

(** C5. What a running server serves: at any time, in every interleaving, a
    connection that has been given a backend is a TLS connection whose handshake
    succeeded, and its client was offered a complete certificate that the server
    had published (reloads in between neither change nor remove it); what the
    dialer dials is the target of the flags, on this machine unless
    --unsafe-target is set. The backend is sent the proxy header of this very
    connection (if the flags ask for one) and then what the client sent, cut off
    somewhere, and the client what the backend sent. Plain connections and failed
    handshakes never reach the backend. *)
Theorem server_serves_tls_only `{!CertLibsOk L} `{!X509LibsOk X} (pl : platform) (b : build)
    (w : world) (f : Flags) (st st' : state) (r : running) (cs : list choice) (x : sessions)
    (h : handler) (back : conn) :
  wf st -> keychain_ok st -> main_run pl b w f ServerCommand st = (Ret r, st') ->
  Forall (tame_session (wiring_of pl f r)) cs ->
  run (step (wiring_of pl f r)) cs (sessions_start (wiring_of pl f r) st') = Some x ->
  h ∈ conns (s_proxy (x_sys x)) -> h_backend h = Some back ->
  c_kind (h_conn h) = TLSConn /\
  (exists i cert n, conns (s_proxy (x_sys x)) !! i = Some h /\ x_offers x !! i = Some cert /\
     complete cert /\ heap (s_cert (x_sys x)) !! n = Some cert) /\
  outbox back `prefix_of` header_of (serverProxyProtocol f) h ++ arrived (h_conn h) /\
  outbox (h_conn h) `prefix_of` arrived back /\
  exists network address, r_dial r = DialTimeout network address (timeoutDuration f) /\
    (serverUnsafeTarget f = false -> local_target f network address).
Proof.
  intros Hw Hk Hm Ht Hr Hh Hb. pose proof (started_quiet _ _ _ _ _ _ _ _ Hm) as Hq.
  pose proof (session_carries _ _ _ _ _ Hq Hr Hh) as Hs.
  pose proof Hm as (c & cfg & Hc & Htls & _ & _ & Hpp & _ & Hd & _)%server_started.
  simpl in Hs. rewrite Hpp in Hs. unfold carries in Hs. rewrite Hb in Hs. destruct Hs as (C1 & C2 & _).
  assert (Hi : server_inv x).
  { eapply (server_inv_run (wiring_of pl f r) c cfg st'); [done..| |exact Ht|exact Hr].
    by eapply started_cert_ok. }
  destruct Hi as [S1 S2 S3]. apply list_elem_of_lookup_1 in Hh as [i Hi].
  split; [by apply (Forall_lookup_1 _ _ _ _ (proj1 S1) Hi)|].
  split; [|split; [by destruct (serverProxyProtocol f)|done]].
  destruct (S3 i h Hi) as [cert Hcert]; [right; by eexists|].
  destruct (S2 i cert Hcert) as [Hcomp [n Hn]]. by exists i, cert, n.
Qed.
End Sessions.

#[local] Existing Instance toy_header.

(** ** Witnesses *)

(** A started process, evaluated: what [run] returned and the state after it. *)
Definition toy_build : build := {| cgo := true; certstore := false |}.

Definition toy_main (cmd : command) : outcome string running * @state toy :=
  main_run (L := toy) (X := toy_x509) Unix toy_build toy_world (no_status toy_flags) cmd
    (toy_state "server").

Definition idle : running := {| r_network := "tcp"; r_address := ""; r_tls := None; r_unlink := false;
  r_proxy := New; r_dial := DialTimeout "tcp" "" 0; r_timeout := 0; r_status := None;
  r_metrics := []; r_context := toy_context |}.

Definition toy_running (cmd : command) : running :=
  match (toy_main cmd).1 with Ret r => r | _ => idle end.

Lemma toy_started cmd : toy_main cmd = (Ret (toy_running cmd), (toy_main cmd).2).
Proof.
  unfold toy_running. destruct (returns_Ret (fun _ => true) (toy_main cmd).1) as (r & E & _).
  - destruct cmd; vm_compute; reflexivity.
  - destruct (toy_main cmd) as [o st]. simpl in *. by rewrite E.
Qed.

Definition toy_wiring (cmd : command) : wiring := wiring_of Unix (no_status toy_flags) (toy_running cmd).

Definition session_after (cmd : command) (cs : list (@choice toy)) : @sessions toy :=
  default (sessions_start (toy_wiring cmd) (toy_main cmd).2)
    (run (step (X := toy_x509) (toy_wiring cmd)) cs (sessions_start (toy_wiring cmd) (toy_main cmd).2)).

Lemma runs_session cmd cs :
  match run (step (X := toy_x509) (toy_wiring cmd)) cs (sessions_start (toy_wiring cmd) (toy_main cmd).2)
  with Some _ => true | None => false end = true ->
  run (step (X := toy_x509) (toy_wiring cmd)) cs (sessions_start (toy_wiring cmd) (toy_main cmd).2)
  = Some (session_after cmd cs).
Proof. unfold session_after. by destruct (run _ cs _). Qed.

(** A connection of type [k] is accepted. *)
Definition arrives (k : kind) : list (@choice toy) :=
  repeat (Free MainSteps) 4 ++ Free (ProxySteps (AcceptReturns k there here))
  :: repeat (Free (ProxySteps AcceptorSteps)) 3.

(** A client forwards a local connection to its server; a server serves a client
    that has no certificate. *)
Definition client_day : list (@choice toy) :=
  arrives UnixConn ++ [Free (answer_handshake 0 None None None); DialerSteps 0 (DialReturns None);
    BackendHandshakes 0 None [toy_certificate "server"]; DialerSteps 0 CallerReceives;
    DialerReturns 0] ++
  map (fun c => Free (ProxySteps (Handles 0 c))) [HandlerSteps; HandlerSteps;
    PipeSteps (ClientSends [7%Z; 8%Z]); PipeSteps (Up (ReadSome 2)); PipeSteps (Up WriteAll)].

Definition server_day : list (@choice toy) :=
  arrives TLSConn ++ [ClientHandshakes 0 None None None [];
    Free (ProxySteps (Handles 0 (DialAnswers (inl TCPConn))))].

Lemma client_talks_to_authorized_servers_witness :
  exists h back, conns (s_proxy (x_sys (session_after ClientCommand client_day))) !! 0 = Some h /\
  h_backend h = Some back /\ outbox back = [7; 8]%Z /\ c_kind back = TLSConn.
Proof.
  destruct (conns (s_proxy (x_sys (session_after ClientCommand client_day))) !! 0) as [h|] eqn:E;
    [|vm_compute in E; discriminate E].
  assert (exists back, h_backend h = Some back /\ outbox back = [7; 8]%Z) as (back & Hb & Ho)
    by (vm_compute in E; injection E as <-; eexists; by split).
  exists h, back. split; [reflexivity|]. split; [exact Hb|]. split; [exact Ho|].
  refine (proj1 (proj2 (client_talks_to_authorized_servers (L := toy) (X := toy_x509) Unix toy_build
    toy_world (no_status toy_flags) (toy_state "server") (toy_main ClientCommand).2
    (toy_running ClientCommand) client_day _ h (toy_started _) (runs_session _ _ _) _) back Hb)).
  - vm_compute. reflexivity.
  - by eapply list_elem_of_lookup_2.
Defined.

Lemma server_serves_tls_only_witness :
  exists h back, conns (s_proxy (x_sys (session_after ServerCommand server_day))) !! 0 = Some h /\
  h_backend h = Some back /\ c_kind (h_conn h) = TLSConn.
Proof.
  destruct (conns (s_proxy (x_sys (session_after ServerCommand server_day))) !! 0) as [h|] eqn:E;
    [|vm_compute in E; discriminate E].
  assert (exists back, h_backend h = Some back) as [back Hb]
    by (vm_compute in E; injection E as <-; eexists; reflexivity).
  exists h, back. split; [reflexivity|]. split; [exact Hb|].
  refine (proj1 (server_serves_tls_only (L := toy) (X := toy_x509) Unix toy_build toy_world
    (no_status toy_flags) (toy_state "server") (toy_main ServerCommand).2
    (toy_running ServerCommand) server_day _ h back _ _ (toy_started _) _ (runs_session _ _ _) _ Hb)).
  - intros i [= <-]. simpl. lia.
  - constructor.
  - repeat (constructor; [done|]). constructor.
  - vm_compute. reflexivity.
  - by eapply list_elem_of_lookup_2.
Defined.
