(* ===== verification/EndToEnd.v ===== *)
(** * End to end: a client process and a server process

    The two modes of the program are made for each other: the backends of a process
    in client mode are the clients of a process in server mode. This file runs two
    processes of [Sessions] side by side, with their own files, flags, signals and
    threads, and a network between them: a backend connection of the client can be
    the same TLS connection as an accepted connection of the server. What one side
    writes on such a connection the network delivers to the other side, in order,
    in pieces and at any time, or never; a side that has shut its writing ends the
    stream of the other once everything is delivered (the close notification of
    TLS; a connection that breaks is an error of a read, not an end). *)
From Stdlib Require Import ZArith.
From stdpp Require Import base list strings gmap.
From S2P Require Import Prelude GoStrings GoNet Auth Wildcard Certloader Flags TlsConfig Dialer.
From S2P Require Import Fuse Proxy Status Signals Main System Lifecycle Sessions.

(** ** The network *)

(** The next [n] bytes on the way from [a] to [b]. *)
Definition next_bytes (n : nat) (a b : conn) : list Z :=
  take n (drop (length (arrived b)) (outbox a)).

Definition all_delivered (a b : conn) : bool := length (arrived b) =? length (outbox a).

(** What the network may do to [b], the other end of [a]. *)
Definition delivery (a b : conn) (i : list Z * bool) : Prop :=
  i = ([], false) \/ (exists n, i = (next_bytes n a b, false)) \/
  (i = ([], true) /\ wr_open a = false /\ all_delivered a b = true).

(** The state of a connection in one direction: [b] has a prefix of what [a] has
    written, and all of it, for good, once the stream has ended. *)
Definition wire (a b : conn) : Prop :=
  arrived b `prefix_of` outbox a /\
  (peer_done b = true -> wr_open a = false /\ arrived b = outbox a).

Lemma wire_grows a a' b : grows a a' -> wire a b -> wire a' b.
Proof.
  intros (w & Eo & Hw) [H1 H2]. split.
  - rewrite Eo. by apply prefix_app_r.
  - intros Hd. destruct (H2 Hd) as [H3 H4]. destruct (Hw H3) as [-> ?]. by rewrite Eo, app_nil_r.
Qed.

Lemma wire_delivers a b b' i : wire a b -> delivery a b i -> receives i b b' -> wire a b'.
Proof.
  intros [[k Hk] H2] Hi [Ha Hp]. unfold wire. rewrite Ha, Hp.
  assert (Hd : drop (length (arrived b)) (outbox a) = k) by (by rewrite Hk, drop_app_length).
  destruct Hi as [->|[[n ->]|(-> & Hw & Hall)]]; simpl; rewrite ?app_nil_r, ?orb_false_r.
  - split; [by exists k|done].
  - unfold next_bytes. rewrite Hd. split.
    + rewrite Hk. apply prefix_app, prefix_take.
    + intros Hpd. destruct (H2 Hpd) as [Hw Hall]. split; [done|].
      rewrite Hall in Hk. assert (k = []) as -> by (apply (app_inv_head (outbox a)); by rewrite app_nil_r).
      by rewrite take_nil, app_nil_r.
  - split; [by exists k|]. intros _. split; [done|]. unfold all_delivered in Hall. apply Nat.eqb_eq in Hall.
    assert (k = []) as -> by (apply length_zero_iff_nil; rewrite Hk, length_app in Hall; lia).
    by rewrite Hk, app_nil_r.
Qed.

Lemma wire_new k a : wire a (new_conn k []).
Proof. split; [apply prefix_nil|done]. Qed.

Section EndToEnd.
Context `{L : CertLibs} `{X : X509Libs} `{PP : ProxyProto}.

(** ** Two processes *)

(** [p_links]: which backend connections of the client are which connections of the
    server, by the indices of their handlers. *)
Record pair : Type := Pair {
  p_client : sessions;
  p_server : sessions;
  p_links : list (nat * nat)
}.

Definition pair_start (wc ws : wiring) (st sv : state) : pair :=
  Pair (sessions_start wc st) (sessions_start ws sv) [].

(** The connection whose peer acts in a step: a backend of the client, a client of
    the server. *)
Definition backend_acts (c : choice) : option nat :=
  match c with
  | Free (ProxySteps (Handles i (PipeSteps (BackendSends _ | BackendEnds)))) => Some i
  | _ => None
  end.

Definition client_acts (c : choice) : option nat :=
  match c with
  | Free (ProxySteps (Handles j (PipeSteps (ClientSends _ | ClientEnds)))) => Some j
  | _ => None
  end.

Definition is_linked (l : list nat) (o : option nat) : bool :=
  match o with Some i => bool_decide (i ∈ l) | None => false end.

Inductive pair_choice : Type :=
  | ClientMoves (c : choice)
  | ServerMoves (c : choice)
  | Connects (i j : nat)
  | DeliversUp (i j n : nat)
  | DeliversDown (i j n : nat)
  | EndsUp (i j : nat)
  | EndsDown (i j : nat).

Definition client_step (wc : wiring) (c : choice) (t : pair) : option pair :=
  x ← step wc c (p_client t); Some (Pair x (p_server t) (p_links t)).

Definition server_step (ws : wiring) (c : choice) (t : pair) : option pair :=
  y ← step ws c (p_server t); Some (Pair (p_client t) y (p_links t)).

Definition at_peer_of (i : nat) (c : pipe_choice) : choice := Free (ProxySteps (Handles i (PipeSteps c))).

Definition conn_of (x : sessions) (i : nat) : option handler := conns (s_proxy (x_sys x)) !! i.

(** The two ends of a link: the client's backend and the server's connection. *)
Definition ends_of (t : pair) (i j : nat) : option (conn * conn) :=
  if bool_decide ((i, j) ∈ p_links t) then
    h ← conn_of (p_client t) i;
    back ← h_backend h;
    g ← conn_of (p_server t) j;
    Some (back, h_conn g)
  else None.

(** On a link only the network acts as a peer; a link is made while the client is
    dialing and the server has just accepted. *)
Definition pair_step (wc ws : wiring) (c : pair_choice) (t : pair) : option pair :=
  match c with
  | ClientMoves c => if is_linked (map fst (p_links t)) (backend_acts c) then None else client_step wc c t
  | ServerMoves c => if is_linked (map snd (p_links t)) (client_acts c) then None else server_step ws c t
  | Connects i j =>
    h ← conn_of (p_client t) i;
    g ← conn_of (p_server t) j;
    if bool_decide (h_pc h = AtDial) && bool_decide (h_pc g = AtHandshake)
       && bool_decide (i ∉ map fst (p_links t)) && bool_decide (j ∉ map snd (p_links t))
    then Some (Pair (p_client t) (p_server t) ((i, j) :: p_links t)) else None
  | DeliversUp i j n =>
    e ← ends_of t i j;
    server_step ws (at_peer_of j (ClientSends (next_bytes n e.1 e.2))) t
  | DeliversDown i j n =>
    e ← ends_of t i j;
    client_step wc (at_peer_of i (BackendSends (next_bytes n e.2 e.1))) t
  | EndsUp i j =>
    e ← ends_of t i j;
    if negb (wr_open e.1) && all_delivered e.1 e.2 then server_step ws (at_peer_of j ClientEnds) t else None
  | EndsDown i j =>
    e ← ends_of t i j;
    if negb (wr_open e.2) && all_delivered e.2 e.1 then client_step wc (at_peer_of i BackendEnds) t else None
  end.

(** ** One link *)

Definition link_ok (x y : sessions) (i j : nat) : Prop := exists h g,
  conn_of x i = Some h /\ conn_of y j = Some g /\
  match h_backend h with
  | None => arrived (h_conn g) = [] /\ peer_done (h_conn g) = false
  | Some back => wire back (h_conn g) /\ wire (h_conn g) back
  end.

(** What may happen to the server's end of a link, and to the client's. *)
Definition up_allowed (x y : sessions) (i j : nat) (inp : list Z * bool) : Prop :=
  inp = ([], false) \/ exists h g back, conn_of x i = Some h /\ conn_of y j = Some g /\
    h_backend h = Some back /\ delivery back (h_conn g) inp.

Definition down_allowed (x y : sessions) (i j : nat) (inp : list Z * bool) : Prop :=
  inp = ([], false) \/ exists h g back, conn_of x i = Some h /\ conn_of y j = Some g /\
    h_backend h = Some back /\ delivery (h_conn g) back inp.

Lemma link_server ws c x y y' i j :
  quiet_wiring ws -> sys_inv (wi_setup ws) (x_sys y) -> step ws c y = Some y' ->
  up_allowed x y i j (peer_input client_input j c) -> link_ok x y i j -> link_ok x y' i j.
Proof.
  intros Hq Hi Hs Hin (h & g & Hx & Hy & Hl).
  destruct (step_streams _ _ _ _ _ _ Hq Hi Hs Hy) as (g' & Hy' & G & R & _).
  exists h, g'. split; [done|]. split; [done|].
  destruct (h_backend h) as [back|] eqn:Eb.
  - destruct Hl as [H1 H2]. split; [|by eapply wire_grows].
    destruct R as [->|R]; [done|]. eapply wire_delivers; [exact H1| |exact R].
    destruct Hin as [->|(h0 & g0 & b0 & E1 & E2 & E3 & Hd)]; [by left|]. congruence.
  - destruct R as [->|[Ra Rp]]; [done|].
    destruct Hin as [E|(h0 & g0 & b0 & E1 & E2 & E3 & Hd)]; [|congruence].
    rewrite E in Ra, Rp. destruct Hl as [H1 H2]. by rewrite Ra, Rp, H1, H2.
Qed.

Lemma link_client wc c x x' y i j :
  quiet_wiring wc -> sys_inv (wi_setup wc) (x_sys x) -> step wc c x = Some x' ->
  down_allowed x y i j (peer_input backend_input i c) -> link_ok x y i j -> link_ok x' y i j.
Proof.
  intros Hq Hi Hs Hin (h & g & Hx & Hy & Hl).
  destruct (step_streams _ _ _ _ _ _ Hq Hi Hs Hx) as (h' & Hx' & _ & _ & B).
  exists h', g. split; [done|]. split; [done|].
  destruct (h_backend h) as [back|] eqn:Eb, (h_backend h') as [back'|] eqn:Eb'; try done.
  - destruct Hl as [H1 H2], B as [G R]. split; [by eapply wire_grows|].
    destruct R as [->|R]; [congruence|]. eapply wire_delivers; [exact H2| |exact R].
    destruct Hin as [->|(h0 & g0 & b0 & E1 & E2 & E3 & Hd)]; [by left|]. congruence.
  - destruct B as [k ->], Hl as [H1 H2]. split; [|apply wire_new].
    split; [rewrite H1; apply prefix_nil|]. by rewrite H2.
Qed.

(** ** All links *)

Record pair_inv (wc ws : wiring) (t : pair) : Prop := {
  pair_client : sys_inv (wi_setup wc) (x_sys (p_client t));
  pair_server : sys_inv (wi_setup ws) (x_sys (p_server t));
  pair_fst : NoDup (map fst (p_links t));
  pair_snd : NoDup (map snd (p_links t));
  pair_links : forall i j, (i, j) ∈ p_links t -> link_ok (p_client t) (p_server t) i j
}.

Lemma NoDup_fmap_inj {A B} (f : A -> B) (l : list A) x y :
  NoDup (f <$> l) -> x ∈ l -> y ∈ l -> f x = f y -> x = y.
Proof.
  intros Hn [a Ha]%list_elem_of_lookup_1 [b Hb]%list_elem_of_lookup_1 E.
  assert (a = b) as ->; [|congruence].
  eapply (NoDup_lookup (f <$> l)); [done|rewrite list_lookup_fmap, Ha; reflexivity|].
  rewrite list_lookup_fmap, Hb. simpl. by rewrite E.
Qed.

(** A step of a process that leaves the peers of its links alone. *)
Lemma quiet_input f acts c links i :
  (forall k, peer_input f k c = ([], false) \/ acts c = Some k) ->
  is_linked links (acts c) = false -> i ∈ links -> peer_input f i c = ([], false).
Proof.
  intros Hp Hl Hi. destruct (Hp i) as [|E]; [done|]. rewrite E in Hl. simpl in Hl.
  by rewrite bool_decide_eq_true_2 in Hl.
Qed.

Lemma backend_acts_input c k : peer_input backend_input k c = ([], false) \/ backend_acts c = Some k.
Proof.
  destruct c as [[]| | | |]; auto. destruct c; auto. destruct c; simpl; auto; try (case_match; by left).
  destruct (Nat.eqb_spec k i) as [->|]; [|by left]. destruct c; auto.
Qed.

Lemma client_acts_input c k : peer_input client_input k c = ([], false) \/ client_acts c = Some k.
Proof.
  destruct c as [[]| | | |]; auto. destruct c; auto. destruct c; simpl; auto; try (case_match; by left).
  destruct (Nat.eqb_spec k i) as [->|]; [|by left]. destruct c; auto.
Qed.

(** A step of one process that is allowed on all links. *)
Lemma server_step_inv wc ws c t t' : quiet_wiring ws -> pair_inv wc ws t ->
  (forall i j, (i, j) ∈ p_links t -> up_allowed (p_client t) (p_server t) i j (peer_input client_input j c)) ->
  server_step ws c t = Some t' -> pair_inv wc ws t'.
Proof.
  intros Hq [I1 I2 I3 I4 I5] Ha Hs. unfold server_step in Hs.
  destruct (step ws c (p_server t)) as [y|] eqn:E; [|done]. injection Hs as <-.
  split; simpl; try done; [by eapply session_sys_inv|].
  intros i j Hl. eapply link_server; [exact Hq|exact I2|exact E|by apply Ha|by apply I5].
Qed.

Lemma client_step_inv wc ws c t t' : quiet_wiring wc -> pair_inv wc ws t ->
  (forall i j, (i, j) ∈ p_links t -> down_allowed (p_client t) (p_server t) i j (peer_input backend_input i c)) ->
  client_step wc c t = Some t' -> pair_inv wc ws t'.
Proof.
  intros Hq [I1 I2 I3 I4 I5] Ha Hs. unfold client_step in Hs.
  destruct (step wc c (p_client t)) as [x|] eqn:E; [|done]. injection Hs as <-.
  split; simpl; try done; [by eapply session_sys_inv|].
  intros i j Hl. eapply link_client; [exact Hq|exact I1|exact E|by apply Ha|by apply I5].
Qed.

Lemma ends_of_Some t i j back c : ends_of t i j = Some (back, c) ->
  (i, j) ∈ p_links t /\ exists h g, conn_of (p_client t) i = Some h /\
  conn_of (p_server t) j = Some g /\ h_backend h = Some back /\ c = h_conn g.
Proof.
  unfold ends_of. case_bool_decide as Hl; [|done]. destruct (conn_of (p_client t) i) as [h|]; [|done].
  simpl. destruct (h_backend h) as [b|] eqn:Eb; [|done]. simpl.
  destruct (conn_of (p_server t) j) as [g|]; [|done]. simpl. intros [= -> <-]. split; [done|].
  by exists h, g.
Qed.

(** What the network does on one link it is allowed to do on all. *)
Lemma delivers_up wc ws t i j back c pc : pair_inv wc ws t -> ends_of t i j = Some (back, c) ->
  delivery back c (client_input pc) ->
  forall i' j', (i', j') ∈ p_links t ->
    up_allowed (p_client t) (p_server t) i' j' (peer_input client_input j' (at_peer_of j pc)).
Proof.
  intros Hi He Hd i' j' Hl'. apply ends_of_Some in He as (Hl & h & g & E1 & E2 & E3 & ->).
  simpl. destruct (Nat.eqb_spec j' j) as [->|]; [|by left]. right.
  pose proof (NoDup_fmap_inj snd _ _ _ (pair_snd _ _ _ Hi) Hl Hl' eq_refl) as [= <-].
  by exists h, g, back.
Qed.

Lemma delivers_down wc ws t i j back c pc : pair_inv wc ws t -> ends_of t i j = Some (back, c) ->
  delivery c back (backend_input pc) ->
  forall i' j', (i', j') ∈ p_links t ->
    down_allowed (p_client t) (p_server t) i' j' (peer_input backend_input i' (at_peer_of i pc)).
Proof.
  intros Hi He Hd i' j' Hl'. apply ends_of_Some in He as (Hl & h & g & E1 & E2 & E3 & ->).
  simpl. destruct (Nat.eqb_spec i' i) as [->|]; [|by left]. right.
  pose proof (NoDup_fmap_inj fst _ _ _ (pair_fst _ _ _ Hi) Hl Hl' eq_refl) as [= <-].
  by exists h, g, back.
Qed.

Lemma handler_of u s i h : sys_inv u s -> conns (s_proxy s) !! i = Some h ->
  handler_inv (proxyProtocol (s_proxy s)) h.
Proof.
  intros [I1 _ _ _ _ _ _ _ _] Hi. apply proxy_inv_steps in I1 as [_ _ _ _ _ _ I7 _].
  exact (Forall_lookup_1 _ _ _ _ I7 Hi).
Qed.

Lemma connects_ok u u' x y i j h g :
  sys_inv u (x_sys x) -> sys_inv u' (x_sys y) -> conn_of x i = Some h -> conn_of y j = Some g ->
  h_pc h = AtDial -> h_pc g = AtHandshake -> link_ok x y i j.
Proof.
  intros Hx Hy Eh Eg Ph Pg. exists h, g. split; [done|]. split; [done|].
  pose proof (handler_of _ _ _ _ Hx Eh) as Hh. pose proof (handler_of _ _ _ _ Hy Eg) as Hg.
  unfold handler_inv in Hh, Hg. rewrite Ph in Hh. rewrite Pg in Hg.
  destruct Hh as [_ ->], Hg as [(Hc & _) _]. by rewrite Hc.
Qed.

Lemma pair_inv_step wc ws c t t' : quiet_wiring wc -> quiet_wiring ws ->
  pair_inv wc ws t -> pair_step wc ws c t = Some t' -> pair_inv wc ws t'.
Proof.
  intros Hqc Hqs Hi Hs. destruct c as [c|c|i j|i j n|i j n|i j|i j]; simpl in Hs.
  - destruct (is_linked _ _) eqn:El; [done|]. eapply client_step_inv; [done..| |exact Hs].
    intros i j Hl. left. eapply quiet_input; [apply backend_acts_input|exact El|].
    by apply (list_elem_of_fmap_2 fst _ (i, j)).
  - destruct (is_linked _ _) eqn:El; [done|]. eapply server_step_inv; [done..| |exact Hs].
    intros i j Hl. left. eapply quiet_input; [apply client_acts_input|exact El|].
    by apply (list_elem_of_fmap_2 snd _ (i, j)).
  - destruct (conn_of (p_client t) i) as [h|] eqn:Eh; [|done]. simpl in Hs.
    destruct (conn_of (p_server t) j) as [g|] eqn:Eg; [|done]. simpl in Hs.
    case_match eqn:Ec; [|done]. injection Hs as <-. bool_prop. destruct Hi as [I1 I2 I3 I4 I5].
    split; simpl; try done; [by apply NoDup_cons|by apply NoDup_cons|].
    intros i' j' [[= -> ->]|Hl]%elem_of_cons; [by eapply connects_ok|auto].
  - destruct (ends_of t i j) as [[back c]|] eqn:Ee; [|done]. simpl in Hs.
    eapply server_step_inv; [done..| |exact Hs]. eapply delivers_up; [done..|]. right. left. by exists n.
  - destruct (ends_of t i j) as [[back c]|] eqn:Ee; [|done]. simpl in Hs.
    eapply client_step_inv; [done..| |exact Hs]. eapply delivers_down; [done..|]. right. left. by exists n.
  - destruct (ends_of t i j) as [[back c]|] eqn:Ee; [|done]. simpl in Hs. case_match eqn:Ec; [|done]. bool_prop.
    eapply server_step_inv; [done..| |exact Hs]. eapply delivers_up; [done..|]. by right; right.
  - destruct (ends_of t i j) as [[back c]|] eqn:Ee; [|done]. simpl in Hs. case_match eqn:Ec; [|done]. bool_prop.
    eapply client_step_inv; [done..| |exact Hs]. eapply delivers_down; [done..|]. by right; right.
Qed.

Lemma pair_inv_run wc ws st sv cs t : quiet_wiring wc -> quiet_wiring ws ->
  run (pair_step wc ws) cs (pair_start wc ws st sv) = Some t -> pair_inv wc ws t.
Proof.
  intros Hqc Hqs Hr.
  apply (run_invariant (pair_step wc ws) (fun _ => True) (pair_inv wc ws) cs)
    with (s := pair_start wc ws st sv); [|by apply Forall_true| |done].
  - intros c t1 t2 _. by apply pair_inv_step.
  - split; simpl; try apply sys_inv_start; try apply NoDup_nil_2. by intros i j []%elem_of_nil.
Qed.

(** What two handlers carry that are the ends of a link. *)
Lemma link_carries pp h g : carries false h -> carries pp g ->
  match h_backend h with
  | None => arrived (h_conn g) = [] /\ peer_done (h_conn g) = false
  | Some back => wire back (h_conn g) /\ wire (h_conn g) back
  end ->
  (h_backend g = None -> outbox (h_conn h) = []) /\
  forall service, h_backend g = Some service ->
    outbox service `prefix_of` header_of pp g ++ arrived (h_conn h) /\
    outbox (h_conn h) `prefix_of` arrived service /\
    (h_up h = CopierDone false -> h_up g = CopierDone false ->
       outbox service = header_of pp g ++ arrived (h_conn h)) /\
    (h_down h = CopierDone false -> h_down g = CopierDone false ->
       outbox (h_conn h) = arrived service).
Proof.
  unfold carries. intros Ch Cg Hl. destruct (h_backend h) as [back|].
  - destruct Ch as (A1 & A2 & A3 & A4), Hl as [[W1 W2] [W3 W4]]. simpl in A1, A3. split.
    + intros Eg. rewrite Eg in Cg. destruct Cg as [Cg _]. rewrite Cg in W3.
      apply prefix_nil_inv in W3. rewrite W3 in A2. by apply prefix_nil_inv in A2.
    + intros service Eg. rewrite Eg in Cg. destruct Cg as (B1 & B2 & B3 & B4).
      split; [etransitivity; [exact B1|]; apply prefix_app; by etransitivity|].
      split; [etransitivity; [exact A2|]; by etransitivity|]. split; intros Hh Hg.
      * destruct (A3 Hh) as [A _], (B3 Hg) as [-> Hd]. destruct (W2 Hd) as [_ ->]. by rewrite A.
      * destruct (A4 Hh) as [-> Hd], (B4 Hg) as [B _]. by destruct (W4 Hd) as [_ ->].
  - destruct Ch as (A1 & A2 & A3), Hl as [W1 W2]. split; [done|]. intros service Eg.
    rewrite Eg, W1 in Cg. destruct Cg as (B1 & B2 & B3 & B4). rewrite A1, A2, A3. split.
    + etransitivity; [exact B1|]. apply prefix_app, prefix_nil.
    + split; [apply prefix_nil|]. done.
Qed.

(** Each of the two processes does what a process alone does. *)
Lemma pair_projects wc ws cs : forall t0 t, run (pair_step wc ws) cs t0 = Some t ->
  steps (step wc) (p_client t0) (p_client t) /\ steps (step ws) (p_server t0) (p_server t).
Proof.
  induction cs as [|c cs IH]; intros t0 t Hr; simpl in Hr; [injection Hr as ->; by split; constructor|].
  destruct (pair_step wc ws c t0) as [t1|] eqn:E; [|done]. destruct (IH t1 t Hr) as [H1 H2].
  assert (Hc : forall c, client_step wc c t0 = Some t1 ->
    steps (step wc) (p_client t0) (p_client t) /\ steps (step ws) (p_server t0) (p_server t)).
  { intros k Ek. unfold client_step in Ek. destruct (step wc k (p_client t0)) as [x|] eqn:Ex; [|done].
    injection Ek as <-. simpl in *. split; [|done]. eapply rtc_l; [by exists k|done]. }
  assert (Hsv : forall c, server_step ws c t0 = Some t1 ->
    steps (step wc) (p_client t0) (p_client t) /\ steps (step ws) (p_server t0) (p_server t)).
  { intros k Ek. unfold server_step in Ek. destruct (step ws k (p_server t0)) as [y|] eqn:Ey; [|done].
    injection Ek as <-. simpl in *. split; [done|]. eapply rtc_l; [by exists k|done]. }
  destruct c as [c|c|i j|i j n|i j n|i j|i j]; simpl in E.
  - destruct (is_linked _ _); [done|eauto].
  - destruct (is_linked _ _); [done|eauto].
  - destruct (conn_of (p_client t0) i); [|done]. simpl in E. destruct (conn_of (p_server t0) j); [|done].
    simpl in E. case_match; [|done]. by injection E as <-.
  - destruct (ends_of t0 i j); [|done]. eauto.
  - destruct (ends_of t0 i j); [|done]. eauto.
  - destruct (ends_of t0 i j); [|done]. simpl in E. case_match; [eauto|done].
  - destruct (ends_of t0 i j); [|done]. simpl in E. case_match; [eauto|done].
Qed.

(** ** Claims *)

(** C3. Two processes make one tunnel. A process started in client mode and one
    started in server mode run side by side, each with its own interleaving of
    connections, signals, reloads and failures, with a network that delivers what
    is written on a connection between them in order, in pieces, at any time or
    never. Each of them does what it does alone. For every connection between
    them, the backend service behind the server has been sent the proxy header of
    the connection (if the server's flags ask for one) and then what the client's
    own local peer sent, cut off somewhere, and this local peer was sent only what
    that backend service sent: nothing is lost in the middle, duplicated, reordered
    or crossed with another connection by the two processes, and without a backend
    at the far end nothing comes back. If the copying of one direction ended
    without an error on both sides, all of it has been delivered. *)
Theorem two_processes_make_a_tunnel `{!X509LibsOk X}
    (pl pl' : platform) (b b' : build) (w w' : world) (f f' : Flags)
    (st st' sv sv' : state) (r r' : running) (cs : list pair_choice) (t : pair)
    (i j : nat) (h g : handler) :
  main_run pl b w f ClientCommand st = (Ret r, st') ->
  main_run pl' b' w' f' ServerCommand sv = (Ret r', sv') ->
  let wc := wiring_of pl f r in
  let ws := wiring_of pl' f' r' in
  run (pair_step wc ws) cs (pair_start wc ws st' sv') = Some t ->
  (i, j) ∈ p_links t -> conn_of (p_client t) i = Some h -> conn_of (p_server t) j = Some g ->
  steps (step wc) (sessions_start wc st') (p_client t) /\
  steps (step ws) (sessions_start ws sv') (p_server t) /\
  (h_backend g = None -> outbox (h_conn h) = []) /\
  forall service, h_backend g = Some service ->
    outbox service `prefix_of` header_of (serverProxyProtocol f') g ++ arrived (h_conn h) /\
    outbox (h_conn h) `prefix_of` arrived service /\
    (h_up h = CopierDone false -> h_up g = CopierDone false ->
       outbox service = header_of (serverProxyProtocol f') g ++ arrived (h_conn h)) /\
    (h_down h = CopierDone false -> h_down g = CopierDone false ->
       outbox (h_conn h) = arrived service).
Proof.
  intros Hm Hm' wc ws Hr Hl Eh Eg. destruct (pair_projects _ _ _ _ _ Hr) as [Hpc Hps].
  split; [done|]. split; [done|].
  destruct (pair_inv_run _ _ _ _ _ _ (started_quiet _ _ _ _ _ _ _ _ Hm)
    (started_quiet _ _ _ _ _ _ _ _ Hm') Hr) as [Ic Is _ _ Hlinks].
  destruct (Hlinks i j Hl) as (h0 & g0 & Eh0 & Eg0 & Hok).
  rewrite Eh in Eh0. injection Eh0 as <-. rewrite Eg in Eg0. injection Eg0 as <-.
  pose proof (handlers_carry _ _ _ (inv_proxy _ _ Ic) (list_elem_of_lookup_2 _ _ _ Eh)) as Ch.
  pose proof (handlers_carry _ _ _ (inv_proxy _ _ Is) (list_elem_of_lookup_2 _ _ _ Eg)) as Cg.
  apply client_started in Hm as (? & ? & ? & ? & ? & _ & _ & Pc & _).
  apply server_started in Hm' as (? & ? & _ & _ & _ & _ & Ps & _).
  simpl in Ch, Cg. rewrite Pc in Ch. rewrite Ps in Cg.
  assert (Cg' : carries (serverProxyProtocol f') g) by (by destruct (serverProxyProtocol f')).
  by apply (link_carries (serverProxyProtocol f') h g).
Qed.
End EndToEnd.

(** ** Witnesses *)

#[local] Existing Instance toy_header.

(** A local peer sends two bytes through both processes, the service answers with
    one, and the peer's end of stream goes through as well. *)
Definition handles (i : nat) (c : handler_choice) : @choice toy := Free (ProxySteps (Handles i c)).

Definition pipes (cs : list pipe_choice) : list (@choice toy) := map (fun c => handles 0 (PipeSteps c)) cs.

Definition tunnel_day : list (@pair_choice toy) :=
  map ClientMoves (arrives UnixConn ++ [Free (answer_handshake 0 None None None)])
  ++ map ServerMoves (arrives TLSConn) ++ [Connects 0 0]
  ++ map ServerMoves [ClientHandshakes 0 None None None []; handles 0 (DialAnswers (inl TCPConn));
       handles 0 HandlerSteps; handles 0 HandlerSteps]
  ++ map ClientMoves ([DialerSteps 0 (DialReturns None);
       BackendHandshakes 0 None [toy_certificate "server"]; DialerSteps 0 CallerReceives;
       DialerReturns 0; handles 0 HandlerSteps; handles 0 HandlerSteps]
       ++ pipes [ClientSends [7; 8]%Z; ClientEnds; Up (ReadSome 2); Up WriteAll; Up ReadEOF;
                 Up ClosesSrc; Up ClosesDst])
  ++ [DeliversUp 0 0 1; DeliversUp 0 0 1; EndsUp 0 0]
  ++ map ServerMoves (pipes [Up (ReadSome 2); Up WriteAll; BackendSends [9]%Z; Down (ReadSome 1); Down WriteAll;
                             Up ReadEOF; Up ClosesSrc; Up ClosesDst])
  ++ [DeliversDown 0 0 5]
  ++ map ClientMoves (pipes [Down (ReadSome 1); Down WriteAll]).

Definition tunnel_start : @pair toy :=
  pair_start (toy_wiring ClientCommand) (toy_wiring ServerCommand)
    (toy_main ClientCommand).2 (toy_main ServerCommand).2.

Definition tunnel_after (cs : list (@pair_choice toy)) : @pair toy :=
  default tunnel_start
    (run (pair_step (X := toy_x509) (toy_wiring ClientCommand) (toy_wiring ServerCommand)) cs tunnel_start).

Lemma runs_tunnel cs :
  match run (pair_step (X := toy_x509) (toy_wiring ClientCommand) (toy_wiring ServerCommand)) cs tunnel_start
  with Some _ => true | None => false end = true ->
  run (pair_step (X := toy_x509) (toy_wiring ClientCommand) (toy_wiring ServerCommand)) cs tunnel_start
  = Some (tunnel_after cs).
Proof. unfold tunnel_after. by destruct (run _ cs _). Qed.

Lemma two_processes_make_a_tunnel_witness :
  exists h g service, conn_of (p_client (tunnel_after tunnel_day)) 0 = Some h /\
  conn_of (p_server (tunnel_after tunnel_day)) 0 = Some g /\ h_backend g = Some service /\
  h_up h = CopierDone false /\ h_up g = CopierDone false /\ arrived (h_conn h) = [7; 8]%Z /\
  outbox (h_conn h) = [9]%Z /\ outbox service = arrived (h_conn h).
Proof.
  destruct (conn_of (p_client (tunnel_after tunnel_day)) 0) as [h|] eqn:Eh; [|vm_compute in Eh; discriminate Eh].
  destruct (conn_of (p_server (tunnel_after tunnel_day)) 0) as [g|] eqn:Eg; [|vm_compute in Eg; discriminate Eg].
  assert (exists service, h_backend g = Some service) as [service Hb]
    by (vm_compute in Eg; injection Eg as <-; eexists; reflexivity).
  assert (Hh : h_up h = CopierDone false /\ arrived (h_conn h) = [7; 8]%Z /\ outbox (h_conn h) = [9]%Z)
    by (vm_compute in Eh; injection Eh as <-; by repeat split).
  assert (Hg : h_up g = CopierDone false) by (vm_compute in Eg; injection Eg as <-; reflexivity).
  destruct Hh as (Hh & Ha & Ho). exists h, g, service. repeat (split; [done|]).
  destruct (two_processes_make_a_tunnel (L := toy) (X := toy_x509) Unix Unix toy_build toy_build
    toy_world toy_world (no_status toy_flags) (no_status toy_flags) (toy_state "server")
    (toy_main ClientCommand).2 (toy_state "server") (toy_main ServerCommand).2
    (toy_running ClientCommand) (toy_running ServerCommand) tunnel_day (tunnel_after tunnel_day) 0 0 h g)
    as (_ & _ & _ & H).
  - apply toy_started.
  - apply toy_started.
  - apply runs_tunnel. vm_compute. reflexivity.
  - assert (E : p_links (tunnel_after tunnel_day) = [(0, 0)]) by (vm_compute; reflexivity).
    rewrite E. by left.
  - exact Eh.
  - exact Eg.
  - destruct (H service Hb) as (_ & _ & E & _). exact (E Hh Hg).
Defined.
